(* ===== verification/_CoqProject ===== *)
-Q . S2P
Prelude.v
PyStr.v
PyBytes.v
PyFloat.v
Regex.v
Base64.v
AnnounceProjects.v
AnnounceText.v
AnnounceInventory.v
AnnounceBot.v
AnnounceBotFacts.v
AnnounceSpec.v
AnnounceProps.v
Json.v
Contract.v
ContractSpec.v
GateLedger.v
GateLedgerSpec.v
SelectGates.v
ParallelTests.v
ParallelSpec.v
ProfileStore.v
Evidence.v
Delivery.v
DeliverySpec.v
Scram.v
ScramSpec.v
Qemu.v
QemuSpec.v
Checkpoint.v
CheckpointSpec.v
Toolkit.v
ToolkitSpec.v
Bench.v
BenchSpec.v
Phases.v
PhasesSpec.v
PhasesLive.v
PhasesReport.v
Alpine.v
AlpineSpec.v
Der.v
DerSpec.v
KernelProbe.v
KernelProbeSpec.v
SmokeClients.v
SmokeClientsSpec.v
AlpineLogger.v
AlpineLoggerSpec.v
CloakAudit.v
CloakAuditSpec.v
Maintenance.v
MaintenanceSpec.v
ScmService.v
ScmServiceSpec.v
MeshChat.v
MeshChatSpec.v
OpenBsd.v
OpenBsdSpec.v
UpgradeRun.v
UpgradeRunSpec.v
