(* ===== verification/Prelude.v ===== *)
(** * Onyx Server operational tooling: a verification development

    Onyx Server is an IRC daemon.  The daemon is written in Zig; around it the
    repository keeps Python programs that decide whether a change may be
    released, that drive and measure the daemon, and that announce its
    progress on IRC.  This library models those programs and proves what they
    promise.  It is a shallow embedding: a Python function is a Rocq function,
    a method that mutates its object is a function from state to state, an
    exception is a value of a sum, option or error type.

    ** The program's parts and the files that model them

    Python itself.
    - [Prelude]: tactics, the [py] hint database, generic lemmas on lists,
      options, sums and integers.
    - [PyStr]: [str] as a list of code points ([pystr]) and [bytes] as a list
      of bytes ([pybytes]): strip, split, splitlines, partition, find, rfind,
      replace, join, lower, int, decimal rendering, UTF-8, order, sorting.
      [u] and [bs] are the literals.
    - [PyBytes]: what is particular to [bytes]: big-endian integers, slices,
      strict decoding.
    - [PyFloat]: correctly rounded quotients of doubles and their decimal
      rendering.
    - [Regex]: Python's backtracking matcher with its priorities and groups,
      proved sound and complete for a relational semantics.
    - [Base64], [Json]: base64, JSON values with Python's equality, and the
      writer of [json.dumps] with its injectivity.

    The announce bot, tools/announce_bot.py.
    - [AnnounceProjects]: configuration, palette, the project table, shell
      commands, name resolution.
    - [AnnounceText]: splitting, compacting, commit classification, durations,
      the guard of protected topics.
    - [AnnounceInventory]: [collect_inventory], and [InventoryCache] as a
      labelled transition system whose labels are the locked sections of the
      requesters and the steps of the worker thread: taking a request, timing
      out into the periodic refresh, measuring, storing.  A request for a
      project the cache does not have kills the worker.
    - [AnnounceBot]: the [Bot] object as a record and every method as a
      computation of a state and exception monad, up to the connection loop
      and the reconnection loop.  [World] answers for git, the clock and the
      socket.  [AnnounceBotFacts] has the program logic: the class [StepRel]
      of relations between states, and the tactic [bot_auto] that carries one
      through the methods.
    - [AnnounceSpec], [AnnounceProps]: the theorems.

    Release gates.
    - [Contract], [ContractSpec]: tools/check-client-contract.py; the
      validator of the client contract against a flat table of paths.
    - [GateLedger], [GateLedgerSpec]: tools/gate_ledger.py; snapshots, counts
      read from a log, the evidence record and the decision to reuse it.
    - [SelectGates]: select-gates.py; the gates a change needs.
    - [ParallelTests], [ParallelSpec]: tools/parallel_tests.py; the balanced
      schedule, exact cover of the inventory, verdicts, timing profiles.
      [ProfileStore]: the replacement of a saved profile as the file systems
      it goes through.
    - [Evidence]: the composition of the two: what the runner prints is what
      the ledger reads.
    - [Checkpoint], [CheckpointSpec]: tools/roadmap_checkpoint_audit.py; the
      secret scanner and the audit of jobs, ledger and full-suite claim.
    - [Toolkit], [ToolkitSpec]: validate_toolkit.py; agents and skills.

    Drivers and fixtures.
    - [Delivery], [DeliverySpec]: the line framer, the delivery ledger and the
      persistent client of tools/bench_live.py.
    - [Phases], [PhasesSpec], [PhasesLive], [PhasesReport]: the driver of the
      retained phases; its coroutines as turns between suspension points on one
      shared state, which meet at the ledger's event, under any schedule of the
      event loop; barriers, metrics, records, diagnostic, matrix.
    - [Bench], [BenchSpec]: the rest of tools/bench_live.py and
      tools/bench_sqpoll.py: configurations, report, matrices, processor
      accounting, measurement checks, schedule.
    - [Scram], [ScramSpec]: tools/scram_fixture.py, and (in [ScramSpec]) the
      server of RFC 5802 it is proved against, which checks the channel binding,
      the nonce it issued and the proof.
    - [Alpine], [AlpineSpec]: tools/alpine_package/driver.py; validation of the
      inputs, the serial console as a loop over received chunks, frame
      capture, the correspondence of diagnostics and logs, cleanup, recovery
      of the artifacts, call by call with the errors of each, and the exit
      status.
    - [AlpineLogger], [AlpineLoggerSpec]: tools/alpine_logger/driver.py; the
      pins, the console loop, verdicts and diagnostics, cleanup, exit status.
    - [Qemu], [QemuSpec]: qemu-verify/memscan.py, mkcpio.py, ppm2png.py,
      hmp.py.

    Oracles and clients of the smoke tests, the parts with logic of their own.
    - [SmokeClients], [SmokeClientsSpec]: the line client and the WebSocket
      client of tools/windows_full_daemon_smoke.py, the barrier of
      tools/runtime_smoke.py and the frame decoder of tools/upgrade_smoke.py,
      as actions of a state and exception monad over a [Client]; the network
      is the list of chunks the reads return and a count of looks at the clock.
    - [Der], [DerSpec]: the DER codec and the OCSP fixture of
      tools/windows_ocsp_live_smoke.py.
    - [KernelProbe], [KernelProbeSpec]: the reader of system-call traces of
      tools/kernel_probe_startup_smoke.py, and the contract on event sequences
      its dictionaries implement.
    - [CloakAudit], [CloakAuditSpec]: the checkpoint decoder, the comparison of
      the candidate and the judgement of a run of tools/cloak_audit_smoke.py.
    - [Maintenance], [MaintenanceSpec]: process groups, clean-up and socket
      tables of tools/setup_maintenance_smoke.py.
    - [ScmService], [ScmServiceSpec]: tools/windows_scm_service_smoke.py; the
      calls of the service manager and of the process functions as events, in
      a state and exception monad over a system that answers as a function of
      the calls made so far.
    - [MeshChat], [MeshChatSpec]: tools/mesh_chat_smoke.py; endpoints, the
      client and its handlers, the exchange between two nodes.
    - [UpgradeRun], [UpgradeRunSpec]: the private run of
      tools/upgrade_smoke.py; directory, port reservations, gated launch and
      clean-up.  A statement may end in an exception whether or not its call
      took effect, which covers an interrupt between a call and the assignment
      of its result; pauses stand for the interrupts that no call can stand for.
    - [OpenBsd], [OpenBsdSpec]: tools/openbsd_session_smoke.py; the delivery
      oracle, and the aliases and packet-filter rules on the guest, with triples
      over the commands run.  An exception is of a class the clean-up handles, or
      escapes it.

    ** What the theorems show

    Claims carry their number in the comment above them.
    - Exactly once: every message of a benchmark phase reaches every other
      client once and in order, in every reachable state of the ledger; the
      framer does not depend on how the stream is cut; an honest delivery is
      accepted ([DeliverySpec]).
    - The driver of the phases: no sender runs ahead of its window and the drain
      passes only when everything was delivered, and with a daemon that relays
      every schedule of the turns drains the phase: no wake-up is lost
      ([PhasesSpec], [PhasesLive]); a record and the status of the matrix say
      what happened ([PhasesReport]).
    - Custody of what is not the program's own: the service test starts, stops,
      terminates and deletes only the service it created and a process it has
      just verified; the session fixture touches only the aliases it added and
      the rules it saved, attempts to undo everything unless an exception it does
      not handle ends the clean-up, and succeeds only if the network is as it
      was; the upgrade test starts its daemon only on free ports, closes no port
      twice and no end of its gate after a close of it returned, signals no
      process it has seen gone and gives back what it acquired, with the
      exceptions that raising calls and interrupts make; a saved profile is
      replaced atomically ([ScmServiceSpec], [OpenBsdSpec], [UpgradeRunSpec],
      [ProfileStore]).
    - Acceptance over IRC: exit status 0 of the mesh test means that both
      messages crossed the mesh, each after it was sent; an event the session
      fixture accepts reached every recipient exactly once under one identity.
    - Confinement and discipline of the bot: an ordinary user can only make it
      talk to the channel or to that user; registration, pacing and the single
      CAP END hold over every sequence of connections; negotiation ends by its
      deadline; queued lines are delivered; without an administrator the bot
      writes its own commands only; the worker of the inventory cache stays alive
      and serves every request within a bounded number of its steps, and the
      cache never duplicates one, under every interleaving.
    - Evidence: a run that exits with 0 executed every discovered test exactly
      once; its summary reads back as the same counts; a record is reused
      exactly when the gate passed on stable inputs that are still the same;
      snapshots bind content; records are never overwritten.
    - The Alpine tests: exit status 0 of the package driver means complete and
      consistent evidence, and its output directory is all or nothing unless a
      created file could not be identified or removed; exit
      status 0 of the logger driver means that delivery was shown on pinned
      inputs, and its result has a fixed vocabulary whatever the guest prints.
    - Validators: each accepts exactly what its specification describes
      (contract, roadmap audit, toolkit); the secret scanner reports exactly the
      lines with a private key and copies no secret; a change of a Zig source
      under src/ always selects a test gate.
    - Round trips and equivalences: archives, images, profiles, chunked search
      against the plain one, mutual authentication with a conforming server.
    - Clients of the smoke tests: what they read does not depend on how the
      network cuts the stream, the first marked line is found and every ping
      before it answered, their frames decode by RFC 6455, a barrier vouches for
      every line before it, and every loop ends with the time
      ([SmokeClientsSpec]).
    - Oracles: the trace checker accepts exactly the clean sequences of events,
      as attributed to the threads that made them; the checkpoint decoder accepts exactly the well-formed checkpoints, and a
      verified candidate differs in the masks of the verified rows only; the
      parser of DER elements ends and partitions its input, and the OCSP request
      identifies its certificate; no signal follows the reaping of a leader.
    - Measurements: an accepted one is accounted for; the schedule covers the
      plan; a hand-measured section of the report survives every rerun.
    Findings, where the code or a comment disagrees with what was proved, are
    stated as theorems too: [published_contract_rejected],
    [sqpoll_mode_order], [kick_prefix_rejoins], [topic_guard_prefix],
    [ping_source_confusion], [msg_uncapped], [contract_numbers_by_value],
    [adjacent_receipts], [adjacent_diagnostics], [other_thread_submits],
    [stray_listener], [tags_not_stripped], [gate_closed_twice],
    [escape_leaves_aliases], [fstat_leaves_target].

    ** Parameters

    Digests (SHA-256, HMAC, PBKDF2) and zlib are arguments; the hypotheses on
    them are that an HMAC has its documented length, that decompression
    inverts compression, that SHA-256 does not collide on the texts two
    snapshots hash, that a SHA-1 digest has twenty bytes and that
    [os.urandom(4)] has four.  The kernel is assumed to find no child to wait for
    once it was reaped ([MaintenanceSpec]); the path functions of Windows
    ([abspath], [normcase], [samefile]) are arguments of [ScmService].  [json.loads], the Unicode class of word characters, the
    answers of the service manager and of the guest, file contents, process results, received data and clock readings are arguments
    too, and arbitrary in the theorems.  Where a file may change between two
    reads ([Checkpoint]) the reader is indexed by the point of the program.

    ** Fuel

    Fuel is used where the recursion is not structural, and it is always
    computed from the input: the matcher stops when an iteration consumes
    nothing, so the length of the text is enough ([Regex]; completeness is
    proved); a chunked search has at most one step per byte ([Qemu]); decimal
    digits are bounded by the binary length of the number ([PyStr]); capping a
    text removes a character per step ([AnnounceText]).  The connection loop
    runs over the list of inputs it receives.  The loop over DER elements takes
    two bytes a turn ([children_terminates]); the decoder of WebSocket frames
    two bytes a frame ([drain_fuel]); a loop of the smoke-test clients looks at
    the clock in every turn, so that the looks that find time left bound it
    ([client_loops_end]).  The polls of the service test sleep a quarter of a
    second, so four per second of the timeout are enough, and [stop] can call
    itself as often as the recursion limit allows, an argument; the waits of the
    mesh test run over the list of passes of the loop.

    ** Not modelled

    - The daemon (Zig), and what the smoke tests do with it over sockets,
      services and virtual machines: launching it, fixed dialogues and file
      handling around the parts that are modelled.
    - Process supervision inside the test runner; starting the daemon, sockets
      and the review of the private bundle in the benchmarks; the sleeps of the
      idle and burst phases; the quotients in the record of a phase and the
      medians of the SQPOLL report, which are floats.
    - The dialogues of the IRC clients in the service test, in the upgrade test
      and in the session fixture, and the upgrades and restarts of the latter: each is one step
      that may raise.
    - The documentation link checker, which rests on the entity table and URL
      parser of the Python library; the signals the package driver sends to its
      guest; review fixtures.
    - Logging, and the texts of exceptions raised by the Python library. *)

From stdpp Require Export base list gmap sorting strings.
From Stdlib Require Export ZArith Lia.

#[global] Open Scope Z_scope.

(** Python [str] values are sequences of code points and Python [bytes]
    values sequences of integers in [0,256): both are lists of [Z]. *)
Abbreviation pystr := (list Z) (only parsing).
Abbreviation pybytes := (list Z) (only parsing).

Declare Scope py_scope.
Delimit Scope py_scope with py.

(** ** Automation *)

Create HintDb py.
Create Rewrite HintDb py.

(** Split the boolean conditions found in hypotheses into propositions. *)
Ltac bool_hyps :=
  repeat match goal with
  | H : _ && _ = true |- _ => apply andb_prop in H; destruct H
  | H : _ || _ = false |- _ => apply orb_false_elim in H; destruct H
  | H : negb _ = true |- _ => apply negb_true_iff in H
  | H : negb _ = false |- _ => apply negb_false_iff in H
  | H : (_ <=? _) = true |- _ => apply Z.leb_le in H
  | H : (_ <=? _) = false |- _ => apply Z.leb_gt in H
  | H : (_ <? _) = true |- _ => apply Z.ltb_lt in H
  | H : (_ <? _) = false |- _ => apply Z.ltb_ge in H
  | H : (_ =? _) = true |- _ => apply Z.eqb_eq in H
  | H : (_ =? _) = false |- _ => apply Z.eqb_neq in H
  | H : bool_decide _ = true |- _ => apply bool_decide_eq_true in H
  | H : bool_decide _ = false |- _ => apply bool_decide_eq_false in H
  end.

(** Case analysis on the first [match] or [if] scrutinee of the goal. *)
Ltac split_case :=
  match goal with
  | |- context [match ?x with _ => _ end] =>
      lazymatch x with context [match _ with _ => _ end] => fail | _ => idtac end;
      let E := fresh "E" in destruct x eqn:E
  end.

Ltac split_cases := repeat (split_case; simpl; try done).

(** ** Lists *)

Section Lists.
Context {A : Type}.
Implicit Types (l : list A).

Lemma Forall_snoc (P : A → Prop) l x : Forall P l → P x → Forall P (l ++ [x]).
Proof. intros. apply Forall_app; auto. Qed.

Lemma Forall_take (P : A → Prop) n l : Forall P l → Forall P (take n l).
Proof. intros H. rewrite <-(take_drop n l) in H. by apply Forall_app in H as [? _]. Qed.

Lemma Forall_drop (P : A → Prop) n l : Forall P l → Forall P (drop n l).
Proof. intros H. rewrite <-(take_drop n l) in H. by apply Forall_app in H as [_ ?]. Qed.

Lemma existsb_elem (f : A → bool) l : existsb f l = true ↔ ∃ x, x ∈ l ∧ f x = true.
Proof.
  rewrite existsb_exists. split; intros (x & Hx & Hf); exists x;
    (split; [by apply list_elem_of_In | done]).
Qed.

Lemma forallb_elem (f : A → bool) l : forallb f l = true ↔ ∀ x, x ∈ l → f x = true.
Proof.
  rewrite forallb_forall. split; intros H x Hx; apply H; by apply list_elem_of_In.
Qed.

(** [l[-n:]] of Python for a non-negative [n]; [l[-0:]] is all of [l]. *)
Definition last_n (n : nat) l : list A :=
  match n with O => l | _ => drop (length l - n) l end.

Lemma last_n_length n l : (0 < n)%nat → length (last_n n l) = (n `min` length l)%nat.
Proof. intros. destruct n; [lia|]. unfold last_n. rewrite length_drop. lia. Qed.

Lemma last_n_suffix n l : ∃ k, last_n n l = drop k l.
Proof. destruct n; [by exists O | by eexists]. Qed.

End Lists.

#[export] Hint Resolve Forall_snoc Forall_take Forall_drop : py.

(** ** Options *)

Definition is_someb {A} (o : option A) : bool :=
  match o with Some _ => true | None => false end.

Definition from_opt {A} (d : A) (o : option A) : A :=
  match o with Some x => x | None => d end.

Lemma is_someb_true {A} (o : option A) : is_someb o = true ↔ is_Some o.
Proof. destruct o; split; intros H; try done; by destruct H. Qed.

(** ** Integers *)

Lemma Z_of_nat_le_length {A} (l : list A) n :
  Z.of_nat (length l) ≤ n → (length l ≤ Z.to_nat n)%nat.
Proof. lia. Qed.

Lemma lxor_range n a b : 0 ≤ n → 0 ≤ a < 2 ^ n → 0 ≤ b < 2 ^ n → 0 ≤ Z.lxor a b < 2 ^ n.
Proof.
  intros Hn Ha Hb. assert (Hx : 0 ≤ Z.lxor a b) by (apply Z.lxor_nonneg; lia). split; [done|].
  destruct (decide (Z.lxor a b = 0)) as [->|Hne]; [lia|]. apply Z.log2_lt_pow2; [lia|].
  destruct (decide (n = 0)) as [->|]; [exfalso; apply Hne; by replace a with 0 by lia; replace b with 0 by lia|].
  pose proof (Z.log2_lxor a b (proj1 Ha) (proj1 Hb)).
  assert (∀ z, 0 ≤ z < 2 ^ n → Z.log2 z < n) as Hl.
  { intros z Hz. destruct (decide (z = 0)) as [->|]; [simpl; lia|]. apply Z.log2_lt_pow2; lia. }
  pose proof (Hl a Ha). pose proof (Hl b Hb). lia.
Qed.
