(* ===== verification/PyStr.v ===== *)
(** * Python text

    The part of Python's [str] and [bytes] that the tools use: character
    classes, [strip], [split], [splitlines], [partition], [find], [replace],
    [join], case mapping, [int], decimal rendering, UTF-8 and lexicographic
    order.  Everything is executable; the lemmas are the ones the component
    files share. *)

From S2P Require Import Prelude.

(** ** UTF-8 *)

(** [str.encode("utf-8", "replace")] of one code point: a lone surrogate is
    not encodable and becomes a question mark. *)
Definition is_surrogate (c : Z) : bool := (0xD800 <=? c) && (c <=? 0xDFFF).

Definition utf8_encode1 (c : Z) : pybytes :=
  if is_surrogate c then [63]
  else if c <? 0x80 then [c]
  else if c <? 0x800 then [0xC0 + c / 64; 0x80 + c mod 64]
  else if c <? 0x10000 then
    [0xE0 + c / 4096; 0x80 + (c / 64) mod 64; 0x80 + c mod 64]
  else
    [0xF0 + c / 262144; 0x80 + (c / 4096) mod 64; 0x80 + (c / 64) mod 64;
     0x80 + c mod 64].

Definition utf8_encode (s : pystr) : pybytes := s ≫= utf8_encode1.

Definition is_cont (b : Z) : bool := (0x80 <=? b) && (b <=? 0xBF).

(** [bytes.decode("utf-8", "replace")]: a maximal invalid prefix becomes one
    U+FFFD. *)
Fixpoint utf8_decode (l : pybytes) : pystr :=
  match l with
  | [] => []
  | b0 :: t0 =>
    if b0 <? 0x80 then b0 :: utf8_decode t0
    else if (0xC2 <=? b0) && (b0 <=? 0xDF) then
      match t0 with
      | b1 :: t1 =>
        if is_cont b1 then ((b0 - 0xC0) * 64 + (b1 - 0x80)) :: utf8_decode t1
        else 0xFFFD :: utf8_decode t0
      | [] => [0xFFFD]
      end
    else if (0xE0 <=? b0) && (b0 <=? 0xEF) then
      match t0 with
      | b1 :: t1 =>
        if is_cont b1 && ((negb (b0 =? 0xE0)) || (0xA0 <=? b1))
           && ((negb (b0 =? 0xED)) || (b1 <=? 0x9F)) then
          match t1 with
          | b2 :: t2 =>
            if is_cont b2 then
              ((b0 - 0xE0) * 4096 + (b1 - 0x80) * 64 + (b2 - 0x80))
                :: utf8_decode t2
            else 0xFFFD :: utf8_decode t1
          | [] => [0xFFFD]
          end
        else 0xFFFD :: utf8_decode t0
      | [] => [0xFFFD]
      end
    else if (0xF0 <=? b0) && (b0 <=? 0xF4) then
      match t0 with
      | b1 :: t1 =>
        if is_cont b1 && ((negb (b0 =? 0xF0)) || (0x90 <=? b1))
           && ((negb (b0 =? 0xF4)) || (b1 <=? 0x8F)) then
          match t1 with
          | b2 :: t2 =>
            if is_cont b2 then
              match t2 with
              | b3 :: t3 =>
                if is_cont b3 then
                  ((b0 - 0xF0) * 262144 + (b1 - 0x80) * 4096
                   + (b2 - 0x80) * 64 + (b3 - 0x80)) :: utf8_decode t3
                else 0xFFFD :: utf8_decode t2
              | [] => [0xFFFD]
              end
            else 0xFFFD :: utf8_decode t1
          | [] => [0xFFFD]
          end
        else 0xFFFD :: utf8_decode t0
      | [] => [0xFFFD]
      end
    else 0xFFFD :: utf8_decode t0
  end.

(** The code points of a literal of this file, whose bytes are UTF-8. *)
Fixpoint bytes_of_string (s : string) : pybytes :=
  match s with
  | EmptyString => []
  | String c s' => Z.of_nat (Ascii.nat_of_ascii c) :: bytes_of_string s'
  end.

Definition u (s : string) : pystr := utf8_decode (bytes_of_string s).
Arguments u s%_string : simpl never.

(** A [bytes] literal. *)
Definition bs (s : string) : pybytes := bytes_of_string s.
Arguments bs s%_string : simpl never.

(** [len(text.encode("utf-8", "replace"))], [byte_len] of announce_bot.py. *)
Definition utf8_len1 (c : Z) : nat := length (utf8_encode1 c).
Definition utf8_len (s : pystr) : nat := length (utf8_encode s).

(** ** Equality, prefixes and search *)

Fixpoint str_eqb (a b : pystr) : bool :=
  match a, b with
  | [], [] => true
  | x :: a', y :: b' => (x =? y) && str_eqb a' b'
  | _, _ => false
  end.

Fixpoint startswith (s p : pystr) {struct p} : bool :=
  match p, s with
  | [], _ => true
  | x :: p', y :: s' => (x =? y) && startswith s' p'
  | _ :: _, [] => false
  end.

Definition endswith (s p : pystr) : bool := startswith (rev s) (rev p).

Definition mem (x : pystr) (l : list pystr) : bool := existsb (str_eqb x) l.

Definition startswith_any (s : pystr) (ps : list pystr) : bool :=
  existsb (startswith s) ps.

(** [s.find(needle)], [None] for -1. *)
Fixpoint find (s needle : pystr) : option nat :=
  if startswith s needle then Some O
  else match s with [] => None | _ :: t => S <$> find t needle end.

(** [needle in s]. *)
Definition contains (s needle : pystr) : bool := is_someb (find s needle).

(** [s.rfind(needle)]. *)
Fixpoint rfind (s needle : pystr) : option nat :=
  match s with
  | [] => if startswith [] needle then Some O else None
  | _ :: t =>
    match rfind t needle with
    | Some i => Some (S i)
    | None => if startswith s needle then Some O else None
    end
  end.

(** ** Character classes *)

Definition isspace (c : Z) : bool :=
  ((9 <=? c) && (c <=? 13)) || ((28 <=? c) && (c <=? 32)) || (c =? 133)
  || (c =? 160) || (c =? 5760) || ((8192 <=? c) && (c <=? 8202))
  || (c =? 8232) || (c =? 8233) || (c =? 8239) || (c =? 8287) || (c =? 12288).

(** The whitespace of [bytes] methods. *)
Definition bisspace (c : Z) : bool := ((9 <=? c) && (c <=? 13)) || (c =? 32).

Definition is_linebreak (c : Z) : bool :=
  ((10 <=? c) && (c <=? 13)) || ((28 <=? c) && (c <=? 30)) || (c =? 133)
  || (c =? 8232) || (c =? 8233).

Definition bis_linebreak (c : Z) : bool := (c =? 10) || (c =? 13).

Definition is_ascii_digit (c : Z) : bool := (48 <=? c) && (c <=? 57).
Definition is_lower_az (c : Z) : bool := (97 <=? c) && (c <=? 122).
Definition is_upper_az (c : Z) : bool := (65 <=? c) && (c <=? 90).

(** The code points of Unicode 14 whose decimal value is zero; each starts a
    block of ten decimal digits (category Nd). *)
Definition nd_zeros : list Z :=
  [48; 1632; 1776; 1984; 2406; 2534; 2662; 2790; 2918; 3046; 3174; 3302; 3430;
   3558; 3664; 3792; 3872; 4160; 4240; 6112; 6160; 6470; 6608; 6784; 6800; 6992;
   7088; 7232; 7248; 42528; 43216; 43264; 43472; 43504; 43600; 44016; 65296;
   66720; 68912; 69734; 69872; 69942; 70096; 70384; 70736; 70864; 71248; 71360;
   71472; 71904; 72016; 72784; 73040; 73120; 92768; 92864; 93008; 120782; 120792;
   120802; 120812; 120822; 123200; 123632; 125264; 130032].

(** The value of a decimal digit of a [str]. *)
Definition digit_val (c : Z) : option Z :=
  match List.find (fun z => (z <=? c) && (c <=? z + 9)) nd_zeros with
  | Some z => Some (c - z)
  | None => None
  end.

Definition is_digit (c : Z) : bool := is_someb (digit_val c).

(** ** Stripping and splitting *)

Fixpoint lstrip_by (f : Z → bool) (s : pystr) : pystr :=
  match s with
  | [] => []
  | c :: t => if f c then lstrip_by f t else s
  end.

Definition rstrip_by (f : Z → bool) (s : pystr) : pystr :=
  rev (lstrip_by f (rev s)).

Definition strip_by (f : Z → bool) (s : pystr) : pystr :=
  rstrip_by f (lstrip_by f s).

Definition lstrip (s : pystr) : pystr := lstrip_by isspace s.
Definition rstrip (s : pystr) : pystr := rstrip_by isspace s.
Definition strip (s : pystr) : pystr := strip_by isspace s.

(** [s.strip(chars)]. *)
Definition strip_chars (chars s : pystr) : pystr :=
  strip_by (fun c => existsb (Z.eqb c) chars) s.

Definition cons_hd (c : Z) (l : list pystr) : list pystr :=
  match l with [] => [[c]] | x :: xs => (c :: x) :: xs end.

(** Split at every character that satisfies [f]. *)
Fixpoint split_by (f : Z → bool) (s : pystr) : list pystr :=
  match s with
  | [] => [[]]
  | c :: t => if f c then [] :: split_by f t else cons_hd c (split_by f t)
  end.

Definition nonempty (s : pystr) : bool := match s with [] => false | _ => true end.

(** [s.split()]. *)
Definition split_ws (s : pystr) : list pystr :=
  List.filter nonempty (split_by isspace s).

(** [s.split(sep, n)] for a non-empty [sep]; [lim = None] is no limit and
    [skip] characters of the current separator remain to be dropped. *)
Fixpoint split_go (sep : pystr) (lim : option nat) (skip : nat) (s : pystr)
    : list pystr :=
  match s with
  | [] => [[]]
  | c :: t =>
    match skip with
    | S k => split_go sep lim k t
    | O =>
      match lim with
      | Some O => cons_hd c (split_go sep lim O t)
      | _ =>
        if startswith s sep
        then [] :: split_go sep (pred <$> lim) (pred (length sep)) t
        else cons_hd c (split_go sep lim O t)
      end
    end
  end.

Definition split (sep s : pystr) : list pystr := split_go sep None O s.
Definition split_max (n : nat) (sep s : pystr) : list pystr :=
  split_go sep (Some n) O s.

(** [s.partition(sep)]. *)
Definition partition (sep s : pystr) : pystr * pystr * pystr :=
  match find s sep with
  | Some i => (take i s, sep, drop (i + length sep) s)
  | None => (s, [], [])
  end.

(** [s.splitlines()], for the given set of line breaks. *)
Fixpoint splitlines_by (brk : Z → bool) (s : pystr) : list pystr :=
  match s with
  | [] => []
  | c :: t =>
    if brk c then
      match t with
      | 10 :: t' => if c =? 13 then [] :: splitlines_by brk t'
                    else [] :: splitlines_by brk t
      | _ => [] :: splitlines_by brk t
      end
    else cons_hd c (splitlines_by brk t)
  end.

Definition splitlines (s : pystr) : list pystr := splitlines_by is_linebreak s.
Definition bsplitlines (s : pybytes) : list pybytes := splitlines_by bis_linebreak s.

(** [sep.join(parts)]. *)
Fixpoint join (sep : pystr) (parts : list pystr) : pystr :=
  match parts with
  | [] => []
  | [x] => x
  | x :: xs => x ++ sep ++ join sep xs
  end.

(** [s.replace(old, new)] and [s.replace(old, new, n)] for a non-empty [old]. *)
Definition replace (old new s : pystr) : pystr := join new (split old s).
Definition replace_max (n : nat) (old new s : pystr) : pystr :=
  join new (split_max n old s).

(** [s.count(needle)] for a non-empty [needle] (non-overlapping). *)
Definition count_sub (s needle : pystr) : nat := pred (length (split needle s)).

(** ** Case mapping

    ASCII letters are mapped exactly.  Beyond ASCII the tables hold the code
    points whose image under [str.upper] or [str.lower] is ASCII; every other
    code point has an image with a non-ASCII code point and is kept, so a
    comparison of a mapped string with an ASCII literal has Python's answer. *)
Definition upper1 (c : Z) : pystr :=
  if is_lower_az c then [c - 32]
  else match c with
  | 223 => [83; 83] | 305 => [73] | 383 => [83]
  | 64256 => [70; 70] | 64257 => [70; 73] | 64258 => [70; 76]
  | 64259 => [70; 70; 73] | 64260 => [70; 70; 76]
  | 64261 => [83; 84] | 64262 => [83; 84]
  | _ => [c]
  end.

Definition lower1 (c : Z) : pystr :=
  if is_upper_az c then [c + 32] else if c =? 8490 then [107]
  else if c =? 304 then [105; 775] else [c].

Definition upper (s : pystr) : pystr := s ≫= upper1.
Definition lower (s : pystr) : pystr := s ≫= lower1.

(** [bytes.upper]. *)
Definition bupper (s : pybytes) : pybytes :=
  (fun c => if is_lower_az c then c - 32 else c) <$> s.

(** ** Integers *)

(** The digits of [int(s)]: an underscore may separate two digits. *)
Fixpoint int_digits (dv : Z → option Z) (acc : Z) (after_us : bool) (s : pystr)
    : option Z :=
  match s with
  | [] => if after_us then None else Some acc
  | c :: t =>
    match dv c with
    | Some d => int_digits dv (acc * 10 + d) false t
    | None => if (c =? 95) && negb after_us then int_digits dv acc true t else None
    end
  end.

Definition int_unsigned (dv : Z → option Z) (s : pystr) : option Z :=
  match s with
  | c :: _ => if is_someb (dv c) then int_digits dv 0 false s else None
  | [] => None
  end.

Definition int_of (ws : Z → bool) (dv : Z → option Z) (s : pystr) : option Z :=
  match strip_by ws s with
  | 45 :: t => Z.opp <$> int_unsigned dv t
  | 43 :: t => int_unsigned dv t
  | t => int_unsigned dv t
  end.

(** [int(s)] of a [str], [None] for [ValueError]. *)
Definition int (s : pystr) : option Z := int_of isspace digit_val s.

Definition bdigit_val (c : Z) : option Z :=
  if is_ascii_digit c then Some (c - 48) else None.

(** [int(s)] of a [bytes]. *)
Definition bint (s : pybytes) : option Z := int_of bisspace bdigit_val s.

(** Decimal rendering of a non-negative integer, with [n] digits of fuel. *)
Fixpoint dec_digits (n : nat) (z : Z) (acc : pystr) : pystr :=
  match n with
  | O => acc
  | S n' =>
    let acc' := (48 + z mod 10) :: acc in
    if z <? 10 then acc' else dec_digits n' (z / 10) acc'
  end.

(** [str(z)]: the number of binary digits bounds the number of decimal ones. *)
Definition dec (z : Z) : pystr :=
  if z <? 0 then 45 :: dec_digits (S (Z.to_nat (Z.log2 (- z)))) (- z) []
  else dec_digits (S (Z.to_nat (Z.log2 z))) z [].

(** Zero padding on the left, as in the formats [04d] and [08x]. *)
Definition zfill (n : nat) (s : pystr) : pystr :=
  replicate (n - length s) 48 ++ s.

(** ** Order *)

(** Python compares strings by code points. *)
Fixpoint str_leb (a b : pystr) : bool :=
  match a, b with
  | [], _ => true
  | _ :: _, [] => false
  | x :: a', y :: b' => (x <? y) || ((x =? y) && str_leb a' b')
  end.

Definition str_le (a b : pystr) : Prop := str_leb a b = true.

#[export] Instance str_le_dec : RelDecision str_le.
Proof. intros a b. unfold str_le. apply _. Defined.

(** [sorted(strings)]. *)
Definition sorted_strs (l : list pystr) : list pystr := merge_sort str_le l.

(** [sorted(set_of_strings)]. *)
Definition sorted_set (s : gset pystr) : list pystr := sorted_strs (elements s).

(** ** Facts *)

Lemma str_eqb_eq a b : str_eqb a b = true ↔ a = b.
Proof.
  revert b. induction a as [|x a IH]; intros [|y b]; simpl; try done.
  rewrite andb_true_iff, Z.eqb_eq, IH. naive_solver.
Qed.

Lemma str_eqb_refl a : str_eqb a a = true.
Proof. by apply str_eqb_eq. Qed.

Lemma str_eqb_neq a b : str_eqb a b = false ↔ a ≠ b.
Proof. rewrite <-not_true_iff_false, str_eqb_eq. done. Qed.

Lemma mem_elem x l : mem x l = true ↔ x ∈ l.
Proof.
  unfold mem. rewrite existsb_elem. setoid_rewrite str_eqb_eq. naive_solver.
Qed.

Lemma startswith_iff s p : startswith s p = true ↔ ∃ t, s = p ++ t.
Proof.
  revert s. induction p as [|x p IH]; intros s; simpl; [naive_solver|].
  destruct s as [|y s]; [naive_solver|].
  rewrite andb_true_iff, Z.eqb_eq, IH. naive_solver.
Qed.

Lemma startswith_app p t : startswith (p ++ t) p = true.
Proof. apply startswith_iff. eauto. Qed.

#[export] Hint Resolve str_eqb_refl startswith_app : py.
#[export] Hint Rewrite str_eqb_refl startswith_app : py.

(** *** Search *)

Lemma find_Some s p i :
  find s p = Some i → s = take i s ++ p ++ drop (i + length p) s ∧ (i ≤ length s)%nat.
Proof.
  revert i. induction s as [|c s IH]; intros i; simpl.
  - destruct (startswith [] p) eqn:E; [|done]. intros [= <-].
    apply startswith_iff in E as [t E]. symmetry in E. apply app_eq_nil in E as [-> _]. done.
  - destruct (startswith (c :: s) p) eqn:E.
    + intros [= <-]. apply startswith_iff in E as [t E]. simpl. split; [|lia].
      rewrite E. by rewrite drop_app_length.
    + intros (j & Hj & ->)%fmap_Some. destruct (IH j Hj) as [He Hl]. simpl.
      split; [by f_equal | lia].
Qed.

Lemma contains_iff s p : contains s p = true ↔ ∃ x y, s = x ++ p ++ y.
Proof.
  unfold contains. split.
  - destruct (find s p) as [i|] eqn:E; [|done]. intros _.
    apply find_Some in E as [E _]. eauto.
  - intros (x & y & ->). induction x as [|c x IH]; simpl.
    + destruct (p ++ y) eqn:Hp; simpl.
      * apply app_eq_nil in Hp as [-> ->]. done.
      * rewrite <-Hp, startswith_app. done.
    + destruct (startswith _ _); [done|]. destruct (find (x ++ p ++ y) p); done.
Qed.

(** *** UTF-8 lengths *)

Lemma utf8_len1_bounds c : (1 ≤ utf8_len1 c ≤ 4)%nat.
Proof. unfold utf8_len1, utf8_encode1. repeat case_match; simpl; lia. Qed.

Lemma utf8_encode_app s t : utf8_encode (s ++ t) = utf8_encode s ++ utf8_encode t.
Proof. unfold utf8_encode. by rewrite bind_app. Qed.

Lemma utf8_len_nil : utf8_len [] = O.
Proof. done. Qed.

Lemma utf8_len_app s t : utf8_len (s ++ t) = (utf8_len s + utf8_len t)%nat.
Proof. unfold utf8_len. by rewrite utf8_encode_app, length_app. Qed.

Lemma utf8_len_cons c t : utf8_len (c :: t) = (utf8_len1 c + utf8_len t)%nat.
Proof. unfold utf8_len, utf8_len1, utf8_encode. simpl. by rewrite length_app. Qed.

Lemma utf8_len_single c : utf8_len [c] = utf8_len1 c.
Proof. rewrite utf8_len_cons, utf8_len_nil. lia. Qed.

Lemma utf8_len_length s : (length s ≤ utf8_len s ≤ 4 * length s)%nat.
Proof.
  induction s as [|c s IH]; [rewrite utf8_len_nil; simpl; lia|].
  rewrite utf8_len_cons. pose proof (utf8_len1_bounds c). simpl. lia.
Qed.

#[export] Hint Rewrite utf8_len_nil utf8_len_app utf8_len_cons : py.

(** *** Stripping *)

Lemma lstrip_by_suffix f s : ∃ p, s = p ++ lstrip_by f s ∧ Forall (λ c, f c = true) p.
Proof.
  induction s as [|c s (p & E & H)]; simpl; [by exists []|].
  destruct (f c) eqn:Ef; [|by exists []].
  exists (c :: p). simpl. rewrite <-E. auto.
Qed.

Lemma lstrip_by_hd f s c t : lstrip_by f s = c :: t → f c = false.
Proof. induction s as [|d s IH]; simpl; [done|]. destruct (f d) eqn:E; naive_solver. Qed.

Lemma lstrip_by_fix f s : (∀ c t, s = c :: t → f c = false) → lstrip_by f s = s.
Proof. intros H. destruct s as [|c t]; [done|]. simpl. by rewrite (H c t). Qed.

Lemma lstrip_by_idem f s : lstrip_by f (lstrip_by f s) = lstrip_by f s.
Proof. apply lstrip_by_fix. intros c t. apply lstrip_by_hd. Qed.

Lemma lstrip_by_length f s : (length (lstrip_by f s) ≤ length s)%nat.
Proof. destruct (lstrip_by_suffix f s) as (p & E & _). rewrite E at 2. rewrite length_app. lia. Qed.

Lemma rstrip_by_prefix f s : ∃ p, s = rstrip_by f s ++ p ∧ Forall (λ c, f c = true) p.
Proof.
  destruct (lstrip_by_suffix f (rev s)) as (p & E & H). exists (rev p). unfold rstrip_by.
  rewrite <-rev_app_distr, <-E, rev_involutive. split; [done|].
  by apply List.Forall_rev.
Qed.

Lemma rstrip_by_length f s : (length (rstrip_by f s) ≤ length s)%nat.
Proof. destruct (rstrip_by_prefix f s) as (p & E & _). rewrite E at 2. rewrite length_app. lia. Qed.

Lemma rstrip_by_idem f s : rstrip_by f (rstrip_by f s) = rstrip_by f s.
Proof. unfold rstrip_by. by rewrite rev_involutive, lstrip_by_idem. Qed.

Lemma strip_by_Forall f P s : Forall P s → Forall P (strip_by f s).
Proof.
  intros H. unfold strip_by. destruct (lstrip_by_suffix f s) as (p & E & _).
  rewrite E in H. apply Forall_app in H as [_ H].
  destruct (rstrip_by_prefix f (lstrip_by f s)) as (q & Eq & _).
  rewrite Eq in H. by apply Forall_app in H as [H _].
Qed.

(** A stripped string does not start with a stripped character. *)
Lemma strip_by_hd f s c t : strip_by f s = c :: t → f c = false.
Proof.
  unfold strip_by. intros H.
  destruct (rstrip_by_prefix f (lstrip_by f s)) as (q & Eq & _).
  rewrite H in Eq. simpl in Eq. by apply lstrip_by_hd in Eq.
Qed.

Lemma strip_by_idem f s : strip_by f (strip_by f s) = strip_by f s.
Proof.
  unfold strip_by at 1. rewrite (lstrip_by_fix f (strip_by f s)); [|apply strip_by_hd].
  unfold strip_by. apply rstrip_by_idem.
Qed.

(** *** Splitting *)

Lemma cons_hd_Forall (P : Z → Prop) c l :
  P c → Forall (Forall P) l → Forall (Forall P) (cons_hd c l).
Proof. intros Hc Hl. destruct Hl; simpl; auto. Qed.

Lemma split_by_Forall f (P : Z → Prop) s :
  Forall P s → Forall (Forall (λ c, P c ∧ f c = false)) (split_by f s).
Proof.
  induction 1 as [|c s Hc Hs IH]; simpl; [auto|].
  destruct (f c) eqn:E; [auto|]. by apply cons_hd_Forall.
Qed.

(** The words of [s.split()] are non-empty and free of whitespace. *)
Lemma split_ws_words s w : w ∈ split_ws s → w ≠ [] ∧ Forall (λ c, isspace c = false) w.
Proof.
  unfold split_ws. rewrite list_elem_of_In, filter_In. intros [Hw Hne].
  split; [by destruct w|].
  pose proof (split_by_Forall isspace (λ _, True) s) as H.
  rewrite (Forall_forall (Forall _)) in H.
  assert (Hs : Forall (λ _ : Z, True) s) by (by apply Forall_true).
  specialize (H Hs w (proj2 (list_elem_of_In _ _) Hw)).
  eapply Forall_impl; [exact H|]. naive_solver.
Qed.

Lemma split_go_nonnil sep lim k s : split_go sep lim k s ≠ [].
Proof.
  revert lim k. induction s as [|c s IH]; intros lim k; simpl; [done|].
  destruct k; [|apply IH]. destruct lim as [[|n]|].
  - specialize (IH (Some O) O). by destruct (split_go _ _ _ _).
  - destruct (startswith _ _); [done|]. specialize (IH (Some (S n)) O).
    by destruct (split_go _ _ _ _).
  - destruct (startswith _ _); [done|]. specialize (IH None O).
    by destruct (split_go _ _ _ _).
Qed.

Lemma join_cons_hd sep c l : l ≠ [] → join sep (cons_hd c l) = c :: join sep l.
Proof. destruct l as [|x [|y l]]; simpl; done. Qed.

Lemma join_nil_cons sep l : l ≠ [] → join sep ([] :: l) = sep ++ join sep l.
Proof. by destruct l. Qed.

(** Joining the pieces with the separator gives the string back. *)
Lemma join_split_go sep lim k s :
  sep ≠ [] → join sep (split_go sep lim k s) = drop k s.
Proof.
  intros Hs. revert lim k. induction s as [|c s IH]; intros lim k; simpl.
  - by rewrite drop_nil.
  - destruct k as [|k]; [|apply IH].
    assert (Hhd : ∀ lim', join sep (cons_hd c (split_go sep lim' 0 s)) = c :: s).
    { intros lim'. rewrite join_cons_hd by apply split_go_nonnil. by rewrite IH. }
    assert (Hsep : startswith (c :: s) sep = true → ∀ lim',
      join sep ([] :: split_go sep lim' (Init.Nat.pred (length sep)) s) = c :: s).
    { intros E lim'. apply startswith_iff in E as [t E].
      rewrite join_nil_cons by apply split_go_nonnil. rewrite IH.
      destruct sep as [|x sep]; [done|]. simpl in *. injection E as -> ->.
      by rewrite drop_app_length. }
    destruct lim as [[|n]|]; [apply Hhd| |];
      destruct (startswith (c :: s) sep) eqn:E; auto.
Qed.

Lemma join_split sep s : sep ≠ [] → join sep (split sep s) = s.
Proof. intros. unfold split. by rewrite join_split_go. Qed.

Lemma join_split_max n sep s : sep ≠ [] → join sep (split_max n sep s) = s.
Proof. intros. unfold split_max. by rewrite join_split_go. Qed.

(** [s.split(sep, 1)] cuts at the first occurrence. *)
Lemma split_go_zero sep s : split_go sep (Some O) O s = [s].
Proof. induction s as [|c s IH]; simpl; [done|]. by rewrite IH. Qed.

Lemma split_go_skip sep s k : (k ≤ length s)%nat →
  split_go sep (Some O) k s = [drop k s].
Proof.
  revert k. induction s as [|c s IH]; intros k Hk; simpl in *.
  - by rewrite drop_nil.
  - destruct k as [|k]; simpl; [by rewrite split_go_zero|]. apply IH. lia.
Qed.

Lemma split_max_one sep s : sep ≠ [] →
  split_max 1 sep s =
  match find s sep with Some i => [take i s; drop (i + length sep) s] | None => [s] end.
Proof.
  intros Hsep. unfold split_max. induction s as [|c s IH]; cbn [split_go find].
  - by destruct sep.
  - destruct (startswith (c :: s) sep) eqn:E.
    + apply startswith_iff in E as [t E]. destruct sep as [|x sep]; [done|].
      simpl in E. injection E as -> ->. simpl.
      rewrite split_go_skip by (rewrite length_app; lia). by rewrite drop_app_length.
    + rewrite IH. by destruct (find s sep).
Qed.

(** A word without the separator character, cut off by a limited split. *)
Lemma split_max_word n c w r : c ∉ w →
  split_max (S n) [c] (w ++ c :: r) = w :: split_max n [c] r.
Proof.
  unfold split_max. induction w as [|x w IH]; intros Hw.
  - simpl. by rewrite Z.eqb_refl.
  - apply not_elem_of_cons in Hw as [Hx Hw]. simpl. rewrite (proj2 (Z.eqb_neq c x) Hx). simpl.
    by rewrite IH.
Qed.

(** The unlimited split, one step at a time. *)
Lemma split_go_drop sep k s : (k ≤ length s)%nat → split_go sep None k s = split sep (drop k s).
Proof.
  unfold split. revert k. induction s as [|c s IH]; intros k Hk; simpl in *.
  - by rewrite drop_nil.
  - destruct k as [|k]; [done|]. simpl. apply IH. lia.
Qed.

Lemma split_cons sep c s : sep ≠ [] →
  split sep (c :: s) = if startswith (c :: s) sep then [] :: split sep (drop (length sep) (c :: s))
                       else cons_hd c (split sep s).
Proof.
  intros Hs. unfold split at 1. cbn [split_go]. destruct (startswith (c :: s) sep) eqn:E; [|done].
  f_equal. apply startswith_iff in E as [t E]. destruct sep as [|x sep]; [done|].
  simpl in *. injection E as -> ->. by rewrite split_go_drop by (rewrite length_app; lia).
Qed.

Lemma split_nonnil sep s : split sep s ≠ [].
Proof. apply split_go_nonnil. Qed.

Lemma split_short sep s : (length s < length sep)%nat → split sep s = [s].
Proof.
  induction s as [|c s IH]; intros H; [done|].
  rewrite split_cons by (by destruct sep; simpl in H; [lia|]).
  destruct (startswith (c :: s) sep) eqn:E.
  - apply startswith_iff in E as [t E]. apply (f_equal length) in E. rewrite length_app in E. lia.
  - simpl in H. by rewrite IH by lia.
Qed.

Lemma startswith_app_long s c sep : (length sep ≤ length s)%nat →
  startswith (s ++ c) sep = startswith s sep.
Proof.
  revert s. induction sep as [|x sep IH]; intros [|y s] H; simpl in *; try lia.
  destruct (x =? y); [|done]. apply IH. lia.
Qed.

(** Text appended to a string only changes the last piece of its split. *)
Lemma split_app sep s c : sep ≠ [] →
  split sep (s ++ c) = removelast (split sep s) ++ split sep (from_opt [] (last (split sep s)) ++ c).
Proof.
  intros Hs. remember (length s) as n eqn:Hn. revert s Hn.
  assert (Hpos : (0 < length sep)%nat) by (destruct sep; simpl; [done|lia]).
  induction n as [n IH] using lt_wf_ind. intros s ->. destruct s as [|x s]; [done|].
  destruct (decide (length sep ≤ length (x :: s))%nat) as [Hl|Hl].
  2:{ rewrite (split_short sep (x :: s)) by lia. done. }
  cbn [app]. rewrite !split_cons by done.
  change (x :: s ++ c) with ((x :: s) ++ c). rewrite startswith_app_long by done.
  destruct (startswith (x :: s) sep) eqn:E.
  - apply startswith_iff in E as [t E]. rewrite !E, <-!app_assoc, !drop_app_length.
    pose proof (split_nonnil sep t) as Hne.
    rewrite (IH (length t)) by (done || (rewrite E, length_app; lia)).
    destruct (split sep t) as [|y ys] eqn:Et; [done|]. cbn [removelast last]. done.
  - rewrite (IH (length s)) by (done || (simpl; lia)).
    pose proof (join_split sep s Hs) as Hj.
    destruct (split sep s) as [|y [|z zs]] eqn:Es; [by apply split_nonnil in Es| |done].
    simpl in Hj. subst y. cbn [cons_hd removelast last from_opt app].
    rewrite split_cons by done.
    change (x :: s ++ c) with ((x :: s) ++ c). by rewrite startswith_app_long, E by done.
Qed.

(** The first word of a line that starts with a word and a space. *)
Lemma split_by_word f p y :
  Forall (λ c, f c = false) p → split_by f (p ++ y) = match split_by f y with
    | x :: xs => (p ++ x) :: xs | [] => [] end.
Proof.
  induction 1 as [|c p Hc Hp IH]; simpl.
  - by destruct (split_by f y).
  - rewrite Hc, IH. destruct y; simpl; [done|]. destruct (f z); [done|].
    destruct (split_by f y); done.
Qed.

Lemma rstrip_by_app f p y :
  Forall (λ c, f c = false) p → rstrip_by f (p ++ y) = p ++ rstrip_by f y.
Proof.
  intros Hp. unfold rstrip_by. rewrite rev_app_distr.
  assert (H : ∀ r q, Forall (λ c, f c = false) q →
    lstrip_by f (r ++ q) = lstrip_by f r ++ q).
  { induction r as [|c r IH]; intros q Hq; simpl.
    - apply lstrip_by_fix. intros c t ->. by inversion Hq.
    - destruct (f c); [by apply IH|done]. }
  rewrite H by (by apply List.Forall_rev). by rewrite rev_app_distr, rev_involutive.
Qed.

Lemma split_ws_first p x :
  p ≠ [] → Forall (λ c, isspace c = false) p →
  ∃ ws, split_ws (strip (p ++ 32 :: x)) = p :: ws.
Proof.
  intros Hne Hp. unfold strip, strip_by.
  rewrite lstrip_by_fix.
  2:{ intros c t E. destruct p as [|d p]; [done|]. injection E as <- _. by inversion Hp. }
  rewrite rstrip_by_app by done. unfold split_ws. rewrite split_by_word by done.
  destruct (rstrip_by isspace (32 :: x)) as [|c y] eqn:E.
  - exists []. simpl. rewrite app_nil_r. destruct p; done.
  - destruct (rstrip_by_prefix isspace (32 :: x)) as (q & Eq & _). rewrite E in Eq.
    injection Eq as <- _. simpl. rewrite app_nil_r. destruct p; [done|]. simpl. by eexists.
Qed.

Lemma split_ws_cons p x :
  p ≠ [] → Forall (λ c, isspace c = false) p → split_ws (p ++ 32 :: x) = p :: split_ws x.
Proof.
  intros Hne Hp. unfold split_ws. rewrite split_by_word by done. simpl. rewrite app_nil_r.
  by destruct p.
Qed.

(** The search passes over a part without an occurrence that ends in a
    character foreign to the needle. *)
Lemma find_skip x c needle y :
  contains x needle = false → c ∉ needle →
  find (x ++ c :: y) needle = (λ i, (length x + 1 + i)%nat) <$> find y needle.
Proof.
  assert (Hstart : ∀ x, contains x needle = false → c ∉ needle →
    startswith (x ++ c :: y) needle = false).
  { intros x' Hx Hc. apply not_true_is_false. intros (t & E)%startswith_iff.
    apply app_eq_inv in E as [(k & -> & _)|(k & -> & E)].
    - apply (not_true_iff_false _) in Hx. apply Hx. apply contains_iff. by exists [], k.
    - destruct k as [|d k]; simpl in E.
      + rewrite app_nil_r in Hx. apply (not_true_iff_false _) in Hx. apply Hx.
        apply contains_iff. exists [], []. by rewrite app_nil_r.
      + injection E as <- _. apply Hc. rewrite elem_of_app. right. left. }
  intros Hx Hc. induction x as [|a x IH].
  - pose proof (Hstart [] Hx Hc) as Hs. simpl in *. rewrite Hs.
    destruct (find y needle); done.
  - pose proof (Hstart (a :: x) Hx Hc) as Hs. simpl in *. rewrite Hs, IH.
    + by destruct (find y needle).
    + apply not_true_is_false. intros (p & q & ->)%contains_iff.
      apply (not_true_iff_false _) in Hx. apply Hx. apply contains_iff. by exists (a :: p), q.
Qed.

Lemma find_here p y : find (p ++ y) p = Some O.
Proof. destruct (p ++ y) eqn:E; simpl; rewrite <-E, startswith_app; done. Qed.

Lemma find_char c x y : c ∉ x → find (x ++ c :: y) [c] = Some (length x).
Proof.
  induction x as [|a x IH]; intros Hc; simpl.
  - by rewrite Z.eqb_refl.
  - apply not_elem_of_cons in Hc as [Hne Hc].
    rewrite (proj2 (Z.eqb_neq _ _) Hne). simpl. by rewrite IH.
Qed.

(** *** Order and sorting *)

Lemma str_leb_refl a : str_leb a a = true.
Proof. induction a; simpl; [done|]. by rewrite Z.eqb_refl, IHa, orb_true_r. Qed.

#[export] Instance str_le_total : Total str_le.
Proof.
  unfold str_le. intros a. induction a as [|x a IH]; intros [|y b]; simpl; auto.
  destruct (Z.lt_trichotomy x y) as [H|[->|H]].
  - left. apply Z.ltb_lt in H. by rewrite H.
  - rewrite Z.eqb_refl, Z.ltb_irrefl. simpl. apply IH.
  - right. apply Z.ltb_lt in H. by rewrite H.
Qed.

#[export] Instance str_le_trans : Transitive str_le.
Proof.
  unfold str_le. intros a. induction a as [|x a IH]; intros [|y b] [|z c]; simpl; try done.
  rewrite !orb_true_iff, !andb_true_iff, !Z.ltb_lt, !Z.eqb_eq.
  intros [H1|[-> H1]] [H2|[-> H2]]; [left; lia|left; lia|left; lia|right; eauto].
Qed.

#[export] Instance str_le_antisymm : AntiSymm (=) str_le.
Proof.
  unfold str_le. intros a. induction a as [|x a IH]; intros [|y b]; simpl; try done.
  rewrite !orb_true_iff, !andb_true_iff, !Z.ltb_lt, !Z.eqb_eq.
  intros [H1|[-> H1]] [H2|[H2 H3]]; try lia. f_equal; auto.
Qed.

Lemma sorted_strs_perm l : sorted_strs l ≡ₚ l.
Proof. apply merge_sort_Permutation. Qed.

Lemma sorted_strs_sorted l : Sorted str_le (sorted_strs l).
Proof. apply (Sorted_merge_sort str_le). Qed.

Lemma elem_of_sorted_set x s : x ∈ sorted_set s ↔ x ∈ s.
Proof. unfold sorted_set. by rewrite sorted_strs_perm, elem_of_elements. Qed.

Lemma sorted_set_NoDup s : NoDup (sorted_set s).
Proof. unfold sorted_set. rewrite sorted_strs_perm. apply NoDup_elements. Qed.

Lemma sorted_set_empty s : sorted_set s = [] ↔ s = ∅.
Proof.
  split; [|by intros ->]. intros H. apply leibniz_equiv, elem_of_equiv_empty. intros x.
  rewrite <-elem_of_sorted_set, H. apply not_elem_of_nil.
Qed.

(** *** Decimal rendering *)

Lemma dec_digits_val dv n z acc :
  (∀ d, 0 ≤ d < 10 → dv (48 + d) = Some d) →
  0 ≤ z → z < 2 ^ Z.of_nat n →
  ∀ k, int_digits dv k false (dec_digits n z acc) =
       int_digits dv (k * 10 ^ Z.of_nat (length (dec_digits n z []))  + z) false acc
  ∧ (length (dec_digits n z acc) = length (dec_digits n z []) + length acc)%nat
  ∧ ((0 < n)%nat → ∃ d t, dec_digits n z acc = (48 + d) :: t ∧ 0 ≤ d < 10).
Proof.
  intros Hdv. revert z acc. induction n as [|n IH]; intros z acc Hz Hlt k; simpl dec_digits.
  { simpl in Hlt. simpl length. split; [|split; [done|lia]].
    replace (k * 10 ^ Z.of_nat 0 + z) with k by (simpl; lia). done. }
  assert (Hm : 0 ≤ z mod 10 < 10) by (apply Z.mod_pos_bound; lia).
  destruct (z <? 10) eqn:E; bool_hyps.
  - simpl. rewrite Hdv by done. rewrite Z.mod_small by lia.
    split; [f_equal; lia|]. split; [done|]. intros _. eauto.
  - assert (H10 : z / 10 < 2 ^ Z.of_nat n).
    { apply Z.div_lt_upper_bound; [lia|].
      rewrite Nat2Z.inj_succ, Z.pow_succ_r in Hlt by lia. lia. }
    assert (Hq : 0 ≤ z / 10) by (apply Z.div_pos; lia).
    destruct (IH (z / 10) ((48 + z mod 10) :: acc) Hq H10 k) as (IH1 & IH2 & IH3).
    destruct (IH (z / 10) [48 + z mod 10] Hq H10 k) as (_ & IH5 & _).
    rewrite IH1. simpl int_digits. rewrite Hdv by done.
    split; [|split].
    + f_equal. rewrite IH5. simpl length.
      replace (Z.of_nat (length (dec_digits n (z / 10) []) + 1))
        with (Z.succ (Z.of_nat (length (dec_digits n (z / 10) [])))) by lia.
      rewrite Z.pow_succ_r by lia.
      pose proof (Z.div_mod z 10 ltac:(lia)). nia.
    + rewrite IH2, IH5. simpl. lia.
    + intros _. apply IH3. destruct n; [|lia]. simpl in H10. lia.
Qed.

Lemma log2_fuel z : 0 ≤ z → z < 2 ^ Z.of_nat (S (Z.to_nat (Z.log2 z))).
Proof.
  intros Hz. destruct (Z.eq_dec z 0) as [->|Hne]; [done|].
  rewrite Nat2Z.inj_succ, Z2Nat.id by apply Z.log2_nonneg.
  apply Z.log2_spec. lia.
Qed.

Lemma dec_digits_chars n z acc :
  Forall (λ c, is_ascii_digit c = true) acc →
  Forall (λ c, is_ascii_digit c = true) (dec_digits n z acc).
Proof.
  revert z acc. induction n as [|n IH]; intros z acc H; simpl; [done|].
  assert (Hc : is_ascii_digit (48 + z mod 10) = true).
  { pose proof (Z.mod_pos_bound z 10 ltac:(lia)). unfold is_ascii_digit.
    rewrite andb_true_iff, !Z.leb_le. lia. }
  destruct (z <? 10); auto.
Qed.

(** A non-negative decimal rendering consists of ASCII digits only. *)
Lemma dec_chars z : 0 ≤ z → Forall (λ c, is_ascii_digit c = true) (dec z).
Proof.
  intros Hz. unfold dec. destruct (z <? 0) eqn:E; bool_hyps; [lia|].
  apply dec_digits_chars. constructor.
Qed.

Lemma strip_by_fix f s :
  Forall (λ c, f c = false) s → strip_by f s = s.
Proof.
  intros H. unfold strip_by, rstrip_by.
  rewrite (lstrip_by_fix f s).
  2:{ intros c t ->. by inversion H. }
  rewrite (lstrip_by_fix f (rev s)); [apply rev_involutive|].
  intros c t E. apply List.Forall_rev in H. rewrite E in H. by inversion H.
Qed.

Lemma digit_val_ascii d : 0 ≤ d < 10 → digit_val (48 + d) = Some d.
Proof.
  intros H. unfold digit_val, nd_zeros, List.find.
  assert (E : (48 <=? 48 + d) && (48 + d <=? 48 + 9) = true)
    by (apply andb_true_iff; rewrite !Z.leb_le; lia).
  rewrite E. f_equal. lia.
Qed.

Lemma is_ascii_digit_nospace c : is_ascii_digit c = true → isspace c = false.
Proof.
  unfold is_ascii_digit, isspace. intros H. bool_hyps.
  repeat (apply orb_false_intro); rewrite ?andb_false_iff, ?Z.leb_gt, ?Z.eqb_neq; lia.
Qed.

Lemma int_of_dec ws dv z :
  (∀ c, is_ascii_digit c = true → ws c = false) → (∀ d, 0 ≤ d < 10 → dv (48 + d) = Some d) →
  0 ≤ z → int_of ws dv (dec z) = Some z.
Proof.
  intros Hws Hdv Hz. unfold int_of.
  rewrite strip_by_fix.
  2:{ eapply Forall_impl; [by apply dec_chars|]. exact Hws. }
  unfold dec. destruct (z <? 0) eqn:E; bool_hyps; [lia|].
  destruct (dec_digits_val dv (S (Z.to_nat (Z.log2 z))) z [] Hdv Hz
    (log2_fuel z Hz) 0) as (Hv & _ & (d & t & Ht & Hd)); [lia|].
  rewrite Ht in *. rewrite Z.mul_0_l, Z.add_0_l in Hv.
  assert (Hu : int_unsigned dv ((48 + d) :: t) = Some z).
  { unfold int_unsigned. by rewrite Hdv. }
  destruct (48 + d) as [|p|p] eqn:E48; try lia.
  do 6 (destruct p as [p|p|]; try (exact Hu); try lia).
Qed.

(** [int(str(z)) == z] for a non-negative [z]. *)
Lemma int_dec z : 0 ≤ z → int (dec z) = Some z.
Proof. apply int_of_dec; [apply is_ascii_digit_nospace|apply digit_val_ascii]. Qed.

(** The same for the text as [bytes]. *)
Lemma bint_dec z : 0 ≤ z → bint (dec z) = Some z.
Proof.
  apply int_of_dec.
  - unfold is_ascii_digit, bisspace. intros c H. bool_hyps.
    repeat (apply orb_false_intro); rewrite ?andb_false_iff, ?Z.leb_gt, ?Z.eqb_neq; lia.
  - intros d H. unfold bdigit_val, is_ascii_digit.
    assert (E : (48 <=? 48 + d) && (48 + d <=? 57) = true)
      by (apply andb_true_iff; rewrite !Z.leb_le; lia).
    rewrite E. f_equal. lia.
Qed.

Lemma dec_digits_length n k z acc :
  0 ≤ z < 10 ^ Z.of_nat k → (0 < k)%nat →
  (length (dec_digits n z acc) ≤ k + length acc)%nat.
Proof.
  revert k z acc. induction n as [|n IH]; intros k z acc Hz Hk; simpl; [lia|].
  destruct (Z.ltb_spec z 10); [simpl; lia|].
  destruct k as [|[|k]]; [lia|simpl in Hz; lia|].
  specialize (IH (S k) (z / 10) ((48 + z mod 10) :: acc)). simpl in IH.
  etransitivity; [apply IH|lia]; [|lia].
  rewrite Nat2Z.inj_succ, Z.pow_succ_r in Hz by lia.
  split; [apply Z.div_pos; lia|apply Z.div_lt_upper_bound; lia].
Qed.

(** A number below [10 ^ k] has at most [k] digits, and at least one. *)
Lemma dec_length z k : 0 ≤ z < 10 ^ Z.of_nat k → (0 < k)%nat →
  (0 < length (dec z) ≤ k)%nat.
Proof.
  intros Hz Hk. split.
  - pose proof (int_dec z ltac:(lia)) as H. destruct (dec z); [done|simpl; lia].
  - unfold dec. destruct (z <? 0) eqn:E; bool_hyps; [lia|].
    pose proof (dec_digits_length (S (Z.to_nat (Z.log2 z))) k z [] Hz Hk). simpl length in *. lia.
Qed.

(** *** UTF-8 round trip *)

Definition is_scalar (c : Z) : Prop := 0 ≤ c < 0x110000 ∧ is_surrogate c = false.

#[local] Ltac div_mod_lia :=
  Z.to_euclidean_division_equations; lia.

Lemma is_cont_intro x : 0 ≤ x < 64 → is_cont (0x80 + x) = true.
Proof. intros. unfold is_cont. rewrite andb_true_iff, !Z.leb_le. lia. Qed.

#[local] Ltac decide_test :=
  match goal with
  | |- context [if ?t then _ else _] =>
      first [ let H := fresh in assert (t = true) as H by
                (rewrite ?andb_true_iff, ?orb_true_iff, ?negb_true_iff, ?Z.eqb_neq,
                   ?Z.leb_le, ?Z.ltb_lt; div_mod_lia); rewrite H
            | let H := fresh in assert (t = false) as H by
                (rewrite ?andb_false_iff, ?Z.leb_gt, ?Z.ltb_ge; div_mod_lia); rewrite H ]
  end.

Lemma utf8_decode_encode1 c rest :
  is_scalar c → utf8_decode (utf8_encode1 c ++ rest) = c :: utf8_decode rest.
Proof.
  intros [Hc Hs]. unfold utf8_encode1. rewrite Hs.
  assert (Hns : c < 0xD800 ∨ 0xDFFF < c).
  { unfold is_surrogate in Hs. rewrite andb_false_iff, !Z.leb_gt in Hs. lia. }
  destruct (c <? 0x80) eqn:E1; [simpl; by rewrite E1|]. bool_hyps.
  destruct (c <? 0x800) eqn:E2; [|destruct (c <? 0x10000) eqn:E3]; bool_hyps;
    cbn [utf8_decode app]; unfold is_cont; repeat decide_test; f_equal; div_mod_lia.
Qed.

(** Decoding what was encoded gives the text back. *)
Lemma utf8_decode_encode s : Forall is_scalar s → utf8_decode (utf8_encode s) = s.
Proof.
  induction 1 as [|c s Hc Hs IH]; [done|].
  change (utf8_encode (c :: s)) with (utf8_encode1 c ++ utf8_encode s).
  by rewrite utf8_decode_encode1, IH.
Qed.

(** Literals stay folded in goals; [vm_compute] still evaluates them. *)
#[global] Opaque u bs.

(** Splitting at a single character. *)
Lemma split_none c w : c ∉ w → split [c] w = [w].
Proof.
  unfold split. induction w as [|x w IH]; intros Hw; [done|].
  apply not_elem_of_cons in Hw as [Hx Hw]. simpl. rewrite (proj2 (Z.eqb_neq c x) Hx). simpl.
  by rewrite IH.
Qed.

Lemma split_word c w r : c ∉ w → split [c] (w ++ c :: r) = w :: split [c] r.
Proof.
  unfold split. induction w as [|x w IH]; intros Hw.
  - simpl. by rewrite Z.eqb_refl.
  - apply not_elem_of_cons in Hw as [Hx Hw]. simpl. rewrite (proj2 (Z.eqb_neq c x) Hx). simpl.
    by rewrite IH.
Qed.

Lemma split_join c l : l ≠ [] → Forall (λ w, c ∉ w) l → split [c] (join [c] l) = l.
Proof.
  intros Hl H. induction H as [|w l Hw H IH]; [done|]. destruct l as [|w' l].
  - by apply split_none.
  - change (join [c] (w :: w' :: l)) with (w ++ c :: join [c] (w' :: l)).
    rewrite split_word by done. by rewrite IH.
Qed.

Lemma partition_char c w r : c ∉ w → partition [c] (w ++ c :: r) = (w, [c], r).
Proof.
  intros Hw. unfold partition. rewrite find_char by done. rewrite take_app_length.
  f_equal. rewrite drop_app_ge by (simpl; lia). simpl.
  by replace (length w + 1 - length w)%nat with 1%nat by lia.
Qed.
