(* ===== verification/PyBytes.v ===== *)
(** * Byte strings: integers, slices and strict decoding

    What the programs use of [bytes] beyond the operations they share with
    [str]. *)

From S2P Require Import Prelude PyStr.

(** ** Big-endian integers *)

(** [z.to_bytes(n, "big")] for [0 <= z < 256 ** n]. *)
Fixpoint to_be (n : nat) (z : Z) : pybytes :=
  match n with O => [] | S n' => z / 256 ^ Z.of_nat n' mod 256 :: to_be n' z end.

(** [int.from_bytes(b, "big")]. *)
Definition from_be (b : pybytes) : Z := foldl (λ acc x, acc * 256 + x) 0 b.

Definition len (b : pybytes) : Z := Z.of_nat (length b).

(** [b[i:j]] for offsets within the text. *)
Definition slice (b : pybytes) (i j : nat) : pybytes := take (j - i) (drop i b).

(** ** Decoding *)

(** [bytes.decode("ascii")]. *)
Definition decode_ascii (s : pybytes) : option pystr :=
  if forallb (λ c, c <? 128) s then Some s else None.

(** [bytes.decode("utf-8")]; [None] is [UnicodeDecodeError]. *)
Definition utf8_strict (b : pybytes) : option pystr :=
  let s := utf8_decode b in if str_eqb (utf8_encode s) b then Some s else None.

(** ** Facts *)

Lemma to_be_length n z : length (to_be n z) = n.
Proof. induction n; simpl; [done|]. by f_equal. Qed.

Lemma from_be_acc n z acc :
  0 ≤ z → foldl (λ a x, a * 256 + x) acc (to_be n z) = acc * 256 ^ Z.of_nat n + z mod 256 ^ Z.of_nat n.
Proof.
  intros Hz. revert acc. induction n as [|n IH]; intros acc.
  - simpl. rewrite Z.pow_0_r, Z.mod_1_r. lia.
  - cbn [to_be foldl]. rewrite IH, Nat2Z.inj_succ, Z.pow_succ_r by lia.
    set (p := 256 ^ Z.of_nat n). assert (Hp : 0 < p) by (unfold p; lia).
    rewrite (Z.mul_comm 256 p), Z.rem_mul_r by lia. ring.
Qed.

Lemma from_be_to_be n z : 0 ≤ z < 256 ^ Z.of_nat n → from_be (to_be n z) = z.
Proof. intros H. unfold from_be. rewrite from_be_acc by lia. rewrite Z.mod_small; lia. Qed.

Lemma slice_app pre x post i j : i = length pre → j = (length pre + length x)%nat →
  slice (pre ++ x ++ post) i j = x.
Proof.
  intros -> ->. unfold slice. rewrite drop_app_length.
  replace (length pre + length x - length pre)%nat with (length x) by lia. apply take_app_length.
Qed.

Lemma slice_join b i j k : (i ≤ j ≤ k)%nat → slice b i j ++ slice b j k = slice b i k.
Proof.
  intros H. unfold slice.
  replace (drop j b) with (drop (j - i) (drop i b)) by (rewrite drop_drop; f_equal; lia).
  rewrite <-(take_drop (j - i) (take (k - i) (drop i b))).
  rewrite take_take, Nat.min_l by lia. f_equal.
  rewrite skipn_firstn_comm. f_equal. lia.
Qed.
