(* ===== verification/PyFloat.v ===== *)
(** * Binary floating point

    The few double-precision operations the tools print or schedule with:
    a correctly rounded quotient, its decimal rounding, and the product of a
    decimal literal with an integer, truncated. *)

From S2P Require Import Prelude PyStr.

(** The binary64 value nearest to [n / d] (ties to even) as [m * 2 ^ e], for
    positive [n] and [d] whose quotient is in the normal range. *)
Definition float_div (n d : Z) : Z * Z :=
  let e0 := Z.log2 n - Z.log2 d - 54 in
  let num := if e0 <? 0 then n * 2 ^ (- e0) else n in
  let den := if e0 <? 0 then d else d * 2 ^ e0 in
  let q := num / den in
  let k := Z.log2 q - 52 in
  let m := q / 2 ^ k in
  let twice := 2 * ((q mod 2 ^ k) * den + num mod den) in
  let m' := if (2 ^ k * den <? twice) || ((2 ^ k * den =? twice) && Z.odd m)
            then m + 1 else m in
  (m', e0 + k).

(** Round [m * 2 ^ e * 10] to an integer, ties to even. *)
Definition tenths (me : Z * Z) : Z :=
  let '(m, e) := me in
  if 0 <=? e then m * 2 ^ e * 10
  else let den := 2 ^ (- e) in
       let q := (m * 10) / den in
       let twice := 2 * ((m * 10) mod den) in
       if (den <? twice) || ((den =? twice) && Z.odd q) then q + 1 else q.

(** [int(float(text) * factor)] where [text] denotes the non-negative decimal
    [n / d] and [factor] is a positive integer below [2 ^ 53]. *)
Definition scaled_trunc (n d factor : Z) : Z :=
  if n =? 0 then 0
  else
    let '(m, e) := float_div n d in
    let '(m', e') := if 0 <=? e then float_div (m * factor * 2 ^ e) 1
                     else float_div (m * factor) (2 ^ (- e)) in
    if 0 <=? e' then m' * 2 ^ e' else m' / 2 ^ (- e').

(** A finite double: its sign and the exact magnitude [m * 2 ^ e]. *)
Record flt := mkFlt { f_neg : bool; f_m : Z; f_e : Z }.

(** [n / d] of two integers, for a positive [d]. *)
Definition int_div (n d : Z) : flt :=
  if n =? 0 then mkFlt false 0 0
  else let '(m, e) := float_div (Z.abs n) d in mkFlt (n <? 0) m e.

(** [m * 2 ^ e * 10 ^ k] rounded to an integer, ties to even. *)
Definition round_decimal (k : Z) (m e : Z) : Z :=
  if 0 <=? e then m * 2 ^ e * 10 ^ k
  else let den := 2 ^ (- e) in
       let q := (m * 10 ^ k) / den in
       let twice := 2 * ((m * 10 ^ k) mod den) in
       if (den <? twice) || ((den =? twice) && Z.odd q) then q + 1 else q.

(** The format [.kf] for a positive [k]. *)
Definition fixed (k : nat) (x : flt) : pystr :=
  let p := 10 ^ Z.of_nat k in
  let t := round_decimal (Z.of_nat k) (f_m x) (f_e x) in
  (if f_neg x then [45] else []) ++ dec (t / p) ++ [46] ++ zfill k (dec (t mod p)).
