(* ===== verification/Regex.v ===== *)
(** * Python regular expressions

    A backtracking matcher with Python's priorities (leftmost, greedy or lazy
    repetition, ordered alternation) and capture groups, over [str] and
    [bytes].  Each pattern of the tools is written as a term of type [re].
    The matcher is proved sound and complete for a relational semantics. *)

From S2P Require Import Prelude PyStr.

(** ** Syntax *)

Inductive re : Type :=
| REps
| RChr (p : Z → bool)                       (* one character of a class *)
| RSeq (a b : re)
| RAlt (a b : re)
| RStar (greedy : bool) (a : re)
| RGroup (n : nat) (a : re)                 (* capture group [n] *)
| RAssert (f : option Z → pystr → bool).   (* zero width: previous character, rest *)

Declare Scope re_scope.
Delimit Scope re_scope with re.
Bind Scope re_scope with re.
Notation "a @@ b" := (RSeq a b) (at level 58, right associativity) : re_scope.
Notation "a </> b" := (RAlt a b) (at level 59, right associativity) : re_scope.

(** A literal. *)
Fixpoint lit (s : pystr) : re :=
  match s with
  | [] => REps
  | [c] => RChr (Z.eqb c)
  | c :: t => RSeq (RChr (Z.eqb c)) (lit t)
  end.

Definition star (a : re) : re := RStar true a.
Definition star_lazy (a : re) : re := RStar false a.
Definition plus (a : re) : re := RSeq a (RStar true a).
Definition plus_lazy (a : re) : re := RSeq a (RStar false a).
Definition opt (a : re) : re := RAlt a REps.

(** [a{0,n}] and [a{m,n}], greedy. *)
Fixpoint upto (n : nat) (a : re) : re :=
  match n with O => REps | S n' => RAlt (RSeq a (upto n' a)) REps end.

Fixpoint times (m : nat) (a : re) : re :=
  match m with O => REps | S m' => RSeq a (times m' a) end.

Definition rep (m n : nat) (a : re) : re := RSeq (times m a) (upto (n - m) a).

Fixpoint alts (l : list re) : re :=
  match l with
  | [] => RChr (λ _, false)
  | [a] => a
  | a :: l' => RAlt a (alts l')
  end.

(** ** Character classes and assertions *)

Definition one_of (s : pystr) (c : Z) : bool := existsb (Z.eqb c) s.
Definition none_of (s : pystr) (c : Z) : bool := negb (one_of s c).
Definition range (lo hi : Z) (c : Z) : bool := (lo <=? c) && (c <=? hi).
Definition az (c : Z) : bool := is_lower_az c.
Definition AZ (c : Z) : bool := is_upper_az c.
Definition d09 (c : Z) : bool := is_ascii_digit c.
(** [.] without DOTALL. *)
Definition dot (c : Z) : bool := negb (c =? 10).
(** [\S] of a [str] pattern. *)
Definition nonspace (c : Z) : bool := negb (isspace c).
(** ASCII part of [\w]. *)
Definition ascii_word (c : Z) : bool := az c || AZ c || d09 c || (c =? 95).

(** [\Z], [$] (no MULTILINE), [$] and [^] with MULTILINE. *)
Definition at_end (_ : option Z) (rest : pystr) : bool :=
  match rest with [] => true | _ => false end.
Definition at_dollar (_ : option Z) (rest : pystr) : bool :=
  match rest with [] => true | [10] => true | _ => false end.
Definition at_dollar_m (_ : option Z) (rest : pystr) : bool :=
  match rest with [] => true | c :: _ => c =? 10 end.
Definition at_bol (prev : option Z) (_ : pystr) : bool :=
  match prev with None => true | _ => false end.
Definition at_bol_m (prev : option Z) (_ : pystr) : bool :=
  match prev with None => true | Some c => c =? 10 end.
(** [\b] for a word class. *)
Definition word_boundary (w : Z → bool) (prev : option Z) (rest : pystr) : bool :=
  xorb (match prev with Some c => w c | None => false end)
       (match rest with c :: _ => w c | [] => false end).

(** The characters that match an ASCII lower-case letter under [re.I]. *)
Definition ci (c x : Z) : bool :=
  (x =? c) || (is_lower_az c && (x =? c - 32))
  || ((c =? 105) && ((x =? 304) || (x =? 305))) || ((c =? 115) && (x =? 383))
  || ((c =? 107) && (x =? 8490)).

Fixpoint lit_ci (s : pystr) : re :=
  match s with
  | [] => REps
  | c :: t => RSeq (RChr (ci c)) (lit_ci t)
  end.

(** ** The matcher *)

(** A point of the subject: the previous character, what is left, and the
    captures made so far (latest first). *)
Record mst := Mst { m_prev : option Z; m_rest : pystr; m_caps : list (nat * pystr) }.

Definition shorter (s' s : mst) : bool :=
  Nat.ltb (length (m_rest s')) (length (m_rest s)).

(** The characters between two points. *)
Definition consumed (s s' : mst) : pystr :=
  take (length (m_rest s) - length (m_rest s')) (m_rest s).

Definition add_cap (n : nat) (s s' : mst) : mst :=
  Mst (m_prev s') (m_rest s') ((n, consumed s s') :: m_caps s').

(** Repetition of a body, at most [n] times; an iteration has to consume. *)
Fixpoint star_loop (body : (mst → option mst) → mst → option mst) (greedy : bool)
    (k : mst → option mst) (n : nat) (s : mst) : option mst :=
  match n with
  | O => k s
  | S n' =>
    if greedy then
      match body (λ s', if shorter s' s then star_loop body greedy k n' s' else None) s with
      | Some x => Some x
      | None => k s
      end
    else
      match k s with
      | Some x => Some x
      | None => body (λ s', if shorter s' s then star_loop body greedy k n' s' else None) s
      end
  end.

Fixpoint rm (r : re) (k : mst → option mst) (s : mst) : option mst :=
  match r with
  | REps => k s
  | RChr p =>
    match m_rest s with
    | c :: t => if p c then k (Mst (Some c) t (m_caps s)) else None
    | [] => None
    end
  | RSeq a b => rm a (rm b k) s
  | RAlt a b => match rm a k s with Some x => Some x | None => rm b k s end
  | RStar greedy a => star_loop (rm a) greedy k (length (m_rest s)) s
  | RGroup n a => rm a (λ s', k (add_cap n s s')) s
  | RAssert f => if f (m_prev s) (m_rest s) then k s else None
  end.

Definition start_at (prev : option Z) (s : pystr) : mst := Mst prev s [].

(** [re.match], [re.fullmatch]. *)
Definition rmatch (r : re) (s : pystr) : option mst := rm r Some (start_at None s).
Definition rfullmatch (r : re) (s : pystr) : option mst :=
  rm r (λ st, match m_rest st with [] => Some st | _ => None end) (start_at None s).

(** [m.group(n)]: [None] when the group did not take part. *)
Fixpoint assoc_nat (n : nat) (l : list (nat * pystr)) : option pystr :=
  match l with
  | [] => None
  | (k, v) :: l' => if Nat.eqb k n then Some v else assoc_nat n l'
  end.
Definition group (n : nat) (m : mst) : option pystr := assoc_nat n (m_caps m).
Definition group_ (n : nat) (m : mst) : pystr := from_opt [] (group n m).

(** [re.search] from a point: the offset of the match, its text and its end. *)
Fixpoint rsearch_from (r : re) (prev : option Z) (s : pystr) : option (nat * pystr * mst) :=
  match rm r Some (start_at prev s) with
  | Some m => Some (O, consumed (start_at prev s) m, m)
  | None =>
    match s with
    | [] => None
    | c :: t =>
      match rsearch_from r (Some c) t with
      | Some (i, w, m) => Some (S i, w, m)
      | None => None
      end
    end
  end.
Definition rsearch (r : re) (s : pystr) : option (nat * pystr * mst) := rsearch_from r None s.

(** [re.finditer]: non-overlapping matches from the left, with their offsets.
    After an empty match the scan moves one character on. *)
Fixpoint rfinditer_go (fuel : nat) (r : re) (off : nat) (prev : option Z) (s : pystr)
    : list (nat * pystr * mst) :=
  match fuel with
  | O => []
  | S f =>
    match rsearch_from r prev s with
    | None => []
    | Some (i, w, m) =>
      (off + i, w, m)%nat ::
      match w with
      | [] =>
        match m_rest m with
        | [] => []
        | c :: t => rfinditer_go f r (S (off + i)) (Some c) t
        end
      | _ => rfinditer_go f r (off + i + length w) (m_prev m) (m_rest m)
      end
    end
  end.
Definition rfinditer (r : re) (s : pystr) : list (nat * pystr * mst) :=
  rfinditer_go (S (length s)) r O None s.

(** [re.sub(r, repl, s)] for a constant replacement, on the matches found. *)
Fixpoint sub_go (repl : pystr) (off : nat) (ms : list (nat * pystr * mst)) (s : pystr) : pystr :=
  match ms with
  | [] => s
  | (i, w, _) :: ms' =>
    take (i - off) s ++ repl ++ sub_go repl (i + length w) ms' (drop (i - off + length w) s)
  end.
Definition rsub (r : re) (repl s : pystr) : pystr := sub_go repl O (rfinditer r s) s.

(** The pieces between the matches, [re.split] for a pattern without groups. *)
Fixpoint rsplit_go (off : nat) (ms : list (nat * pystr * mst)) (s : pystr) : list pystr :=
  match ms with
  | [] => [s]
  | (i, w, _) :: ms' =>
    take (i - off) s :: rsplit_go (i + length w) ms' (drop (i - off + length w) s)
  end.
Definition rsplit (r : re) (s : pystr) : list pystr := rsplit_go O (rfinditer r s) s.

(** ** Relational semantics *)

Inductive Rm : re → mst → mst → Prop :=
| Rm_eps s : Rm REps s s
| Rm_chr p s c t : m_rest s = c :: t → p c = true →
    Rm (RChr p) s (Mst (Some c) t (m_caps s))
| Rm_seq a b s s1 s2 : Rm a s s1 → Rm b s1 s2 → Rm (RSeq a b) s s2
| Rm_alt_l a b s s' : Rm a s s' → Rm (RAlt a b) s s'
| Rm_alt_r a b s s' : Rm b s s' → Rm (RAlt a b) s s'
| Rm_star_nil g a s : Rm (RStar g a) s s
| Rm_star_cons g a s s1 s2 : Rm a s s1 → shorter s1 s = true →
    Rm (RStar g a) s1 s2 → Rm (RStar g a) s s2
| Rm_group n a s s' : Rm a s s' → Rm (RGroup n a) s (add_cap n s s')
| Rm_assert f s : f (m_prev s) (m_rest s) = true → Rm (RAssert f) s s.

#[export] Hint Constructors Rm : py.

(** The matcher only returns matches. *)
Lemma rm_sound r k s o : rm r k s = Some o → ∃ s', Rm r s s' ∧ k s' = Some o.
Proof.
  revert k s o. induction r as [|p|a IHa b IHb|a IHa b IHb|g a IHa|n a IHa|f];
    intros k s o; simpl.
  - intros H. exists s. eauto with py.
  - destruct (m_rest s) as [|c t] eqn:E; [done|]. destruct (p c) eqn:Ep; [eauto with py|done].
  - intros (s1 & H1 & (s2 & H2 & Hk)%IHb)%IHa. eauto with py.
  - destruct (rm a k s) eqn:E.
    + intros [= <-]. apply IHa in E as (s' & H & Hk). eauto with py.
    + intros (s' & H & Hk)%IHb. eauto with py.
  - generalize (length (m_rest s)) as n. intros n. revert s.
    induction n as [|n IHn]; intros s; simpl; [eauto with py|].
    assert (Hmore : rm a (λ s', if shorter s' s then star_loop (rm a) g k n s' else None) s
      = Some o → ∃ s', Rm (RStar g a) s s' ∧ k s' = Some o).
    { intros (s1 & H1 & Hl)%IHa. destruct (shorter s1 s) eqn:E; [|done].
      apply IHn in Hl as (s' & H & Hk). eauto with py. }
    destruct g.
    + destruct (rm a _ s); [intros [= ->]; auto | eauto with py].
    + destruct (k s) eqn:Ek; [intros [= <-]; eauto with py | auto].
  - intros (s' & H & Hk)%IHa. eauto with py.
  - destruct (f _ _) eqn:E; [eauto with py | done].
Qed.

(** The number of iterations of a star is bounded by what is left. *)
Lemma rm_star_complete g a k s s' n :
  (∀ k s s', Rm a s s' → is_Some (k s') → is_Some (rm a k s)) →
  Rm (RStar g a) s s' → is_Some (k s') → (length (m_rest s) ≤ n)%nat →
  is_Some (star_loop (rm a) g k n s).
Proof.
  intros IHa H. remember (RStar g a) as r eqn:Er. revert n.
  induction H as [| | | | |g' a' s|g' a' s s1 s2 H1 _ Hs H2 IH| |]; try done;
    injection Er as -> ->; intros n Hk Hn.
  - destruct n; [done|]. simpl. destruct g.
    + destruct (rm a _ s); [eauto | exact Hk].
    + destruct Hk as [x ->]. eauto.
  - apply Nat.ltb_lt in Hs as Hlt. destruct n as [|n]; [lia|].
    assert (Hm : is_Some (rm a (λ s', if shorter s' s then star_loop (rm a) g k n s'
      else None) s)).
    { eapply IHa; [exact H1|]. simpl. rewrite Hs. apply IH; [done|done|lia]. }
    destruct Hm as [x Hm]. simpl. rewrite Hm. destruct g; [eauto|]. destruct (k s); eauto.
Qed.

(** The matcher finds a match when there is one the continuation accepts. *)
Lemma rm_complete r k s s' : Rm r s s' → is_Some (k s') → is_Some (rm r k s).
Proof.
  revert k s s'. induction r as [|p|a IHa b IHb|a IHa b IHb|g a IHa|n a IHa|f];
    intros k s s' H Hk; simpl.
  - by inversion H; subst.
  - inversion H as [|? ? c t E Ep| | | | | | |]; subst. by rewrite E, Ep.
  - inversion H; subst. eauto.
  - inversion H; subst.
    + destruct (IHa k s s') as [x ->]; done.
    + destruct (rm a k s); [done|]. eauto.
  - eapply rm_star_complete; eauto.
  - inversion H; subst. eapply IHa; eauto.
  - inversion H as [| | | | | | | |? ? Hf]; subst. by rewrite Hf.
Qed.

(** [re.fullmatch] succeeds exactly on the strings of the language. *)
Lemma rfullmatch_iff r s :
  is_Some (rfullmatch r s) ↔ ∃ st, Rm r (start_at None s) st ∧ m_rest st = [].
Proof.
  unfold rfullmatch. split.
  - intros [o (st & H & Hk)%rm_sound]. exists st. by destruct (m_rest st).
  - intros (st & H & Hr). eapply rm_complete; [exact H|]. by rewrite Hr.
Qed.

Lemma rmatch_iff r s : is_Some (rmatch r s) ↔ ∃ st, Rm r (start_at None s) st.
Proof.
  unfold rmatch. split.
  - intros [o (st & H & _)%rm_sound]. eauto.
  - intros (st & H). eapply rm_complete; [exact H | done].
Qed.

(** What a match leaves is a suffix of what it was given. *)
Lemma Rm_suffix r s s' : Rm r s s' → ∃ w, m_rest s = w ++ m_rest s'.
Proof.
  induction 1 as [s|p s c t E Ep|a b s s1 s2 _ [w1 E1] _ [w2 E2]|a b s s' _ IH|a b s s' _ IH
    |g a s|g a s s1 s2 _ [w1 E1] _ _ [w2 E2]|n a s s' _ IH|f s Hf]; simpl;
    try (by exists []); try done.
  - exists [c]. by rewrite E.
  - exists (w1 ++ w2). by rewrite E1, E2, app_assoc.
  - exists (w1 ++ w2). by rewrite E1, E2, app_assoc.
Qed.

Lemma consumed_app w s s' : m_rest s = w ++ m_rest s' → consumed s s' = w.
Proof.
  intros E. unfold consumed. rewrite E, length_app.
  replace (length w + length (m_rest s') - length (m_rest s'))%nat with (length w) by lia.
  by rewrite take_app_length.
Qed.

(** Every character class of the pattern lies inside [P]. *)
Fixpoint re_chars (P : Z → Prop) (r : re) : Prop :=
  match r with
  | REps | RAssert _ => True
  | RChr p => ∀ c, p c = true → P c
  | RSeq a b | RAlt a b => re_chars P a ∧ re_chars P b
  | RStar _ a | RGroup _ a => re_chars P a
  end.

Lemma re_chars_upto P n a : re_chars P a → re_chars P (upto n a).
Proof. intros H. induction n; simpl; auto. Qed.

Lemma re_chars_times P n a : re_chars P a → re_chars P (times n a).
Proof. intros H. induction n; simpl; auto. Qed.

Lemma Rm_chars P r s s' : Rm r s s' → re_chars P r → ∃ w, m_rest s = w ++ m_rest s' ∧ Forall P w.
Proof.
  induction 1 as [s|p s c t E Ep|a b s s1 s2 _ IH1 _ IH2|a b s s' _ IH|a b s s' _ IH
    |g a s|g a s s1 s2 _ IH1 _ _ IH2|n a s s' _ IH|f s Hf]; simpl; intros Hr;
    try (by exists []); try naive_solver.
  - exists [c]. split; [done|]. by constructor; [apply Hr|].
  - destruct Hr as [Ha Hb]. destruct (IH1 Ha) as (w1 & E1 & F1). destruct (IH2 Hb) as (w2 & E2 & F2).
    exists (w1 ++ w2). rewrite E1, E2, app_assoc. split; [done|]. by apply Forall_app.
  - destruct (IH1 Hr) as (w1 & E1 & F1). destruct (IH2 Hr) as (w2 & E2 & F2).
    exists (w1 ++ w2). rewrite E1, E2, app_assoc. split; [done|]. by apply Forall_app.
Qed.

Lemma rfullmatch_chars P r s : is_Some (rfullmatch r s) → re_chars P r → Forall P s.
Proof.
  intros (st & H & E)%rfullmatch_iff Hr. destruct (Rm_chars P _ _ _ H Hr) as (w & Ew & Hw).
  rewrite E, app_nil_r in Ew. simpl in Ew. by subst.
Qed.

(** ** Captures *)

Fixpoint groups (r : re) : list nat :=
  match r with
  | REps | RChr _ | RAssert _ => []
  | RSeq a b | RAlt a b => groups a ++ groups b
  | RStar _ a => groups a
  | RGroup n a => n :: groups a
  end.

(** A match only adds captures of the groups of its pattern. *)
Lemma Rm_caps r s s' : Rm r s s' →
  ∃ caps, m_caps s' = caps ++ m_caps s ∧ Forall (λ kv, kv.1 ∈ groups r) caps.
Proof.
  induction 1 as [s|p s c t E Ep|a b s s1 s2 _ (c1 & E1 & F1) _ (c2 & E2 & F2)
    |a b s s' _ (c & E & F)|a b s s' _ (c & E & F)|g a s
    |g a s s1 s2 _ (c1 & E1 & F1) _ _ (c2 & E2 & F2)|n a s s' _ (c & E & F)|f s Hf]; simpl;
    try (by exists []).
  - exists (c2 ++ c1). rewrite E2, E1, app_assoc. split; [done|]. apply Forall_app. split.
    + eapply Forall_impl; [exact F2|]. intros kv. rewrite elem_of_app. auto.
    + eapply Forall_impl; [exact F1|]. intros kv. rewrite elem_of_app. auto.
  - exists c. split; [done|]. eapply Forall_impl; [exact F|]. intros kv. rewrite elem_of_app. auto.
  - exists c. split; [done|]. eapply Forall_impl; [exact F|]. intros kv. rewrite elem_of_app. auto.
  - exists (c2 ++ c1). rewrite E2, E1, app_assoc. split; [done|]. by apply Forall_app.
  - exists ((n, consumed s s') :: c). rewrite E. split; [done|]. constructor; [left|].
    eapply Forall_impl; [exact F|]. intros kv. by right.
Qed.

Lemma Rm_lit w s s' : Rm (lit w) s s' → m_rest s = w ++ m_rest s'.
Proof.
  revert s. induction w as [|c w IH]; intros s.
  - by inversion 1.
  - assert (Hc : ∀ s1, Rm (RChr (Z.eqb c)) s s1 → m_rest s = c :: m_rest s1).
    { intros s1 H. inversion H as [|? ? x t E Ep| | | | | | |]; subst. apply Z.eqb_eq in Ep as ->.
      by rewrite E. }
    destruct w as [|c' w]; [apply Hc|].
    intros H. change (Rm (RSeq (RChr (Z.eqb c)) (lit (c' :: w))) s s') in H.
    inversion H as [| |? ? ? s1 ? H1 H2| | | | | |]; subst.
    rewrite (Hc _ H1), (IH _ H2). done.
Qed.

Lemma Rm_alts_lit ws s s' : Rm (alts (lit <$> ws)) s s' → ∃ w, w ∈ ws ∧ m_rest s = w ++ m_rest s'.
Proof.
  induction ws as [|w ws IH]; [inversion 1 as [|? ? ? ? ? Hf| | | | | | |]; done|].
  destruct ws as [|w' ws].
  - intros H%Rm_lit. exists w. split; [left|done].
  - intros H. change (Rm (RAlt (lit w) (alts (lit <$> w' :: ws))) s s') in H.
    inversion H as [| | |? ? ? ? H1|? ? ? ? H1| | | |]; subst.
    + exists w. split; [left|by apply Rm_lit].
    + destruct (IH H1) as (x & Hx & E). exists x. split; [by right|done].
Qed.

Lemma assoc_nat_skip n l l' : Forall (λ kv : nat * pystr, kv.1 ≠ n) l →
  assoc_nat n (l ++ l') = assoc_nat n l'.
Proof.
  induction 1 as [|[k v] l Hk Hl IH]; [done|]. simpl in *.
  destruct (Nat.eqb_spec k n); [done|]. exact IH.
Qed.

(** A group of alternative words captures one of them. *)
Lemma group_words l n ws k s m : n ∉ groups k →
  rfullmatch (RSeq l (RSeq (RGroup n (alts (lit <$> ws))) k)) s = Some m → group_ n m ∈ ws.
Proof.
  intros Hk H. unfold rfullmatch in H. apply rm_sound in H as (st & H & E).
  destruct (m_rest st); [|done]. injection E as <-.
  inversion H as [| |? ? ? s1 ? _ H2| | | | | |]; subst. clear H.
  inversion H2 as [| |? ? ? s2 ? H3 H4| | | | | |]; subst. clear H2.
  inversion H3 as [| | | | | | |? ? ? s3 H5|]; subst.
  destruct (Rm_caps _ _ _ H4) as (caps & Ec & Hc). apply Rm_alts_lit in H5 as (w & Hw & Er).
  unfold group_, group. rewrite Ec. rewrite assoc_nat_skip.
  - simpl. rewrite Nat.eqb_refl. simpl. by rewrite (consumed_app w).
  - eapply Forall_impl; [exact Hc|]. intros kv Hkv <-. by apply Hk.
Qed.

(** ** Searching *)

(** The character before a suffix. *)
Definition prev_of (prev : option Z) (w : pystr) : option Z :=
  match last w with Some c => Some c | None => prev end.

Lemma prev_of_cons prev c w : prev_of prev (c :: w) = prev_of (Some c) w.
Proof. unfold prev_of. rewrite last_cons. by destruct (last w). Qed.

(** [re.search] succeeds exactly when the pattern matches at some position. *)
Lemma rsearch_iff r prev s : is_Some (rsearch_from r prev s) ↔
  ∃ a b st, s = a ++ b ∧ Rm r (start_at (prev_of prev a) b) st.
Proof.
  revert prev. induction s as [|c s IH]; intros prev; cbn [rsearch_from].
  all: destruct (rm r Some (start_at prev _)) as [m|] eqn:E.
  - split; [|by eauto]. intros _. apply rm_sound in E as (st & H & _). exists [], [], st. done.
  - split; [by intros [? ?]|]. intros (a & b & st & Ha & H). symmetry in Ha. apply app_nil in Ha as [-> ->].
    destruct (rm_complete _ Some _ _ H) as [x Hx]; [done|]. cbn in Hx. congruence.
  - split; [|by eauto]. intros _. apply rm_sound in E as (st & H & _). exists [], (c :: s), st. done.
  - assert (Hs : is_Some (match rsearch_from r (Some c) s with
      | Some (i, w, m) => Some (S i, w, m) | None => None end) ↔ is_Some (rsearch_from r (Some c) s)).
    { destruct (rsearch_from r (Some c) s) as [[[i w] m]|]; split; eauto; by intros [? ?]. }
    rewrite Hs, IH. split.
    + intros (a & b & st & -> & H). exists (c :: a), b, st. by rewrite prev_of_cons.
    + intros ([|c' a] & b & st & Ha & H); simpl in Ha.
      * subst b. destruct (rm_complete _ Some _ _ H) as [x Hx]; [done|]. cbn in Hx. congruence.
      * injection Ha as <- ->. exists a, b, st. by rewrite prev_of_cons in H.
Qed.

(** Reading a literal, and characters of a class. *)
Lemma Rm_read_lit w prev r caps : Rm (lit w) (Mst prev (w ++ r) caps) (Mst (prev_of prev w) r caps).
Proof.
  revert prev. induction w as [|c [|c' w] IH]; intros prev.
  - constructor.
  - apply (Rm_chr _ (Mst prev (c :: r) caps) c r); [done|]. apply Z.eqb_refl.
  - rewrite prev_of_cons. change (lit (c :: c' :: w)) with (RSeq (RChr (Z.eqb c)) (lit (c' :: w))).
    eapply Rm_seq; [|apply IH].
    apply (Rm_chr _ (Mst prev (c :: (c' :: w) ++ r) caps) c); [done|]. apply Z.eqb_refl.
Qed.

Lemma Rm_read_star g p w prev r caps : Forall (λ c, p c = true) w →
  Rm (RStar g (RChr p)) (Mst prev (w ++ r) caps) (Mst (prev_of prev w) r caps).
Proof.
  intros Hw. revert prev. induction Hw as [|c w Hc _ IH]; intros prev; [constructor|].
  rewrite prev_of_cons. eapply Rm_star_cons; [| |apply IH].
  - by apply (Rm_chr _ (Mst prev (c :: w ++ r) caps) c).
  - apply Nat.ltb_lt. simpl. lia.
Qed.
