(* ===== verification/Base64.v ===== *)
(** * Base64

    [base64.b64encode] and [base64.b64decode(..., validate=True)] as the tools
    use them, with the round trip and the length of an encoding. *)

From S2P Require Import Prelude PyStr.

Definition b64_char (v : Z) : Z :=
  if v <? 26 then 65 + v
  else if v <? 52 then 71 + v
  else if v <? 62 then v - 4
  else if v =? 62 then 43 else 47.

Definition b64_val (c : Z) : option Z :=
  if is_upper_az c then Some (c - 65)
  else if is_lower_az c then Some (c - 71)
  else if is_ascii_digit c then Some (c + 4)
  else if c =? 43 then Some 62
  else if c =? 47 then Some 63
  else None.

Fixpoint b64encode (l : pybytes) : pybytes :=
  match l with
  | [] => []
  | [x] => [b64_char (x / 4); b64_char (x mod 4 * 16); 61; 61]
  | [x; y] =>
    [b64_char (x / 4); b64_char (x mod 4 * 16 + y / 16); b64_char (y mod 16 * 4); 61]
  | x :: y :: z :: l' =>
    [b64_char (x / 4); b64_char (x mod 4 * 16 + y / 16);
     b64_char (y mod 16 * 4 + z / 64); b64_char (z mod 64)] ++ b64encode l'
  end.

(** [binascii.a2b_base64(s, strict_mode=True)]: [q] characters of the current
    quantum have been read and [left] holds the bits not yet emitted; [pads]
    counts padding and [padded] says that padding has started.  [None] is
    [binascii.Error]. *)
Fixpoint a2b (q left pads : Z) (padded : bool) (s : pybytes) : option pybytes :=
  match s with
  | [] => if q =? 0 then Some [] else None
  | c :: t =>
    if c =? 61 then
      if 2 <=? q then
        if 4 <=? q + (pads + 1) then match t with [] => Some [] | _ => None end
        else a2b q left (pads + 1) true t
      else a2b q left pads true t
    else
      match b64_val c with
      | None => None
      | Some v =>
        if padded then None
        else if q =? 0 then a2b 1 v 0 false t
        else if q =? 1 then
          match a2b 2 (v mod 16) 0 false t with
          | Some r => Some ((left * 4 + v / 16) :: r)
          | None => None
          end
        else if q =? 2 then
          match a2b 3 (v mod 4) 0 false t with
          | Some r => Some ((left * 16 + v / 4) :: r)
          | None => None
          end
        else
          match a2b 0 0 0 false t with
          | Some r => Some ((left * 64 + v) :: r)
          | None => None
          end
      end
  end.

Definition b64decode (s : pybytes) : option pybytes :=
  match s with
  | 61 :: _ => None
  | _ => a2b 0 0 0 false s
  end.

Definition is_byte (x : Z) : Prop := 0 ≤ x < 256.

(** ** Facts *)

#[local] Ltac dm := Z.to_euclidean_division_equations; lia.

Lemma b64_val_char v : 0 ≤ v < 64 → b64_val (b64_char v) = Some v.
Proof.
  intros H. unfold b64_char, b64_val, is_upper_az, is_lower_az, is_ascii_digit.
  repeat case_match; bool_hyps; try (f_equal; lia);
    repeat match goal with H : _ && _ = false |- _ => apply andb_false_iff in H end;
    rewrite ?Z.leb_gt in *; try lia.
Qed.

Lemma b64_char_not_pad v : 0 ≤ v < 64 → (b64_char v =? 61) = false.
Proof. intros H. apply Z.eqb_neq. unfold b64_char. repeat case_match; bool_hyps; lia. Qed.

Lemma a2b_char q left v t :
  0 ≤ v < 64 →
  a2b q left 0 false (b64_char v :: t) =
  (if q =? 0 then a2b 1 v 0 false t
   else if q =? 1 then cons (left * 4 + v / 16) <$> a2b 2 (v mod 16) 0 false t
   else if q =? 2 then cons (left * 16 + v / 4) <$> a2b 3 (v mod 4) 0 false t
   else cons (left * 64 + v) <$> a2b 0 0 0 false t).
Proof.
  intros H. simpl. rewrite b64_char_not_pad, b64_val_char by done.
  repeat case_match; done.
Qed.

(** Decoding an encoding gives the bytes back; three bytes at a time. *)
Lemma a2b_encode n l : (length l ≤ n)%nat → Forall is_byte l →
  a2b 0 0 0 false (b64encode l) = Some l.
Proof.
  revert l. induction n as [|n IH]; intros l Hn Hl.
  { destruct l; [done|simpl in Hn; lia]. }
  unfold is_byte in Hl.
  destruct l as [|x [|y [|z l]]]; [done|..]; cbn [b64encode app];
    repeat match goal with H : Forall _ (_ :: _) |- _ => inversion_clear H end.
  - rewrite !a2b_char by dm. simpl. do 2 f_equal. dm.
  - rewrite !a2b_char by dm. simpl. repeat f_equal; dm.
  - rewrite !a2b_char by dm. simpl.
    rewrite IH; [|simpl in Hn; lia|done]. simpl. repeat f_equal; dm.
Qed.

Lemma b64decode_encode l : Forall is_byte l → b64decode (b64encode l) = Some l.
Proof.
  intros Hl. rewrite <-(a2b_encode (length l) l) by done. unfold b64decode.
  destruct (b64encode l) as [|c t] eqn:E; [done|].
  assert (Hc : c ≠ 61).
  { unfold is_byte in Hl. destruct l as [|x [|y [|z l']]]; simpl in E; [done|..];
      injection E as <- _; inversion_clear Hl;
      apply Z.eqb_neq, b64_char_not_pad; dm. }
  by destruct c as [|p|p]; try done; do 6 (destruct p as [p|p|]; try done).
Qed.

Lemma b64encode_length n l : (length l ≤ n)%nat →
  length (b64encode l) = (4 * ((length l + 2) / 3))%nat.
Proof.
  revert l. induction n as [|n IH]; intros l Hn.
  { destruct l; [done|simpl in Hn; lia]. }
  destruct l as [|x [|y [|z l]]]; [done..|].
  cbn [b64encode]. rewrite length_app, IH by (simpl in Hn; lia). simpl length.
  replace (S (S (S (length l))) + 2)%nat with (length l + 2 + 1 * 3)%nat by lia.
  rewrite Nat.div_add by lia. lia.
Qed.
