(* ===== verification/AnnounceProjects.v ===== *)
(** * tools/announce_bot.py: configuration, palette and watched projects

    The module-level constants, the [Project] table, the shell commands built
    from the repository paths and the resolution of project names. *)

From S2P Require Import Prelude PyStr.

(** ** Environment configuration *)

(** [os.environ] as a finite map. *)
Abbreviation environ := (gmap pystr pystr) (only parsing).

Definition env_get (e : environ) (k d : pystr) : pystr := from_opt d (e !! k).

Definition _env (e : environ) (new old default : pystr) : pystr :=
  env_get e new (env_get e old default).

Record Config := mkConfig {
  SERVER : pystr;
  PORT : option Z;            (* [None]: [int] raises at import *)
  NICK : pystr;
  CHANNEL : pystr;
  ADMIN : pystr;
  PASSWORD : pystr;
  SASL_USER : pystr;
  SASL_PASS : pystr;
  DEBUG : bool }.

Definition config_of (e : environ) : Config :=
  let PASSWORD := _env e (u "ANNOUNCE_PASS") (u "ORO_PASS") [] in
  {| SERVER := _env e (u "ANNOUNCE_SERVER") (u "ORO_SERVER") (u "127.0.0.1");
     PORT := int (_env e (u "ANNOUNCE_PORT") (u "ORO_PORT") (u "6667"));
     NICK := _env e (u "ANNOUNCE_NICK") (u "ORO_NICK") (u "Announce");
     CHANNEL := _env e (u "ANNOUNCE_CHANNEL") (u "ORO_CHANNEL") (u "#root");
     ADMIN := _env e (u "ANNOUNCE_ADMIN") (u "ORO_ADMIN") [];
     PASSWORD := PASSWORD;
     SASL_USER := _env e (u "ANNOUNCE_SASL_USER") (u "ORO_SASL_USER") [];
     SASL_PASS := _env e (u "ANNOUNCE_SASL_PASS") (u "ORO_SASL_PASS") PASSWORD;
     DEBUG := nonempty (_env e (u "ANNOUNCE_DEBUG") (u "ORO_DEBUG") []) |}.

(** Clock readings are integers of microseconds. *)
Definition SECOND : Z := 1000000.
Definition POLL_SECS : Z := 15 * SECOND.
Definition HEARTBEAT_SECS : Z := 6 * 3600 * SECOND.
Definition SEND_INTERVAL : Z := 400000.
Definition RECONNECT_MIN : Z := 6.
Definition RECONNECT_MAX : Z := 300.
Definition MAX_MESSAGE_TEXT_BYTES : nat := 360.
Definition WANT_CAPS : gset pystr :=
  {[u "server-time"; u "message-tags"; u "account-tag"; u "echo-message"]}.
Definition VERSION : pystr :=
  u "Announce-bot 3.2 (async build inventory · Onyx SolidJS · Onyx Server Zig)".
Definition PROTECTED_TOPIC_CHANNELS : list pystr := [u "#root"].

(** ** mIRC formatting *)

Definition C : pystr := [3].
Definition B : pystr := [2].
Definition U : pystr := [31].
Definition RST : pystr := [15].
Definition WHITE : pystr := C ++ u "00".
Definition BLACK : pystr := C ++ u "01".
Definition NAVY : pystr := C ++ u "02".
Definition GREEN : pystr := C ++ u "03".
Definition RED : pystr := C ++ u "04".
Definition MAROON : pystr := C ++ u "05".
Definition PURPLE : pystr := C ++ u "06".
Definition ORANGE : pystr := C ++ u "07".
Definition YEL : pystr := C ++ u "08".
Definition LGREEN : pystr := C ++ u "09".
Definition TEAL : pystr := C ++ u "10".
Definition CYAN : pystr := C ++ u "11".
Definition BLUE : pystr := C ++ u "12".
Definition PINK : pystr := C ++ u "13".
Definition GREY : pystr := C ++ u "14".
Definition SILVER : pystr := C ++ u "15".
Definition MAG : pystr := PINK.

(** Lookup in a table keyed by strings. *)
Fixpoint assoc {V} (k : pystr) (l : list (pystr * V)) : option V :=
  match l with
  | [] => None
  | (k', v) :: l' => if str_eqb k k' then Some v else assoc k l'
  end.

Definition TYPE_COLOR : list (pystr * pystr) :=
  [(u "feat", LGREEN); (u "fix", RED); (u "docs", CYAN); (u "refactor", PINK);
   (u "test", GREEN); (u "chore", SILVER); (u "perf", YEL); (u "build", BLUE);
   (u "ci", GREY); (u "style", PURPLE); (u "revert", ORANGE)].

Definition TYPE_GLYPH : list (pystr * pystr) :=
  [(u "feat", [0x2728]); (u "fix", [0x1f41b]); (u "docs", [0x1f4dd]);
   (u "refactor", [0x267b; 0xfe0f]); (u "test", [0x2705]); (u "chore", [0x1f527]);
   (u "perf", [0x26a1]); (u "build", [0x1f3d7; 0xfe0f]); (u "ci", [0x1f916]);
   (u "style", [0x1f3a8]); (u "revert", [0x23ea])].

(** ** Shell commands *)

(** [shlex.quote]. *)
Definition shell_safe (c : Z) : bool :=
  is_lower_az c || is_upper_az c || is_ascii_digit c
  || existsb (Z.eqb c) (u "_@%+=:,./-").

Definition quote (s : pystr) : pystr :=
  match s with
  | [] => [39; 39]
  | _ => if forallb shell_safe s then s
         else [39] ++ replace [39] ([39; 34; 39; 34; 39]) s ++ [39]
  end.

Definition prune_dirs : pystr :=
  u " -type d \( -name node_modules -o -name .next -o -name out "
  ++ u "-o -name dist -o -name .git -o -name .wt -o -name .claude -o -name coverage \) ".

Definition _quoted_find_tsx (repo : pystr) : pystr :=
  u "find " ++ quote repo ++ prune_dirs
  ++ u "-prune -o -type f -name '*.tsx' -print | wc -l".

Definition _quoted_loc_ts (repo : pystr) : pystr :=
  u "find " ++ quote repo ++ prune_dirs
  ++ u "-prune -o -type f \( -name '*.ts' -o -name '*.tsx' \) -print0 | "
  ++ u "xargs -0 -r cat 2>/dev/null | wc -l".

Definition _quoted_test_files_ts (repo : pystr) : pystr :=
  u "find " ++ quote repo ++ prune_dirs
  ++ u "-prune -o -type f \( -name '*.test.ts' -o -name '*.test.tsx' "
  ++ u "-o -name '*.spec.ts' -o -name '*.spec.tsx' \) -print | wc -l".

Definition _quoted_test_blocks_zig (repo : pystr) : pystr :=
  u "find " ++ quote repo ++ u "/src -type f -name '*.zig' -exec "
  ++ u "grep -hE '^[[:space:]]*test[[:space:]]+" ++ [34]
  ++ u "' {} + 2>/dev/null | wc -l".

Definition _quoted_find_zig (repo : pystr) : pystr :=
  u "find " ++ quote repo ++ u "/src -name '*.zig' ! -name 'root.zig' | wc -l".

Definition _quoted_loc_zig (repo : pystr) : pystr :=
  u "find " ++ quote repo
  ++ u "/src -name '*.zig' ! -name 'root.zig' -exec cat {} + | wc -l".

(** ** Projects *)

Record Project := mkProject {
  key : pystr; name : pystr; emoji : pystr; accent : pystr; repo : pystr;
  module_label : pystr; module_cmd : pystr; loc_cmd : pystr; test_cmd : pystr;
  test_label : pystr; stats_suffix : pystr; topic_label : pystr;
  user_realname : pystr; p_project_lines : list pystr; roadmap : list pystr;
  progress_text : pystr }.

Definition ONYX_REPO : pystr := u "/home/kain/onyx".
Definition ONYX_SERVER_REPO : pystr := u "/home/kain/onyx-server".

Definition ONYX : Project := {|
  key := u "onyx"; name := u "Onyx"; emoji := [0x1f48e]; accent := BLUE;
  repo := ONYX_REPO; module_label := u "components";
  module_cmd := _quoted_find_tsx ONYX_REPO;
  loc_cmd := _quoted_loc_ts ONYX_REPO;
  test_cmd := _quoted_test_files_ts ONYX_REPO;
  test_label := u "test files"; stats_suffix := u "Solid+Vite";
  topic_label := u "Onyx"; user_realname := u "Onyx build announcer";
  p_project_lines := [
    B ++ BLUE ++ [0x1f48e] ++ u " Onyx" ++ RST
      ++ u " — first-party web client for the Onyx network. "
      ++ u "SolidJS, dark-luxury, mesh-native chat + realtime media (Vite + Solid signals).";
    u "IRCv3/IRCX over WebSocket, SASL + SESSION-TOKEN resume, local-first vault, "
      ++ u "Home catch-up, E2EE DMs, Cadence voice/video (hop-honest; no fake padlock).";
    u "Headline: deep theming + " ++ B ++ u "Theme Studio" ++ RST
      ++ u " + animated backgrounds · "
      ++ u "View Transitions · on-device hybrid search · time-native jump.";
    u "Built max-parallel (Claude + Codex). repo: " ++ ONYX_REPO ];
  roadmap := [
    u "Era 0 substrate ✔ · vault · push · E2EE DM · Cadence control plane";
    u "Era 1 thesis-visible: Home strata · jump-to-date · passkey primary · ribbon More";
    u "Era 2 app-complete: multi-device session · full MEDIA UI · channel admin";
    u "Era 3 moat: group E2EE · files · mention push · hierarchy" ];
  progress_text :=
    B ++ u "live" ++ RST
      ++ u ": vault + Home · passkeys · labeled-response · Cadence shield · "
      ++ u "ribbon More. static test inventory={tests}, components={modules}. "
      ++ u "Next: cold vault paint polish, A10 binary release, Era 2 multi-device." |}.

Definition ONYX_SERVER : Project := {|
  key := u "onyx-server"; name := u "Onyx Server"; emoji := [0x1f409]; accent := MAG;
  repo := ONYX_SERVER_REPO; module_label := u "modules";
  module_cmd := _quoted_find_zig ONYX_SERVER_REPO;
  loc_cmd := _quoted_loc_zig ONYX_SERVER_REPO;
  test_cmd := _quoted_test_blocks_zig ONYX_SERVER_REPO;
  test_label := u "test blocks"; stats_suffix := u "zig 0.17";
  topic_label := u "Onyx Server"; user_realname := u "Onyx Server build announcer";
  p_project_lines := [
    B ++ MAG ++ [0x1f409] ++ u " Onyx Server" ++ RST
      ++ u " — pure-Zig IRC/IRCX daemon (AGPL). "
      ++ u "Formerly codenamed Orochi; same engine, honest name.";
    u "IRCv3/IRCX + accounts/SASL, multi-session bouncer, Event Spine, and Cadence "
      ++ u "media conferencing (rooms, roster, hop-secured SFU path).";
    u "Mesh = Undertow CRDT over Mooring secure S2S, Warden anti-abuse, MEMO "
      ++ u "offline mail / Web Push. One static musl binary, zero external deps.";
    u "Built max-parallel (Claude + Codex). repo: " ++ ONYX_SERVER_REPO ];
  roadmap := [
    u "core ✔ · IRCv3/IRCX ✔ · accounts/SASL ✔ · multi-session bouncer ✔ · "
      ++ u "host-cloak/VHOST/CHGHOST ✔";
    u "Warden + flood/clone ✔ · media plane ✔ · MEMO/Web Push ✔ · Helix USR2 ✔";
    u "mesh: Undertow CRDT + Mooring S2S + anti-entropy";
    u "next: public GitHub Release binary (A10) · operator packaging polish" ];
  progress_text :=
    B ++ u "live" ++ RST ++ u ": accounts/SASL · multi-session · media plane · "
      ++ u "mesh + Helix. static test inventory={tests}, modules={modules}. "
      ++ u "Next: attested release artifact, deeper services." |}.

Definition PROJECTS : list Project := [ONYX; ONYX_SERVER].

(** The dictionary in insertion order; a later binding replaces an earlier one. *)
Definition alias_bindings : list (pystr * Project) :=
  (PROJECTS ≫= λ p, [(key p, p); (lower (name p), p)])
  ++ [(u "orochi", ONYX_SERVER); (u "server", ONYX_SERVER);
      (u "daemon", ONYX_SERVER); (u "onyxserver", ONYX_SERVER)].

Definition PROJECTS_BY_ALIAS (token : pystr) : option Project :=
  assoc token (rev alias_bindings).

(** Empty argument: every project; a known alias: that project; otherwise
    [None], which the caller reports. *)
Definition select_projects (arg : pystr) : option (list Project) :=
  let token := lower (strip arg) in
  if negb (nonempty token) then Some PROJECTS
  else match PROJECTS_BY_ALIAS token with
       | Some p => Some [p]
       | None => None
       end.

(** ** Facts *)

Lemma assoc_elem {V} k (l : list (pystr * V)) v : assoc k l = Some v → (k, v) ∈ l.
Proof.
  induction l as [|[k' v'] l IH]; simpl; [done|].
  destruct (str_eqb k k') eqn:E.
  - intros [= ->]. apply str_eqb_eq in E as ->. left.
  - intros H. right. auto.
Qed.

Lemma alias_values k p : (k, p) ∈ alias_bindings → p ∈ PROJECTS.
Proof.
  unfold alias_bindings. rewrite elem_of_app, list_elem_of_bind.
  intros [(q & Hq & Hin)|H].
  - rewrite !elem_of_cons, elem_of_nil in Hq. destruct Hq as [Hq|[Hq|[]]];
      injection Hq as _ ->; done.
  - assert (p = ONYX_SERVER) as ->.
    { rewrite !elem_of_cons, elem_of_nil in H.
      repeat destruct H as [H|H]; try (injection H as _ ->); done. }
    right. left.
Qed.

Lemma PROJECTS_BY_ALIAS_known token p : PROJECTS_BY_ALIAS token = Some p → p ∈ PROJECTS.
Proof.
  unfold PROJECTS_BY_ALIAS. intros H%assoc_elem. apply (alias_values token).
  rewrite list_elem_of_In in *. by apply in_rev in H.
Qed.

(** Every selection is a non-empty list of watched projects. *)
Lemma select_projects_sub arg ps :
  select_projects arg = Some ps → ps ≠ [] ∧ ∀ p, p ∈ ps → p ∈ PROJECTS.
Proof.
  unfold select_projects. destruct (nonempty _); simpl; [|by intros [= <-]].
  destruct (PROJECTS_BY_ALIAS _) as [q|] eqn:E; [|done].
  intros [= <-]. split; [done|]. intros p ->%list_elem_of_singleton.
  by eapply PROJECTS_BY_ALIAS_known.
Qed.
