(* ===== verification/AnnounceText.v ===== *)
(** * tools/announce_bot.py: text handling

    The pure helpers of the bot: formatting of counts and times, commit
    classification, message splitting within the IRC budget, and the guard on
    protected topics.  The theorems bound every chunk in bytes and show that
    splitting loses no character but spaces. *)

From S2P Require Import Prelude PyStr PyFloat Regex AnnounceProjects.

(** ** Numbers *)

(** The format [.1f] of a non-negative number of tenths. *)
Definition fixed1 (t : Z) : pystr := dec (t / 10) ++ u "." ++ dec (t mod 10).

Definition _format_loc (value : pystr) : pystr :=
  match int value with
  | Some n => if 1000 <=? n then fixed1 (tenths (float_div n 1000)) ++ u "k" else dec n
  | None => value
  end.

(** [uptime()] for a number of elapsed microseconds, [int] truncating. *)
Definition uptime_text (elapsed : Z) : pystr :=
  let s := Z.quot elapsed SECOND in
  let d := s / 86400 in
  let s := s mod 86400 in
  let h := s / 3600 in
  let s := s mod 3600 in
  let m := s / 60 in
  let s := s mod 60 in
  (if d =? 0 then [] else dec d ++ u "d ")
  ++ dec h ++ u "h " ++ dec m ++ u "m " ++ dec s ++ u "s".

(** ** Commits *)

Open Scope re_scope.

Definition re_digits : re := RGroup 1 (plus (RChr is_digit)).
Definition re_files : re := re_digits @@ lit (u " file") @@ opt (lit (u "s")) @@ lit (u " changed").
Definition re_insertions : re := re_digits @@ lit (u " insertion") @@ opt (lit (u "s")).
Definition re_deletions : re := re_digits @@ lit (u " deletion") @@ opt (lit (u "s")).

Definition search_group1 (r : re) (s : pystr) : option pystr :=
  match rsearch r s with
  | Some (_, _, m) => Some (group_ 1 m)
  | None => None
  end.

(** [commit_stat] from the output of git. *)
Definition commit_stat_text (out : pystr) : pystr :=
  let parts :=
    match search_group1 re_files out with
    | Some n => [SILVER ++ n ++ RST ++ u " file" ++ (if str_eqb n (u "1") then [] else u "s")]
    | None => []
    end
    ++ match search_group1 re_insertions out with
       | Some n => [B ++ GREEN ++ u "+" ++ n ++ RST]
       | None => []
       end
    ++ match search_group1 re_deletions out with
       | Some n => [B ++ RED ++ u "-" ++ n ++ RST]
       | None => []
       end in
  match parts with [] => u "no file changes" | _ => join (u " ") parts end.

(** The optional parenthesised scope, not captured. *)
Definition re_scope : re := opt (lit (u "(") @@ star (RChr (none_of (u ")"))) @@ lit (u ")")).

Definition re_type : re :=
  RGroup 1 (plus (RChr az)) @@ re_scope @@ opt (lit (u "!")) @@ lit (u ":").

Definition commit_type (subject : pystr) : pystr :=
  match rmatch re_type subject with Some m => group_ 1 m | None => [] end.

(** [re.sub(r"^[a-z]+(?:\([^)]*\))?!?:\s*", "", subj)]. *)
Definition re_prefix : re :=
  RAssert at_bol @@ plus (RChr az) @@ re_scope @@ opt (lit (u "!")) @@ lit (u ":")
  @@ star (RChr isspace).

Definition re_scope_of : re :=
  RAssert at_bol @@ plus (RChr az) @@ lit (u "(") @@ RGroup 1 (plus (RChr (none_of (u ")"))))
  @@ lit (u ")") @@ opt (lit (u "!")) @@ lit (u ":").

Close Scope re_scope.

Definition commit_clean (subj : pystr) : pystr :=
  if nonempty (commit_type subj) then rsub re_prefix [] subj else subj.

Definition commit_scope (subj : pystr) : pystr :=
  match rmatch re_scope_of subj with Some m => group_ 1 m | None => [] end.

(** ** Message splitting *)

Definition byte_len (text : pystr) : nat := utf8_len text.

(** The inner loop of [split_text]: one word longer than the limit. *)
Fixpoint split_word (limit : nat) (chunks : list pystr) (piece word : pystr)
    : list pystr * pystr :=
  match word with
  | [] => (chunks, piece)
  | ch :: word' =>
    if Nat.ltb limit (byte_len (piece ++ [ch])) then
      split_word limit (if nonempty piece then chunks ++ [piece] else chunks) [ch] word'
    else split_word limit chunks (piece ++ [ch]) word'
  end.

(** The loop of [split_text] over the words. *)
Fixpoint split_words (limit : nat) (chunks : list pystr) (cur : pystr) (words : list pystr)
    : list pystr :=
  match words with
  | [] => if nonempty cur then chunks ++ [cur] else chunks
  | word :: words' =>
    if negb (nonempty word) then split_words limit chunks cur words'
    else
      let candidate := if nonempty cur then cur ++ u " " ++ word else word in
      if Nat.leb (byte_len candidate) limit then split_words limit chunks candidate words'
      else
        let chunks := if nonempty cur then chunks ++ [cur] else chunks in
        if Nat.leb (byte_len word) limit then split_words limit chunks word words'
        else
          let '(chunks, piece) := split_word limit chunks [] word in
          split_words limit chunks piece words'
  end.

Definition split_text (text : pystr) (limit : nat) : list pystr :=
  if Nat.leb (byte_len text) limit then [text]
  else split_words limit [] [] (split (u " ") text).

(** [re.sub(r"\s+", " ", line).strip()]. *)
Definition squeeze (line : pystr) : pystr :=
  strip (rsub (plus (RChr isspace)) (u " ") line).

(** Lines that squeeze to something. *)
Definition cleaned (lines : list pystr) : list pystr :=
  List.filter nonempty (squeeze <$> lines).

Definition sep : pystr := u " " ++ GREY ++ u "|" ++ RST ++ u " ".

Fixpoint compact_parts (limit : nat) (chunks : list pystr) (cur : pystr) (parts : list pystr)
    : list pystr :=
  match parts with
  | [] => if nonempty cur then chunks ++ [cur] else chunks
  | part :: parts' =>
    let candidate := if nonempty cur then cur ++ sep ++ part else part in
    if Nat.leb (byte_len candidate) limit then compact_parts limit chunks candidate parts'
    else compact_parts limit (if nonempty cur then chunks ++ [cur] else chunks) part parts'
  end.

Definition compact (lines : list pystr) (limit : nat) : list pystr :=
  compact_parts limit [] [] (cleaned lines ≫= λ line, split_text line limit).

(** The hard cap of [channel_say]: [None] when [fuel] is not enough. *)
Fixpoint cap_text (fuel : nat) (text : pystr) : option pystr :=
  if Nat.leb (byte_len text) MAX_MESSAGE_TEXT_BYTES then Some text
  else match fuel with
       | O => None
       | S f => cap_text f (rstrip (take (1 `max` (length text - 8)) text) ++ [0x2026])
       end.

(** ** Topic guard *)

Definition topic_protected (channel : pystr) : bool :=
  mem (lower channel) PROTECTED_TOPIC_CHANNELS.

Definition topic_change_protected (line : pystr) : bool :=
  match split_ws (strip line) with
  | p0 :: p1 :: _ =>
    if negb (mem (upper p0) [u "TOPIC"; u "FORCETOPIC"]) then false else topic_protected p1
  | _ => false
  end.

(** ** Facts about splitting *)

(** A text without its spaces. *)
Definition unspaced (s : pystr) : pystr := List.filter (λ c, negb (c =? 32)) s.

Lemma unspaced_app s t : unspaced (s ++ t) = unspaced s ++ unspaced t.
Proof. apply List.filter_app. Qed.

Lemma unspaced_join l : unspaced (join (u " ") l) = unspaced (concat l).
Proof.
  induction l as [|x [|y l] IH]; [done|simpl; by rewrite app_nil_r|].
  change (join (u " ") (x :: y :: l)) with (x ++ u " " ++ join (u " ") (y :: l)).
  change (concat (x :: y :: l)) with (x ++ concat (y :: l)).
  by rewrite !unspaced_app, IH.
Qed.

Lemma nonempty_false s : nonempty s = false ↔ s = [].
Proof. by destruct s. Qed.

Lemma nonempty_true s : nonempty s = true ↔ s ≠ [].
Proof. by destruct s. Qed.

(** Appending [cur] when it is not empty loses and adds nothing. *)
Lemma concat_flush chunks cur :
  concat (if nonempty cur then chunks ++ [cur] else chunks) = concat chunks ++ cur.
Proof. destruct cur; simpl; [by rewrite app_nil_r|]. rewrite concat_app. simpl. by rewrite app_nil_r. Qed.

Section SplitBounds.
Context (limit : nat) (Hlimit : (4 ≤ limit)%nat).

#[local] Definition fits (c : pystr) : Prop := (byte_len c ≤ limit)%nat.

Lemma flush_fits chunks cur :
  Forall fits chunks → fits cur →
  Forall fits (if nonempty cur then chunks ++ [cur] else chunks).
Proof. intros. destruct (nonempty cur); auto with py. Qed.

Lemma single_fits c : fits [c].
Proof.
  unfold fits, byte_len. rewrite utf8_len_single. pose proof (utf8_len1_bounds c). lia.
Qed.

Lemma nil_fits : fits [].
Proof. unfold fits, byte_len. rewrite utf8_len_nil. lia. Qed.

Lemma split_word_fits word chunks piece :
  Forall fits chunks → fits piece →
  Forall fits (split_word limit chunks piece word).1
  ∧ fits (split_word limit chunks piece word).2.
Proof.
  revert chunks piece. induction word as [|c word IH]; intros chunks piece Hc Hp; simpl; [done|].
  destruct (Nat.ltb_spec limit (byte_len (piece ++ [c]))); apply IH;
    auto using flush_fits, single_fits.
Qed.

Lemma split_words_fits words chunks cur :
  Forall fits chunks → fits cur → Forall fits (split_words limit chunks cur words).
Proof.
  revert chunks cur. induction words as [|w words IH]; intros chunks cur Hc Hcur; simpl.
  - by apply flush_fits.
  - destruct (nonempty w); simpl; [|auto].
    set (cand := if nonempty cur then _ else w).
    destruct (Nat.leb_spec (byte_len cand) limit); [apply IH; auto|].
    destruct (Nat.leb_spec (byte_len w) limit); [apply IH; auto using flush_fits|].
    pose proof (split_word_fits w _ [] (flush_fits chunks cur Hc Hcur) nil_fits) as [H1 H2].
    destruct (split_word _ _ _ _) as [cs p]. by apply IH.
Qed.

Lemma split_text_fits text : Forall fits (split_text text limit).
Proof.
  unfold split_text. destruct (Nat.leb_spec (byte_len text) limit).
  - by constructor.
  - apply split_words_fits; [constructor|apply nil_fits].
Qed.

Lemma split_parts_fit lines : Forall fits (lines ≫= λ line, split_text line limit).
Proof.
  induction lines as [|l lines IH]; simpl; [constructor|].
  apply Forall_app. split; [apply split_text_fits|done].
Qed.

Lemma compact_parts_fits parts chunks cur :
  Forall fits parts → Forall fits chunks → fits cur →
  Forall fits (compact_parts limit chunks cur parts).
Proof.
  intros Hp. revert chunks cur. induction Hp as [|p parts Hf Hp IH]; intros chunks cur Hc Hcur; simpl.
  - by apply flush_fits.
  - set (cand := if nonempty cur then _ else p).
    destruct (Nat.leb_spec (byte_len cand) limit); apply IH; auto using flush_fits.
Qed.

End SplitBounds.

Lemma split_word_content limit word chunks piece :
  concat (split_word limit chunks piece word).1 ++ (split_word limit chunks piece word).2
  = concat chunks ++ piece ++ word.
Proof.
  revert chunks piece. induction word as [|c word IH]; intros chunks piece; simpl.
  - by rewrite app_nil_r.
  - destruct (Nat.ltb _ _); rewrite IH.
    + rewrite concat_flush, <-!app_assoc. done.
    + by rewrite <-!app_assoc.
Qed.

Lemma split_words_content limit words chunks cur :
  unspaced (concat (split_words limit chunks cur words))
  = unspaced (concat chunks ++ cur ++ concat words).
Proof.
  revert chunks cur. induction words as [|w words IH]; intros chunks cur; simpl.
  - by rewrite concat_flush, app_nil_r.
  - destruct (nonempty w) eqn:Ew; simpl.
    2:{ apply nonempty_false in Ew as ->. by rewrite IH. }
    set (cand := if nonempty cur then _ else w).
    assert (Hcand : unspaced cand = unspaced (cur ++ w)).
    { subst cand. destruct cur; simpl nonempty; [done|]. by rewrite !unspaced_app. }
    destruct (Nat.leb _ _).
    { rewrite IH. rewrite !unspaced_app in *. rewrite Hcand. by rewrite <-!app_assoc. }
    destruct (Nat.leb _ _).
    { rewrite IH, concat_flush. by rewrite <-!app_assoc. }
    pose proof (split_word_content limit w (if nonempty cur then chunks ++ [cur] else chunks) [])
      as Hw. destruct (split_word _ _ _ _) as [cs p]. simpl in Hw.
    rewrite IH, !app_assoc, Hw, concat_flush. by rewrite <-!app_assoc.
Qed.

Lemma split_text_content text limit :
  unspaced (concat (split_text text limit)) = unspaced text.
Proof.
  unfold split_text. destruct (Nat.leb _ _); [simpl; by rewrite app_nil_r|].
  rewrite split_words_content. simpl.
  rewrite <-unspaced_join, join_split by done. done.
Qed.

(** Chunks are never empty. *)
#[local] Definition full (c : pystr) : Prop := c ≠ [].

Lemma flush_full chunks cur :
  Forall full chunks → Forall full (if nonempty cur then chunks ++ [cur] else chunks).
Proof. intros. destruct cur; simpl; [done|]. apply Forall_snoc; [done|]. by unfold full. Qed.

Lemma split_word_full limit word chunks piece :
  Forall full chunks → Forall full (split_word limit chunks piece word).1.
Proof.
  revert chunks piece. induction word as [|c word IH]; intros chunks piece Hc; simpl; [done|].
  destruct (Nat.ltb _ _); apply IH; auto using flush_full.
Qed.

Lemma split_words_full limit words chunks cur :
  Forall full chunks → Forall full (split_words limit chunks cur words).
Proof.
  revert chunks cur. induction words as [|w words IH]; intros chunks cur Hc; simpl.
  - by apply flush_full.
  - destruct (nonempty w); simpl; [|auto].
    destruct (Nat.leb _ _); [auto|]. destruct (Nat.leb _ _); [auto using flush_full|].
    pose proof (split_word_full limit w _ [] (flush_full chunks cur Hc)) as H.
    destruct (split_word _ _ _ _). auto.
Qed.

Lemma split_text_full text limit : text ≠ [] → Forall full (split_text text limit).
Proof.
  intros. unfold split_text. destruct (Nat.leb _ _); [by constructor|].
  apply split_words_full. constructor.
Qed.

Lemma join_snoc s l x : l ≠ [] → join s (l ++ [x]) = join s l ++ s ++ x.
Proof.
  induction l as [|y [|z l] IH]; intros Hl; [done|done|].
  change ((y :: z :: l) ++ [x]) with (y :: ((z :: l) ++ [x])).
  assert (H : join s (y :: ((z :: l) ++ [x])) = y ++ s ++ join s ((z :: l) ++ [x])) by done.
  rewrite H, IH by done. simpl. by rewrite <-!app_assoc.
Qed.

Lemma join_full s l : l ≠ [] → Forall full l → join s l ≠ [].
Proof.
  destruct l as [|x [|y l]]; [done| |].
  - intros _ H. by inversion H.
  - intros _ H. inversion H as [|? ? Hx _]; subst. simpl. by destruct x.
Qed.

Lemma compact_parts_groups limit parts gs g :
  Forall full (g ++ parts) →
  ∃ gs', compact_parts limit (join sep <$> gs) (join sep g) parts = join sep <$> gs'
         ∧ concat gs' = concat gs ++ g ++ parts.
Proof.
  revert gs g. induction parts as [|p parts IH]; intros gs g Hf; cbn [compact_parts].
  - destruct g as [|x g].
    + exists gs. by rewrite !app_nil_r.
    + rewrite (proj2 (nonempty_true _)).
      2:{ rewrite app_nil_r in Hf. by apply join_full. }
      exists (gs ++ [x :: g]). rewrite fmap_app, concat_app. simpl. by rewrite !app_nil_r.
  - assert (Hp : Forall full ([] ++ [p] ++ parts)).
    { apply Forall_app in Hf as [_ Hf]. done. }
    destruct g as [|x g].
    { cbn [join nonempty]. destruct (Nat.leb _ _);
      (destruct (IH gs [p] Hp) as (gs' & H1 & H2); exists gs'; split; [exact H1|exact H2]). }
    assert (Hg : join sep (x :: g) ≠ []).
    { apply join_full; [done|]. by apply Forall_app in Hf as [Hf _]. }
    rewrite (proj2 (nonempty_true _) Hg).
    destruct (Nat.leb _ _).
    + rewrite <-join_snoc by done.
      destruct (IH gs ((x :: g) ++ [p])) as (gs' & H1 & H2).
      { by rewrite <-app_assoc. }
      exists gs'. split; [exact H1|]. by rewrite H2, <-app_assoc.
    + destruct (IH (gs ++ [x :: g]) [p] Hp) as (gs' & H1 & H2).
      exists gs'. split.
      * rewrite fmap_app in H1. exact H1.
      * rewrite H2, concat_app. simpl. rewrite app_nil_r. by rewrite <-app_assoc.
Qed.

Lemma cleaned_full lines : Forall full (cleaned lines).
Proof.
  apply Forall_forall. intros l Hl. unfold cleaned in Hl.
  rewrite list_elem_of_In, filter_In in Hl. by apply nonempty_true, Hl.
Qed.

Lemma compact_parts_full limit lines :
  Forall full (cleaned lines ≫= λ line, split_text line limit).
Proof.
  induction (cleaned_full lines) as [|l ls Hl _ IH]; simpl; [done|].
  apply Forall_app. split; [by apply split_text_full|done].
Qed.

(** ** The hard cap *)

Lemma cap_text_step text :
  (MAX_MESSAGE_TEXT_BYTES < byte_len text)%nat →
  let t' := rstrip (take (1 `max` (length text - 8)) text) ++ [0x2026] in
  (length t' < length text)%nat ∧ t' ≠ [].
Proof.
  intros H t'. unfold byte_len, MAX_MESSAGE_TEXT_BYTES in H.
  pose proof (utf8_len_length text). split.
  - subst t'. rewrite length_app. simpl.
    pose proof (rstrip_by_length isspace (take (1 `max` (length text - 8)) text)) as Hr.
    unfold rstrip. rewrite length_take in Hr. lia.
  - subst t'. by destruct (rstrip _).
Qed.

Lemma cap_text_total fuel text :
  (length text ≤ fuel)%nat →
  ∃ t, cap_text fuel text = Some t ∧ (byte_len t ≤ MAX_MESSAGE_TEXT_BYTES)%nat
       ∧ (text ≠ [] → t ≠ [])
       ∧ ((byte_len text ≤ MAX_MESSAGE_TEXT_BYTES)%nat → t = text).
Proof.
  revert text. induction fuel as [|f IH]; intros text Hf; simpl;
    destruct (Nat.leb_spec (byte_len text) MAX_MESSAGE_TEXT_BYTES) as [Hl|Hl]; eauto.
  - apply cap_text_step in Hl as [Hl _]. lia.
  - destruct (cap_text_step text Hl) as [Hlen Hne].
    destruct (IH (rstrip (take (1 `max` (length text - 8)) text) ++ [0x2026])) as (t & E & Hb & Hn & _);
      [lia|].
    exists t. split; [exact E|]. split; [done|]. split; [auto|lia].
Qed.

(** ** Facts about the topic guard *)

(** A line whose first word is another command passes the guard. *)
Lemma guard_other_command p x :
  nonempty p && forallb (λ c, negb (isspace c)) p
    && negb (mem (upper p) [u "TOPIC"; u "FORCETOPIC"]) = true →
  topic_change_protected (p ++ 32 :: x) = false.
Proof.
  intros [[Hne%nonempty_true Hsp]%andb_prop Hm]%andb_prop.
  destruct (split_ws_first p x Hne) as [ws E].
  { apply Forall_forall. intros c Hc. apply negb_true_iff.
    by apply (proj1 (forallb_elem _ _) Hsp). }
  unfold topic_change_protected. rewrite E. destruct ws as [|w1 ws]; [done|].
  by rewrite Hm.
Qed.

(** The guard sees through letter case and surrounding blanks. *)
Lemma guard_topic_words line cmd chan ws :
  split_ws (strip line) = cmd :: chan :: ws →
  topic_change_protected line =
  mem (upper cmd) [u "TOPIC"; u "FORCETOPIC"] && mem (lower chan) PROTECTED_TOPIC_CHANNELS.
Proof.
  intros E. unfold topic_change_protected, topic_protected. rewrite E.
  by destruct (mem (upper cmd) _).
Qed.

Lemma say_budget text : ∃ t,
  cap_text (length (strip text)) (strip text) = Some t
  ∧ (byte_len t ≤ MAX_MESSAGE_TEXT_BYTES)%nat ∧ (strip text ≠ [] → t ≠ []).
Proof.
  destruct (cap_text_total (length (strip text)) (strip text)) as (t & H1 & H2 & H3 & _); [lia|].
  by exists t.
Qed.
