(* ===== verification/AnnounceInventory.v ===== *)
(** * tools/announce_bot.py: build inventory

    [collect_inventory] against an environment that answers subprocess calls,
    and [InventoryCache] as a labelled transition system in which the locked
    sections of the requesters and the steps of the worker thread interleave.  The invariant is that a
    project key is outstanding at most once and exactly when it is marked. *)

From S2P Require Import Prelude PyStr AnnounceProjects AnnounceText.

(** ** Measurements *)

Record BuildInventory := mkInventory {
  modules : pystr; test_blocks : pystr; loc : pystr; commits : pystr;
  head : pystr; dirty : bool; measured_at : Z }.

(** [BuildInventory()]: the default of every field. *)
Definition pending_inventory : BuildInventory :=
  {| modules := u "pending"; test_blocks := u "pending"; loc := u "pending";
     commits := u "?"; head := []; dirty := false; measured_at := 0 |}.

(** What the process sees of the outside.  Every call is answered by an
    arbitrary function of the number of the call, so that two calls may see a
    different repository, clock or cache. *)
Record World := mkWorld {
  w_git : nat → list pystr → option pystr;   (* stdout of the command; [None]: it raised *)
  w_shell : nat → pystr → option pystr;      (* stdout of [bash -lc]; [None]: it raised *)
  w_time : nat → Z;                           (* [time.time()], in microseconds *)
  w_isdir : nat → pystr → bool;
  w_inventory : nat → pystr → BuildInventory; (* [INVENTORY.get] by key *)
  w_strftime : nat → pystr;
  w_connect : nat → bool }.                   (* whether [create_connection] succeeds *)

Definition git_answer (p : Project) (a : list pystr) (ans : list pystr → option pystr) : pystr :=
  match ans ([u "git"; u "-C"; repo p] ++ a) with
  | Some out => strip out
  | None => []
  end.

Definition git_at (w : World) (n : nat) (p : Project) (a : list pystr) : pystr :=
  git_answer p a (w_git w n).

(** [x or d] for strings. *)
Definition or_ (x d : pystr) : pystr := if nonempty x then x else d.

Definition _shell_count (w : World) (n : nat) (cmd : pystr) : pystr :=
  match w_shell w n cmd with
  | Some out => or_ (strip out) (u "?")
  | None => u "?"
  end.

(** Seven calls, numbered from [n]. *)
Definition collect_inventory (w : World) (n : nat) (p : Project) : BuildInventory :=
  {| modules := _shell_count w n (module_cmd p);
     test_blocks := _shell_count w (n + 1) (test_cmd p);
     loc := _format_loc (_shell_count w (n + 2) (loc_cmd p));
     commits := or_ (git_at w (n + 3) p [u "rev-list"; u "--count"; u "HEAD"]) (u "?");
     head := git_at w (n + 4) p [u "rev-parse"; u "HEAD"];
     dirty := nonempty (git_at w (n + 5) p [u "status"; u "--porcelain=v1"]);
     measured_at := w_time w (n + 6) |}.

(** ** The cache *)

Module InventoryCache.

(** Where the worker thread is: not yet started; waiting in [get]; in the
    periodic refresh, with the projects still to request, possibly between the
    locked section of [request] and its [put]; measuring a key; or ended by an
    exception. *)
Inductive Worker :=
| Absent
| Waiting
| Refreshing (todo : list pystr)
| Putting (k : pystr) (todo : list pystr)
| Measuring (k : pystr)
| Dead.

(** [inflight] holds the keys of the other threads that have left the locked
    section of [request] and have not yet called [put]. *)
Record State := mkState {
  started : bool;
  items : gmap pystr BuildInventory;
  queued : gset pystr;
  inflight : list pystr;
  requests : list pystr;
  worker : Worker }.

Definition init : State :=
  {| started := false; items := ∅; queued := ∅; inflight := []; requests := []; worker := Absent |}.

Definition get (s : State) (k : pystr) : BuildInventory :=
  from_opt pending_inventory (items s !! k).

Inductive Label :=
| LStart                                     (* locked section of [start] *)
| LSpawn                                     (* its [Thread.start] *)
| LRequest (k : pystr)                       (* locked section of [request] *)
| LPut (k : pystr)                           (* [_requests.put] *)
| LTake                                      (* the worker's [_requests.get] *)
| LEmpty                                     (* the same, timed out *)
| LRefresh                                   (* the worker's own [request], locked *)
| LRefreshPut                                (* and its [put] *)
| LStore (item : BuildInventory).            (* the worker's locked section *)

(** The steps of the worker thread. *)
Definition of_worker (l : Label) : bool :=
  match l with LTake | LEmpty | LRefresh | LRefreshPut | LStore _ => true | _ => false end.

(** Remove the first occurrence. *)
Fixpoint remove_first (k : pystr) (l : list pystr) : list pystr :=
  match l with
  | [] => []
  | x :: l' => if str_eqb k x then l' else x :: remove_first k l'
  end.

(** The loop over the projects, at its head. *)
Definition refreshing (todo : list pystr) : Worker :=
  match todo with [] => Waiting | _ => Refreshing todo end.

Section Cache.
Context (projects : list pystr).             (* the keys of [_projects] *)

Definition step (s : State) (l : Label) : option State :=
  match l with
  | LStart =>
    Some (if started s then s
          else mkState true (items s) (queued s) (inflight s) (requests s) (worker s))
  | LSpawn =>
    match started s, worker s with
    | true, Absent => Some (mkState true (items s) (queued s) (inflight s) (requests s) Waiting)
    | _, _ => None
    end
  | LRequest k =>
    Some (if bool_decide (k ∈ queued s) then s
          else mkState (started s) (items s) ({[k]} ∪ queued s) (inflight s ++ [k])
                 (requests s) (worker s))
  | LPut k =>
    if mem k (inflight s)
    then Some (mkState (started s) (items s) (queued s) (remove_first k (inflight s))
                 (requests s ++ [k]) (worker s))
    else None
  | LTake =>
    match worker s, requests s with
    | Waiting, k :: q =>
      Some (mkState (started s) (items s) (queued s) (inflight s) q
              (if mem k projects then Measuring k else Dead))
    | _, _ => None
    end
  | LEmpty =>
    match worker s, requests s with
    | Waiting, [] =>
      Some (mkState (started s) (items s) (queued s) (inflight s) [] (refreshing projects))
    | _, _ => None
    end
  | LRefresh =>
    match worker s with
    | Refreshing (k :: todo) =>
      Some (if bool_decide (k ∈ queued s)
            then mkState (started s) (items s) (queued s) (inflight s) (requests s) (refreshing todo)
            else mkState (started s) (items s) ({[k]} ∪ queued s) (inflight s) (requests s) (Putting k todo))
    | _ => None
    end
  | LRefreshPut =>
    match worker s with
    | Putting k todo =>
      Some (mkState (started s) (items s) (queued s) (inflight s) (requests s ++ [k]) (refreshing todo))
    | _ => None
    end
  | LStore item =>
    match worker s with
    | Measuring k =>
      Some (mkState (started s) (<[k := item]> (items s)) (queued s ∖ {[k]}) (inflight s)
              (requests s) Waiting)
    | _ => None
    end
  end.

Fixpoint run (s : State) (ls : list Label) : option State :=
  match ls with
  | [] => Some s
  | l :: ls' => match step s l with Some s' => run s' ls' | None => None end
  end.

(** The requests of the program are for the projects of the cache. *)
Definition known (l : Label) : Prop :=
  match l with LRequest k => k ∈ projects | _ => True end.

Inductive reachable : State → Prop :=
| reach_init : reachable init
| reach_step s l s' : reachable s → known l → step s l = Some s' → reachable s'.

(** Every key somewhere on its way to a measurement. *)
Definition held (w : Worker) : list pystr :=
  match w with Measuring k => [k] | Putting k _ => [k] | _ => [] end.
Definition outstanding (s : State) : list pystr :=
  held (worker s) ++ requests s ++ inflight s.

(** The projects the worker has still to refresh. *)
Definition todo_of (w : Worker) : list pystr :=
  match w with Refreshing todo | Putting _ todo => todo | _ => [] end.

(** No key is outstanding twice, the outstanding keys are those marked as
    queued and known, and the worker is alive. *)
Record Inv (s : State) : Prop := mkInv {
  inv_nodup : NoDup (outstanding s);
  inv_queued : ∀ k, k ∈ queued s ↔ k ∈ outstanding s;
  inv_known : ∀ k, k ∈ outstanding s ++ todo_of (worker s) → k ∈ projects;
  inv_todo : (length (todo_of (worker s)) ≤ length projects)%nat;
  inv_alive : worker s ≠ Dead;
  inv_loop : worker s ≠ Refreshing [] }.

Lemma remove_first_perm k l : k ∈ l → l ≡ₚ k :: remove_first k l.
Proof.
  induction l as [|x l IH]; intros H; [by apply elem_of_nil in H|]. simpl.
  destruct (str_eqb k x) eqn:E; [by apply str_eqb_eq in E as ->|].
  apply str_eqb_neq in E. apply elem_of_cons in H as [->|H]; [done|].
  rewrite (IH H) at 1. apply Permutation_swap.
Qed.

Lemma held_refreshing todo : held (refreshing todo) = [] ∧ todo_of (refreshing todo) = todo
  ∧ refreshing todo ≠ Dead ∧ refreshing todo ≠ Refreshing [].
Proof. by destruct todo. Qed.

(** A step that permutes the outstanding keys. *)
Lemma inv_perm s s' : Inv s → queued s' = queued s → outstanding s' ≡ₚ outstanding s →
  (∀ k, k ∈ todo_of (worker s') → k ∈ projects) → (length (todo_of (worker s')) ≤ length projects)%nat →
  worker s' ≠ Dead → worker s' ≠ Refreshing [] → Inv s'.
Proof.
  intros [H1 H2 H3 H4 H5 H6] Hq Hp Ht Hl Hd Hr. split; try done.
  - by rewrite Hp.
  - intros k. by rewrite Hq, Hp.
  - intros k. rewrite Hp, elem_of_app. intros [Hk|Hk]; [|by apply Ht].
    apply H3, elem_of_app. by left.
Qed.

(** A step that adds a key. *)
Lemma inv_add s s' k : Inv s → k ∉ queued s → queued s' = {[k]} ∪ queued s →
  outstanding s' ≡ₚ k :: outstanding s → k ∈ projects →
  (∀ j, j ∈ todo_of (worker s') → j ∈ projects) → (length (todo_of (worker s')) ≤ length projects)%nat →
  worker s' ≠ Dead → worker s' ≠ Refreshing [] → Inv s'.
Proof.
  intros [H1 H2 H3 H4 H5 H6] Hk Hq Hp Hpr Ht Hl Hd Hr. split; try done.
  - rewrite Hp. constructor; [by rewrite <-H2|done].
  - intros j. rewrite Hq, Hp, elem_of_cons, <-H2. set_solver.
  - intros j. rewrite Hp, elem_of_app, elem_of_cons. intros [[->|Hj]|Hj]; [done| |by apply Ht].
    apply H3, elem_of_app. by left.
Qed.

Ltac easy_side := simpl; try done; try lia; try (intros j Hj; by apply elem_of_nil in Hj).

Lemma inv_step s l s' : known l → Inv s → step s l = Some s' → Inv s'.
Proof.
  intros Hk HI Hs. pose proof HI as [H1 H2 H3 H4 H5 H6].
  assert (Ht : ∀ k, k ∈ todo_of (worker s) → k ∈ projects)
    by (intros k Hin; apply H3, elem_of_app; by right).
  destruct l as [| |k|k| | | | |item]; simpl in Hs.
  - injection Hs as <-. destruct (started s); [done|]. by apply (inv_perm s).
  - destruct (started s), (worker s) eqn:Ew; try done. injection Hs as <-.
    apply (inv_perm s); easy_side. by unfold outstanding; rewrite Ew.
  - injection Hs as <-. case_bool_decide as Hq; [done|]. apply (inv_add s _ k); try done.
    unfold outstanding. simpl. rewrite !app_assoc. symmetry. apply Permutation_cons_append.
  - destruct (mem k (inflight s)) eqn:Ek; [|done]. injection Hs as <-. apply mem_elem in Ek.
    apply (inv_perm s); try done. unfold outstanding. simpl.
    rewrite (remove_first_perm _ _ Ek) at 2. by rewrite <-app_assoc.
  - destruct (worker s) eqn:Ew, (requests s) as [|k0 q] eqn:Er; try done. injection Hs as <-.
    assert (Hp : mem k0 projects = true).
    { apply mem_elem, H3, elem_of_app. left. unfold outstanding. rewrite Ew, Er. left. }
    rewrite Hp. apply (inv_perm s); easy_side. by unfold outstanding; simpl; rewrite Ew, Er.
  - destruct (worker s) eqn:Ew, (requests s) as [|k0 q] eqn:Er; try done. injection Hs as <-.
    destruct (held_refreshing projects) as (E1 & E2 & E3 & E4).
    apply (inv_perm s); simpl; rewrite ?E2; easy_side. unfold outstanding; simpl. by rewrite E1, Ew, Er.
  - destruct (worker s) as [| |[|k todo]|k todo|k|] eqn:Ew; try done. injection Hs as <-.
    simpl in Ht, H4. destruct (held_refreshing todo) as (E1 & E2 & E3 & E4).
    assert (Htail : ∀ j, j ∈ todo → j ∈ projects) by (intros j Hj; apply Ht; by right).
    assert (Hhead : k ∈ projects) by (apply Ht; left). case_bool_decide as Hq.
    + apply (inv_perm s); simpl; rewrite ?E2; easy_side.
      unfold outstanding; simpl. by rewrite E1, Ew.
    + apply (inv_add s _ k); easy_side.
      unfold outstanding; simpl. by rewrite Ew.
  - destruct (worker s) as [| |todo|k todo|k|] eqn:Ew; try done. injection Hs as <-.
    simpl in Ht, H4. destruct (held_refreshing todo) as (E1 & E2 & E3 & E4).
    apply (inv_perm s); simpl; rewrite ?E2; easy_side.
    unfold outstanding; simpl. rewrite E1, Ew. simpl. rewrite <-app_assoc. simpl.
    symmetry. apply Permutation_middle.
  - destruct (worker s) as [| |todo|k todo|k|] eqn:Ew; try done. injection Hs as <-.
    unfold outstanding in *. rewrite Ew in *. simpl in *. inversion H1 as [|? ? Hn Hnd]; subst.
    split; simpl; try done.
    + intros j. specialize (H2 j). rewrite elem_of_cons in H2. set_solver.
    + intros j. rewrite app_nil_r. intros Hj. apply H3. rewrite app_nil_r. by right.
Qed.

Lemma inv_reachable s : reachable s → Inv s.
Proof.
  induction 1 as [|s l s' _ IH Hk Hs]; [|by eapply inv_step].
  split; easy_side; [constructor|]. intros k. split; [set_solver|]. by intros ?%elem_of_nil.
Qed.

(** *** The worker serves its queue *)

(** The steps of the worker until it stores the request at position [i]. *)
Definition ahead (w : Worker) : nat :=
  match w with
  | Refreshing todo => 2 * length todo
  | Putting _ todo => 1 + 2 * length todo
  | Measuring _ => 1
  | _ => 0
  end.

Definition distance (s : State) (i : nat) : nat := ahead (worker s) + 2 * i + 2.

Lemma ahead_refreshing todo : ahead (refreshing todo) = (2 * length todo)%nat.
Proof. by destruct todo. Qed.

(** A step keeps the request, one position further ahead when another one is
    taken, and a step of the worker brings it nearer; or takes it. *)
Lemma step_nearer s l s' i k : Inv s → step s l = Some s' → requests s !! i = Some k →
  (worker s' = Measuring k ∧ (1 < distance s i)%nat)
  ∨ ∃ j, requests s' !! j = Some k ∧ (distance s' j + (if of_worker l then 1 else 0) ≤ distance s i)%nat.
Proof.
  intros HI Hs Hr. unfold distance.
  destruct l as [| |x|x| | | | |item]; simpl in Hs.
  - injection Hs as <-. right. exists i. destruct (started s); simpl; split; done || lia.
  - destruct (started s), (worker s) eqn:Ew; try done. injection Hs as <-. right. exists i. simpl. split; [done|lia].
  - injection Hs as <-. right. exists i. case_bool_decide; simpl; split; done || lia.
  - destruct (mem x (inflight s)); [|done]. injection Hs as <-. right. exists i. simpl.
    split; [by apply lookup_app_l_Some|lia].
  - destruct (worker s) eqn:Ew, (requests s) as [|r0 q] eqn:Er; try done. injection Hs as <-. simpl.
    assert (Hp : mem r0 projects = true).
    { apply mem_elem, (inv_known _ HI), elem_of_app. left. unfold outstanding. rewrite Ew, Er. left. }
    rewrite Hp. destruct i as [|i]; [injection Hr as ->; left; split; [done|lia]|].
    right. exists i. simpl. split; [done|lia].
  - destruct (worker s) eqn:Ew, (requests s) as [|r0 q] eqn:Er; try done.
  - destruct (worker s) as [| |[|x todo]|x todo|x|] eqn:Ew; try done. injection Hs as <-.
    right. exists i. case_bool_decide; simpl; rewrite ?ahead_refreshing; split; done || lia.
  - destruct (worker s) as [| |todo|x todo|x|] eqn:Ew; try done. injection Hs as <-.
    right. exists i. simpl. rewrite ahead_refreshing. split; [by apply lookup_app_l_Some|lia].
  - destruct (worker s) as [| |todo|x todo|x|] eqn:Ew; try done. injection Hs as <-.
    right. exists i. simpl. split; [done|lia].
Qed.

(** While the worker measures a key, its next step stores the result. *)
Lemma step_measuring s l s' k : step s l = Some s' → worker s = Measuring k →
  if of_worker l
  then ∃ item, l = LStore item ∧ items s' !! k = Some item ∧ k ∉ queued s'
  else worker s' = Measuring k.
Proof.
  intros Hs Hw. destruct l as [| |x|x| | | | |item]; simpl in Hs; rewrite ?Hw in Hs; try done.
  - injection Hs as <-. by destruct (started s).
  - by destruct (started s).
  - injection Hs as <-. by case_bool_decide.
  - destruct (mem x _); [|done]. by injection Hs as <-.
  - injection Hs as <-. exists item. simpl. rewrite lookup_insert_eq. set_solver.
Qed.

Definition worker_steps (ls : list Label) : nat := length (List.filter of_worker ls).

(** Somewhere in the schedule the worker stores what it measured for [k]. *)
Definition served (k : pystr) (s : State) (ls : list Label) : Prop :=
  ∃ ls1 item ls2 s1 s2, ls = ls1 ++ LStore item :: ls2 ∧ run s ls1 = Some s1 ∧ worker s1 = Measuring k
    ∧ step s1 (LStore item) = Some s2 ∧ items s2 !! k = Some item ∧ k ∉ queued s2.

Lemma served_later k s l s1 ls : step s l = Some s1 → served k s1 ls → served k s (l :: ls).
Proof.
  intros Hs (ls1 & item & ls2 & t1 & t2 & -> & Hr & H). exists (l :: ls1), item, ls2, t1, t2.
  split; [done|]. split; [|done]. simpl. by rewrite Hs.
Qed.

Lemma measuring_served k ls : ∀ s s', run s ls = Some s' → worker s = Measuring k →
  (1 ≤ worker_steps ls)%nat → served k s ls.
Proof.
  induction ls as [|l ls IH]; intros s s' Hr Hw Hn; unfold worker_steps in Hn; simpl in Hn; [lia|].
  simpl in Hr. destruct (step s l) as [s1|] eqn:Es; [|done].
  pose proof (step_measuring _ _ _ _ Es Hw) as Hm. destruct (of_worker l).
  - destruct Hm as (item & -> & H1 & H2). by exists [], item, ls, s, s1.
  - eapply served_later; [done|]. by eapply IH.
Qed.

Lemma request_served k ls : ∀ s s' i, Inv s → Forall known ls → run s ls = Some s' →
  requests s !! i = Some k → (distance s i ≤ worker_steps ls)%nat → served k s ls.
Proof.
  induction ls as [|l ls IH]; intros s s' i HI Hk Hr Hi Hn.
  { unfold worker_steps, distance in Hn. simpl in Hn. lia. }
  apply Forall_cons in Hk as [Hkl Hk]. simpl in Hr. destruct (step s l) as [s1|] eqn:Es; [|done].
  eapply served_later; [done|].
  assert (Hc : worker_steps (l :: ls) = ((if of_worker l then 1 else 0) + worker_steps ls)%nat).
  { unfold worker_steps. simpl. by destruct (of_worker l). }
  rewrite Hc in Hn. destruct (step_nearer _ _ _ _ _ HI Es Hi) as [[Hw Hd]|(j & Hj & Hd)].
  - eapply measuring_served; [done..|]. destruct (of_worker l); lia.
  - eapply IH; [by eapply inv_step|done..|]. lia.
Qed.

(** A started worker can always go on. *)
Lemma worker_enabled s : Inv s → worker s ≠ Absent →
  ∃ l, of_worker l = true ∧ known l ∧ is_Some (step s l).
Proof.
  intros [_ _ _ _ Hd Hr] Ha. destruct (worker s) as [| |[|k todo]|k todo|k|] eqn:Ew; try done.
  - destruct (requests s) as [|k q] eqn:Er; [exists LEmpty|exists LTake]; simpl; rewrite Ew, Er; eauto.
  - exists LRefresh. simpl. rewrite Ew. eauto.
  - exists LRefreshPut. simpl. rewrite Ew. eauto.
  - exists (LStore pending_inventory). simpl. rewrite Ew. eauto.
Qed.

Lemma distance_bound s i : Inv s → (distance s i ≤ 2 * length projects + 2 * i + 3)%nat.
Proof. intros [_ _ _ Ht _ _]. unfold distance. destruct (worker s); simpl in *; lia. Qed.

End Cache.

End InventoryCache.
