(* ===== verification/AnnounceBot.v ===== *)
(** * tools/announce_bot.py: the bot

    The [Bot] object as a record, its methods as computations of a state and
    exception monad over an arbitrary [World], in the order of the source:
    output, lifecycle, git watching, topic, protocol, commands. *)

From S2P Require Import Prelude PyStr Regex Base64 AnnounceProjects AnnounceText AnnounceInventory.

(** ** State *)

(** A line handed to [sendall], with the [trusted] flag it was sent under. *)
Record Sent := mkSent { sent_trusted : bool; sent_line : pystr }.

(** The fields of [Bot]; [sock] is whether a socket is held.  The last three
    are ghosts: the number of calls made to the world, the lines written, and
    the keys given to [INVENTORY.request]. *)
Record Bot := mkBot {
  sock : bool;
  nick : pystr;
  last_commit : gmap pystr pystr;
  last_tests : gmap pystr Z;
  last_beat : Z;
  last_poll : Z;
  last_topic : pystr;
  outq : list pystr;
  last_send : Z;
  caps : gset pystr;
  cap_ls : gset pystr;
  cap_ended : bool;
  connect_ts : Z;
  sasl_active : bool;
  registered : bool;
  last_rx : Z;
  last_keepalive : Z;
  intro_done : bool;
  tick : nat;
  wire : list Sent;
  inv_requests : list pystr }.

Definition set_sock (v : bool) (s : Bot) : Bot :=
  mkBot v (nick s) (last_commit s) (last_tests s) (last_beat s) (last_poll s) (last_topic s) (outq s) (last_send s) (caps s) (cap_ls s) (cap_ended s) (connect_ts s) (sasl_active s) (registered s) (last_rx s) (last_keepalive s) (intro_done s) (tick s) (wire s) (inv_requests s).
Definition set_nick (v : pystr) (s : Bot) : Bot :=
  mkBot (sock s) v (last_commit s) (last_tests s) (last_beat s) (last_poll s) (last_topic s) (outq s) (last_send s) (caps s) (cap_ls s) (cap_ended s) (connect_ts s) (sasl_active s) (registered s) (last_rx s) (last_keepalive s) (intro_done s) (tick s) (wire s) (inv_requests s).
Definition set_last_commit (v : gmap pystr pystr) (s : Bot) : Bot :=
  mkBot (sock s) (nick s) v (last_tests s) (last_beat s) (last_poll s) (last_topic s) (outq s) (last_send s) (caps s) (cap_ls s) (cap_ended s) (connect_ts s) (sasl_active s) (registered s) (last_rx s) (last_keepalive s) (intro_done s) (tick s) (wire s) (inv_requests s).
Definition set_last_tests (v : gmap pystr Z) (s : Bot) : Bot :=
  mkBot (sock s) (nick s) (last_commit s) v (last_beat s) (last_poll s) (last_topic s) (outq s) (last_send s) (caps s) (cap_ls s) (cap_ended s) (connect_ts s) (sasl_active s) (registered s) (last_rx s) (last_keepalive s) (intro_done s) (tick s) (wire s) (inv_requests s).
Definition set_last_beat (v : Z) (s : Bot) : Bot :=
  mkBot (sock s) (nick s) (last_commit s) (last_tests s) v (last_poll s) (last_topic s) (outq s) (last_send s) (caps s) (cap_ls s) (cap_ended s) (connect_ts s) (sasl_active s) (registered s) (last_rx s) (last_keepalive s) (intro_done s) (tick s) (wire s) (inv_requests s).
Definition set_last_poll (v : Z) (s : Bot) : Bot :=
  mkBot (sock s) (nick s) (last_commit s) (last_tests s) (last_beat s) v (last_topic s) (outq s) (last_send s) (caps s) (cap_ls s) (cap_ended s) (connect_ts s) (sasl_active s) (registered s) (last_rx s) (last_keepalive s) (intro_done s) (tick s) (wire s) (inv_requests s).
Definition set_last_topic (v : pystr) (s : Bot) : Bot :=
  mkBot (sock s) (nick s) (last_commit s) (last_tests s) (last_beat s) (last_poll s) v (outq s) (last_send s) (caps s) (cap_ls s) (cap_ended s) (connect_ts s) (sasl_active s) (registered s) (last_rx s) (last_keepalive s) (intro_done s) (tick s) (wire s) (inv_requests s).
Definition set_outq (v : list pystr) (s : Bot) : Bot :=
  mkBot (sock s) (nick s) (last_commit s) (last_tests s) (last_beat s) (last_poll s) (last_topic s) v (last_send s) (caps s) (cap_ls s) (cap_ended s) (connect_ts s) (sasl_active s) (registered s) (last_rx s) (last_keepalive s) (intro_done s) (tick s) (wire s) (inv_requests s).
Definition set_last_send (v : Z) (s : Bot) : Bot :=
  mkBot (sock s) (nick s) (last_commit s) (last_tests s) (last_beat s) (last_poll s) (last_topic s) (outq s) v (caps s) (cap_ls s) (cap_ended s) (connect_ts s) (sasl_active s) (registered s) (last_rx s) (last_keepalive s) (intro_done s) (tick s) (wire s) (inv_requests s).
Definition set_caps (v : gset pystr) (s : Bot) : Bot :=
  mkBot (sock s) (nick s) (last_commit s) (last_tests s) (last_beat s) (last_poll s) (last_topic s) (outq s) (last_send s) v (cap_ls s) (cap_ended s) (connect_ts s) (sasl_active s) (registered s) (last_rx s) (last_keepalive s) (intro_done s) (tick s) (wire s) (inv_requests s).
Definition set_cap_ls (v : gset pystr) (s : Bot) : Bot :=
  mkBot (sock s) (nick s) (last_commit s) (last_tests s) (last_beat s) (last_poll s) (last_topic s) (outq s) (last_send s) (caps s) v (cap_ended s) (connect_ts s) (sasl_active s) (registered s) (last_rx s) (last_keepalive s) (intro_done s) (tick s) (wire s) (inv_requests s).
Definition set_cap_ended (v : bool) (s : Bot) : Bot :=
  mkBot (sock s) (nick s) (last_commit s) (last_tests s) (last_beat s) (last_poll s) (last_topic s) (outq s) (last_send s) (caps s) (cap_ls s) v (connect_ts s) (sasl_active s) (registered s) (last_rx s) (last_keepalive s) (intro_done s) (tick s) (wire s) (inv_requests s).
Definition set_connect_ts (v : Z) (s : Bot) : Bot :=
  mkBot (sock s) (nick s) (last_commit s) (last_tests s) (last_beat s) (last_poll s) (last_topic s) (outq s) (last_send s) (caps s) (cap_ls s) (cap_ended s) v (sasl_active s) (registered s) (last_rx s) (last_keepalive s) (intro_done s) (tick s) (wire s) (inv_requests s).
Definition set_sasl_active (v : bool) (s : Bot) : Bot :=
  mkBot (sock s) (nick s) (last_commit s) (last_tests s) (last_beat s) (last_poll s) (last_topic s) (outq s) (last_send s) (caps s) (cap_ls s) (cap_ended s) (connect_ts s) v (registered s) (last_rx s) (last_keepalive s) (intro_done s) (tick s) (wire s) (inv_requests s).
Definition set_registered (v : bool) (s : Bot) : Bot :=
  mkBot (sock s) (nick s) (last_commit s) (last_tests s) (last_beat s) (last_poll s) (last_topic s) (outq s) (last_send s) (caps s) (cap_ls s) (cap_ended s) (connect_ts s) (sasl_active s) v (last_rx s) (last_keepalive s) (intro_done s) (tick s) (wire s) (inv_requests s).
Definition set_last_rx (v : Z) (s : Bot) : Bot :=
  mkBot (sock s) (nick s) (last_commit s) (last_tests s) (last_beat s) (last_poll s) (last_topic s) (outq s) (last_send s) (caps s) (cap_ls s) (cap_ended s) (connect_ts s) (sasl_active s) (registered s) v (last_keepalive s) (intro_done s) (tick s) (wire s) (inv_requests s).
Definition set_last_keepalive (v : Z) (s : Bot) : Bot :=
  mkBot (sock s) (nick s) (last_commit s) (last_tests s) (last_beat s) (last_poll s) (last_topic s) (outq s) (last_send s) (caps s) (cap_ls s) (cap_ended s) (connect_ts s) (sasl_active s) (registered s) (last_rx s) v (intro_done s) (tick s) (wire s) (inv_requests s).
Definition set_intro_done (v : bool) (s : Bot) : Bot :=
  mkBot (sock s) (nick s) (last_commit s) (last_tests s) (last_beat s) (last_poll s) (last_topic s) (outq s) (last_send s) (caps s) (cap_ls s) (cap_ended s) (connect_ts s) (sasl_active s) (registered s) (last_rx s) (last_keepalive s) v (tick s) (wire s) (inv_requests s).
Definition set_tick (v : nat) (s : Bot) : Bot :=
  mkBot (sock s) (nick s) (last_commit s) (last_tests s) (last_beat s) (last_poll s) (last_topic s) (outq s) (last_send s) (caps s) (cap_ls s) (cap_ended s) (connect_ts s) (sasl_active s) (registered s) (last_rx s) (last_keepalive s) (intro_done s) v (wire s) (inv_requests s).
Definition set_wire (v : list Sent) (s : Bot) : Bot :=
  mkBot (sock s) (nick s) (last_commit s) (last_tests s) (last_beat s) (last_poll s) (last_topic s) (outq s) (last_send s) (caps s) (cap_ls s) (cap_ended s) (connect_ts s) (sasl_active s) (registered s) (last_rx s) (last_keepalive s) (intro_done s) (tick s) v (inv_requests s).
Definition set_inv_requests (v : list pystr) (s : Bot) : Bot :=
  mkBot (sock s) (nick s) (last_commit s) (last_tests s) (last_beat s) (last_poll s) (last_topic s) (outq s) (last_send s) (caps s) (cap_ls s) (cap_ended s) (connect_ts s) (sasl_active s) (registered s) (last_rx s) (last_keepalive s) (intro_done s) (tick s) (wire s) v.

Inductive exn := ConnectionError (msg : pystr) | OSError | UnicodeEncodeError.

Inductive res (A : Type) := Ret (a : A) | Raise (e : exn).
Arguments Ret {A} a.
Arguments Raise {A} e.

(** ** The monad *)

Definition M (A : Type) : Type := Bot → res A * Bot.

Definition ret {A} (a : A) : M A := λ s, (Ret a, s).
Definition raise {A} (e : exn) : M A := λ s, (Raise e, s).
Definition bind {A B} (m : M A) (f : A → M B) : M B := λ s,
  match m s with
  | (Ret a, s') => f a s'
  | (Raise e, s') => (Raise e, s')
  end.
Definition get_ : M Bot := λ s, (Ret s, s).
Definition upd (f : Bot → Bot) : M unit := λ s, (Ret tt, f s).
Definition skip : M unit := ret tt.

Declare Scope bot_scope.
Delimit Scope bot_scope with bot.
Notation "x <- m ;; k" := (bind m (λ x, k))
  (at level 100, m at next level, k at level 200, right associativity) : bot_scope.
Notation "m ;;; k" := (bind m (λ _, k))
  (at level 100, k at level 200, right associativity) : bot_scope.
Notation "'when' c 'do_' m" := (if c then m else skip) (at level 99, m at level 99) : bot_scope.

Fixpoint for_ {A} (l : list A) (f : A → M unit) : M unit :=
  match l with
  | [] => skip
  | x :: l' => bind (f x) (λ _, for_ l' f)
  end.

(** [[f(x) for x in l]] with effects. *)
Fixpoint map_ {A B} (l : list A) (f : A → M B) : M (list B) :=
  match l with
  | [] => ret []
  | x :: l' => bind (f x) (λ y, bind (map_ l' f) (λ ys, ret (y :: ys)))
  end.

Section Bot.
Open Scope bot_scope.
Context (w : World) (cfg : Config) (START : Z).

(** One numbered call to the world. *)
Definition ask {A} (f : nat → A) : M A := λ s, (Ret (f (tick s)), set_tick (S (tick s)) s).

Definition time : M Z := ask (w_time w).
Definition git (p : Project) (a : list pystr) : M pystr := ask (λ n, git_at w n p a).
Definition isdir (d : pystr) : M bool := ask (λ n, w_isdir w n d).
Definition inventory_get (p : Project) : M BuildInventory := ask (λ n, w_inventory w n (key p)).
Definition inventory_request (p : Project) : M unit :=
  upd (λ s, set_inv_requests (inv_requests s ++ [key p]) s).

(** ** Inventory readers *)

Definition module_count (p : Project) : M pystr := i <- inventory_get p ;; ret (modules i).
Definition loc_count (p : Project) : M pystr := i <- inventory_get p ;; ret (loc i).
Definition test_count (p : Project) : M pystr := i <- inventory_get p ;; ret (test_blocks i).

Definition inventory_pending : pystr := u "inventory pending".
Definition inventory_refreshing : pystr := u "inventory refreshing".

Definition inventory_status (p : Project) : M pystr :=
  item <- inventory_get p ;;
  if measured_at item =? 0 then ret inventory_pending
  else
    current <- git p [u "rev-parse"; u "HEAD"] ;;
    if negb (str_eqb (head item) current) then ret inventory_refreshing
    else
      now <- time ;;
      let age := Z.max 0 (Z.quot (now - measured_at item) SECOND) in
      let state := if dirty item then u "dirty" else u "clean" in
      ret (state ++ u ", measured " ++ dec age ++ u "s ago").

Definition stale (status : pystr) : bool := mem status [inventory_pending; inventory_refreshing].

Definition inventory_label (p : Project) : M pystr :=
  st <- inventory_status p ;;
  if stale st then ret (u "inventory updating")
  else n <- test_count p ;; ret (n ++ u " " ++ test_label p).

(** ** Commit readers *)

Definition HEAD : pystr := u "HEAD".

Definition head_line (p : Project) : M pystr := git p [u "log"; u "-1"; u "--format=%h %s"].

Definition changed_files (p : Project) (rev : pystr) : M (list pystr) :=
  out <- git p [u "show"; u "--stat"; u "--format="; rev] ;;
  ret (take 8 (List.filter nonempty (strip <$> splitlines out))).

Definition commit_stat (p : Project) (rev : pystr) : M pystr :=
  out <- git p [u "show"; u "--shortstat"; u "--format="; rev] ;;
  ret (commit_stat_text out).

Definition commit_field (p : Project) (fmt rev : pystr) : M pystr :=
  git p [u "log"; u "-1"; u "--format=" ++ fmt; rev].

Definition uptime : M pystr := now <- time ;; ret (uptime_text (now - START)).

Definition stats_lines (p : Project) : M (list pystr) :=
  item <- inventory_get p ;;
  h <- head_line p ;;
  st <- commit_stat p HEAD ;;
  ist <- inventory_status p ;;
  ret [ B ++ CYAN ++ u "[" ++ key p ++ u "]" ++ RST ++ u " build :: " ++ module_label p ++ u "="
          ++ GREEN ++ modules item ++ RST ++ u " " ++ replace (u " ") (u "-") (test_label p)
          ++ u "=" ++ GREEN ++ test_blocks item ++ RST ++ u " "
          ++ u "loc=" ++ GREEN ++ loc item ++ RST ++ u " commits=" ++ GREEN ++ commits item
          ++ RST ++ u " " ++ stats_suffix p;
        GREY ++ u "[" ++ key p ++ u "] HEAD" ++ RST ++ u " " ++ h ++ u " " ++ GREY ++ u "("
          ++ st ++ u "; " ++ ist ++ u ")" ++ RST ].

Definition project_lines (p : Project) : list pystr := p_project_lines p.

Definition HELP : pystr :=
  u "commands: !project !stats !tests !modules/!components !commit !changelog !diff "
  ++ u "!progress !plan !uptime !version !ping !help  (each accepts an optional "
  ++ u "onyx/onyx-server project name, e.g. !stats onyx-server; omit for both)"
  ++ (if nonempty (ADMIN cfg) then u "  | admin: !say !announce !topic !raw" else []).

(** ** Output *)

Definition send_raw (line : pystr) (trusted : bool) : M unit :=
  s <- get_ ;;
  if negb (sock s) then skip
  else if negb trusted && topic_change_protected line then skip
  else upd (λ s, set_wire (wire s ++ [mkSent trusted line]) s).

Definition enqueue (line : pystr) : M unit := upd (λ s, set_outq (outq s ++ [line]) s).

Definition blank (text : pystr) : bool := negb (nonempty text) || negb (nonempty (strip text)).

Definition msg (target text : pystr) : M unit :=
  if blank text then skip else enqueue (u "PRIVMSG " ++ target ++ u " :" ++ text).

Definition notice (target text : pystr) : M unit :=
  if blank text then skip else enqueue (u "NOTICE " ++ target ++ u " :" ++ text).

(** The text [channel_say] sends: stripped, then capped.  [cap_text_total]
    shows that the length of the text is enough fuel. *)
Definition say_text (text : pystr) : pystr :=
  from_opt [] (cap_text (length (strip text)) (strip text)).

Definition channel_say (text : pystr) (immediate : bool) : M unit :=
  if negb (nonempty (strip text)) then skip
  else
    let line := u "PRIVMSG " ++ CHANNEL cfg ++ u " :" ++ say_text text in
    if immediate then
      send_raw line false ;;;
      now <- time ;; upd (set_last_send now)
    else enqueue line.

Definition channel_notice (text : pystr) : M unit :=
  let text := strip text in
  if negb (nonempty text) then skip
  else enqueue (u "NOTICE " ++ CHANNEL cfg ++ u " :" ++ text).

Definition announce (lines : list pystr) (target : option pystr) : M unit :=
  let dest := or_ (from_opt [] target) (CHANNEL cfg) in
  match cleaned lines with
  | [] => skip
  | first :: rest =>
    if str_eqb dest (CHANNEL cfg) then
      channel_say first true ;;; for_ rest (λ text, channel_say text false)
    else for_ (first :: rest) (λ text, msg dest text)
  end.

Definition pump_out : M unit :=
  s <- get_ ;;
  match outq s with
  | [] => skip
  | line :: q =>
    now <- time ;;
    when SEND_INTERVAL <=? now - last_send s do_
      (upd (set_outq q) ;;;
       send_raw line false ;;;
       now' <- time ;; upd (set_last_send now'))
  end.

(** ** Lifecycle *)

(** [Bot.__init__]. *)
Definition init_bot (n : nat) : Bot :=
  let lc := foldl (λ '(n, m) p, (S n, <[key p := git_at w n p [u "rev-parse"; HEAD]]> m))
              (n, ∅) PROJECTS in
  {| sock := false; nick := NICK cfg;
     last_commit := lc.2;
     last_tests := list_to_map ((λ p, (key p, -1)) <$> PROJECTS);
     last_beat := w_time w lc.1; last_poll := 0; last_topic := []; outq := []; last_send := 0;
     caps := ∅; cap_ls := ∅; cap_ended := false; connect_ts := 0; sasl_active := false;
     registered := false; last_rx := 0; last_keepalive := 0; intro_done := false;
     tick := S (lc.1); wire := []; inv_requests := [] |}.

Definition connect : M unit :=
  upd (set_nick (NICK cfg)) ;;;
  upd (set_caps ∅) ;;;
  upd (set_cap_ls ∅) ;;;
  upd (set_cap_ended false) ;;;
  now <- time ;;
  upd (set_connect_ts now) ;;;
  upd (set_sasl_active false) ;;;
  upd (set_registered false) ;;;
  upd (set_outq []) ;;;
  upd (set_last_topic []) ;;;
  (* the readings below are only logged *)
  for_ PROJECTS (λ p,
    d <- isdir (repo p) ;;
    when d do_ (_ <- git p [u "rev-parse"; u "--short"; HEAD] ;; skip)) ;;;
  ok <- ask (w_connect w) ;;
  if negb ok then raise OSError
  else
    upd (set_sock true) ;;;
    send_raw (u "CAP LS 302") false ;;;
    (when nonempty (PASSWORD cfg) do_ send_raw (u "PASS " ++ PASSWORD cfg) false) ;;;
    s <- get_ ;;
    send_raw (u "NICK " ++ nick s) false ;;;
    send_raw (u "USER " ++ NICK cfg ++ u " 0 * :Onyx+Onyx Server build announcer") false.

(** One turn of [run]: the seconds slept and the next backoff, for a
    connection attempt that succeeded or not. *)
Definition run_turn (connected : bool) (backoff : Z) : Z * Z :=
  let backoff := if connected then RECONNECT_MIN else backoff in
  (backoff, Z.min (backoff * 2) RECONNECT_MAX).

(** ** Commit announcements *)

Definition tests_delta (p : Project) (tc : pystr) : M pystr :=
  match int tc with
  | None => ret []
  | Some n =>
    s <- get_ ;;
    let last := from_opt (-1) (last_tests s !! key p) in
    let diff := n - last in
    let out := if (0 <=? last) && negb (n =? last) then
                 if 0 <? diff then u " " ++ GREEN ++ u "(+" ++ dec diff ++ u ")" ++ RST
                 else u " " ++ RED ++ u "(" ++ dec diff ++ u ")" ++ RST
               else [] in
    upd (λ s, set_last_tests (<[key p := n]> (last_tests s)) s) ;;;
    ret out
  end.

Definition re_trailer : re :=
  RSeq (RAssert at_bol)
    (RSeq (alts [lit_ci (u "co-authored-by"); lit_ci (u "signed-off-by"); lit_ci (u "reviewed-by");
                 lit_ci (u "made-with"); lit_ci (u "change-id")])
          (lit (u ":"))).

(** The soft wrap of one body line: the pieces added to [out] and, unless the
    limit of lines was reached, the text left. *)
Fixpoint soft_wrap (fuel max_lines : nat) (out : list pystr) (text : pystr)
    : list pystr * option pystr :=
  match fuel with
  | O => (out, Some text)
  | S f =>
    if Nat.leb (byte_len text) (MAX_MESSAGE_TEXT_BYTES - 24) then (out, Some text)
    else
      let cut := take 220 text in
      let '(cut, text) :=
        match rfind cut (u " ") with
        | Some sp => if Nat.ltb 80 sp then (take sp cut, lstrip (drop sp text))
                     else (cut, drop 220 text)
        | None => (cut, drop 220 text)
        end in
      let out := out ++ [cut] in
      if Nat.leb max_lines (length out) then (out, None) else soft_wrap f max_lines out text
  end.

Fixpoint explain_lines (max_lines : nat) (out : list pystr) (lines : list pystr) : list pystr :=
  match lines with
  | [] => out
  | line :: lines' =>
    let text := strip line in
    if negb (nonempty text) then explain_lines max_lines out lines'
    else if is_someb (rmatch re_trailer text) then explain_lines max_lines out lines'
    else
      match soft_wrap (S (length text)) max_lines out text with
      | (out, None) => out
      | (out, Some text) =>
        let out := out ++ [text] in
        if Nat.leb max_lines (length out) then out else explain_lines max_lines out lines'
      end
  end.

Definition commit_body_explain (p : Project) (rev : pystr) (max_lines : nat) : M (list pystr) :=
  raw <- git p [u "log"; u "-1"; u "--format=%b"; rev] ;;
  ret (if negb (nonempty raw) then [] else explain_lines max_lines [] (splitlines raw)).

Definition HINTS : list (pystr * pystr) :=
  [(u "feat", u "New capability"); (u "fix", u "Bug fix"); (u "docs", u "Documentation");
   (u "refactor", u "Internal restructure (no intended behavior change)"); (u "test", u "Tests");
   (u "chore", u "Housekeeping"); (u "perf", u "Performance"); (u "build", u "Build / packaging");
   (u "ci", u "CI"); (u "style", u "Style / formatting"); (u "revert", u "Revert")].

(** [l.split("|")[0].strip() for l in files if "|" in l]. *)
Definition file_names (l : list pystr) : list pystr :=
  (λ x, strip (from_opt [] (hd_error (split (u "|") x)))) <$> List.filter (λ x, contains x (u "|")) l.

Definition commit_lines (p : Project) (rev tc : pystr) (with_delta : bool) : M (list pystr) :=
  subj0 <- commit_field p (u "%s") rev ;;
  let subj := or_ subj0 (u "(no subject)") in
  let typ := commit_type subj in
  let accent_ := from_opt CYAN (assoc typ TYPE_COLOR) in
  let glyph := from_opt (u "▶") (assoc typ TYPE_GLYPH) in
  let clean := commit_clean subj in
  let scope := commit_scope subj in
  let type_chip := (if nonempty typ then B ++ accent_ ++ typ ++ RST else SILVER ++ u "commit" ++ RST)
    ++ (if nonempty scope then GREY ++ u "(" ++ scope ++ u ")" ++ RST else []) in
  short0 <- commit_field p (u "%h") rev ;;
  let short := or_ short0 (take 7 rev) in
  author0 <- commit_field p (u "%an") rev ;;
  let author := or_ author0 (u "?") in
  when_ <- commit_field p (u "%cr") rev ;;
  delta <- (if with_delta then tests_delta p tc else ret []) ;;
  total <- git p [u "rev-list"; u "--count"; HEAD] ;;
  stat <- commit_stat p rev ;;
  let proj := accent p ++ B ++ u "[" ++ key p ++ u "]" ++ RST in
  let headline :=
    proj ++ u " " ++ accent_ ++ B ++ u "▌" ++ RST ++ glyph ++ u " " ++ B ++ accent_ ++ short ++ RST
    ++ u " " ++ type_chip ++ u " " ++ WHITE ++ B ++ clean ++ RST in
  let meta :=
    proj ++ u " " ++ GREY ++ u "by" ++ RST ++ u " " ++ TEAL ++ author ++ RST ++ u " " ++ GREY
    ++ u "·" ++ RST ++ u " " ++ SILVER ++ when_ ++ RST ++ u " " ++ GREY ++ u "·" ++ RST ++ u " "
    ++ stat ++ u " " ++ GREY ++ u "· test blocks" ++ RST ++ u " " ++ B ++ GREEN ++ tc ++ RST ++ delta
    ++ u " " ++ GREY ++ u "· #" ++ total ++ RST in
  body <- commit_body_explain p rev 3 ;;
  let why :=
    match body with
    | b0 :: bl =>
      (proj ++ u " " ++ CYAN ++ u "why" ++ RST ++ u " " ++ GREY ++ u "·" ++ RST ++ u " "
       ++ WHITE ++ b0 ++ RST)
      :: ((λ x, proj ++ u " " ++ GREY ++ u "···" ++ RST ++ u " " ++ WHITE ++ x ++ RST) <$> bl)
    | [] =>
      [proj ++ u " " ++ CYAN ++ u "about" ++ RST ++ u " " ++ GREY ++ u "·" ++ RST ++ u " " ++ WHITE
       ++ from_opt (u "Update") (assoc typ HINTS) ++ u ": " ++ clean ++ RST]
    end in
  let where_ := proj ++ u " " ++ GREY ++ u "repo" ++ RST ++ u " " ++ GREY ++ u "·" ++ RST ++ u " "
    ++ SILVER ++ repo p ++ RST in
  changed <- changed_files p rev ;;
  let files := file_names changed in
  let touched :=
    match files with
    | [] => []
    | _ =>
      let pre := proj ++ u " " ++ GREY ++ u "files" ++ RST ++ u " " ++ GREY ++ u "·" ++ RST ++ u " "
        ++ SILVER in
      if Nat.leb (length files) 8 then [pre ++ join (u " · ") files ++ RST]
      else [pre ++ dec (Z.of_nat (length files)) ++ u " paths (" ++ join (u ", ") (take 4 files)
            ++ u "…)" ++ RST]
    end in
  ret ([headline; meta] ++ why ++ [where_] ++ touched).

(** ** Topic and polling *)

Definition topic_bar : pystr := u "  ❘  ".

Definition set_topic : M unit :=
  segments <- map_ PROJECTS (λ p,
    short <- git p [u "rev-parse"; u "--short"; HEAD] ;;
    lbl <- inventory_label p ;;
    ret (topic_label p ++ u " · " ++ short ++ u " · " ++ lbl)) ;;
  let topic := join topic_bar segments ++ topic_bar ++ u "!help" in
  s <- get_ ;;
  if str_eqb topic (last_topic s) then skip
  else
    send_raw (u "TOPIC " ++ CHANNEL cfg ++ u " :" ++ topic) true ;;;
    upd (set_last_topic topic).

(** The revisions announced for a poll, and how many older ones are skipped. *)
Definition shown_revs (revs : list pystr) : list pystr := last_n 5 revs.

(** [for i, rev in enumerate(shown)]: the last one carries the delta. *)
Fixpoint announce_revs (p : Project) (tc : pystr) (shown : list pystr) : M unit :=
  match shown with
  | [] => skip
  | rev :: shown' =>
    lines <- commit_lines p rev tc (match shown' with [] => true | _ => false end) ;;
    announce lines None ;;;
    announce_revs p tc shown'
  end.

Definition poll_project (p : Project) : M unit :=
  d <- isdir (repo p) ;;
  if negb d then skip
  else
    cur <- git p [u "rev-parse"; HEAD] ;;
    s <- get_ ;;
    let prev := from_opt [] (last_commit s !! key p) in
    if negb (nonempty cur) then skip
    else if str_eqb cur prev then skip
    else
      out <- git p [u "rev-list"; u "--reverse"; prev ++ u ".." ++ cur] ;;
      let revs := match split_ws out with [] => [cur] | r => r end in
      upd (λ s, set_last_commit (<[key p := cur]> (last_commit s)) s) ;;;
      inventory_request p ;;;
      st <- inventory_status p ;;
      tc <- (if stale st then ret (u "updating") else test_count p) ;;
      let shown := shown_revs revs in
      (when Nat.ltb (length shown) (length revs) do_
        channel_notice (u "[" ++ key p ++ u "] … +"
          ++ dec (Z.of_nat (length revs) - Z.of_nat (length shown))
          ++ u " earlier commit(s) in " ++ repo p)) ;;;
      announce_revs p tc shown ;;;
      set_topic.

(** ** Protocol *)

Definition cap_end : M unit :=
  s <- get_ ;;
  when negb (cap_ended s) do_ (upd (set_cap_ended true) ;;; send_raw (u "CAP END") false).

(** [c.split("=")[0]]. *)
Definition cap_name (c : pystr) : pystr := from_opt [] (hd_error (split (u "=") c)).

Definition handle_cap (line : pystr) (parts : list pystr) : M unit :=
  let sub := from_opt [] (parts !! 3%nat) in
  let offered := match find line (u " :") with
                 | Some i => split_ws (drop (i + 2) line)
                 | None => []
                 end in
  if str_eqb sub (u "LS") then
    let more := match parts !! 4%nat with Some x => str_eqb x (u "*") | None => false end in
    upd (λ s, set_cap_ls (cap_ls s ∪ list_to_set (cap_name <$> offered)) s) ;;;
    if more then skip
    else
      s <- get_ ;;
      let want := WANT_CAPS ∩ cap_ls s in
      let use_sasl := nonempty (SASL_USER cfg) && bool_decide (u "sasl" ∈ cap_ls s) in
      let want := if use_sasl then want ∪ {[u "sasl"]} else want in
      match sorted_set want with
      | [] => cap_end
      | l => send_raw (u "CAP REQ :" ++ join (u " ") l) false
      end
  else if str_eqb sub (u "ACK") then
    upd (λ s, set_caps (caps s ∪ list_to_set offered) s) ;;;
    if mem (u "sasl") offered && nonempty (SASL_USER cfg) then
      upd (set_sasl_active true) ;;; send_raw (u "AUTHENTICATE PLAIN") false
    else cap_end
  else if str_eqb sub (u "NAK") then cap_end
  else skip.

Definition SOH : pystr := [1].

Definition sources_text : pystr :=
  join (u " | ") ((λ p, key p ++ u ": " ++ repo p) <$> PROJECTS).

Definition ctcp (nick_ body : pystr) : M unit :=
  let cmd := upper (from_opt [] (hd_error (split_max 1 (u " ") body))) in
  let arg := strip (drop (length cmd) body) in
  if str_eqb cmd (u "VERSION") then notice nick_ (SOH ++ u "VERSION " ++ VERSION ++ SOH)
  else if str_eqb cmd (u "PING") then notice nick_ (SOH ++ u "PING " ++ arg ++ SOH)
  else if str_eqb cmd (u "TIME") then
    t <- ask (w_strftime w) ;; notice nick_ (SOH ++ u "TIME " ++ t ++ SOH)
  else if str_eqb cmd (u "SOURCE") then notice nick_ (SOH ++ u "SOURCE " ++ sources_text ++ SOH)
  else if str_eqb cmd (u "CLIENTINFO") then
    notice nick_ (SOH ++ u "CLIENTINFO VERSION PING TIME SOURCE CLIENTINFO" ++ SOH)
  else skip.

(** [str.format] for fields without conversion or format specification. *)
Fixpoint format_go (args : list (pystr * pystr)) (field : option pystr) (s : pystr) : pystr :=
  match s with
  | [] => []
  | c :: t =>
    match field with
    | Some f => if c =? 125 then from_opt [] (assoc f args) ++ format_go args None t
                else format_go args (Some (f ++ [c])) t
    | None => if c =? 123 then format_go args (Some []) t else c :: format_go args None t
    end
  end.

Definition per_project_cmds : list pystr :=
  [u "project"; u "about"; u "stats"; u "build"; u "tests"; u "modules"; u "components";
   u "commit"; u "head"; u "changelog"; u "diff"; u "files"; u "progress"; u "status";
   u "plan"; u "roadmap"].

Definition grey_line (p : Project) (l : pystr) : pystr :=
  GREY ++ u "[" ++ key p ++ u "] " ++ l ++ RST.

Definition or_lines (l d : list pystr) : list pystr := match l with [] => d | _ => l end.

(** The commands that take a project; [projects] is the selection. *)
Definition project_command (cmd reply : pystr) (projects : list Project) : M unit :=
  if mem cmd [u "project"; u "about"] then
    for_ projects (λ p, announce (project_lines p) (Some reply))
  else if mem cmd [u "stats"; u "build"] then
    for_ projects (λ p, l <- stats_lines p ;; announce l (Some reply))
  else if str_eqb cmd (u "tests") then
    for_ projects (λ p,
      n <- test_count p ;;
      st <- inventory_status p ;;
      msg reply (u "[" ++ key p ++ u "] static test inventory: " ++ GREEN ++ n ++ RST ++ u " "
                 ++ test_label p ++ u " (" ++ st ++ u "; not a test run)"))
  else if mem cmd [u "modules"; u "components"] then
    for_ projects (λ p,
      n <- module_count p ;;
      msg reply (u "[" ++ key p ++ u "] " ++ module_label p ++ u ": " ++ GREEN ++ n ++ RST
                 ++ u " source files"))
  else if mem cmd [u "commit"; u "head"] then
    for_ projects (λ p, h <- head_line p ;; msg reply (u "[" ++ key p ++ u "] HEAD " ++ h))
  else if str_eqb cmd (u "changelog") then
    for_ projects (λ p,
      out <- git p [u "log"; u "-5"; u "--format=%h %s"] ;;
      announce (or_lines (grey_line p <$> splitlines out) [u "[" ++ key p ++ u "] (none)"]) (Some reply))
  else if mem cmd [u "diff"; u "files"] then
    for_ projects (λ p,
      l <- changed_files p HEAD ;;
      announce (or_lines (grey_line p <$> l) [u "[" ++ key p ++ u "] (no changes)"]) (Some reply))
  else if mem cmd [u "progress"; u "status"] then
    for_ projects (λ p,
      t <- test_count p ;;
      m <- module_count p ;;
      msg reply (u "[" ++ key p ++ u "] "
                 ++ format_go [(u "tests", t); (u "modules", m)] None (progress_text p)))
  else if mem cmd [u "plan"; u "roadmap"] then
    for_ projects (λ p,
      announce ((λ l, YEL ++ u "[" ++ key p ++ u "] " ++ l ++ RST) <$> roadmap p) (Some reply))
  else skip.

Definition admin_command (nick_ cmd arg : pystr) : M unit :=
  if str_eqb cmd (u "say") then
    let '(tgt, _, body) := partition (u " ") arg in
    when nonempty tgt && nonempty body do_ msg tgt body
  else if mem cmd [u "announce"; u "broadcast"] then
    when nonempty arg do_ msg (CHANNEL cfg) (B ++ MAG ++ u "announce" ++ RST ++ u " " ++ arg)
  else if str_eqb cmd (u "topic") then
    when nonempty arg do_
      (if topic_protected (CHANNEL cfg)
       then notice nick_ (u "topic changes are disabled for " ++ CHANNEL cfg)
       else send_raw (u "TOPIC " ++ CHANNEL cfg ++ u " :" ++ arg) false)
  else if str_eqb cmd (u "raw") then
    when nonempty arg do_ send_raw arg false
  else skip.

Definition command (nick_ reply text : pystr) : M unit :=
  if negb (startswith text (u "!")) then skip
  else
    let '(cmd, _, arg) := partition (u " ") (drop 1 text) in
    let cmd := lower cmd in
    let arg := strip arg in
    let is_admin := nonempty (ADMIN cfg) && str_eqb nick_ (ADMIN cfg) in
    if mem cmd per_project_cmds then
      match select_projects arg with
      | None => notice reply (u "unknown project '" ++ arg ++ u "' (try: onyx, onyx-server)")
      | Some projects => project_command cmd reply projects
      end
    else if str_eqb cmd (u "help") then msg reply HELP
    else if str_eqb cmd (u "uptime") then
      t <- uptime ;; msg reply (u "uptime: " ++ t)
    else if str_eqb cmd (u "version") then msg reply VERSION
    else if str_eqb cmd (u "ping") then msg reply (u "pong")
    else if str_eqb cmd (u "source") then msg reply sources_text
    else if is_admin then admin_command nick_ cmd arg
    else skip.

Definition re_kick (nick_ : pystr) : re :=
  RSeq (lit (u ":")) (RSeq (plus (RChr nonspace)) (RSeq (lit (u " KICK "))
    (RSeq (RGroup 1 (plus (RChr nonspace))) (RSeq (lit (u " ")) (lit nick_))))).

Definition re_privmsg : re :=
  RSeq (lit (u ":")) (RSeq (RGroup 1 (plus_lazy (RChr nonspace))) (RSeq (lit (u "!"))
    (RSeq (RGroup 2 (plus (RChr nonspace))) (RSeq (lit (u " PRIVMSG "))
      (RSeq (RGroup 3 (plus (RChr nonspace))) (RSeq (lit (u " :")) (RGroup 4 (star (RChr dot))))))))).

(** Strip a leading message-tag block. *)
Definition untag (line : pystr) : pystr :=
  if startswith line (u "@") then
    match find line (u " ") with Some sp => drop (S sp) line | None => [] end
  else line.

(** The token a PING is answered with. *)
Definition ping_token (work : pystr) : pystr :=
  let token := strip (from_opt [] (split_max 1 (u "PING") work !! 1%nat)) in
  if startswith token (u ":") then drop 1 token else token.

Definition is_ping (parts : list pystr) : bool :=
  match parts with
  | p0 :: rest => str_eqb p0 (u "PING")
      || match rest with p1 :: _ => str_eqb p1 (u "PING") | [] => false end
  | [] => false
  end.

Definition sasl_plain : M unit :=
  let creds := SASL_USER cfg ++ [0] ++ SASL_USER cfg ++ [0] ++ SASL_PASS cfg in
  if existsb is_surrogate creds then raise UnicodeEncodeError
  else send_raw (u "AUTHENTICATE " ++ b64encode (utf8_encode creds)) false.

Definition intro_line (p : Project) (h : pystr) : pystr :=
  accent p ++ B ++ u "[" ++ key p ++ u "]" ++ RST ++ u " " ++ emoji p ++ u " " ++ B ++ name p ++ RST
  ++ u " " ++ GREY ++ u "watching" ++ RST ++ u " " ++ SILVER ++ repo p ++ RST ++ u " "
  ++ GREY ++ u "HEAD" ++ RST ++ u " " ++ accent p ++ h ++ RST ++ u " " ++ GREY ++ u "· !help" ++ RST.

Definition welcome : M unit :=
  upd (set_registered true) ;;;
  send_raw (u "JOIN " ++ CHANNEL cfg) false ;;;
  s <- get_ ;;
  (when negb (intro_done s) do_
    (upd (set_intro_done true) ;;;
     for_ PROJECTS (λ p,
       h <- git p [u "rev-parse"; u "--short"; HEAD] ;;
       channel_say (intro_line p (or_ h (u "?"))) false))) ;;;
  set_topic.

(** KICK and PRIVMSG, after the numerics. *)
Definition handle_message (work : pystr) : M unit :=
  s <- get_ ;;
  match rmatch (re_kick (nick s)) work with
  | Some m => enqueue (u "JOIN " ++ group_ 1 m)
  | None =>
    match rmatch re_privmsg work with
    | None => skip
    | Some m =>
      let from := group_ 1 m in
      let target := group_ 3 m in
      let text := group_ 4 m in
      let reply := if str_eqb target (CHANNEL cfg) then CHANNEL cfg else from in
      if startswith text SOH && endswith text SOH then ctcp from (strip_chars SOH text)
      else command from reply (strip text)
    end
  end.

Definition handle (line : pystr) (joined : bool) : M bool :=
  let work := untag line in
  let parts := split_ws work in
  if is_ping parts then send_raw (u "PONG :" ++ ping_token work) false ;;; ret joined
  else if Nat.leb 3 (length parts) && str_eqb (from_opt [] (parts !! 1%nat)) (u "CAP") then
    handle_cap work parts ;;; ret joined
  else if Nat.leb 2 (length parts) && str_eqb (from_opt [] (parts !! 0%nat)) (u "AUTHENTICATE") then
    (when str_eqb (from_opt [] (parts !! 1%nat)) (u "+") do_ sasl_plain) ;;; ret joined
  else
    let code := if Nat.leb 2 (length parts) then from_opt [] (parts !! 1%nat) else [] in
    if str_eqb code (u "903") then cap_end ;;; ret joined
    else if mem code [u "902"; u "904"; u "905"; u "906"; u "907"] then cap_end ;;; ret joined
    else if mem code [u "433"; u "436"] then
      upd (λ s, set_nick (nick s ++ u "_") s) ;;;
      s <- get_ ;;
      send_raw (u "NICK " ++ nick s) false ;;; ret joined
    else if mem code [u "001"; u "376"; u "422"] && negb joined then welcome ;;; ret true
    else handle_message work ;;; ret joined.

(** ** The socket loop *)

Definition CRLF : pybytes := [13; 10].

(** [while b"\r\n" in buf]: every complete line is handled. *)
Fixpoint drain (fuel : nat) (buf : pybytes) (joined : bool) : M (pybytes * bool) :=
  match find buf CRLF, fuel with
  | Some i, S f =>
    j <- handle (utf8_decode (take i buf)) joined ;;
    drain f (drop (i + 2) buf) (joined || j)
  | _, _ => ret (buf, joined)
  end.

(** The timers of one turn of [loop], after [pump_out]. *)
Definition keepalive (now : Z) : M unit :=
  s <- get_ ;;
  if 240 * SECOND <? now - last_rx s then raise (ConnectionError (u "read timeout"))
  else when (90 * SECOND <? now - last_rx s) && (60 * SECOND <? now - last_keepalive s) do_
    (upd (set_last_keepalive now) ;;;
     send_raw (u "PING :ka" ++ dec (Z.quot now SECOND)) false).

Definition cap_timeout (now : Z) : M unit :=
  s <- get_ ;;
  when negb (registered s) && negb (cap_ended s) && (5 * SECOND <? now - connect_ts s) do_ cap_end.

Definition heartbeat (joined : bool) (now : Z) : M unit :=
  s <- get_ ;;
  when joined && (HEARTBEAT_SECS <? now - last_beat s) do_
    (upd (set_last_beat now) ;;;
     for_ PROJECTS (λ p, l <- stats_lines p ;; announce l None) ;;;
     set_topic).

Definition poll (joined : bool) (now : Z) : M unit :=
  s <- get_ ;;
  when joined && (POLL_SECS <=? now - last_poll s) do_
    (upd (set_last_poll now) ;;;
     for_ PROJECTS poll_project ;;;
     set_topic).

(** What [select] and [recv] deliver in one turn. *)
Inductive Input := Quiet | Received (data : pybytes).

Definition receive (inp : Input) (buf : pybytes) (joined : bool) : M (pybytes * bool) :=
  match inp with
  | Quiet => ret (buf, joined)
  | Received [] => raise (ConnectionError (u "eof"))
  | Received data =>
    now <- time ;;
    upd (set_last_rx now) ;;;
    drain (length (buf ++ data)) (buf ++ data) joined
  end.

Definition loop_turn (inp : Input) (buf : pybytes) (joined : bool) : M (pybytes * bool) :=
  r <- receive inp buf joined ;;
  pump_out ;;;
  now <- time ;;
  keepalive now ;;;
  cap_timeout now ;;;
  heartbeat r.2 now ;;;
  poll r.2 now ;;;
  ret r.

(** The entry of [loop]: both clocks start at the current time. *)
Definition loop_start : M (pybytes * bool) :=
  t <- time ;; upd (set_last_rx t) ;;;
  t' <- time ;; upd (set_last_keepalive t') ;;;
  ret ([], false).

(** [loop] over a finite sequence of inputs, until it raises. *)
Fixpoint loop_over (inps : list Input) (buf : pybytes) (joined : bool) : M unit :=
  match inps with
  | [] => skip
  | inp :: inps' =>
    r <- loop_turn inp buf joined ;;
    loop_over inps' r.1 r.2
  end.

(** One connection: [connect] and then [loop]. *)
Definition session (inps : list Input) : M unit :=
  connect ;;; r <- loop_start ;; loop_over inps r.1 r.2.

(** [run] over the inputs of successive connections: whatever [connect] or
    [loop] raises is caught, and the next connection is attempted. *)
Fixpoint run_sessions (sessions : list (list Input)) (s : Bot) : Bot :=
  match sessions with
  | [] => s
  | inps :: rest => run_sessions rest (session inps s).2
  end.

End Bot.
