(* ===== verification/AnnounceBotFacts.v ===== *)
(** * Reasoning about the bot

    A relation that holds between the states before and after a computation
    is established method by method; [always] is closed under the monad, and
    the [bot] hints and the [bot_auto] tactic do the traversal. *)

From S2P Require Import Prelude PyStr Regex Base64 AnnounceProjects AnnounceText AnnounceInventory AnnounceBot.

(** ** Computations that relate their initial and final states *)

Definition always (R : relation Bot) {A} (m : M A) : Prop := ∀ s, R s (m s).2.

(** The relations used here are preorders that ignore the call counter. *)
Class StepRel (R : relation Bot) : Prop := {
  step_refl : ∀ s, R s s;
  step_trans : ∀ s1 s2 s3, R s1 s2 → R s2 s3 → R s1 s3;
  step_tick : ∀ s n, R s (set_tick n s) }.

Section Always.
Context (R : relation Bot) `{!StepRel R}.

Lemma always_ret {A} (a : A) : always R (ret a).
Proof. intros s. apply step_refl. Qed.

Lemma always_raise {A} e : always R (@raise A e).
Proof. intros s. apply step_refl. Qed.

Lemma always_get : always R get_.
Proof. intros s. apply step_refl. Qed.

Lemma always_skip : always R skip.
Proof. apply always_ret. Qed.

Lemma always_ask {A} (f : nat → A) : always R (ask f).
Proof. intros s. apply step_tick. Qed.

Lemma always_upd f : (∀ s, R s (f s)) → always R (upd f).
Proof. intros H s. apply H. Qed.

Lemma always_bind {A B} (m : M A) (f : A → M B) :
  always R m → (∀ a, always R (f a)) → always R (bind m f).
Proof.
  intros Hm Hf s. specialize (Hm s). unfold bind. destruct (m s) as [[a|e] s'] eqn:E; [|exact Hm].
  eapply step_trans; [exact Hm|apply Hf].
Qed.

(** The continuation may use that [get_] returns the state it runs in. *)
Lemma always_bind_get {B} (f : Bot → M B) :
  (∀ s, R s (f s s).2) → always R (bind get_ f).
Proof. intros H s. apply H. Qed.

Lemma always_for {A} (l : list A) f : (∀ x, x ∈ l → always R (f x)) → always R (for_ l f).
Proof.
  induction l as [|x l IH]; intros H; simpl; [apply always_ret|].
  apply always_bind; [apply H; left|]. intros _. apply IH. intros y Hy. apply H. by right.
Qed.

Lemma always_map {A B} (l : list A) (f : A → M B) :
  (∀ x, x ∈ l → always R (f x)) → always R (map_ l f).
Proof.
  induction l as [|x l IH]; intros H; simpl; [apply always_ret|].
  apply always_bind; [apply H; left|]. intros y.
  apply always_bind; [apply IH; intros z Hz; apply H; by right|]. intros ys. apply always_ret.
Qed.

End Always.

Create HintDb bot discriminated.
#[export] Hint Constants Opaque : bot.
#[export] Hint Resolve always_ret always_raise always_get always_skip always_ask : bot.
#[export] Hint Extern 1 (StepRel _) => exact _ : bot.

(** Traverse the structure of a computation; leaves are left to [bot]. *)
Ltac bot_step :=
  match goal with
  | |- always _ (bind _ _) => apply always_bind; [try exact _| |intros ?]
  | |- always _ (for_ _ _) => apply always_for; [try exact _|intros ? ?]
  | |- always _ (map_ _ _) => apply always_map; [try exact _|intros ? ?]
  | |- always _ (let _ := _ in _) => cbv zeta
  | |- always _ (if ?c then _ else _) => destruct c eqn:?
  | |- always _ (match ?x with _ => _ end) => destruct x eqn:?
  end.

Ltac bot_auto := repeat first [ solve [eauto 2 with bot] | bot_step ]; eauto 2 with bot.

(** ** Running a computation symbolically *)

Lemma run_ret {A B} (a : A) (k : A → M B) s : bind (ret a) k s = k a s.
Proof. done. Qed.
Lemma run_skip {B} (k : unit → M B) s : bind skip k s = k tt s.
Proof. done. Qed.
Lemma run_get {B} (k : Bot → M B) s : bind get_ k s = k s s.
Proof. done. Qed.
Lemma run_upd {B} f (k : unit → M B) s : bind (upd f) k s = k tt (f s).
Proof. done. Qed.
Lemma run_ask {A B} (f : nat → A) (k : A → M B) s :
  bind (ask f) k s = k (f (tick s)) (set_tick (S (tick s)) s).
Proof. done. Qed.
Lemma run_assoc {A B C} (m : M A) (f : A → M B) (g : B → M C) s :
  bind (bind m f) g s = bind m (λ a, bind (f a) g) s.
Proof. unfold bind. by destruct (m s) as [[a|e] s']. Qed.

(** The effect of [send_raw]. *)
Definition sent (line : pystr) (t : bool) (s : Bot) : Bot :=
  if sock s && (t || negb (topic_change_protected line))
  then set_wire (wire s ++ [mkSent t line]) s else s.

Lemma send_raw_eq line t s : send_raw line t s = (Ret tt, sent line t s).
Proof.
  unfold send_raw, sent, bind. simpl. destruct (sock s); [|done]. simpl.
  by destruct t, (topic_change_protected line).
Qed.

Lemma run_send_raw {B} line t (k : unit → M B) s :
  bind (send_raw line t) k s = k tt (sent line t s).
Proof. unfold bind. by rewrite send_raw_eq. Qed.

Create Rewrite HintDb run.
#[export] Hint Rewrite @run_ret @run_skip @run_get @run_upd @run_ask @run_assoc
  @run_send_raw send_raw_eq : run.

(** ** Reading the world changes only the call counter *)

Section Readers.
Context (R : relation Bot) `{!StepRel R} (w : World) (cfg : Config).

Lemma always_git p a : always R (git w p a).
Proof. unfold git. bot_auto. Qed.
Lemma always_time : always R (time w).
Proof. unfold time. bot_auto. Qed.
Lemma always_isdir d : always R (isdir w d).
Proof. unfold isdir. bot_auto. Qed.
Lemma always_inventory_get p : always R (inventory_get w p).
Proof. unfold inventory_get. bot_auto. Qed.

#[local] Hint Resolve always_git always_time always_isdir always_inventory_get : bot.

Lemma always_module_count p : always R (module_count w p).
Proof. unfold module_count. bot_auto. Qed.
Lemma always_test_count p : always R (test_count w p).
Proof. unfold test_count. bot_auto. Qed.
Lemma always_inventory_status p : always R (inventory_status w p).
Proof. unfold inventory_status. bot_auto. Qed.
#[local] Hint Resolve always_test_count always_inventory_status : bot.
Lemma always_inventory_label p : always R (inventory_label w p).
Proof. unfold inventory_label. bot_auto. Qed.
Lemma always_head_line p : always R (head_line w p).
Proof. unfold head_line. bot_auto. Qed.
Lemma always_changed_files p rev : always R (changed_files w p rev).
Proof. unfold changed_files. bot_auto. Qed.
Lemma always_commit_stat p rev : always R (commit_stat w p rev).
Proof. unfold commit_stat. bot_auto. Qed.
Lemma always_commit_field p fmt rev : always R (commit_field w p fmt rev).
Proof. unfold commit_field. bot_auto. Qed.
Lemma always_uptime t : always R (uptime w t).
Proof. unfold uptime. bot_auto. Qed.
#[local] Hint Resolve always_head_line always_changed_files always_commit_stat
  always_commit_field always_inventory_label : bot.
Lemma always_stats_lines p : always R (stats_lines w p).
Proof. unfold stats_lines. bot_auto. Qed.
Lemma always_commit_body_explain p rev n : always R (commit_body_explain w p rev n).
Proof. unfold commit_body_explain. bot_auto. Qed.

End Readers.

#[export] Hint Resolve always_git always_time always_isdir always_inventory_get
  always_module_count always_test_count always_inventory_status always_inventory_label
  always_head_line always_changed_files always_commit_stat always_commit_field always_uptime
  always_stats_lines always_commit_body_explain : bot.

(** ** What the bot may write *)

(** Two different constant prefixes. *)
Fixpoint mismatch (p q : pystr) : bool :=
  match p, q with
  | x :: p', y :: q' => negb (x =? y) || mismatch p' q'
  | _, _ => false
  end.

Lemma mismatch_neq p q x y : mismatch p q = true → p ++ x ≠ q ++ y.
Proof.
  revert q. induction p as [|a p IH]; intros [|b q]; simpl; try done.
  rewrite orb_true_iff, negb_true_iff, Z.eqb_neq. intros [H|H] [=]; [done|]. by eapply IH.
Qed.

Lemma mismatch_neq_nil p q x : mismatch p q = true → p ++ x ≠ q.
Proof. intros H E. apply (mismatch_neq p q x []) in H. by rewrite app_nil_r in H. Qed.

(** Lines that wait in the paced queue. *)
Inductive queue_line : pystr → Prop :=
| QPrivmsg t x : queue_line (u "PRIVMSG " ++ t ++ u " :" ++ x)
| QNotice t x : queue_line (u "NOTICE " ++ t ++ u " :" ++ x)
| QJoin c : queue_line (u "JOIN " ++ c).

(** Lines the bot composes and sends at once. *)
Inductive direct_line : pystr → Prop :=
| DPong x : direct_line (u "PONG :" ++ x)
| DPing x : direct_line (u "PING :ka" ++ x)
| DNick x : direct_line (u "NICK " ++ x)
| DUser x : direct_line (u "USER " ++ x)
| DPass x : direct_line (u "PASS " ++ x)
| DAuth x : direct_line (u "AUTHENTICATE " ++ x)
| DCapReq x : direct_line (u "CAP REQ :" ++ x)
| DCapLs : direct_line (u "CAP LS 302")
| DCapEnd : direct_line (u "CAP END").

(** A line on the wire: the bot's own topic, sent as trusted, or an untrusted
    line that passed the topic guard and that the bot composed or, where an
    administrator is configured, relayed for the administrator. *)
Definition wire_line (cfg : Config) (e : Sent) : Prop :=
  if sent_trusted e then ∃ t, sent_line e = u "TOPIC " ++ CHANNEL cfg ++ u " :" ++ t
  else topic_change_protected (sent_line e) = false
       ∧ (queue_line (sent_line e) ∨ direct_line (sent_line e) ∨ nonempty (ADMIN cfg) = true).

Definition CAP_END : pystr := u "CAP END".

Definition capends (l : list Sent) : nat :=
  length (List.filter (λ e, str_eqb (sent_line e) CAP_END) l).

Lemma capends_app l l' : capends (l ++ l') = (capends l + capends l')%nat.
Proof. unfold capends. by rewrite List.filter_app, length_app. Qed.

Lemma capends_other t l : l ≠ CAP_END → capends [mkSent t l] = 0%nat.
Proof. intros H%str_eqb_neq. unfold capends. cbn [List.filter sent_line]. by rewrite H. Qed.

Definition b2n (x : bool) : nat := if x then 1%nat else 0%nat.

Lemma queue_line_not_cap_end l : queue_line l → l ≠ CAP_END.
Proof. intros [t x|t x|c]; by apply mismatch_neq_nil. Qed.

(** What a method does to the state of a connection. *)
Record bot_step_ok (cfg : Config) (s s' : Bot) : Prop := mkStepOk {
  r_queue : Forall queue_line (outq s');
  r_sock : sock s' = sock s;
  r_ts : connect_ts s' = connect_ts s;
  r_cap : cap_ended s = true → cap_ended s' = true;
  r_reg : registered s = true → registered s' = true;
  r_intro : intro_done s = true → intro_done s' = true;
  r_wire : ∃ dw, wire s' = wire s ++ dw ∧ Forall (wire_line cfg) dw
    ∧ (sock s = true → nonempty (ADMIN cfg) = false →
       (capends dw + b2n (cap_ended s) = b2n (cap_ended s'))%nat) }.

(** ... provided the queue holds queue lines. *)
Definition botR (cfg : Config) (s s' : Bot) : Prop :=
  Forall queue_line (outq s) → bot_step_ok cfg s s'.

Lemma botR_same cfg s s' :
  outq s' = outq s → sock s' = sock s → connect_ts s' = connect_ts s → cap_ended s' = cap_ended s →
  (registered s = true → registered s' = true) → (intro_done s = true → intro_done s' = true) →
  wire s' = wire s → botR cfg s s'.
Proof.
  intros Ho Hs Ht Hc Hr Hi Hw HF. split; rewrite ?Ho, ?Hc; try done.
  exists []. rewrite Hw, app_nil_r. auto.
Qed.

#[export] Instance botR_step cfg : StepRel (botR cfg).
Proof.
  split.
  - intros s. by apply botR_same.
  - intros s1 s2 s3 H12 H23 HF. destruct (H12 HF) as [Q1 S1 T1 C1 R1 I1 (d1 & E1 & F1 & N1)].
    destruct (H23 Q1) as [Q2 S2 T2 C2 R2 I2 (d2 & E2 & F2 & N2)].
    split; auto; try congruence.
    exists (d1 ++ d2). rewrite E2, E1, app_assoc. split; [done|]. split; [by apply Forall_app|].
    intros Hs Ha. rewrite capends_app. specialize (N1 Hs Ha).
    rewrite S1 in N2. specialize (N2 Hs Ha). lia.
  - intros s n. by apply botR_same.
Qed.

(** Assignments to fields that the relation does not constrain. *)
Ltac same_fields := apply always_upd; intros ?; apply botR_same; try done.

Section BotR.
Context (w : World) (cfg : Config) (START : Z).
Abbreviation ok := (always (botR cfg)).

Lemma ok_set_nick v : ok (upd (set_nick v)). Proof. same_fields. Qed.
Lemma ok_set_nick' f : ok (upd (λ s, set_nick (f s) s)). Proof. same_fields. Qed.
Lemma ok_set_caps f : ok (upd (λ s, set_caps (f s) s)). Proof. same_fields. Qed.
Lemma ok_set_cap_ls f : ok (upd (λ s, set_cap_ls (f s) s)). Proof. same_fields. Qed.
Lemma ok_set_last_commit f : ok (upd (λ s, set_last_commit (f s) s)). Proof. same_fields. Qed.
Lemma ok_set_last_tests f : ok (upd (λ s, set_last_tests (f s) s)). Proof. same_fields. Qed.
Lemma ok_set_last_beat v : ok (upd (set_last_beat v)). Proof. same_fields. Qed.
Lemma ok_set_last_poll v : ok (upd (set_last_poll v)). Proof. same_fields. Qed.
Lemma ok_set_last_topic v : ok (upd (set_last_topic v)). Proof. same_fields. Qed.
Lemma ok_set_last_send v : ok (upd (set_last_send v)). Proof. same_fields. Qed.
Lemma ok_set_last_rx v : ok (upd (set_last_rx v)). Proof. same_fields. Qed.
Lemma ok_set_last_keepalive v : ok (upd (set_last_keepalive v)). Proof. same_fields. Qed.
Lemma ok_set_sasl_active v : ok (upd (set_sasl_active v)). Proof. same_fields. Qed.
Lemma ok_set_registered : ok (upd (set_registered true)). Proof. same_fields. Qed.
Lemma ok_set_intro_done : ok (upd (set_intro_done true)). Proof. same_fields. Qed.
Lemma ok_inventory_request p : ok (inventory_request p). Proof. same_fields. Qed.

#[local] Hint Resolve ok_set_nick ok_set_nick' ok_set_caps ok_set_cap_ls ok_set_last_commit
  ok_set_last_tests ok_set_last_beat ok_set_last_poll ok_set_last_topic ok_set_last_send
  ok_set_last_rx ok_set_last_keepalive ok_set_sasl_active ok_set_registered ok_set_intro_done
  ok_inventory_request : bot.

(** *** Output *)

Lemma ok_send_untrusted line :
  queue_line line ∨ direct_line line ∨ nonempty (ADMIN cfg) = true →
  (nonempty (ADMIN cfg) = false → line ≠ CAP_END) → ok (send_raw line false).
Proof.
  intros Hform Hne s. unfold send_raw, bind. simpl.
  destruct (sock s) eqn:Hs; simpl; [|apply step_refl].
  destruct (topic_change_protected line) eqn:Hg; simpl; [apply step_refl|].
  intros HF. split; try done. exists [mkSent false line]. split; [done|]. split.
  - constructor; [|done]. split; [done|]. tauto.
  - intros _ Ha. rewrite capends_other; auto.
Qed.

Lemma ok_send_topic t : ok (send_raw (u "TOPIC " ++ CHANNEL cfg ++ u " :" ++ t) true).
Proof.
  intros s. unfold send_raw, bind. simpl. destruct (sock s) eqn:Hs; simpl; [|apply step_refl].
  intros HF. split; try done. eexists [_]. split; [done|]. split.
  - constructor; [|done]. by exists t.
  - intros _ _. rewrite capends_other; [done|]. by apply mismatch_neq_nil.
Qed.

Lemma ok_enqueue line : queue_line line → ok (enqueue line).
Proof.
  intros H s HF. split; try done; simpl.
  - auto with py.
  - exists []. by rewrite app_nil_r.
Qed.

Lemma ok_send_queue line : queue_line line → ok (send_raw line false).
Proof. intros H. apply ok_send_untrusted; [auto|]. intros _. by apply queue_line_not_cap_end. Qed.

Lemma ok_send_direct p x :
  direct_line (p ++ x) → mismatch p CAP_END = true → ok (send_raw (p ++ x) false).
Proof. intros H Hm. apply ok_send_untrusted; [auto|]. intros _. by apply mismatch_neq_nil. Qed.

Lemma ok_cap_end : ok cap_end.
Proof.
  intros s. unfold cap_end, bind. simpl. destruct (cap_ended s) eqn:Hc; simpl; [apply step_refl|].
  unfold send_raw, bind. simpl. destruct (sock s) eqn:Hs; simpl; intros HF.
  - split; simpl; try done. exists [mkSent false CAP_END]. split; [done|]. split.
    + constructor; [|done]. split; [by vm_compute|]. right. left. apply DCapEnd.
    + intros _ _. by rewrite Hc.
  - split; simpl; try done. exists []. rewrite app_nil_r. split; [done|].
    split; [constructor|]. by rewrite Hs.
Qed.

#[local] Hint Resolve ok_send_queue ok_send_topic ok_enqueue ok_cap_end : bot.
#[local] Hint Constructors queue_line direct_line : bot.

Lemma ok_msg t x : ok (msg t x). Proof. unfold msg. bot_auto. Qed.
Lemma ok_notice t x : ok (notice t x). Proof. unfold notice. bot_auto. Qed.
Lemma ok_channel_say x imm : ok (channel_say w cfg x imm).
Proof. unfold channel_say. bot_auto. Qed.
Lemma ok_channel_notice x : ok (channel_notice cfg x).
Proof. unfold channel_notice. bot_auto. Qed.
#[local] Hint Resolve ok_msg ok_notice ok_channel_say ok_channel_notice : bot.

Lemma ok_announce l t : ok (announce w cfg l t).
Proof. unfold announce. bot_auto. Qed.
#[local] Hint Resolve ok_announce : bot.

(** Dropping the head of the queue. *)
Lemma ok_pop s line q n : outq s = line :: q → botR cfg s (set_outq q (set_tick n s)).
Proof.
  intros E HF. rewrite E in HF. inversion HF. split; try done. exists [].
  by rewrite app_nil_r.
Qed.

Lemma ok_pump_out : ok (pump_out w).
Proof.
  unfold pump_out. apply always_bind_get. intros s. destruct (outq s) as [|line q] eqn:E.
  { apply step_refl. }
  unfold bind at 1. simpl. destruct (_ <=? _); [|apply step_tick].
  intros HF. assert (Hq : queue_line line) by (rewrite E in HF; by inversion HF).
  unfold bind at 1. simpl. revert HF. change (botR cfg s
    ((bind (send_raw line false) (λ _, bind (time w) (λ now', upd (set_last_send now'))))
       (set_outq q (set_tick (S (tick s)) s))).2).
  eapply step_trans; [by eapply ok_pop|].
  assert (H : ok (bind (send_raw line false) (λ _, bind (time w) (λ now', upd (set_last_send now')))))
    by bot_auto.
  apply H.
Qed.

#[local] Hint Resolve ok_pump_out : bot.

(** *** Announcements *)

Lemma ok_tests_delta p tc : ok (tests_delta p tc).
Proof. unfold tests_delta. bot_auto. Qed.
#[local] Hint Resolve ok_tests_delta : bot.

Lemma ok_commit_lines p rev tc d : ok (commit_lines w p rev tc d).
Proof. unfold commit_lines. bot_auto. Qed.
#[local] Hint Resolve ok_commit_lines : bot.

Lemma ok_set_topic : ok (set_topic w cfg).
Proof. unfold set_topic. bot_auto. Qed.
#[local] Hint Resolve ok_set_topic : bot.

Lemma ok_announce_revs p tc l : ok (announce_revs w cfg p tc l).
Proof. induction l as [|r l IH]; simpl; bot_auto. Qed.
#[local] Hint Resolve ok_announce_revs : bot.

Lemma ok_poll_project p : ok (poll_project w cfg p).
Proof. unfold poll_project. bot_auto. Qed.
#[local] Hint Resolve ok_poll_project : bot.

(** *** Protocol *)

Lemma ok_auth_plain : ok (send_raw (u "AUTHENTICATE PLAIN") false).
Proof.
  change (u "AUTHENTICATE PLAIN") with (u "AUTHENTICATE " ++ u "PLAIN").
  apply ok_send_direct; [apply DAuth | by vm_compute].
Qed.
#[local] Hint Resolve ok_auth_plain : bot.

#[local] Hint Extern 1 (always _ (send_raw (u _ ++ _) false)) =>
  apply ok_send_direct; [solve [auto 1 with bot] | vm_compute; reflexivity] : bot.

Lemma ok_handle_cap line parts : ok (handle_cap cfg line parts).
Proof. unfold handle_cap. bot_auto. Qed.

Lemma ok_ctcp n x : ok (ctcp w n x).
Proof. unfold ctcp. bot_auto. Qed.

Lemma ok_project_command cmd reply ps : ok (project_command w cfg cmd reply ps).
Proof. unfold project_command. bot_auto. Qed.
#[local] Hint Resolve ok_handle_cap ok_ctcp ok_project_command : bot.

Lemma ok_admin_send line : nonempty (ADMIN cfg) = true → ok (send_raw line false).
Proof. intros H. apply ok_send_untrusted; [auto|]. by rewrite H. Qed.

Lemma ok_admin_command n cmd arg :
  nonempty (ADMIN cfg) = true → ok (admin_command cfg n cmd arg).
Proof. intros H. unfold admin_command. bot_auto; by apply ok_admin_send. Qed.

Lemma ok_command n reply text : ok (command w cfg START n reply text).
Proof.
  unfold command. bot_auto. apply ok_admin_command. bool_hyps. done.
Qed.
#[local] Hint Resolve ok_command : bot.

Lemma ok_handle_message work : ok (handle_message w cfg START work).
Proof. unfold handle_message. bot_auto. Qed.

Lemma ok_sasl_plain : ok (sasl_plain cfg).
Proof. unfold sasl_plain. bot_auto. Qed.

Lemma ok_welcome : ok (welcome w cfg).
Proof. unfold welcome. bot_auto. Qed.
#[local] Hint Resolve ok_handle_message ok_sasl_plain ok_welcome : bot.

Lemma ok_handle line joined : ok (handle w cfg START line joined).
Proof. unfold handle. bot_auto. Qed.
#[local] Hint Resolve ok_handle : bot.

(** *** The loop *)

Lemma ok_drain fuel buf joined : ok (drain w cfg START fuel buf joined).
Proof.
  revert buf joined. induction fuel as [|f IH]; intros buf joined; simpl; bot_auto.
Qed.
#[local] Hint Resolve ok_drain : bot.

Lemma ok_receive inp buf joined : ok (receive w cfg START inp buf joined).
Proof. unfold receive. bot_auto. Qed.

Lemma ok_keepalive now : ok (keepalive now).
Proof. unfold keepalive. bot_auto. Qed.
Lemma ok_cap_timeout now : ok (cap_timeout now).
Proof. unfold cap_timeout. bot_auto. Qed.
Lemma ok_heartbeat j now : ok (heartbeat w cfg j now).
Proof. unfold heartbeat. bot_auto. Qed.
Lemma ok_poll j now : ok (poll w cfg j now).
Proof. unfold poll. bot_auto. Qed.
#[local] Hint Resolve ok_receive ok_keepalive ok_cap_timeout ok_heartbeat ok_poll : bot.

Lemma ok_loop_turn inp buf joined : ok (loop_turn w cfg START inp buf joined).
Proof. unfold loop_turn. bot_auto. Qed.
Lemma ok_loop_start : ok (loop_start w).
Proof. unfold loop_start. bot_auto. Qed.
#[local] Hint Resolve ok_loop_turn ok_loop_start : bot.

Lemma ok_loop_over inps buf joined : ok (loop_over w cfg START inps buf joined).
Proof. revert buf joined. induction inps as [|i inps IH]; intros buf joined; simpl; bot_auto. Qed.

(** *** Connections *)

(** Across connections only the discipline of the wire and of the queue is
    kept: the other fields are reset. *)
Definition connR (s s' : Bot) : Prop :=
  Forall queue_line (outq s) →
  Forall queue_line (outq s') ∧ ∃ dw, wire s' = wire s ++ dw ∧ Forall (wire_line cfg) dw.

#[export] Instance connR_step : StepRel connR.
Proof.
  split.
  - intros s HF. split; [done|]. exists []. by rewrite app_nil_r.
  - intros s1 s2 s3 H12 H23 HF. destruct (H12 HF) as (Q1 & d1 & E1 & F1).
    destruct (H23 Q1) as (Q2 & d2 & E2 & F2). split; [done|].
    exists (d1 ++ d2). rewrite E2, E1, app_assoc. split; [done|]. by apply Forall_app.
  - intros s n HF. split; [done|]. exists []. by rewrite app_nil_r.
Qed.

Lemma connR_of_ok {A} (m : M A) : ok m → always connR m.
Proof.
  intros H s HF. destruct (H s HF) as [Q _ _ _ _ _ (d & E & F & _)]. split; [done|].
  by exists d.
Qed.

Lemma connR_upd f : (∀ s, wire (f s) = wire s) →
  (∀ s, Forall queue_line (outq s) → Forall queue_line (outq (f s))) → always connR (upd f).
Proof.
  intros Hw Hq s HF. split; [by apply Hq|]. exists []. simpl. by rewrite Hw, app_nil_r.
Qed.

Lemma connR_send line :
  direct_line line → always connR (send_raw line false).
Proof.
  intros Hl s. unfold send_raw, bind. simpl. destruct (sock s); simpl; [|apply step_refl].
  destruct (topic_change_protected line) eqn:Hg; simpl; [apply step_refl|].
  intros HF. split; [done|]. eexists [_]. split; [done|]. constructor; [|done]. split; auto.
Qed.

#[local] Hint Resolve connR_send : bot.
#[local] Hint Extern 2 (always connR (upd _)) => apply connR_upd; intros; done : bot.

Lemma connR_connect : always connR (connect w cfg).
Proof. unfold connect. bot_auto. Qed.
#[local] Hint Resolve connR_connect : bot.

Lemma connR_session inps : always connR (session w cfg START inps).
Proof.
  unfold session. bot_auto; apply connR_of_ok; [apply ok_loop_start|apply ok_loop_over].
Qed.

Lemma connR_run sessions s : connR s (run_sessions w cfg START sessions s).
Proof.
  revert s. induction sessions as [|i l IH]; intros s; simpl; [apply step_refl|].
  eapply step_trans; [apply connR_session|apply IH].
Qed.

End BotR.
