(* ===== verification/AnnounceSpec.v ===== *)
(** * tools/announce_bot.py: properties of the bot

    What the bot puts on the wire over any sequence of connections, capability
    negotiation, pacing, answers to PING, confinement of ordinary users,
    message budgets, polling and reconnection. *)

From S2P Require Import Prelude PyStr Regex Base64 AnnounceProjects AnnounceText AnnounceInventory AnnounceBot AnnounceBotFacts.

(** ** A concrete environment for the witnesses *)

Definition world0 : World :=
  {| w_git := λ _ _, Some (u "abc123"); w_shell := λ _ _, Some (u "12");
     w_time := λ n, Z.of_nat n * SECOND; w_isdir := λ _ _, true;
     w_inventory := λ _ _, pending_inventory; w_strftime := λ _, u "now";
     w_connect := λ _, true |}.

Definition config0 : Config := config_of ∅.
Definition bot0 : Bot := init_bot world0 config0 0.

(** ** The state after a successful [connect] *)

(** Relations that only constrain a few fields. *)
Definition keepR (s s' : Bot) : Prop :=
  outq s' = outq s ∧ cap_ended s' = cap_ended s ∧ registered s' = registered s
  ∧ connect_ts s' = connect_ts s ∧ nick s' = nick s.

#[export] Instance keepR_step : StepRel keepR.
Proof.
  split; unfold keepR; [done| |done].
  intros s1 s2 s3 (->&->&->&->&->) (->&->&->&->&->). done.
Qed.

Lemma keepR_send line t : always keepR (send_raw line t).
Proof.
  intros s. unfold send_raw, bind. simpl. destruct (negb (sock s)); [done|].
  by destruct (negb t && topic_change_protected line).
Qed.

Lemma sock_send line t s : sock (send_raw line t s).2 = sock s.
Proof.
  unfold send_raw, bind. simpl. destruct (negb (sock s)); [done|].
  by destruct (negb t && topic_change_protected line).
Qed.

Definition sockR (s s' : Bot) : Prop := sock s' = sock s.
#[export] Instance sockR_step : StepRel sockR.
Proof. split; unfold sockR; [done|congruence|done]. Qed.

Lemma sockR_send line t : always sockR (send_raw line t).
Proof. intros s. apply sock_send. Qed.

#[local] Hint Resolve keepR_send sockR_send : bot.

Lemma bind_ret_inv {A B} (m : M A) (f : A → M B) s b s' :
  bind m f s = (Ret b, s') → ∃ a s1, m s = (Ret a, s1) ∧ f a s1 = (Ret b, s').
Proof. unfold bind. destruct (m s) as [[a|e] s1]; [eauto|done]. Qed.

Lemma always_eq R {A} (m : M A) s r s' : always R m → m s = (r, s') → R s s'.
Proof. intros H E. specialize (H s). by rewrite E in H. Qed.

(** The registration burst of [connect], once the socket is open. *)
Definition burst (cfg : Config) : M unit :=
  bind (send_raw (u "CAP LS 302") false) (λ _,
  bind (if nonempty (PASSWORD cfg) then send_raw (u "PASS " ++ PASSWORD cfg) false else skip) (λ _,
  bind get_ (λ s,
  bind (send_raw (u "NICK " ++ nick s) false) (λ _,
  send_raw (u "USER " ++ NICK cfg ++ u " 0 * :Onyx+Onyx Server build announcer") false)))).

Lemma connect_spec w cfg s s' :
  connect w cfg s = (Ret tt, s') →
  outq s' = [] ∧ cap_ended s' = false ∧ registered s' = false
  ∧ connect_ts s' = w_time w (tick s) ∧ nick s' = NICK cfg ∧ sock s' = true.
Proof.
  unfold connect. intros H.
  do 4 (apply bind_ret_inv in H as (?&?&[= <- <-]&H)).
  apply bind_ret_inv in H as (now&?&[= <- <-]&H).
  do 5 (apply bind_ret_inv in H as (?&?&[= <- <-]&H)).
  apply bind_ret_inv in H as (?&s1&E1&H).
  unshelve epose proof (always_eq keepR _ _ _ _ _ E1) as K1; [bot_auto|].
  apply bind_ret_inv in H as (ok&?&[= <- <-]&H).
  destruct (w_connect w (tick s1)); simpl in H; [|done].
  apply bind_ret_inv in H as (?&?&[= <- <-]&H). fold (burst cfg) in H.
  unshelve epose proof (always_eq keepR _ _ _ _ _ H) as K2; [unfold burst; bot_auto|].
  unshelve epose proof (always_eq sockR _ _ _ _ _ H) as K3; [unfold burst; bot_auto|].
  unfold keepR, sockR in *. simpl in *. naive_solver congruence.
Qed.

(** Lines of the queue pass the topic guard. *)
Lemma queue_line_unguarded l : queue_line l → topic_change_protected l = false.
Proof.
  assert (HP : u "PRIVMSG " = u "PRIVMSG" ++ [32]) by (by vm_compute).
  assert (HN : u "NOTICE " = u "NOTICE" ++ [32]) by (by vm_compute).
  assert (HJ : u "JOIN " = u "JOIN" ++ [32]) by (by vm_compute).
  intros [t x|t x|c]; rewrite ?HP, ?HN, ?HJ, <-app_assoc; simpl;
    apply guard_other_command; by vm_compute.
Qed.

(** The text sent by [channel_say] fits the budget and is not empty. *)
Lemma say_text_budget text :
  (byte_len (say_text text) ≤ MAX_MESSAGE_TEXT_BYTES)%nat
  ∧ (strip text ≠ [] → say_text text ≠ []).
Proof. unfold say_text. destruct (say_budget text) as (t & -> & H1 & H2). done. Qed.






(** C28: In one connection CAP END is written at most once, and exactly when the
    negotiation is recorded as ended, whatever the server sends, when no
    administrator is configured. *)
Theorem cap_end_once w cfg START inps s s1 s2 r :
  nonempty (ADMIN cfg) = false →
  connect w cfg s = (Ret tt, s1) →
  bind (loop_start w) (λ r, loop_over w cfg START inps r.1 r.2) s1 = (r, s2) →
  capends (wire s2) = (capends (wire s1) + b2n (cap_ended s2))%nat.
Proof.
  intros Ha Hc Hl. destruct (connect_spec w cfg s s1 Hc) as (Hq & Hce & _ & _ & _ & Hs).
  assert (H : botR cfg s1 s2).
  { eapply always_eq; [|exact Hl].
    apply always_bind; [exact _|apply ok_loop_start|]. intros a. apply ok_loop_over. }
  destruct H as [_ _ _ _ _ _ (dw & -> & _ & Hn)]; [rewrite Hq; constructor|].
  specialize (Hn Hs Ha). rewrite capends_app, <-Hn, Hce. simpl. lia.
Qed.

Lemma cap_end_once_witness :
  capends (wire (session world0 config0 0
    [Received (bs ":s CAP * NAK :x" ++ CRLF ++ bs ":s 904 a" ++ CRLF)] bot0).2) = 1%nat.
Proof.
  etransitivity.
  - apply (cap_end_once world0 config0 0
      [Received (bs ":s CAP * NAK :x" ++ CRLF ++ bs ":s 904 a" ++ CRLF)] bot0
      (connect world0 config0 bot0).2 _
      (bind (loop_start world0) (λ r, loop_over world0 config0 0
        [Received (bs ":s CAP * NAK :x" ++ CRLF ++ bs ":s 904 a" ++ CRLF)] r.1 r.2)
        (connect world0 config0 bot0).2).1);
      vm_compute; reflexivity.
  - vm_compute. reflexivity.
Defined.

(** ** Capability deadline *)

Lemma cap_timeout_ends now s :
  5 * SECOND < now - connect_ts s →
  registered (cap_timeout now s).2 = true ∨ cap_ended (cap_timeout now s).2 = true.
Proof.
  intros Ht%Z.ltb_lt. unfold cap_timeout, cap_end, send_raw, bind. simpl. rewrite Ht.
  destruct (registered s) eqn:Hr; [simpl; auto|].
  destruct (cap_ended s) eqn:Hc; simpl; [auto|]. rewrite Hc. right. simpl.
  destruct (sock s); simpl; [|done]. by destruct (topic_change_protected _).
Qed.

(** Registration cannot be wedged by capability negotiation: once more than
    five seconds have passed since the connection was opened, a turn of the
    loop that does not drop the connection leaves the bot registered or with
    the negotiation ended. *)
Theorem cap_deadline w cfg START inp buf joined s r s' :
  Forall queue_line (outq s) →
  (∀ n, 5 * SECOND < w_time w n - connect_ts s) →
  loop_turn w cfg START inp buf joined s = (Ret r, s') →
  registered s' = true ∨ cap_ended s' = true.
Proof.
  intros HF Ht H. unfold loop_turn in H.
  apply bind_ret_inv in H as (r1&s1&E1&H).
  destruct (always_eq _ _ _ _ _ (ok_receive w cfg START inp buf joined) E1 HF)
    as [Q1 _ T1 _ _ _ _].
  apply bind_ret_inv in H as ([]&s2&E2&H).
  destruct (always_eq _ _ _ _ _ (ok_pump_out w cfg) E2 Q1) as [Q2 _ T2 _ _ _ _].
  apply bind_ret_inv in H as (now&?&[= <- <-]&H).
  apply bind_ret_inv in H as ([]&s3&E3&H).
  destruct (always_eq _ _ _ _ _ (ok_keepalive cfg _) E3 Q2) as [Q3 _ T3 _ _ _ _].
  simpl in T3. apply bind_ret_inv in H as ([]&s4&E4&H).
  assert (H4 : registered s4 = true ∨ cap_ended s4 = true).
  { pose proof (cap_timeout_ends (w_time w (tick s2)) s3) as Hc. rewrite E4 in Hc. apply Hc.
    rewrite T3, T2, T1. apply Ht. }
  destruct (always_eq _ _ _ _ _ (ok_cap_timeout cfg _) E4 Q3) as [Q4 _ _ _ _ _ _].
  apply bind_ret_inv in H as ([]&s5&E5&H).
  destruct (always_eq _ _ _ _ _ (ok_heartbeat w cfg _ _) E5 Q4) as [Q5 _ _ C5 R5 _ _].
  apply bind_ret_inv in H as ([]&s6&E6&H).
  destruct (always_eq _ _ _ _ _ (ok_poll w cfg _ _) E6 Q5) as [_ _ _ C6 R6 _ _].
  injection H as _ <-. destruct H4; auto.
Qed.

Lemma cap_deadline_witness :
  let s := set_connect_ts (-10 * SECOND) (connect world0 config0 bot0).2 in
  let s := set_last_rx 0 s in
  registered (loop_turn world0 config0 0 Quiet [] false s).2 = true
  ∨ cap_ended (loop_turn world0 config0 0 Quiet [] false s).2 = true.
Proof.
  apply (cap_deadline world0 config0 0 Quiet [] false
    (set_last_rx 0 (set_connect_ts (-10 * SECOND) (connect world0 config0 bot0).2)) ([], false)).
  - vm_compute. constructor.
  - intros n. simpl. unfold SECOND. lia.
  - vm_compute. reflexivity.
Defined.

(** ** Pacing *)

Lemma pump_out_eq w s line q : outq s = line :: q →
  pump_out w s =
  if SEND_INTERVAL <=? w_time w (tick s) - last_send s then
    let s1 := sent line false (set_outq q (set_tick (S (tick s)) s)) in
    (Ret tt, set_last_send (w_time w (tick s1)) (set_tick (S (tick s1)) s1))
  else (Ret tt, set_tick (S (tick s)) s).
Proof.
  intros E. unfold pump_out. autorewrite with run. rewrite E. unfold time.
  autorewrite with run. destruct (_ <=? _); [|done]. by autorewrite with run.
Qed.

(** [pump_out] sends nothing from an empty queue or within the anti-flood
    interval; otherwise it removes exactly the oldest queued line, writes it
    unless the guard refuses it or there is no socket, and restarts the
    interval. *)
Theorem pump_out_spec w s :
  let s' := (pump_out w s).2 in
  match outq s with
  | [] => s' = s
  | line :: q =>
    if SEND_INTERVAL <=? w_time w (tick s) - last_send s then
      outq s' = q ∧ last_send s' = w_time w (S (tick s))
      ∧ wire s' = wire s ++ (if sock s && negb (topic_change_protected line)
                             then [mkSent false line] else [])
    else outq s' = outq s ∧ wire s' = wire s ∧ last_send s' = last_send s
  end.
Proof.
  cbv zeta. destruct (outq s) as [|line q] eqn:E.
  - unfold pump_out. autorewrite with run. by rewrite E.
  - rewrite (pump_out_eq w s line q E). destruct (_ <=? _); [|by rewrite <-E].
    unfold sent. simpl.
    destruct (sock s && negb (topic_change_protected line)); simpl; by rewrite ?app_nil_r.
Qed.

Fixpoint pumps (w : World) (n : nat) (s : Bot) : Bot :=
  match n with O => s | S n' => pumps w n' (pump_out w s).2 end.

Lemma pump_out_line w s line q :
  outq s = line :: q → sock s = true → queue_line line →
  SEND_INTERVAL ≤ w_time w (tick s) - last_send s →
  let s' := (pump_out w s).2 in
  outq s' = q ∧ wire s' = wire s ++ [mkSent false line] ∧ sock s' = true
  ∧ tick s' = S (S (tick s)) ∧ last_send s' = w_time w (S (tick s)).
Proof.
  intros E Hs Hq Ht%Z.leb_le. cbv zeta. rewrite (pump_out_eq w s line q E), Ht. unfold sent. simpl.
  by rewrite Hs, queue_line_unguarded.
Qed.

(** With a clock that advances by the anti-flood interval between readings,
    as many pumps as there are queued lines write the whole queue, in the
    order it was filled, and empty it. *)
Theorem pumps_deliver w s :
  sock s = true →
  Forall queue_line (outq s) →
  SEND_INTERVAL ≤ w_time w (tick s) - last_send s →
  (∀ n, SEND_INTERVAL ≤ w_time w (S n) - w_time w n) →
  let s' := pumps w (length (outq s)) s in
  outq s' = [] ∧ wire s' = wire s ++ (mkSent false <$> outq s).
Proof.
  intros Hs HF Ht Hclock. cbv zeta. remember (outq s) as q eqn:Eq. revert s Hs Ht Eq.
  induction HF as [|line q Hline HF IH]; intros s Hs Ht Eq; simpl.
  { by rewrite app_nil_r. }
  symmetry in Eq. destruct (pump_out_line w s line q Eq Hs Hline Ht) as (H1 & H2 & H3 & H4 & H5).
  destruct (IH (pump_out w s).2) as [IH1 IH2]; [done| |done|].
  - rewrite H4, H5. apply Hclock.
  - split; [done|]. by rewrite IH2, H2, <-app_assoc.
Qed.

Lemma pumps_deliver_witness :
  let s := set_outq [u "PRIVMSG " ++ u "#root" ++ u " :" ++ u "hi"] (set_sock true bot0) in
  outq (pumps world0 1 s) = [].
Proof.
  apply (pumps_deliver world0
    (set_outq [u "PRIVMSG " ++ u "#root" ++ u " :" ++ u "hi"] (set_sock true bot0))).
  - reflexivity.
  - constructor; [apply QPrivmsg|constructor].
  - vm_compute. discriminate.
  - intros n. simpl. unfold SECOND, SEND_INTERVAL. lia.
Defined.

(** ** PING *)

(** An optional message-tag block and an optional source. *)
Definition tag_block (tag : option pystr) : pystr :=
  match tag with Some t => u "@" ++ t ++ u " " | None => [] end.
Definition source_block (src : option pystr) : pystr :=
  match src with Some n => u ":" ++ n ++ u " " | None => [] end.

Lemma lit_at : u "@" = [64]. Proof. by vm_compute. Qed.
Lemma lit_colon : u ":" = [58]. Proof. by vm_compute. Qed.
Lemma lit_space : u " " = [32]. Proof. by vm_compute. Qed.
Lemma lit_ping_colon : u "PING :" = u "PING" ++ [32; 58]. Proof. by vm_compute. Qed.
Lemma lit_pong_colon : u "PONG :" = u "PONG" ++ [32; 58]. Proof. by vm_compute. Qed.

Lemma untag_block tag x :
  (∀ t, tag = Some t → 32 ∉ t) → startswith x (u "@") = false →
  untag (tag_block tag ++ x) = x.
Proof.
  intros Ht Hx. unfold untag. destruct tag as [t|]; simpl; [|by rewrite Hx].
  rewrite <-!app_assoc, startswith_app.
  assert (H64 : u "@" ++ t ++ u " " ++ x = (64 :: t) ++ 32 :: x).
  { by rewrite lit_at, lit_space. }
  rewrite H64, lit_space, find_char.
  - replace ((64 :: t) ++ 32 :: x) with (((64 :: t) ++ [32]) ++ x) by (by rewrite <-app_assoc).
    apply drop_app_length'. rewrite length_app. simpl. lia.
  - apply not_elem_of_cons. split; [done|]. by apply Ht.
Qed.

Definition is_token (x : pystr) : Prop := Forall (λ c, isspace c = false) x.

(** A source that cannot be mistaken for the command. *)
Definition plain_source (n : pystr) : Prop :=
  is_token n ∧ contains (u ":" ++ n) (u "PING") = false.

Lemma ping_word_token : is_token (u "PING").
Proof. vm_compute. repeat constructor. Qed.

Lemma find_ping src tok :
  (∀ n, src = Some n → plain_source n) →
  find (source_block src ++ u "PING :" ++ tok) (u "PING") = Some (length (source_block src)).
Proof.
  intros Hs. rewrite lit_ping_colon, <-app_assoc. destruct src as [n|]; simpl; [|apply find_here].
  destruct (Hs n eq_refl) as [_ Hn]. rewrite lit_space, <-!app_assoc.
  rewrite app_assoc. cbn [app]. rewrite find_skip.
  - rewrite find_here. simpl. rewrite !length_app. simpl. f_equal. lia.
  - done.
  - vm_compute. intros H. repeat (apply elem_of_cons in H as [H|H]; [done|]).
    by apply elem_of_nil in H.
Qed.

Lemma ping_token_eq src tok :
  (∀ n, src = Some n → plain_source n) → is_token tok →
  ping_token (source_block src ++ u "PING :" ++ tok) = tok.
Proof.
  intros Hs Ht. unfold ping_token. rewrite split_max_one by (by vm_compute).
  rewrite find_ping by done. simpl.
  assert (Hd : drop (length (source_block src) + length (u "PING"))
    (source_block src ++ u "PING :" ++ tok) = 32 :: 58 :: tok).
  { rewrite lit_ping_colon, <-app_assoc, app_assoc. apply drop_app_length'.
    by rewrite length_app. }
  rewrite Hd.
  assert (Hst : strip (32 :: 58 :: tok) = 58 :: tok).
  { change (strip (32 :: 58 :: tok)) with (strip (58 :: tok)). apply strip_by_fix.
    by constructor. }
  rewrite Hst, lit_colon. simpl. by rewrite drop_0.
Qed.

Lemma is_ping_parts src tok :
  (∀ n, src = Some n → plain_source n) →
  is_ping (split_ws (source_block src ++ u "PING :" ++ tok)) = true.
Proof.
  intros Hs. rewrite lit_ping_colon, <-app_assoc.
  change (u "PING" ++ [32; 58] ++ tok) with (u "PING" ++ 32 :: (58 :: tok)).
  destruct src as [n|]; simpl.
  - destruct (Hs n eq_refl) as [Hn _].
    rewrite lit_colon, lit_space, <-!app_assoc.
    assert (E : ∀ y, [58] ++ n ++ [32] ++ y = (58 :: n) ++ 32 :: y) by done.
    rewrite E, split_ws_cons by (done || by constructor).
    rewrite split_ws_cons by (apply ping_word_token || by vm_compute).
    simpl. by rewrite str_eqb_refl, orb_true_r.
  - rewrite split_ws_cons by (apply ping_word_token || by vm_compute).
    simpl. by rewrite str_eqb_refl.
Qed.

Lemma ping_line_not_tagged src tok : startswith (source_block src ++ u "PING :" ++ tok) (u "@") = false.
Proof.
  rewrite lit_at. destruct src as [n|]; simpl; [rewrite lit_colon|rewrite lit_ping_colon]; done.
Qed.

(** A PING is answered at once by a PONG that carries the same token, with
    or without message tags and with or without a source, provided the source
    does not itself contain the word PING. *)
Theorem ping_answered w cfg START tag src tok joined s :
  sock s = true →
  (∀ t, tag = Some t → 32 ∉ t) →
  (∀ n, src = Some n → plain_source n) →
  is_token tok →
  handle w cfg START (tag_block tag ++ source_block src ++ u "PING :" ++ tok) joined s
  = (Ret joined, set_wire (wire s ++ [mkSent false (u "PONG :" ++ tok)]) s).
Proof.
  intros Hs Htag Hsrc Htok. unfold handle.
  rewrite untag_block by (done || apply ping_line_not_tagged).
  rewrite is_ping_parts, ping_token_eq by done. autorewrite with run. unfold ret, sent.
  rewrite Hs, lit_pong_colon, <-app_assoc.
  change (u "PONG" ++ [32; 58] ++ tok) with (u "PONG" ++ 32 :: (58 :: tok)).
  by rewrite guard_other_command by (by vm_compute).
Qed.

Lemma ping_answered_witness :
  wire (handle world0 config0 0 (u "@time=1 :irc.onyx PING :tok42") false (set_sock true bot0)).2
  = [mkSent false (u "PONG :" ++ u "tok42")].
Proof.
  change (u "@time=1 :irc.onyx PING :tok42")
    with (tag_block (Some (u "time=1")) ++ source_block (Some (u "irc.onyx"))
          ++ u "PING :" ++ u "tok42").
  rewrite (ping_answered world0 config0 0 (Some (u "time=1")) (Some (u "irc.onyx")) (u "tok42")).
  - reflexivity.
  - reflexivity.
  - intros t [= <-]. vm_compute. intros H.
    repeat (apply elem_of_cons in H as [H|H]; [done|]). by apply elem_of_nil in H.
  - intros n [= <-]. split; [vm_compute; repeat constructor|vm_compute; reflexivity].
  - vm_compute. repeat constructor.
Defined.

(** A server whose name contains the word PING gets an answer with the
    wrong token: the token is taken after the first occurrence of PING in the
    line, here inside the source. *)
Theorem ping_source_confusion :
  wire (handle world0 config0 0 (u ":irc.PING.example PING :tok") false (set_sock true bot0)).2
  = [mkSent false (u "PONG :.example PING :tok")].
Proof. vm_compute. reflexivity. Qed.
