(* ===== verification/AnnounceProps.v ===== *)
(** * tools/announce_bot.py: users, messages, inventory and polling

    What an ordinary user can make the bot do, the size of what it sends, the
    inventory cache under every interleaving of its threads, polling, and the
    reconnection delay. *)

From S2P Require Import Prelude PyStr Regex Base64 AnnounceProjects AnnounceText AnnounceInventory AnnounceBot AnnounceBotFacts AnnounceSpec.

(** ** Ordinary users *)

(** A PRIVMSG or NOTICE to one of [dests]. *)
Inductive line_to (dests : list pystr) : pystr → Prop :=
| ToPrivmsg t x : t ∈ dests → line_to dests (u "PRIVMSG " ++ t ++ u " :" ++ x)
| ToNotice t x : t ∈ dests → line_to dests (u "NOTICE " ++ t ++ u " :" ++ x).

(** Nothing but the output, the pacing clock and the call counter changes, and
    the output consists of messages to [dests]. *)
Record confined (dests : list pystr) (s s' : Bot) : Prop := {
  c_reg : (sock s', nick s', registered s', cap_ended s', caps s', cap_ls s', sasl_active s')
        = (sock s, nick s, registered s, cap_ended s, caps s, cap_ls s, sasl_active s);
  c_data : (last_commit s', last_tests s', last_topic s', inv_requests s', intro_done s')
         = (last_commit s, last_tests s, last_topic s, inv_requests s, intro_done s);
  c_clock : (last_beat s', last_poll s', last_rx s', last_keepalive s', connect_ts s')
          = (last_beat s, last_poll s, last_rx s, last_keepalive s, connect_ts s);
  c_queue : ∃ q, outq s' = outq s ++ q ∧ Forall (line_to dests) q;
  c_wire : ∃ d, wire s' = wire s ++ d
    ∧ Forall (λ e, sent_trusted e = false ∧ line_to dests (sent_line e)) d }.

#[export] Instance confined_step dests : StepRel (confined dests).
Proof.
  split.
  - intros s. split; try done; exists []; by rewrite app_nil_r.
  - intros s1 s2 s3 [A1 B1 C1 (q1 & Eq1 & F1) (d1 & Ed1 & G1)]
      [A2 B2 C2 (q2 & Eq2 & F2) (d2 & Ed2 & G2)].
    split; try congruence.
    + exists (q1 ++ q2). rewrite Eq2, Eq1, app_assoc. split; [done|]. by apply Forall_app.
    + exists (d1 ++ d2). rewrite Ed2, Ed1, app_assoc. split; [done|]. by apply Forall_app.
  - intros s n. split; try done; exists []; by rewrite app_nil_r.
Qed.

Section Confined.
Context (w : World) (cfg : Config) (START : Z) (dests : list pystr).
Abbreviation conf := (always (confined dests)).

Lemma conf_send line : line_to dests line → conf (send_raw line false).
Proof.
  intros Hl s. rewrite send_raw_eq. unfold sent. simpl.
  destruct (_ && _); [|apply step_refl].
  split; try done; [exists []; by rewrite app_nil_r|].
  eexists. split; [done|]. by repeat constructor.
Qed.

Lemma conf_enqueue line : line_to dests line → conf (enqueue line).
Proof.
  intros Hl s. split; try done; simpl; [|exists []; by rewrite app_nil_r].
  eexists. split; [done|]. by constructor.
Qed.

Lemma conf_set_last_send v : conf (upd (set_last_send v)).
Proof. intros s. split; try done; exists []; by rewrite app_nil_r. Qed.

#[local] Hint Resolve conf_send conf_enqueue conf_set_last_send : bot.
#[local] Hint Immediate ToPrivmsg ToNotice : bot.

Lemma conf_msg t x : t ∈ dests → conf (msg t x).
Proof. intros Ht. unfold msg. bot_auto. Qed.
Lemma conf_notice t x : t ∈ dests → conf (notice t x).
Proof. intros Ht. unfold notice. bot_auto. Qed.

Context (Hchan : CHANNEL cfg ∈ dests).

Lemma conf_channel_say x imm : conf (channel_say w cfg x imm).
Proof. unfold channel_say. bot_auto. Qed.
#[local] Hint Resolve conf_msg conf_notice conf_channel_say : bot.

Lemma conf_announce l t : t ∈ dests → conf (announce w cfg l (Some t)).
Proof.
  intros Ht. assert (Hd : or_ t (CHANNEL cfg) ∈ dests) by (by destruct t).
  unfold announce. bot_auto.
Qed.
#[local] Hint Resolve conf_announce : bot.

Lemma conf_project_command cmd reply ps :
  reply ∈ dests → conf (project_command w cfg cmd reply ps).
Proof. intros Hr. unfold project_command. bot_auto. Qed.
#[local] Hint Resolve conf_project_command : bot.

Lemma conf_command n reply text :
  reply ∈ dests → nonempty (ADMIN cfg) && str_eqb n (ADMIN cfg) = false →
  conf (command w cfg START n reply text).
Proof. intros Hr Ha. unfold command. rewrite Ha. bot_auto. Qed.

Lemma conf_ctcp n text : n ∈ dests → conf (ctcp w n text).
Proof. intros Hn. unfold ctcp. bot_auto. Qed.

End Confined.

(** ** The line of a user *)

(** The first word of a line is unique. *)
Lemma first_word x y r1 r2 : Forall (λ c, isspace c = false) x → Forall (λ c, isspace c = false) y →
  x ++ 32 :: r1 = y ++ 32 :: r2 → x = y ∧ r1 = r2.
Proof.
  revert y. induction x as [|c x IH]; intros [|d y] Hx Hy E; simpl in E.
  - by injection E as <-.
  - injection E as <- _. apply Forall_cons in Hy as [Hd _]. discriminate Hd.
  - injection E as -> _. apply Forall_cons in Hx as [Hd _]. discriminate Hd.
  - injection E as <- E. apply Forall_cons in Hx as [_ Hx], Hy as [_ Hy].
    destruct (IH y Hx Hy E) as [-> ->]. done.
Qed.

(** And so is the part before the only occurrence of a character. *)
Lemma only_mark (c : Z) x y r1 r2 : c ∉ x → c ∉ r1 → x ++ c :: r1 = y ++ c :: r2 → x = y ∧ r1 = r2.
Proof.
  revert y. induction x as [|a x IH]; intros [|b y] Hx Hr E; simpl in E.
  - by injection E as <-.
  - injection E as -> ->. destruct Hr. apply elem_of_app. right. left.
  - injection E as -> _. destruct Hx. left.
  - injection E as <- E. apply not_elem_of_cons in Hx as [_ Hx].
    destruct (IH y Hx Hr E) as [-> ->]. done.
Qed.

Lemma Rm_nonspaces g s s' : Rm (RSeq (RChr nonspace) (RStar g (RChr nonspace))) s s' →
  ∃ x, m_rest s = x ++ m_rest s' ∧ Forall (λ c, isspace c = false) x.
Proof.
  intros H. apply (Rm_chars (λ c, isspace c = false)) in H; [done|].
  assert (Hc : ∀ c, nonspace c = true → isspace c = false) by (unfold nonspace; intros c; by destruct (isspace c)).
  done.
Qed.

Ltac inv_seq H a b :=
  inversion H as [| |? ? ? ? ? a b| | | | | |]; subst; clear H.

(** The captures of another part of the pattern do not concern group 1. *)
Ltac no_group F :=
  eapply Forall_impl; [exact F|]; intros kv Hk E; cbv beta in Hk; rewrite E in Hk;
  match type of Hk with _ ∈ ?g => let v := eval vm_compute in g in change g with v in Hk end;
  set_solver.

(** A match of the PRIVMSG pattern: its source and the sender it captures. *)
Lemma privmsg_match line m : rmatch re_privmsg line = Some m →
  ∃ userhost rest, line = 58 :: (group_ 1 m ++ 33 :: userhost) ++ 32 :: rest
    ∧ Forall (λ c, isspace c = false) (group_ 1 m ++ 33 :: userhost).
Proof.
  unfold rmatch, re_privmsg. intros (s' & H & [= ->])%rm_sound.
  inv_seq H H1 K1. inv_seq K1 H2 K2. inv_seq K2 H3 K3. inv_seq K3 H4 K4. inv_seq K4 H5 H.
  apply Rm_caps in H as C5. apply Rm_caps in H5 as C4. apply Rm_caps in H4 as C3. apply Rm_caps in H3 as C2.
  clear H. apply Rm_lit in H1, H3, H5.
  inversion H2 as [| | | | | | |? ? ? t Ht|]; subst. inversion H4 as [| | | | | | |? ? ? t' Ht'|]; subst.
  apply Rm_nonspaces in Ht as (x & Ex & Fx), Ht' as (y & Ey & Fy).
  assert (Hg : group_ 1 m = x).
  { destruct C5 as (c5 & E5 & F5), C4 as (c4 & E4 & F4), C3 as (c3 & E3 & F3), C2 as (c2 & E2 & F2).
    unfold group_, group. rewrite E5, E4, E3, E2, !assoc_nat_skip.
    - cbn [add_cap m_caps assoc_nat Nat.eqb from_opt]. by apply consumed_app.
    - no_group F2.
    - no_group F3.
    - no_group F4.
    - no_group F5. }
  rewrite Hg. cbn [add_cap m_rest] in *.
  exists y. eexists. split.
  - cbn [start_at m_rest] in H1. rewrite H1, Ex, H3, Ey, H5. rewrite lit_colon.
    change (u " PRIVMSG ") with (32 :: u "PRIVMSG "). change (u "!") with [33].
    rewrite <-app_assoc. reflexivity.
  - apply Forall_app. split; [done|]. by constructor.
Qed.

(** A match of the KICK pattern: the second word is KICK. *)
Lemma kick_match n line m : rmatch (re_kick n) line = Some m →
  ∃ src rest, line = 58 :: src ++ 32 :: u "KICK " ++ rest ∧ Forall (λ c, isspace c = false) src.
Proof.
  unfold rmatch, re_kick. intros (s' & H & [= ->])%rm_sound.
  inv_seq H H1 K1. inv_seq K1 H2 K2. inv_seq K2 H3 K3. clear K3.
  apply Rm_lit in H1, H3. apply Rm_nonspaces in H2 as (x & Ex & Fx).
  eexists x, _. split; [|done]. cbn [start_at m_rest] in H1. rewrite H1, Ex, H3, lit_colon.
  change (u " KICK ") with (32 :: u "KICK "). reflexivity.
Qed.

(** The line by which [nick_] sends [text] to [target]. *)
Definition user_line (nick_ userhost target text : pystr) : pystr :=
  u ":" ++ nick_ ++ u "!" ++ userhost ++ u " PRIVMSG " ++ target ++ u " :" ++ text.

Lemma user_line_eq n uh target text :
  user_line n uh target text = 58 :: (n ++ 33 :: uh) ++ 32 :: u "PRIVMSG " ++ target ++ u " :" ++ text.
Proof.
  unfold user_line. rewrite lit_colon. change (u " PRIVMSG ") with (32 :: u "PRIVMSG ").
  change (u "!") with [33]. by rewrite <-app_assoc.
Qed.

Section UserLine.
Context (n uh target text : pystr).
Hypothesis Hn : is_token n ∧ 33 ∉ n.
Hypothesis Huh : is_token uh ∧ 33 ∉ uh.
Let src := n ++ 33 :: uh.

Lemma source_token : is_token src.
Proof. apply Forall_app. split; [apply Hn|]. constructor; [done|apply Huh]. Qed.

Lemma user_line_parts : ∃ rest, split_ws (user_line n uh target text) = (58 :: src) :: u "PRIVMSG" :: rest.
Proof.
  rewrite user_line_eq. fold src.
  change (58 :: src ++ 32 :: u "PRIVMSG " ++ target ++ u " :" ++ text)
    with ((58 :: src) ++ 32 :: u "PRIVMSG " ++ target ++ u " :" ++ text).
  rewrite split_ws_cons; [|discriminate|constructor; [done|apply source_token]].
  change (u "PRIVMSG ") with (u "PRIVMSG" ++ [32]). rewrite <-app_assoc. cbn [app].
  rewrite split_ws_cons; [by eexists|by vm_compute|vm_compute; repeat constructor].
Qed.

Lemma user_line_no_kick me : rmatch (re_kick me) (user_line n uh target text) = None.
Proof.
  destruct (rmatch _ _) as [m|] eqn:E; [|done]. apply kick_match in E as (x & rest & E & Hx).
  rewrite user_line_eq in E. injection E as E. apply first_word in E as [_ E]; [|apply source_token|done].
  change (u "PRIVMSG ") with (80 :: u "RIVMSG ") in E. change (u "KICK ") with (75 :: u "ICK ") in E.
  discriminate E.
Qed.

Lemma user_line_sender m : rmatch re_privmsg (user_line n uh target text) = Some m → group_ 1 m = n.
Proof.
  intros (x & rest & E & Hx)%privmsg_match. rewrite user_line_eq in E. injection E as E.
  apply first_word in E as [E _]; [|apply source_token|done].
  apply only_mark in E as [-> _]; [done|apply Hn|apply Huh].
Qed.

(** Such a line is neither a PING nor a reply to a command: it goes to the
    message handler and joins nothing. *)
Lemma handle_user_line w cfg START tag joined s :
  (∀ t, tag = Some t → 32 ∉ t) →
  handle w cfg START (tag_block tag ++ user_line n uh target text) joined s
  = bind (handle_message w cfg START (user_line n uh target text)) (λ _, ret joined) s.
Proof.
  intros Ht. unfold handle.
  rewrite untag_block; [|done|rewrite user_line_eq, lit_at; reflexivity].
  destruct user_line_parts as [rest ->].
  assert (E1 : str_eqb (58 :: src) (u "PING") = false) by done.
  assert (E2 : str_eqb (58 :: src) (u "AUTHENTICATE") = false) by done.
  assert (E3 : str_eqb (u "PRIVMSG") (u "CAP") = false) by (vm_compute; reflexivity).
  assert (E4 : str_eqb (u "PRIVMSG") (u "PING") = false) by (vm_compute; reflexivity).
  unfold is_ping. rewrite E1, E4. cbv zeta. cbn [orb].
  change (from_opt [] (((58 :: src) :: u "PRIVMSG" :: rest) !! 1%nat)) with (u "PRIVMSG").
  change (from_opt [] (((58 :: src) :: u "PRIVMSG" :: rest) !! 0%nat)) with (58 :: src).
  rewrite E2, E3, !andb_false_r. cbn [length Nat.leb]. reflexivity.
Qed.

End UserLine.

(** C3: A message of a user who is not the configured administrator, to the
    channel or to the bot, with or without message tags: whatever its text,
    [handle] only makes the bot write messages and notices to the channel or to
    that user.  It changes no registration, capability, topic or polling
    state, it never produces any other command, and it does not count as the
    welcome that joins the channel.  The nick and the user-host part of the
    source are words without an exclamation mark, and the tags have no space. *)
Theorem user_confined w cfg START tag nick_ userhost target text joined s :
  (∀ t, tag = Some t → 32 ∉ t) →
  is_token nick_ ∧ 33 ∉ nick_ → is_token userhost ∧ 33 ∉ userhost →
  nonempty (ADMIN cfg) && str_eqb nick_ (ADMIN cfg) = false →
  let '(result, s') :=
    handle w cfg START (tag_block tag ++ user_line nick_ userhost target text) joined s in
  confined [CHANNEL cfg; nick_] s s' ∧ ∀ j, result = Ret j → j = joined.
Proof.
  intros Ht Hn Huh Ha. rewrite handle_user_line by done.
  assert (Hc : confined [CHANNEL cfg; nick_] s
    (handle_message w cfg START (user_line nick_ userhost target text) s).2).
  { unfold handle_message. autorewrite with run. rewrite user_line_no_kick by done.
    destruct (rmatch re_privmsg _) as [m|] eqn:E; [|apply step_refl].
    apply user_line_sender in E as ->; [|done..]. cbv zeta. destruct (startswith _ _ && _).
    - apply conf_ctcp. right. left.
    - apply conf_command; [left| |done]. destruct (str_eqb (group_ 3 m) _); [left|right; left]. }
  unfold bind. destruct (handle_message _ _ _ _ s) as [[x|e] s']; cbn [ret snd] in *.
  - split; [exact Hc|]. by intros j [= <-].
  - split; [exact Hc|]. discriminate.
Qed.

Lemma user_confined_witness :
  confined [CHANNEL config0; u "mallory"] bot0
    (handle world0 config0 0 (tag_block (Some (u "id=7"))
       ++ user_line (u "mallory") (u "m@h") (u "Announce") (u "!raw QUIT")) false bot0).2.
Proof.
  pose proof (user_confined world0 config0 0 (Some (u "id=7")) (u "mallory") (u "m@h") (u "Announce")
    (u "!raw QUIT") false bot0) as H.
  destruct (handle _ _ _ _ _ _) as [r s']. apply H.
  - intros t [= <-]. apply (bool_decide_unpack _). vm_compute. exact I.
  - split; [vm_compute; repeat constructor|]. apply (bool_decide_unpack _). vm_compute. exact I.
  - split; [vm_compute; repeat constructor|]. apply (bool_decide_unpack _). vm_compute. exact I.
  - vm_compute. reflexivity.
Defined.

(** ** Announcements *)

(** The line that says [text] in the channel. *)
Definition channel_line (cfg : Config) (text : pystr) : pystr :=
  u "PRIVMSG " ++ CHANNEL cfg ++ u " :" ++ say_text text.

Lemma squeeze_stripped l : strip (squeeze l) = squeeze l.
Proof. unfold squeeze, strip. apply strip_by_idem. Qed.

Lemma cleaned_stripped lines : Forall (λ t, strip t = t ∧ t ≠ []) (cleaned lines).
Proof.
  apply Forall_forall. intros l Hl. unfold cleaned in Hl.
  apply list_elem_of_In, filter_In in Hl as [Hl Hn]. apply nonempty_true in Hn.
  apply in_map_iff in Hl as (l0 & <- & _). split; [apply squeeze_stripped|done].
Qed.

Lemma channel_say_queued w cfg t s :
  strip t ≠ [] →
  channel_say w cfg t false s = (Ret tt, set_outq (outq s ++ [channel_line cfg t]) s).
Proof. intros Ht%nonempty_true. unfold channel_say. by rewrite Ht. Qed.

Lemma say_rest w cfg rest : ∀ s,
  Forall (λ t, strip t = t ∧ t ≠ []) rest →
  for_ rest (λ t, channel_say w cfg t false) s
  = (Ret tt, set_outq (outq s ++ (channel_line cfg <$> rest)) s).
Proof.
  induction rest as [|t rest IH]; intros s H; simpl.
  - rewrite app_nil_r. by destruct s.
  - inversion H as [|? ? [Ht1 Ht2] Hr]; subst. unfold bind.
    rewrite channel_say_queued by (by rewrite Ht1). rewrite IH by done. simpl.
    by rewrite <-app_assoc.
Qed.

Lemma channel_line_unguarded cfg t : topic_change_protected (channel_line cfg t) = false.
Proof. apply queue_line_unguarded. unfold channel_line. auto using queue_line. Qed.

(** Announcing to the channel writes the first non-blank line at once and
    queues the others in their order, one message per line; the text of every
    message is non-empty and fits the budget of [MAX_MESSAGE_TEXT_BYTES]
    bytes. *)
Theorem announce_channel w cfg lines s :
  let s' := (announce w cfg lines None s).2 in
  outq s' = outq s ++ (channel_line cfg <$> tail (cleaned lines))
  ∧ wire s' = wire s ++ (if sock s then mkSent false <$> (channel_line cfg <$> take 1 (cleaned lines))
                         else [])
  ∧ Forall (λ t, say_text t ≠ [] ∧ (byte_len (say_text t) ≤ MAX_MESSAGE_TEXT_BYTES)%nat)
      (cleaned lines).
Proof.
  cbv zeta. pose proof (cleaned_stripped lines) as Hc. split_and!.
  3:{ eapply Forall_impl; [exact Hc|]. intros t [Ht1 Ht2].
      destruct (say_text_budget t) as [Hb Hn]. rewrite Ht1 in Hn. auto. }
  all: unfold announce; cbn [from_opt or_ nonempty]; destruct (cleaned lines) as [|t rest].
  1,3: destruct (sock s); simpl; by rewrite !app_nil_r.
  all: rewrite str_eqb_refl; inversion Hc as [|? ? [Ht1 Ht2] Hr]; subst;
    unfold channel_say at 1; rewrite Ht1, (proj2 (nonempty_true t) Ht2); cbn [negb];
    unfold time; autorewrite with run; rewrite (say_rest w cfg rest) by done;
    change (u "PRIVMSG " ++ CHANNEL cfg ++ u " :" ++ say_text t) with (channel_line cfg t);
    unfold sent; rewrite channel_line_unguarded; simpl; destruct (sock s); simpl;
    by rewrite ?app_nil_r.
Qed.

(** Text sent to a single user is not capped: a command line of an
    administrator of 600 characters is queued as one PRIVMSG of more than 600
    bytes, above the 512-byte limit of an IRC line. *)
Theorem msg_uncapped :
  outq (msg (u "Kain") (repeat 97 600) bot0).2 = [u "PRIVMSG Kain :" ++ repeat 97 600].
Proof. vm_compute. reflexivity. Qed.

(** [split_text] with a limit that can hold one character cuts a text into
    chunks that fit the limit, are not empty for a non-empty text, and contain
    every character but spaces, in order. *)
Theorem split_text_ok text limit :
  (4 ≤ limit)%nat →
  Forall (λ c, (byte_len c ≤ limit)%nat) (split_text text limit)
  ∧ (text ≠ [] → Forall (λ c, c ≠ []) (split_text text limit))
  ∧ unspaced (concat (split_text text limit)) = unspaced text.
Proof.
  intros Hl. split_and!.
  - by apply split_text_fits.
  - apply split_text_full.
  - apply split_text_content.
Qed.

Lemma split_text_ok_witness :
  Forall (λ c, (byte_len c ≤ 8)%nat) (split_text (u "→→→→ status line") 8).
Proof. apply (split_text_ok (u "→→→→ status line") 8). lia. Defined.

(** [compact] packs the lines into messages that fit the limit: each
    message is a group of consecutive pieces joined by the separator, and the
    groups together are exactly the pieces of the cleaned lines, in order. *)
Theorem compact_ok lines limit :
  (4 ≤ limit)%nat →
  Forall (λ c, (byte_len c ≤ limit)%nat) (compact lines limit)
  ∧ ∃ groups, compact lines limit = join sep <$> groups
      ∧ concat groups = cleaned lines ≫= (λ line, split_text line limit).
Proof.
  intros Hl. unfold compact. split.
  - apply compact_parts_fits; [by apply split_parts_fit|constructor|by apply nil_fits].
  - destruct (compact_parts_groups limit (cleaned lines ≫= λ line, split_text line limit) [] [])
      as (gs & H1 & H2); [apply compact_parts_full|]. by exists gs.
Qed.

Lemma compact_ok_witness :
  Forall (λ c, (byte_len c ≤ 40)%nat) (compact [u "one two"; u " "; u "three"] 40).
Proof. apply (compact_ok [u "one two"; u " "; u "three"] 40). lia. Defined.

(** ** The inventory cache *)

(** Whatever the interleaving of requesters and worker, no project is
    queued twice: the keys on their way to a measurement (held by a requester,
    in the queue, or held by the worker) are pairwise different, and the cache
    marks exactly those keys as queued. *)
Theorem cache_no_duplicates projects s :
  InventoryCache.reachable projects s →
  NoDup (InventoryCache.outstanding s)
  ∧ ∀ k, k ∈ InventoryCache.queued s ↔ k ∈ InventoryCache.outstanding s.
Proof. intros H%InventoryCache.inv_reachable. split; apply H. Qed.

Lemma cache_no_duplicates_witness :
  NoDup (InventoryCache.outstanding
    (InventoryCache.mkState true ∅ ({[u "onyx"]} ∪ ∅) [u "onyx"] [] InventoryCache.Absent)).
Proof.
  apply (cache_no_duplicates [u "onyx"]
    (InventoryCache.mkState true ∅ ({[u "onyx"]} ∪ ∅) [u "onyx"] [] InventoryCache.Absent)).
  eapply (InventoryCache.reach_step _ _ (InventoryCache.LRequest (u "onyx"))).
  - eapply (InventoryCache.reach_step _ _ InventoryCache.LStart);
      [apply InventoryCache.reach_init|exact I|reflexivity].
  - left.
  - vm_compute. reflexivity.
Defined.

(** C30: The inventory worker serves every request.  Once its thread runs, in
    every state that the threads can reach by requesting projects of the cache,
    it is alive and has an enabled step, whether it waits, times out into the
    periodic refresh, refreshes or measures.  And under every interleaving with
    the other threads, after at most [2 * projects + 2 * i + 3] of its own steps
    it has stored a fresh measurement for the request at position [i] of the
    queue and removed the mark that it is queued. *)
Theorem cache_worker_serves projects s :
  InventoryCache.reachable projects s → InventoryCache.worker s ≠ InventoryCache.Absent →
  InventoryCache.worker s ≠ InventoryCache.Dead
  ∧ (∃ l, InventoryCache.of_worker l = true ∧ InventoryCache.known projects l
       ∧ is_Some (InventoryCache.step projects s l))
  ∧ ∀ i k ls s', InventoryCache.requests s !! i = Some k →
      Forall (InventoryCache.known projects) ls → InventoryCache.run projects s ls = Some s' →
      (2 * length projects + 2 * i + 3 ≤ InventoryCache.worker_steps ls)%nat →
      InventoryCache.served projects k s ls.
Proof.
  intros H%InventoryCache.inv_reachable Ha. split; [apply H|].
  split; [by apply InventoryCache.worker_enabled|]. intros i k ls s' Hi Hk Hr Hn.
  eapply InventoryCache.request_served; [done..|].
  pose proof (InventoryCache.distance_bound projects s i H). lia.
Qed.

(** The worker started, timed out once and refreshed the one project, which is
    then queued. *)
Definition cache_steps : list InventoryCache.Label :=
  [InventoryCache.LStart; InventoryCache.LSpawn; InventoryCache.LEmpty; InventoryCache.LRefresh;
   InventoryCache.LRefreshPut].

Lemma run_reachable projects ls s s' : InventoryCache.reachable projects s →
  Forall (InventoryCache.known projects) ls → InventoryCache.run projects s ls = Some s' →
  InventoryCache.reachable projects s'.
Proof.
  revert s. induction ls as [|l ls IH]; intros s Hs Hk Hr; simpl in Hr; [by injection Hr as <-|].
  apply Forall_cons in Hk as [Hl Hk]. destruct (InventoryCache.step projects s l) as [s1|] eqn:E; [|done].
  eapply IH; [by eapply InventoryCache.reach_step|done..].
Qed.

Lemma cache_worker_serves_witness :
  ∃ s, InventoryCache.run [u "onyx"] InventoryCache.init cache_steps = Some s
    ∧ InventoryCache.served [u "onyx"] (u "onyx") s
        [InventoryCache.LTake; InventoryCache.LStore pending_inventory; InventoryCache.LEmpty;
         InventoryCache.LRefresh; InventoryCache.LRefreshPut].
Proof.
  destruct (InventoryCache.run [u "onyx"] InventoryCache.init cache_steps) as [s|] eqn:E;
    [|vm_compute in E; discriminate].
  exists s. split; [reflexivity|].
  assert (Hr : InventoryCache.reachable [u "onyx"] s).
  { eapply run_reachable; [apply InventoryCache.reach_init| |exact E]. repeat constructor. }
  destruct (cache_worker_serves [u "onyx"] s Hr) as (_ & _ & H).
  { vm_compute in E. injection E as <-. discriminate. }
  destruct (InventoryCache.run [u "onyx"] s [InventoryCache.LTake; InventoryCache.LStore pending_inventory;
    InventoryCache.LEmpty; InventoryCache.LRefresh; InventoryCache.LRefreshPut]) as [s'|] eqn:E'.
  2: { vm_compute in E. injection E as <-. vm_compute in E'. discriminate. }
  apply (H 0%nat (u "onyx") _ s'); [|repeat constructor|exact E'|vm_compute; lia].
  vm_compute in E. injection E as <-. vm_compute. reflexivity.
Defined.

(** A request for a project the cache does not know ends the worker: the
    lookup of the project is outside the [try]. *)
Lemma unknown_request_kills :
  InventoryCache.worker <$> InventoryCache.run [u "onyx"] InventoryCache.init
    [InventoryCache.LStart; InventoryCache.LSpawn; InventoryCache.LRequest (u "other");
     InventoryCache.LPut (u "other"); InventoryCache.LTake] = Some InventoryCache.Dead.
Proof. vm_compute. reflexivity. Qed.

(** ** Polling *)

(** The commit watermark and the inventory requests are untouched. *)
Definition markR (s s' : Bot) : Prop :=
  last_commit s' = last_commit s ∧ inv_requests s' = inv_requests s.

#[export] Instance markR_step : StepRel markR.
Proof. split; unfold markR; [done| |done]. intros s1 s2 s3 [-> ->] [-> ->]. done. Qed.

Section Mark.
Context (w : World) (cfg : Config).
Abbreviation mk := (always markR).

Lemma mark_send l t : mk (send_raw l t).
Proof. intros s. rewrite send_raw_eq. unfold sent. by destruct (_ && _). Qed.
Lemma mark_upd f : (∀ s, last_commit (f s) = last_commit s ∧ inv_requests (f s) = inv_requests s) →
  mk (upd f).
Proof. intros H s. apply H. Qed.
#[local] Hint Resolve mark_send : bot.
#[local] Hint Extern 2 (always markR (upd _)) => apply mark_upd; intros; done : bot.

Lemma mark_enqueue l : mk (enqueue l). Proof. unfold enqueue. bot_auto. Qed.
#[local] Hint Resolve mark_enqueue : bot.
Lemma mark_channel_say x i : mk (channel_say w cfg x i). Proof. unfold channel_say. bot_auto. Qed.
Lemma mark_channel_notice x : mk (channel_notice cfg x). Proof. unfold channel_notice. bot_auto. Qed.
Lemma mark_msg t x : mk (msg t x). Proof. unfold msg. bot_auto. Qed.
#[local] Hint Resolve mark_channel_say mark_channel_notice mark_msg : bot.
Lemma mark_announce l t : mk (announce w cfg l t). Proof. unfold announce. bot_auto. Qed.
Lemma mark_tests_delta p tc : mk (tests_delta p tc). Proof. unfold tests_delta. bot_auto. Qed.
#[local] Hint Resolve mark_announce mark_tests_delta : bot.
Lemma mark_commit_lines p r tc d : mk (commit_lines w p r tc d).
Proof. unfold commit_lines. bot_auto. Qed.
#[local] Hint Resolve mark_commit_lines : bot.
Lemma mark_announce_revs p tc l : mk (announce_revs w cfg p tc l).
Proof. induction l; simpl; bot_auto. Qed.
Lemma mark_set_topic : mk (set_topic w cfg). Proof. unfold set_topic. bot_auto. Qed.
#[local] Hint Resolve mark_announce_revs mark_set_topic : bot.

(** What [poll_project] does after it recorded the new head. *)
Lemma mark_poll_tail p revs shown :
  mk (bind (inventory_status w p) (λ st,
      bind (if stale st then ret (u "updating") else test_count w p) (λ tc,
      bind (if Nat.ltb (length shown) (length revs) then
        channel_notice cfg (u "[" ++ key p ++ u "] … +"
          ++ dec (Z.of_nat (length (A := pystr) revs) - Z.of_nat (length (A := pystr) shown))
          ++ u " earlier commit(s) in " ++ repo p) else skip) (λ _,
      bind (announce_revs w cfg p tc shown) (λ _, set_topic w cfg))))).
Proof. bot_auto. Qed.

End Mark.

(** Polling a project whose checkout exists records the head that git
    reports and asks for one new measurement of that project exactly when the
    head is known and differs from the recorded one; otherwise neither the
    record nor the requests change. *)
Theorem poll_project_marks w cfg p s :
  let cur := git_at w (S (tick s)) p [u "rev-parse"; HEAD] in
  let s' := (poll_project w cfg p s).2 in
  if w_isdir w (tick s) (repo p) && nonempty cur
     && negb (str_eqb cur (from_opt [] (last_commit s !! key p)))
  then last_commit s' = <[key p := cur]> (last_commit s)
       ∧ inv_requests s' = inv_requests s ++ [key p]
  else last_commit s' = last_commit s ∧ inv_requests s' = inv_requests s.
Proof.
  cbv zeta. unfold poll_project, isdir, git. autorewrite with run.
  destruct (w_isdir w (tick s) (repo p)); [|done]. cbn [negb andb]. autorewrite with run.
  simpl tick. simpl last_commit. set (cur := git_at _ _ _ _).
  destruct (nonempty cur); [|done]. cbn [negb andb].
  destruct (str_eqb cur _); [done|]. cbn [negb]. cbv zeta. unfold inventory_request.
  autorewrite with run.
  match goal with |- context [bind ?m ?k ?st] =>
    epose proof (mark_poll_tail w cfg p _ _ st) as [H1 H2] end.
  split; [exact H1|exact H2].
Qed.

(** ** Reconnection *)

(** [n] failed attempts in a row: the seconds slept before each next one. *)
Fixpoint failures (n : nat) (backoff : Z) : list Z * Z :=
  match n with
  | O => ([], backoff)
  | S n' => let '(slept, b) := run_turn false backoff in
            let '(l, b') := failures n' b in (slept :: l, b')
  end.

Lemma failures_backoff n : ∀ k,
  let b := Z.min (RECONNECT_MIN * 2 ^ Z.of_nat k) RECONNECT_MAX in
  (failures n b).1 = (λ i, Z.min (RECONNECT_MIN * 2 ^ Z.of_nat i) RECONNECT_MAX) <$> seq k n.
Proof.
  induction n as [|n IH]; intros k; [done|]. cbv zeta. cbn [failures run_turn].
  replace (Z.min (Z.min (RECONNECT_MIN * 2 ^ Z.of_nat k) RECONNECT_MAX * 2) RECONNECT_MAX)
    with (Z.min (RECONNECT_MIN * 2 ^ Z.of_nat (S k)) RECONNECT_MAX).
  - specialize (IH (S k)). cbv zeta in IH. destruct (failures n _) as [l b'].
    simpl in IH. simpl. by rewrite IH.
  - rewrite Nat2Z.inj_succ, Z.pow_succ_r by lia.
    pose proof (Z.pow_pos_nonneg 2 (Z.of_nat k)). unfold RECONNECT_MIN, RECONNECT_MAX. lia.
Qed.

(** After a connection that succeeded, the delay before the attempt that
    follows the n-th failure is the minimum of [RECONNECT_MIN] doubled n times
    and [RECONNECT_MAX]. *)
Theorem reconnect_delays n b :
  let '(slept, b1) := run_turn true b in
  slept = RECONNECT_MIN
  ∧ (failures n b1).1
    = (λ i, Z.min (RECONNECT_MIN * 2 ^ Z.of_nat i) RECONNECT_MAX) <$> seq 1 n.
Proof. cbn. split; [done|]. apply (failures_backoff n 1). Qed.

(** ** Surprises *)

(** The test for a KICK of the bot is a prefix match: the kick of another
    user whose nick begins with the bot's nick makes the bot queue a JOIN. *)
Theorem kick_prefix_rejoins :
  nick bot0 = u "Announce" ∧
  outq (handle_message world0 config0 0 (u ":op!o@h KICK #root Announcer :bye") bot0).2
  = [u "JOIN #root"].
Proof. vm_compute. done. Qed.

(** The topic guard looks at the first word only, so a raw line with a
    source prefix, which a server accepts and ignores from a client, changes a
    protected topic: the guard passes it while it refuses the same line
    without the prefix. *)
Theorem topic_guard_prefix :
  topic_change_protected (u "TOPIC #root :pwned") = true
  ∧ topic_change_protected (u ":x TOPIC #root :pwned") = false.
Proof. vm_compute. done. Qed.
