(* ===== verification/Json.v ===== *)
(** * JSON values as Python sees them

    What [json.loads] returns, Python's [==] on such values, and the text
    [json.dumps] writes with the default separators.  The text determines the
    value for values of strings, integers and lists, which is what the gate
    ledger hashes. *)

From S2P Require Import Prelude PyStr.

(** A finite float is the exact value [m * 2^e]. *)
Inductive json :=
| JNull
| JBool (b : bool)
| JInt (z : Z)
| JFloat (m e : Z)
| JInf (negative : bool)
| JNaN
| JStr (s : pystr)
| JList (l : list json)
| JObj (d : list (pystr * json)).

Fixpoint jassoc (k : pystr) (d : list (pystr * json)) : option json :=
  match d with
  | [] => None
  | (k', v) :: d' => if str_eqb k k' then Some v else jassoc k d'
  end.

(** [d.get(k)], with [None] when the key is absent or [d] is not a mapping. *)
Definition jget (v : json) (k : pystr) : json :=
  match v with JObj d => from_opt JNull (jassoc k d) | _ => JNull end.

Definition jkeys (v : json) : list pystr := match v with JObj d => d.*1 | _ => [] end.

Definition is_mapping (v : json) : bool := match v with JObj _ => true | _ => false end.

(** The numeric value, booleans included, as [m * 2^e]. *)
Definition jnum (v : json) : option (Z * Z) :=
  match v with
  | JBool b => Some (if b then 1 else 0, 0)
  | JInt z => Some (z, 0)
  | JFloat m e => Some (m, e)
  | _ => None
  end.

Definition num_eqb (x y : Z * Z) : bool :=
  if x.2 <=? y.2 then x.1 =? y.1 * 2 ^ (y.2 - x.2) else x.1 * 2 ^ (x.2 - y.2) =? y.1.

(** Python's [==]: numbers compare by value across [bool], [int] and [float],
    dictionaries without regard to order. *)
Fixpoint pyeq (a b : json) {struct a} : bool :=
  match a, b with
  | JNull, JNull => true
  | JInf x, JInf y => Bool.eqb x y
  | JStr s, JStr t => str_eqb s t
  | JList l, JList l' =>
    (fix go l l' := match l, l' with
       | [], [] => true
       | x :: l, y :: l' => pyeq x y && go l l'
       | _, _ => false
       end) l l'
  | JObj d, JObj d' =>
    Nat.eqb (length d) (length d')
    && (fix go d := match d with
          | [] => true
          | (k, v) :: d => match jassoc k d' with Some v' => pyeq v v' | None => false end && go d
          end) d
  | _, _ =>
    match jnum a, jnum b with Some x, Some y => num_eqb x y | _, _ => false end
  end.

(** [v is True], [v is False]. *)
Definition is_bool (b : bool) (v : json) : bool :=
  match v with JBool b' => Bool.eqb b b' | _ => false end.

Lemma pyeq_null_l v : pyeq JNull v = true ↔ v = JNull.
Proof. by destruct v. Qed.

Lemma pyeq_mapping a d : pyeq a (JObj d) = true → is_mapping a = true.
Proof. by destruct a. Qed.

Lemma jget_mapping v k x : jget v k = x → x ≠ JNull → is_mapping v = true.
Proof. by destruct v. Qed.

(** ** json.dumps *)

Definition hex_digit (n : Z) : Z := if n <? 10 then 48 + n else 87 + n.

(** [\uXXXX]. *)
Definition u_escape (c : Z) : pystr :=
  [92; 117; hex_digit (c / 4096 mod 16); hex_digit (c / 256 mod 16); hex_digit (c / 16 mod 16);
   hex_digit (c mod 16)].

(** One character of a string with [ensure_ascii]: above the basic plane, as a
    surrogate pair. *)
Definition json_char (c : Z) : pystr :=
  if c =? 34 then [92; 34]
  else if c =? 92 then [92; 92]
  else if c =? 10 then [92; 110]
  else if c =? 13 then [92; 114]
  else if c =? 9 then [92; 116]
  else if c =? 12 then [92; 102]
  else if c =? 8 then [92; 98]
  else if (32 <=? c) && (c <? 127) then [c]
  else if c <? 65536 then u_escape c
  else u_escape (55296 + (c - 65536) / 1024) ++ u_escape (56320 + (c - 65536) mod 1024).

Definition json_str (s : pystr) : pystr := [34] ++ (s ≫= json_char) ++ [34].

(** The values of nested lists of strings and integers. *)
Inductive jtree :=
| TStr (s : pystr)
| TInt (z : Z)
| TList (l : list jtree).

Fixpoint dumps (v : jtree) : pystr :=
  match v with
  | TStr s => json_str s
  | TInt z => dec z
  | TList l => [91] ++ join [44; 32] (dumps <$> l) ++ [93]
  end.

(** ** The text determines the value *)

(** A reader for one character of a string body, the inverse of
    [json_char]. *)
Definition hex_val (c : Z) : Z := if c <? 58 then c - 48 else c - 87.

Definition is_high (c : Z) : bool := (55296 <=? c) && (c <? 56320).

Definition u_read (s : pystr) : option (Z * pystr) :=
  match s with
  | b :: t :: h3 :: h2 :: h1 :: h0 :: r =>
    if (b =? 92) && (t =? 117)
    then Some (hex_val h3 * 4096 + hex_val h2 * 256 + hex_val h1 * 16 + hex_val h0, r) else None
  | _ => None
  end.

Definition unescape (c : Z) : Z :=
  if c =? 110 then 10 else if c =? 114 then 13 else if c =? 116 then 9
  else if c =? 102 then 12 else if c =? 98 then 8 else c.

Definition char_read (s : pystr) : option (Z * pystr) :=
  match u_read s with
  | Some (n, r) =>
    if is_high n then
      match u_read r with
      | Some (m, r') => Some (65536 + (n - 55296) * 1024 + (m - 56320), r')
      | None => Some (n, r)
      end
    else Some (n, r)
  | None =>
    match s with
    | 92 :: e :: r => Some (unescape e, r)
    | c :: r => if c =? 34 then None else Some (c, r)
    | [] => None
    end
  end.

Lemma hex_val_digit n : 0 ≤ n < 16 → hex_val (hex_digit n) = n.
Proof. intros H. unfold hex_val, hex_digit. repeat case_match; bool_hyps; lia. Qed.

Lemma u_read_escape c x : 0 ≤ c < 65536 → u_read (u_escape c ++ x) = Some (c, x).
Proof.
  intros H. unfold u_escape, u_read. cbn [app Z.eqb Pos.eqb andb].
  rewrite !hex_val_digit by (apply Z.mod_pos_bound; lia). do 2 f_equal.
  assert (E1 : c / 16 = c / 256 * 16 + c / 16 mod 16).
  { pose proof (Z.div_mod (c / 16) 16 ltac:(lia)) as E. rewrite Z.div_div in E by lia.
    change (16 * 16) with 256 in E. lia. }
  assert (E2 : c / 256 = c / 4096 * 16 + c / 256 mod 16).
  { pose proof (Z.div_mod (c / 256) 16 ltac:(lia)) as E. rewrite Z.div_div in E by lia.
    change (256 * 16) with 4096 in E. lia. }
  pose proof (Z.div_mod c 16 ltac:(lia)).
  assert (c / 4096 mod 16 = c / 4096) as ->
    by (apply Z.mod_small; split; [apply Z.div_pos; lia|apply Z.div_lt_upper_bound; lia]).
  lia.
Qed.

(** A character of a well-formed string: no high surrogate.  What the
    operating system hands over decodes to such strings. *)
Definition json_ok (c : Z) : Prop := 0 ≤ c < 1114112 ∧ is_high c = false.

Lemma char_read_plain c x : c ≠ 92 → c ≠ 34 → char_read (c :: x) = Some (c, x).
Proof.
  intros H1%Z.eqb_neq H2. unfold char_read.
  assert (Hu : u_read (c :: x) = None).
  { unfold u_read. repeat (case_match; try done). by rewrite H1 in *. }
  rewrite Hu. apply Z.eqb_neq in H1, H2. destruct c as [|p|p]; [done| |done].
  repeat (destruct p as [p|p|]; try done).
Qed.

Lemma char_read_char c x : json_ok c → char_read (json_char c ++ x) = Some (c, x).
Proof.
  intros [Hr Hh]. unfold json_char.
  do 7 (match goal with |- context [if c =? ?n then _ else _] => destruct (Z.eqb_spec c n) as [->|?] end;
    [destruct x as [|?[|?[|?[|? ?]]]]; reflexivity|]).
  destruct ((32 <=? c) && (c <? 127)); [by apply char_read_plain|].
  unfold char_read. destruct (Z.ltb_spec c 65536).
  - by rewrite u_read_escape, Hh by lia.
  - pose proof (Z.mod_pos_bound (c - 65536) 1024 ltac:(lia)).
    pose proof (Z.div_mod (c - 65536) 1024 ltac:(lia)).
    assert (0 ≤ (c - 65536) / 1024 < 1024).
    { split; [apply Z.div_pos; lia|apply Z.div_lt_upper_bound; lia]. }
    rewrite <-app_assoc, u_read_escape by lia.
    assert (is_high (55296 + (c - 65536) / 1024) = true) as ->.
    { unfold is_high. apply andb_true_iff. rewrite Z.leb_le, Z.ltb_lt. lia. }
    rewrite u_read_escape by lia. do 2 f_equal. lia.
Qed.

Lemma json_chars_inj s : ∀ s' r r', Forall json_ok s → Forall json_ok s' →
  (s ≫= json_char) ++ 34 :: r = (s' ≫= json_char) ++ 34 :: r' → s = s' ∧ r = r'.
Proof.
  assert (H34 : ∀ r, char_read (34 :: r) = None) by (intros [|?[|?[|?[|?[|? ?]]]]]; done).
  induction s as [|c s IH]; intros [|c' s'] r r' Hs Hs' E; simpl in E.
  - by injection E.
  - exfalso. rewrite <-app_assoc in E. apply (f_equal char_read) in E.
    rewrite H34, char_read_char in E by (by inversion Hs'). done.
  - exfalso. rewrite <-app_assoc in E. apply (f_equal char_read) in E.
    rewrite H34, char_read_char in E by (by inversion Hs). done.
  - rewrite <-!app_assoc in E. apply (f_equal char_read) in E.
    inversion Hs; inversion Hs'; subst. rewrite !char_read_char in E by done.
    injection E as <- E. destruct (IH s' r r') as [-> ->]; done.
Qed.

(** Where a number ends. *)
Definition number_stop (r : pystr) : Prop :=
  match r with c :: _ => is_ascii_digit c = false | [] => True end.

Lemma digits_inj a : ∀ a' r r',
  Forall (λ c, is_ascii_digit c = true) a → Forall (λ c, is_ascii_digit c = true) a' →
  number_stop r → number_stop r' → a ++ r = a' ++ r' → a = a' ∧ r = r'.
Proof.
  induction a as [|c a IH]; intros [|c' a'] r r' Ha Ha' Hr Hr' E; simpl in E; [done|..].
  - subst r. inversion Ha'; subst. simpl in Hr. congruence.
  - subst r'. inversion Ha; subst. simpl in Hr'. congruence.
  - injection E as <- E. inversion Ha; inversion Ha'; subst.
    destruct (IH a' r r') as [-> ->]; done.
Qed.

Lemma dec_inj z z' r r' : 0 ≤ z → 0 ≤ z' → number_stop r → number_stop r' →
  dec z ++ r = dec z' ++ r' → z = z' ∧ r = r'.
Proof.
  intros Hz Hz' Hr Hr' E. apply digits_inj in E as [E ->]; auto using dec_chars.
  split; [|done]. apply (f_equal int) in E. rewrite !int_dec in E by done. by injection E.
Qed.

(** Trees whose text can be read back. *)
Fixpoint tree_ok (v : jtree) : Prop :=
  match v with
  | TStr s => Forall json_ok s
  | TInt z => 0 ≤ z
  | TList l => foldr (λ v P, tree_ok v ∧ P) True l
  end.

Lemma jtree_ind' (P : jtree → Prop) :
  (∀ s, P (TStr s)) → (∀ z, P (TInt z)) → (∀ l, Forall P l → P (TList l)) → ∀ v, P v.
Proof.
  intros H1 H2 H3. fix IH 1. intros [s|z|l]; [apply H1|apply H2|]. apply H3.
  induction l as [|v l IHl]; constructor; auto.
Qed.

Definition first_digit (s : pystr) : bool :=
  match s with c :: _ => is_ascii_digit c | [] => false end.

Lemma first_digit_dec z r : 0 ≤ z → first_digit (dec z ++ r) = true.
Proof.
  intros Hz. pose proof (dec_chars z Hz) as H. destruct (dec z) as [|c d] eqn:E.
  - pose proof (int_dec z Hz) as Hi. by rewrite E in Hi.
  - by inversion H.
Qed.

Lemma join_tail x l : join [44; 32] (x :: l) = x ++ (l ≫= λ y, [44; 32] ++ y).
Proof.
  revert x. induction l as [|y l IH]; intros x; [by rewrite app_nil_r|].
  change (join [44; 32] (x :: y :: l)) with (x ++ [44; 32] ++ join [44; 32] (y :: l)).
  rewrite IH. simpl. done.
Qed.

Definition dumps_prefix (v : jtree) : Prop := ∀ v' r r', tree_ok v → tree_ok v' →
  number_stop r → number_stop r' → dumps v ++ r = dumps v' ++ r' → v = v' ∧ r = r'.

(** The rest of a list after its first element. *)
Definition tail_text (l : list jtree) : pystr := l ≫= λ v, [44; 32] ++ dumps v.

Lemma tail_stop l r : number_stop (tail_text l ++ 93 :: r).
Proof. by destruct l. Qed.

Lemma tail_inj l : Forall dumps_prefix l → ∀ l' r r', tree_ok (TList l) → tree_ok (TList l') →
  tail_text l ++ 93 :: r = tail_text l' ++ 93 :: r' → l = l' ∧ r = r'.
Proof.
  induction 1 as [|v l Hv _ IH]; intros [|v' l'] r r' Hl Hl' E; simpl in E; try done.
  - by injection E.
  - simpl in Hl, Hl'. injection E as E. unfold tail_text in *. rewrite <-!app_assoc in E.
    apply Hv in E as [-> E]; [|tauto|tauto|apply tail_stop|apply tail_stop].
    destruct (IH l' r r') as [-> ->]; [tauto..|done].
Qed.

Lemma list_text l : dumps (TList l) = match l with
  | [] => [91; 93] | v :: l' => 91 :: dumps v ++ tail_text l' ++ [93] end.
Proof.
  assert (H : ∀ l, ((dumps <$> l) ≫= λ y, [44; 32] ++ y) = tail_text l).
  { unfold tail_text. clear. intros l. induction l as [|w l IH]; [done|].
    by rewrite fmap_cons, !bind_cons, IH. }
  destruct l as [|v l]; [done|]. cbn [dumps]. rewrite fmap_cons, join_tail, H. simpl.
  by rewrite <-app_assoc.
Qed.

(** The text of a number begins with a digit, that of others does not. *)
Ltac digit_clash E :=
  exfalso; apply (f_equal first_digit) in E; cbn [dumps] in E;
  rewrite first_digit_dec in E by done; done.

Lemma first_close v r : tree_ok v → ∀ c, dumps v ++ r = 93 :: c → False.
Proof.
  destruct v as [s|z|l]; intros Hv c E; [done| |by destruct l].
  digit_clash E.
Qed.

Lemma dumps_prefix_free v : dumps_prefix v.
Proof.
  induction v as [s|z|l IH] using jtree_ind'; intros v' r r' Hv Hv' Hr Hr' E.
  - destruct v' as [s'|z'|l'].
    + cbn [dumps] in E. unfold json_str in E. simpl in E. rewrite <-!app_assoc in E.
      injection E as E. by apply json_chars_inj in E as [-> ->].
    + digit_clash E.
    + done.
  - destruct v' as [s'|z'|l'].
    + digit_clash E.
    + by apply dec_inj in E as [-> ->].
    + digit_clash E.
  - destruct v' as [s'|z'|l'].
    + done.
    + digit_clash E.
    + rewrite !list_text in E. destruct l as [|v l], l' as [|v' l'].
      * by injection E.
      * exfalso. injection E as E. symmetry in E. rewrite <-app_assoc in E.
        eapply first_close in E; [done|]. apply Hv'.
      * exfalso. injection E as E. rewrite <-app_assoc in E.
        eapply first_close in E; [done|]. apply Hv.
      * injection E as E. rewrite <-!app_assoc in E. simpl in Hv, Hv'.
        inversion IH as [|? ? IHv IHl]; subst.
        apply IHv in E as [-> E]; [|tauto|tauto|apply tail_stop|apply tail_stop].
        apply tail_inj in E as [-> ->]; [done|done|apply Hv|apply Hv'].
Qed.

(** Different trees have different texts. *)
Lemma dumps_inj v v' : tree_ok v → tree_ok v' → dumps v = dumps v' → v = v'.
Proof.
  intros H1 H2 E. apply (dumps_prefix_free v v' [] []); try done. by rewrite E.
Qed.

(** ** The text is ASCII *)

Definition ascii (c : Z) : Prop := 0 ≤ c < 128.

Lemma hex_digit_ascii n : 0 ≤ n < 16 → ascii (hex_digit n).
Proof. intros H. unfold hex_digit, ascii. case_match; bool_hyps; lia. Qed.

Lemma u_escape_ascii c : Forall ascii (u_escape c).
Proof.
  unfold u_escape. repeat (constructor; [first [apply hex_digit_ascii, Z.mod_pos_bound; lia
    |unfold ascii; lia]|]). constructor.
Qed.

Lemma json_char_ascii c : Forall ascii (json_char c).
Proof.
  unfold json_char.
  repeat case_match; try (apply Forall_app; split; apply u_escape_ascii);
    try apply u_escape_ascii; repeat constructor; unfold ascii; bool_hyps; lia.
Qed.

Lemma bind_ascii s : Forall ascii (s ≫= json_char).
Proof.
  induction s as [|c s IH]; [constructor|]. rewrite bind_cons.
  apply Forall_app. split; [apply json_char_ascii|done].
Qed.

Lemma join_ascii sep l : Forall ascii sep → Forall (Forall ascii) l → Forall ascii (join sep l).
Proof.
  intros Hs. induction 1 as [|x [|y l] Hx _ IH]; [constructor|done|].
  simpl. apply Forall_app. split; [done|]. by apply Forall_app.
Qed.

Lemma dumps_ascii v : tree_ok v → Forall ascii (dumps v).
Proof.
  induction v as [s|z|l IH] using jtree_ind'; intros Hv.
  - unfold dumps, json_str. apply Forall_cons. split; [unfold ascii; lia|].
    apply Forall_app. split; [apply bind_ascii|]. repeat constructor; unfold ascii; lia.
  - eapply Forall_impl; [by apply dec_chars|]. intros c Hc.
    unfold is_ascii_digit in Hc. unfold ascii. bool_hyps. lia.
  - cbn [dumps]. apply Forall_cons. split; [unfold ascii; lia|].
    apply Forall_app. split; [|repeat constructor; unfold ascii; lia].
    apply join_ascii; [repeat constructor; unfold ascii; lia|].
    induction IH as [|v l Hd _ IHl]; [constructor|]. simpl in Hv. rewrite fmap_cons.
    constructor; [apply Hd, Hv|apply IHl, Hv].
Qed.

Lemma utf8_encode_ascii s : Forall ascii s → utf8_encode s = s.
Proof.
  induction 1 as [|c s Hc _ IH]; [done|]. unfold utf8_encode in *. rewrite bind_cons, IH.
  unfold utf8_encode1, is_surrogate, ascii in *.
  assert ((0xD800 <=? c) = false) as -> by (apply Z.leb_gt; lia). simpl.
  by assert ((c <? 128) = true) as -> by (apply Z.ltb_lt; lia).
Qed.

(** Different trees have different encoded texts. *)
Lemma encoded_dumps_inj v v' : tree_ok v → tree_ok v' →
  utf8_encode (dumps v) = utf8_encode (dumps v') → v = v'.
Proof.
  intros H1 H2. rewrite !utf8_encode_ascii by (by apply dumps_ascii). by apply dumps_inj.
Qed.
