(* ===== verification/Contract.v ===== *)
(** * tools/check-client-contract.py: the client/server contract

    The frozen values of the contract, the validator [semantic_errors] with its
    nested checks in the order of the source, and the command line [main].  The
    validator is shown equivalent to a flat table of paths and requirements,
    and the contract published under docs/reference/protocol does not pass it. *)

From S2P Require Import Prelude PyStr Json.

(** ** Frozen values *)

Definition SCHEMA : pystr := u "onyx-client-server-contract/v2".
Definition REVISION : Z := 3.
Definition REQUIRED_CAPS : list pystr :=
  [u "message-tags";
   u "server-time";
   u "batch";
   u "labeled-response";
   u "echo-message";
   u "draft/chathistory"].
Definition CONTROL_KINDS : list pystr :=
  [u "key-package";
   u "welcome";
   u "commit"].
Definition CONTROL_FORMS : list pystr :=
  [u "<channel> <key-package|commit> <from-device> :<opaque-base64url>";
   u "<channel> welcome <from-device> <to-account> <to-device> :<opaque-base64url>"].
Definition INBOUND_VERBS : list pystr :=
  [u "E2EE.KEYPACKAGE";
   u "E2EE.COMMIT";
   u "E2EE.WELCOME"].
Definition CLIENT_FIELDS : json := JObj [
   (u "group_control_observer", JObj [
     (u "status", JStr (u "production_wired"));
     (u "owner", JStr (u "connection_and_account_owned_bridge"));
     (u "server_reply_authentication", JStr (u "E2EEKEY replies are accepted only from the exact server prefix learned from 001"));
     (u "consumes", JList (JStr <$> INBOUND_VERBS));
     (u "does_not_consume", JStr (u "inbound E2EEGROUP"))]);
   (u "group_control_runtime", JObj [
     (u "status", JStr (u "production_wired"));
     (u "trusted_directory_verification", JStr (u "production_wired"));
     (u "genesis_session_provisioning", JStr (u "production_wired"));
     (u "genesis_semantics", JStr (u "authenticated OGC1-v2 commit and welcome pairs may provision an ephemeral epoch-1 GroupSession only for epoch 0 to 1, priorEpoch 0, a zero prior commit hash, and exact routing, identity, commit, membership, body, context, and epoch-key-commitment binding"));
     (u "higher_epoch_semantics", JStr (u "requires an existing current session or explicit recovery"));
     (u "session_persistence", JStr (u "activation_hold"))]);
   (u "group_message_crypto", JObj [
     (u "envelope_helpers", JStr (u "implemented"));
     (u "store_seal", JStr (u "activation_hold"));
     (u "store_open", JStr (u "activation_hold"));
     (u "outbound", JStr (u "required rooms reject plaintext; no production path seals and tags ONYXROOM1"));
     (u "inbound", JStr (u "ONYXROOM1 remains ciphertext in the store and renders as a locked placeholder"))])].
Definition REQUIRED_POLICY_FIELDS : json := JObj [
   (u "status", JStr (u "production_active"));
   (u "admission", JStr (u "tag_and_body"));
   (u "tag", JStr (u "+onyx/e2ee=mls"));
   (u "body", JStr (u "canonical ONYXROOM1 envelope"));
   (u "body_validation", JStr (u "exact prefix, canonical unpadded base64url, version 1, decoded length at least 33 bytes, and bounded by the server message limit"));
   (u "server_validation", JStr (u "structural only; the daemon neither decrypts nor authenticates ciphertext"));
   (u "local_privmsg_failure", JStr (u "FAIL PRIVMSG E2EE_REQUIRED"));
   (u "local_notice_failure", JStr (u "silent_drop"));
   (u "mesh_relay_failure", JStr (u "permanent_reject"));
   (u "tagmsg", JStr (u "admitted as a tag-only command without a text envelope"))].
Definition MESSAGE_POLICY_VECTORS : json := JObj [
   (u "accepted", JObj [
     (u "required_room_ciphertext", JObj [
       (u "line", JStr (u "@+onyx/e2ee=mls PRIVMSG #secure :ONYXROOM1 AQAAAAAAAAAAAAAAAAAAAAAAAAAAAAAAAAAAAAAAAAAA"));
       (u "outcome", JStr (u "accepted"))]);
     (u "required_room_tagmsg", JObj [
       (u "line", JStr (u "@+typing=active TAGMSG #secure"));
       (u "outcome", JStr (u "accepted"))])]);
   (u "rejected", JObj [
     (u "tagged_plaintext", JObj [
       (u "line", JStr (u "@+onyx/e2ee=mls PRIVMSG #secure :plaintext"));
       (u "fail", JStr (u "FAIL PRIVMSG E2EE_REQUIRED"))]);
     (u "untagged_envelope", JObj [
       (u "line", JStr (u "PRIVMSG #secure :ONYXROOM1 AQAAAAAAAAAAAAAAAAAAAAAAAAAAAAAAAAAAAAAAAAAA"));
       (u "fail", JStr (u "FAIL PRIVMSG E2EE_REQUIRED"))]);
     (u "wrong_tag_value", JObj [
       (u "line", JStr (u "@+onyx/e2ee=1 PRIVMSG #secure :ONYXROOM1 AQAAAAAAAAAAAAAAAAAAAAAAAAAAAAAAAAAAAAAAAAAA"));
       (u "fail", JStr (u "FAIL PRIVMSG E2EE_REQUIRED"))]);
     (u "malformed_envelope", JObj [
       (u "line", JStr (u "@+onyx/e2ee=mls PRIVMSG #secure :ONYXROOM1 not+base64url"));
       (u "fail", JStr (u "FAIL PRIVMSG E2EE_REQUIRED"))])])].
Definition TRANSIENT_PERSISTENCE : list pystr :=
  [u "bounded_ads1_attachment_spool";
   u "ram_mesh_hop_custody_until_ack"].
Definition ACCEPTED_VECTORS : list pystr :=
  [u "key_package_channel";
   u "commit_channel";
   u "welcome_targeted";
   u "commit_payload_bound"].
Definition REJECTED_VECTORS : list pystr :=
  [u "bad_payload_noncanonical";
   u "device_not_owned";
   u "welcome_unknown_device";
   u "welcome_target_not_in_channel";
   u "guest_authoring";
   u "missing_cap";
   u "missing_ircx";
   u "sender_not_on_channel";
   u "authenticated_no_reusable_session"].
Definition SESSION_COMMANDS : list pystr :=
  [u "SESSION TOKEN";
   u "SESSION MTOKEN";
   u "SESSION RESUME <token>"].
Definition VENDOR_CAPS : json := JObj [
   (u "onyx/session-sync", JStr (u "same-account attachment synchronization"));
   (u "onyx/bouncer", JStr (u "automatic history rewind"));
   (u "onyx/topics", JStr (u "named conversation tags and history"));
   (u "onyx/e2ee", JStr (u "permits the +onyx/e2ee message tag and E2EEGROUP eligibility"))].
Definition GUEST_AUTHORING : pystr := u "FAIL E2EEGROUP NOT_LOGGED_IN".
Definition GUEST_RECIPIENT : pystr := u "ineligible; no reusable session row".
Definition AUTH_NEGOTIATION : pystr := u "FAIL E2EEGROUP SESSION_UNAVAILABLE; connection closes before autojoin or further participation".
Definition AUTH_AUTHORING_DEFENSE : pystr := u "WARN E2EEGROUP TEMPORARILY_UNAVAILABLE; a reusable session is required for group E2EE".
Definition RESUME_INVARIANT : pystr := u "A successful same-account resume preserves the logical attachment without duplicate JOIN or MODE events.".
Definition SESSION_RESUME_FIELDS : json := JObj [
   (u "invariant", JStr RESUME_INVARIANT);
   (u "live_sibling", JStr (u "attach without disconnecting the source"));
   (u "detached_ghost", JStr (u "restore snapshot then replace the ghost; the token remains reusable"));
   (u "mesh_token", JStr (u "non-local-length hex is a mesh-sealed reclaim credential, not a one-shot replay nonce"))].
Definition PRESENCE_QUIT_FIELDS : json := JObj [
   (u "scope", JStr (u "identity_wide"));
   (u "delivery", JStr (u "exactly_once"));
   (u "mesh_marker", JStr (u "ONYX-QUIT"));
   (u "client_visible", JStr (u "one identity-wide QUIT; per-channel membership withdrawals converge separately"));
   (u "sibling_attachment", JStr (u "handoff without identity-wide QUIT"))].
Definition PRESENCE_PART_FIELDS : json := JObj [
   (u "scope", JStr (u "channel_local"));
   (u "channels", JStr (u "comma-separated list with a shared reason"));
   (u "intent", JStr (u "one-way exact-token withdrawal of the named channels only"))].
Definition LIVE_COMMANDS : pystr := u "processLiveLine is the only client-command admission path".
Definition HISTORY_REPLAY : pystr := u "CHATHISTORY and bouncer rewind replay stored events; they do not re-author live commands".
Definition HELIX_E2EE_GROUP : pystr := u "EGRG Helix checkpoints are replay metadata only; opaque payloads and hop-custody wires never enter Helix".
Definition SESSION_RESUME_SPLIT : pystr := u "snapshot or live-sibling attach; original JOIN/PART/QUIT live commands are not replayed".
Definition TRUSTED_SIGNER_SEMANTICS : pystr := u "verification requires an externally supplied trusted Ed25519 public key; the wire signer_pub must equal that key and is never account authentication by itself".
Definition CHANNEL_RECORD : pystr := u ":<source-prefix> E2EE.KEYPACKAGE|E2EE.COMMIT <channel> <from-account> <from-device> :<opaque-base64url>".
Definition WELCOME_RECORD : pystr := u ":<source-prefix> E2EE.WELCOME <channel> <from-account> <from-device> <to-account> <to-device> :<opaque-base64url>".
Definition ACCOUNTLESS_CHANNEL_RECORD : pystr := u ":<source-prefix> E2EE.KEYPACKAGE|E2EE.COMMIT <channel> <from-device> :<opaque-base64url>".
Definition ACCOUNTLESS_WELCOME_RECORD : pystr := u ":<source-prefix> E2EE.WELCOME <channel> <from-device> <to-account> <to-device> :<opaque-base64url>".
Definition RECIPIENT_GATE : pystr := u "onyx/e2ee negotiated, locally joined to the channel, and attached to a reusable session".
Definition WELCOME_ABSENCE : pystr := u "explicit TARGET_UNAVAILABLE failure; no offline-recipient persistence".
Definition ACCEPTED_VECTOR_FIELDS : list (pystr * json) := [
  (u "key_package_channel", JObj [
     (u "line", JStr (u "E2EEGROUP #secure key-package phone :AQIDBA"));
     (u "delivery", JStr (u ":Alice!alice@localhost E2EE.KEYPACKAGE #secure alice phone :AQIDBA"))]);
  (u "commit_channel", JObj [
     (u "line", JStr (u "E2EEGROUP #secure commit phone :b3BhcXVl"));
     (u "delivery", JStr (u ":Alice!alice@localhost E2EE.COMMIT #secure alice phone :b3BhcXVl"))]);
  (u "welcome_targeted", JObj [
     (u "line", JStr (u "E2EEGROUP #secure welcome phone Bob tablet :d2VsY29tZQ"));
     (u "delivery", JStr (u ":Alice!alice@localhost E2EE.WELCOME #secure alice phone Bob tablet :d2VsY29tZQ"))]);
  (u "commit_payload_bound", JObj [
     (u "line", JStr (u "E2EEGROUP #secure commit phone :<payload>"));
     (u "payload_repeat", JObj [
       (u "char", JStr (u "A"));
       (u "count", JInt 4096)]);
     (u "delivery_verb", JStr (u "E2EE.COMMIT"))])].
Definition REJECTED_VECTOR_FIELDS : list (pystr * json) := [
  (u "bad_payload_noncanonical", JObj [
     (u "line", JStr (u "E2EEGROUP #secure commit phone :not+base64url"));
     (u "fail", JStr (u "FAIL E2EEGROUP BAD_PAYLOAD"))]);
  (u "device_not_owned", JObj [
     (u "line", JStr (u "E2EEGROUP #secure commit missing :AQIDBA"));
     (u "fail", JStr (u "FAIL E2EEGROUP DEVICE_NOT_OWNED"))]);
  (u "welcome_unknown_device", JObj [
     (u "line", JStr (u "E2EEGROUP #secure welcome phone bob missing :AQIDBA"));
     (u "fail", JStr (u "FAIL E2EEGROUP TARGET_UNAVAILABLE"))]);
  (u "welcome_target_not_in_channel", JObj [
     (u "line", JStr (u "E2EEGROUP #secure welcome phone carol laptop :AQIDBA"));
     (u "fail", JStr (u "FAIL E2EEGROUP TARGET_UNAVAILABLE"))]);
  (u "guest_authoring", JObj [
     (u "line", JStr (u "E2EEGROUP #secure commit phone :AQIDBA"));
     (u "fail", JStr (u "FAIL E2EEGROUP NOT_LOGGED_IN"))]);
  (u "missing_cap", JObj [
     (u "line", JStr (u "E2EEGROUP #secure commit phone :AQIDBA"));
     (u "fail", JStr (u "FAIL E2EEGROUP CAP_REQUIRED"))]);
  (u "missing_ircx", JObj [
     (u "line", JStr (u "E2EEGROUP #secure commit phone :AQIDBA"));
     (u "fail", JStr (u "FAIL E2EEGROUP IRCX_REQUIRED"))]);
  (u "sender_not_on_channel", JObj [
     (u "line", JStr (u "E2EEGROUP #secure commit phone :AQIDBA"));
     (u "fail", JStr (u "FAIL E2EEGROUP NOT_ON_CHANNEL"))]);
  (u "authenticated_no_reusable_session", JObj [
     (u "line", JStr (u "CAP REQ :onyx/e2ee"));
     (u "fail", JStr (u "FAIL E2EEGROUP SESSION_UNAVAILABLE"));
     (u "closes_connection", JBool true)])].

(** ** The validator *)

Definition _is_mapping (value : json) : bool := is_mapping value.

Definition _exact_seq (actual : json) (expected : list pystr) : bool :=
  match actual with
  | JList l => Nat.eqb (length l) (length expected)
               && forallb (λ '(item, want), pyeq item (JStr want)) (combine l expected)
  | _ => false
  end.

Definition _has_named_keys (actual : json) (expected : list pystr) : bool :=
  _is_mapping actual
  && forallb (λ k, mem k expected) (jkeys actual) && forallb (λ k, mem k (jkeys actual)) expected.

(** [need(ok, message)]: the messages it appends. *)
Definition need (ok : bool) (message : pystr) : list pystr := if ok then [] else [message].

(** [if _is_mapping(v): ...]. *)
Definition when_mapping (v : json) (errors : list pystr) : list pystr :=
  if _is_mapping v then errors else [].

(** [v.get(k) == text]. *)
Definition says (v : json) (k text : pystr) : bool := pyeq (jget v k) (JStr text).

Definition transport_errors (contract : json) : list pystr :=
  let transport := jget contract (u "transport") in
  need (_is_mapping transport) (u "transport must be an object")
  ++ when_mapping transport
     (need (says transport (u "websocket") (u "one IRC message per frame; no trailing frame bytes"))
        (u "transport.websocket framing is frozen")).

Definition capabilities_errors (contract : json) : list pystr :=
  let caps := jget contract (u "capabilities") in
  need (_is_mapping caps) (u "capabilities must be an object")
  ++ when_mapping caps
     (need (_exact_seq (jget caps (u "required_for_first_party_client")) REQUIRED_CAPS)
        (u "first-party capability set is frozen")
      ++ need (pyeq (jget caps (u "vendor")) VENDOR_CAPS) (u "vendor capability mapping is frozen")).

Definition server_errors (contract : json) : list pystr :=
  let server := jget contract (u "server") in
  need (_is_mapping server) (u "server must be an object")
  ++ when_mapping server
     (need (says server (u "group_control") (u "production_active"))
        (u "server.group_control must be production_active")).

Definition client_errors (contract : json) : list pystr :=
  let client := jget contract (u "client") in
  need (_is_mapping client) (u "client must be an object")
  ++ when_mapping client
     (need (pyeq client CLIENT_FIELDS)
        (u "client observer/runtime/message activation split is frozen")).

Definition guest_errors (eligibility : json) : list pystr :=
  let guest := jget eligibility (u "guest") in
  need (_is_mapping guest) (u "eligibility.guest must be an object")
  ++ when_mapping guest
     (need (says guest (u "onyx_e2ee_negotiation") (u "allowed"))
        (u "guest onyx/e2ee negotiation must be allowed")
      ++ need (is_bool false (jget guest (u "reusable_session_required")))
           (u "guest must not require a reusable session")
      ++ need (says guest (u "authoring") GUEST_AUTHORING) (u "guest authoring fail is frozen")
      ++ need (says guest (u "recipient") GUEST_RECIPIENT)
           (u "guest recipient ineligibility is frozen")).

Definition auth_errors (eligibility : json) : list pystr :=
  let auth := jget eligibility (u "authenticated_no_reusable_session") in
  need (_is_mapping auth) (u "authenticated_no_reusable_session must be an object")
  ++ when_mapping auth
     (need (is_bool true (jget auth (u "fail_closed")))
        (u "authenticated no-reusable-session must be fail-closed")
      ++ need (says auth (u "negotiation") AUTH_NEGOTIATION)
           (u "authenticated negotiation prose is frozen")
      ++ need (says auth (u "authoring_defense") AUTH_AUTHORING_DEFENSE)
           (u "authenticated authoring_defense prose is frozen")).

Definition eligibility_errors (contract : json) : list pystr :=
  let eligibility := jget contract (u "eligibility") in
  need (_is_mapping eligibility) (u "eligibility must be an object")
  ++ when_mapping eligibility (guest_errors eligibility ++ auth_errors eligibility).

Definition split_errors (session : json) : list pystr :=
  let split := jget session (u "replay_live_separation") in
  need (_is_mapping split) (u "session.replay_live_separation must be an object")
  ++ when_mapping split
     (need (says split (u "live_commands") LIVE_COMMANDS) (u "live_commands prose is frozen")
      ++ need (says split (u "history_replay") HISTORY_REPLAY) (u "history_replay prose is frozen")
      ++ need (says split (u "helix_e2ee_group") HELIX_E2EE_GROUP)
           (u "helix_e2ee_group prose is frozen")
      ++ need (says split (u "session_resume") SESSION_RESUME_SPLIT)
           (u "session_resume prose is frozen")).

Definition session_errors (contract : json) : list pystr :=
  let session := jget contract (u "session") in
  need (_is_mapping session) (u "session must be an object")
  ++ when_mapping session
     (need (_exact_seq (jget session (u "commands")) SESSION_COMMANDS)
        (u "session.commands are frozen")
      ++ need (pyeq (jget session (u "resume")) SESSION_RESUME_FIELDS)
           (u "session.resume fields are frozen")
      ++ split_errors session).

Definition signer_errors (group : json) : list pystr :=
  let signer := jget group (u "trusted_signer") in
  need (_is_mapping signer) (u "trusted_signer must be an object")
  ++ when_mapping signer
     (need (says signer (u "requirement") (u "mandatory_external"))
        (u "trusted signer must be mandatory_external")
      ++ need (says signer (u "semantics") TRUSTED_SIGNER_SEMANTICS)
           (u "trusted signer semantics are frozen")).

Definition persistence_errors (group : json) : list pystr :=
  let persistence := jget group (u "persistence") in
  need (_is_mapping persistence) (u "persistence must be an object")
  ++ when_mapping persistence
     (need (says persistence (u "group_secrets") (u "none"))
        (u "group-secret persistence must be none")
      ++ need (says persistence (u "offline_recipient") (u "none"))
           (u "offline-recipient persistence must be none")
      ++ need (says persistence (u "opaque_control_payload") (u "none_durable"))
           (u "opaque control payload must not be durably persisted")
      ++ need (_exact_seq (jget persistence (u "allowed_transient")) TRANSIENT_PERSISTENCE)
           (u "only bounded ADS1 spool and RAM mesh custody are allowed transient holds")
      ++ need (says persistence (u "helix_checkpoint") (u "replay_metadata_only"))
           (u "Helix may seal replay metadata only")).

Definition limits_errors (command : json) : list pystr :=
  let limits := jget command (u "limits") in
  need (_is_mapping limits) (u "limits must be an object")
  ++ when_mapping limits
     (need (pyeq (jget limits (u "channel_bytes")) (JInt 128)) (u "channel_bytes must be 128")
      ++ need (pyeq (jget limits (u "device_id_bytes")) (JInt 32)) (u "device_id_bytes must be 32")
      ++ need (pyeq (jget limits (u "account_bytes")) (JInt 64)) (u "account_bytes must be 64")
      ++ need (pyeq (jget limits (u "payload_b64url_chars")) (JInt 4096))
           (u "payload_b64url_chars must be 4096")
      ++ need (negb (mem (u "payload_bytes") (jkeys limits)))
           (u "payload bound is payload_b64url_chars, not payload_bytes")).

Definition delivery_errors (command : json) : list pystr :=
  let delivery := jget command (u "delivery") in
  need (_is_mapping delivery) (u "delivery must be an object")
  ++ when_mapping delivery
     (need (says delivery (u "channel_record") CHANNEL_RECORD)
        (u "channel delivery record form is frozen")
      ++ need (says delivery (u "welcome_record") WELCOME_RECORD)
           (u "welcome delivery record form is frozen")
      ++ need (negb (says delivery (u "channel_record") ACCOUNTLESS_CHANNEL_RECORD))
           (u "channel delivery must include from-account; account-less shape is rejected")
      ++ need (negb (says delivery (u "welcome_record") ACCOUNTLESS_WELCOME_RECORD))
           (u "welcome delivery must include from-account before from-device; account-less shape is rejected")
      ++ need (says delivery (u "recipient_gate") RECIPIENT_GATE)
           (u "recipient gate prose is frozen")
      ++ need (says delivery (u "welcome_absence") WELCOME_ABSENCE)
           (u "welcome absence prose is frozen")).

Definition command_errors (group : json) : list pystr :=
  let command := jget group (u "control_command") in
  need (_is_mapping command) (u "control_command must be an object")
  ++ when_mapping command
     (need (says command (u "name") (u "E2EEGROUP")) (u "control command must be E2EEGROUP")
      ++ need (is_bool true (jget command (u "ircx_required"))) (u "E2EEGROUP requires IRCX")
      ++ need (says command (u "cap_required") (u "onyx/e2ee")) (u "E2EEGROUP requires onyx/e2ee")
      ++ need (_exact_seq (jget command (u "forms")) CONTROL_FORMS)
           (u "E2EEGROUP outer forms are frozen")
      ++ need (says command (u "payload_encoding") (u "canonical base64url without padding"))
           (u "payload encoding must be canonical unpadded base64url")
      ++ limits_errors command ++ delivery_errors command).

Definition group_errors (contract : json) : list pystr :=
  let group := jget contract (u "e2ee_group") in
  need (_is_mapping group) (u "e2ee_group must be an object")
  ++ when_mapping group
     (need (says group (u "content_envelope") (u "ONYXROOM1"))
        (u "content envelope must be ONYXROOM1")
      ++ need (says group (u "message_tag") (u "+onyx/e2ee=mls"))
           (u "message tag must be +onyx/e2ee=mls")
      ++ need (says group (u "message_tag_semantics")
           (u "internal MLS-family marker only; does not claim RFC 9420 wire interoperability"))
           (u "MLS-family marker must not claim RFC 9420 interoperability")
      ++ signer_errors group
      ++ need (says group (u "server_secrets") (u "none")) (u "server must have no group secrets")
      ++ need (pyeq (jget group (u "required_policy")) REQUIRED_POLICY_FIELDS)
           (u "required-room tag/body policy is frozen")
      ++ persistence_errors group
      ++ need (_exact_seq (jget group (u "control_records")) CONTROL_KINDS)
           (u "control record kinds are frozen")
      ++ command_errors group).

Definition presence_errors (contract : json) : list pystr :=
  let presence := jget contract (u "presence") in
  need (_is_mapping presence) (u "presence must be an object")
  ++ when_mapping presence
     (need (pyeq (jget presence (u "quit")) PRESENCE_QUIT_FIELDS)
        (u "presence.quit fields are frozen")
      ++ need (pyeq (jget presence (u "part")) PRESENCE_PART_FIELDS)
           (u "presence.part fields are frozen")).

(** [for name, expected in fields.items(): ...]. *)
Definition field_errors (kind suffix : pystr) (actual : json) (fields : list (pystr * json))
    : list pystr :=
  fields ≫= λ '(name, expected),
    need (pyeq (jget actual name) expected) (kind ++ u "." ++ name ++ suffix).

Definition vector_errors (contract : json) : list pystr :=
  let vectors := jget contract (u "command_vectors") in
  need (_is_mapping vectors) (u "command_vectors must be an object")
  ++ when_mapping vectors
     (let accepted := jget vectors (u "accepted") in
      let rejected := jget vectors (u "rejected") in
      need (_has_named_keys accepted ACCEPTED_VECTORS) (u "accepted command vector names are frozen")
      ++ need (_has_named_keys rejected REJECTED_VECTORS)
           (u "rejected command vector names are frozen")
      ++ when_mapping accepted
           (field_errors (u "accepted") (u " line/delivery fields are frozen") accepted
              ACCEPTED_VECTOR_FIELDS)
      ++ when_mapping rejected
           (field_errors (u "rejected") (u " line/fail fields are frozen") rejected
              REJECTED_VECTOR_FIELDS)).

Definition semantic_errors (contract : json) : list pystr :=
  let errors := need (_is_mapping contract) (u "contract must be a JSON object") in
  match errors with
  | _ :: _ => errors
  | [] =>
    need (says contract (u "schema") SCHEMA) (u "schema must be " ++ SCHEMA)
    ++ need (pyeq (jget contract (u "revision")) (JInt REVISION))
         (u "revision must be " ++ dec REVISION)
    ++ transport_errors contract ++ capabilities_errors contract ++ server_errors contract
    ++ client_errors contract ++ eligibility_errors contract ++ session_errors contract
    ++ group_errors contract ++ presence_errors contract
    ++ need (pyeq (jget contract (u "message_policy_vectors")) MESSAGE_POLICY_VECTORS)
         (u "message policy vectors are frozen")
    ++ vector_errors contract
  end.

Definition valid_contract (contract : json) : bool :=
  match semantic_errors contract with [] => true | _ => false end.

(** ** The command line *)

(** What the files hold: a result or the text of the exception raised. *)
Record Files := mkFiles {
  read_bytes : pystr → pystr + pybytes;
  load_contract : pystr → pystr + json }.

Section Main.
Context (fs : Files) (default_contract_path : pystr).

Definition compare_bytes (left right : pystr) : option pystr :=
  match read_bytes fs left with
  | inl exc => Some (u "cannot read " ++ left ++ u ": " ++ exc)
  | inr left_bytes =>
    match read_bytes fs right with
    | inl exc => Some (u "cannot read peer contract " ++ right ++ u ": " ++ exc)
    | inr right_bytes =>
      if bool_decide (left_bytes = right_bytes) then None
      else Some (u "Protocol contract drift: " ++ right ++ u " is not byte-identical to " ++ left)
    end
  end.

Definition validate_path (path : pystr) : list pystr :=
  match load_contract fs path with
  | inl exc => [u "cannot load " ++ path ++ u ": " ++ exc]
  | inr contract => semantic_errors contract
  end.

(** The exit status, the lines on standard error and those on standard
    output. *)
Definition main (args : list pystr) : Z * list pystr * list pystr :=
  let local_ := default_contract_path in
  match validate_path local_ with
  | (_ :: _) as errors =>
    (1, ((λ item, u "error: " ++ item) <$> errors)
        ++ [u "Invalid Onyx protocol contract: " ++ local_], [])
  | [] =>
    match args with
    | peer :: _ =>
      match compare_bytes local_ peer with
      | Some drift => (1, [u "error: " ++ drift], [])
      | None => (0, [], [u "Protocol contract valid: " ++ local_ ++ u " = " ++ peer])
      end
    | [] => (0, [], [u "Protocol contract valid: " ++ local_])
    end
  end.

End Main.

(** ** The contract as published *)

(** docs/reference/protocol/onyx-client-contract.v2.json. *)
Definition contract_v2 : json := JObj [
   (u "schema", JStr (u "onyx-client-server-contract/v2"));
   (u "revision", JInt 3);
   (u "transport", JObj [
     (u "websocket", JStr (u "one IRC message per frame; no trailing frame bytes"))]);
   (u "capabilities", JObj [
     (u "required_for_first_party_client", JList [JStr (u "message-tags"); JStr (u "server-time"); JStr (u "batch"); JStr (u "labeled-response"); JStr (u "echo-message"); JStr (u "draft/chathistory")]);
     (u "vendor", JObj [
       (u "onyx/session-sync", JStr (u "same-account attachment synchronization"));
       (u "onyx/bouncer", JStr (u "automatic history rewind"));
       (u "onyx/topics", JStr (u "named conversation tags and history"));
       (u "onyx/e2ee", JStr (u "permits the +onyx/e2ee message tag and E2EEGROUP eligibility"))])]);
   (u "server", JObj [
     (u "group_control", JStr (u "production_active"));
     (u "group_control_semantics", JStr (u "authenticated membership policy and opaque E2EEGROUP control-record delivery are live, including mesh hop custody and exact-once replay metadata"));
     (u "local_authoring_default", JBool true);
     (u "local_authoring_quiesce", JStr (u "operator-only E2EEGROUP ON|OFF|STATUS; inbound relay, ACK, and retry stay live while quiesced"))]);
   (u "client", JObj [
     (u "group_control_observer", JObj [
       (u "status", JStr (u "production_wired"));
       (u "owner", JStr (u "connection_and_account_owned_bridge"));
       (u "server_reply_authentication", JStr (u "E2EEKEY replies are accepted only from the exact server prefix learned from 001"));
       (u "consumes", JList [JStr (u "E2EE.KEYPACKAGE"); JStr (u "E2EE.COMMIT"); JStr (u "E2EE.WELCOME")]);
       (u "does_not_consume", JStr (u "inbound E2EEGROUP"))]);
     (u "group_control_runtime", JObj [
       (u "status", JStr (u "production_wired"));
       (u "trusted_directory_verification", JStr (u "production_wired"));
       (u "genesis_session_provisioning", JStr (u "production_wired"));
       (u "genesis_semantics", JStr (u "authenticated OGC1-v2 commit and welcome pairs may provision an ephemeral epoch-1 GroupSession only for epoch 0 to 1, priorEpoch 0, a zero prior commit hash, and exact routing, identity, commit, membership, body, context, and epoch-key-commitment binding"));
       (u "higher_epoch_semantics", JStr (u "requires an existing current session or explicit recovery"));
       (u "session_persistence", JStr (u "activation_hold"))]);
     (u "group_message_crypto", JObj [
       (u "envelope_helpers", JStr (u "implemented"));
       (u "store_seal", JStr (u "production_wired_required_rooms"));
       (u "store_open", JStr (u "production_wired_ephemeral_session"));
       (u "outbound", JStr (u "required rooms seal through the private connection-owned runtime, tag onyx/e2ee=mls, and fail closed without a live session; plaintext is not queued or scheduled at rest"));
       (u "inbound", JStr (u "ONYXROOM1 remains ciphertext in store text; a matching live session may attach transient plaintext after exact async ownership revalidation, otherwise it renders locked"))])]);
   (u "eligibility", JObj [
     (u "guest", JObj [
       (u "onyx_e2ee_negotiation", JStr (u "allowed"));
       (u "reusable_session_required", JBool false);
       (u "authoring", JStr (u "FAIL E2EEGROUP NOT_LOGGED_IN"));
       (u "recipient", JStr (u "ineligible; no reusable session row"))]);
     (u "authenticated_no_reusable_session", JObj [
       (u "fail_closed", JBool true);
       (u "negotiation", JStr (u "FAIL E2EEGROUP SESSION_UNAVAILABLE; connection closes before autojoin or further participation"));
       (u "authoring_defense", JStr (u "WARN E2EEGROUP TEMPORARILY_UNAVAILABLE; a reusable session is required for group E2EE"))])]);
   (u "session", JObj [
     (u "commands", JList [JStr (u "SESSION TOKEN"); JStr (u "SESSION MTOKEN"); JStr (u "SESSION RESUME <token>")]);
     (u "resume", JObj [
       (u "invariant", JStr (u "A successful same-account resume preserves the logical attachment without duplicate JOIN or MODE events."));
       (u "live_sibling", JStr (u "attach without disconnecting the source"));
       (u "detached_ghost", JStr (u "restore snapshot then replace the ghost; the token remains reusable"));
       (u "mesh_token", JStr (u "non-local-length hex is a mesh-sealed reclaim credential, not a one-shot replay nonce"))]);
     (u "replay_live_separation", JObj [
       (u "live_commands", JStr (u "processLiveLine is the only client-command admission path"));
       (u "history_replay", JStr (u "CHATHISTORY and bouncer rewind replay stored events; they do not re-author live commands"));
       (u "helix_e2ee_group", JStr (u "EGRG Helix checkpoints are replay metadata only; opaque payloads and hop-custody wires never enter Helix"));
       (u "session_resume", JStr (u "snapshot or live-sibling attach; original JOIN/PART/QUIT live commands are not replayed"))])]);
   (u "error_privacy", JObj [
     (u "roadmap", JStr (u "Q01"));
     (u "invariant", JStr (u "permission and privacy failures are not channel or account existence oracles"));
     (u "concealed_channel", JStr (u "a secret, private or hidden channel the caller is not a member of"));
     (u "reply", JStr (u "every channel command against a concealed channel answers exactly as for a missing channel at the same call site, normally 403 ERR_NOSUCHCHANNEL"));
     (u "replaces", JList [JStr (u "442 ERR_NOTONCHANNEL"); JStr (u "404 ERR_CANNOTSENDTOCHAN"); JStr (u "482 ERR_CHANOPRIVSNEEDED"); JStr (u "443 ERR_USERONCHANNEL"); JStr (u "FAIL PRIVMSG E2EE_REQUIRED")]);
     (u "unchanged_for", JStr (u "channel members, visible channels, and operator spy/override carve-outs"));
     (u "client_handling", JStr (u "treat 403 for a channel as not found or not visible; never infer existence from a more specific numeric"))]);
   (u "e2ee_group", JObj [
     (u "content_envelope", JStr (u "ONYXROOM1"));
     (u "message_tag", JStr (u "+onyx/e2ee=mls"));
     (u "message_tag_semantics", JStr (u "internal MLS-family marker only; does not claim RFC 9420 wire interoperability"));
     (u "trusted_signer", JObj [
       (u "requirement", JStr (u "mandatory_external"));
       (u "semantics", JStr (u "verification requires an externally supplied trusted Ed25519 public key; the wire signer_pub must equal that key and is never account authentication by itself"))]);
     (u "server_secrets", JStr (u "none"));
     (u "persistence", JObj [
       (u "group_secrets", JStr (u "none"));
       (u "offline_recipient", JStr (u "none"));
       (u "opaque_control_payload", JStr (u "none_durable"));
       (u "allowed_transient", JList [JStr (u "bounded_ads1_attachment_spool"); JStr (u "ram_mesh_hop_custody_until_ack")]);
       (u "helix_checkpoint", JStr (u "replay_metadata_only"))]);
     (u "required_policy", JObj [
       (u "status", JStr (u "production_active"));
       (u "admission", JStr (u "tag_and_body"));
       (u "tag", JStr (u "+onyx/e2ee=mls"));
       (u "body", JStr (u "canonical ONYXROOM1 envelope"));
       (u "body_validation", JStr (u "exact prefix, canonical unpadded base64url, version 1, decoded length at least 33 bytes, and bounded by the server message limit"));
       (u "server_validation", JStr (u "structural only; the daemon neither decrypts nor authenticates ciphertext"));
       (u "local_privmsg_failure", JStr (u "FAIL PRIVMSG E2EE_REQUIRED"));
       (u "local_notice_failure", JStr (u "silent_drop"));
       (u "mesh_relay_failure", JStr (u "permanent_reject"));
       (u "tagmsg", JStr (u "admitted as a tag-only command without a text envelope"))]);
     (u "control_records", JList [JStr (u "key-package"); JStr (u "welcome"); JStr (u "commit")]);
     (u "control_command", JObj [
       (u "name", JStr (u "E2EEGROUP"));
       (u "ircx_required", JBool true);
       (u "cap_required", JStr (u "onyx/e2ee"));
       (u "forms", JList [JStr (u "<channel> <key-package|commit> <from-device> :<opaque-base64url>"); JStr (u "<channel> welcome <from-device> <to-account> <to-device> :<opaque-base64url>")]);
       (u "limits", JObj [
         (u "channel_bytes", JInt 128);
         (u "device_id_bytes", JInt 32);
         (u "account_bytes", JInt 64);
         (u "payload_b64url_chars", JInt 4096)]);
       (u "payload_encoding", JStr (u "canonical base64url without padding"));
       (u "delivery", JObj [
         (u "channel_record", JStr (u ":<source-prefix> E2EE.KEYPACKAGE|E2EE.COMMIT <channel> <from-account> <from-device> :<opaque-base64url>"));
         (u "welcome_record", JStr (u ":<source-prefix> E2EE.WELCOME <channel> <from-account> <from-device> <to-account> <to-device> :<opaque-base64url>"));
         (u "recipient_gate", JStr (u "onyx/e2ee negotiated, locally joined to the channel, and attached to a reusable session"));
         (u "welcome_absence", JStr (u "explicit TARGET_UNAVAILABLE failure; no offline-recipient persistence"))])])]);
   (u "presence", JObj [
     (u "quit", JObj [
       (u "scope", JStr (u "identity_wide"));
       (u "delivery", JStr (u "exactly_once"));
       (u "mesh_marker", JStr (u "ONYX-QUIT"));
       (u "client_visible", JStr (u "one identity-wide QUIT; per-channel membership withdrawals converge separately"));
       (u "sibling_attachment", JStr (u "handoff without identity-wide QUIT"))]);
     (u "part", JObj [
       (u "scope", JStr (u "channel_local"));
       (u "channels", JStr (u "comma-separated list with a shared reason"));
       (u "intent", JStr (u "one-way exact-token withdrawal of the named channels only"))])]);
   (u "message_policy_vectors", JObj [
     (u "accepted", JObj [
       (u "required_room_ciphertext", JObj [
         (u "line", JStr (u "@+onyx/e2ee=mls PRIVMSG #secure :ONYXROOM1 AQAAAAAAAAAAAAAAAAAAAAAAAAAAAAAAAAAAAAAAAAAA"));
         (u "outcome", JStr (u "accepted"))]);
       (u "required_room_tagmsg", JObj [
         (u "line", JStr (u "@+typing=active TAGMSG #secure"));
         (u "outcome", JStr (u "accepted"))])]);
     (u "rejected", JObj [
       (u "tagged_plaintext", JObj [
         (u "line", JStr (u "@+onyx/e2ee=mls PRIVMSG #secure :plaintext"));
         (u "fail", JStr (u "FAIL PRIVMSG E2EE_REQUIRED"))]);
       (u "untagged_envelope", JObj [
         (u "line", JStr (u "PRIVMSG #secure :ONYXROOM1 AQAAAAAAAAAAAAAAAAAAAAAAAAAAAAAAAAAAAAAAAAAA"));
         (u "fail", JStr (u "FAIL PRIVMSG E2EE_REQUIRED"))]);
       (u "wrong_tag_value", JObj [
         (u "line", JStr (u "@+onyx/e2ee=1 PRIVMSG #secure :ONYXROOM1 AQAAAAAAAAAAAAAAAAAAAAAAAAAAAAAAAAAAAAAAAAAA"));
         (u "fail", JStr (u "FAIL PRIVMSG E2EE_REQUIRED"))]);
       (u "malformed_envelope", JObj [
         (u "line", JStr (u "@+onyx/e2ee=mls PRIVMSG #secure :ONYXROOM1 not+base64url"));
         (u "fail", JStr (u "FAIL PRIVMSG E2EE_REQUIRED"))])])]);
   (u "command_vectors", JObj [
     (u "accepted", JObj [
       (u "key_package_channel", JObj [
         (u "line", JStr (u "E2EEGROUP #secure key-package phone :AQIDBA"));
         (u "delivery", JStr (u ":Alice!alice@localhost E2EE.KEYPACKAGE #secure alice phone :AQIDBA"))]);
       (u "commit_channel", JObj [
         (u "line", JStr (u "E2EEGROUP #secure commit phone :b3BhcXVl"));
         (u "delivery", JStr (u ":Alice!alice@localhost E2EE.COMMIT #secure alice phone :b3BhcXVl"))]);
       (u "welcome_targeted", JObj [
         (u "line", JStr (u "E2EEGROUP #secure welcome phone Bob tablet :d2VsY29tZQ"));
         (u "delivery", JStr (u ":Alice!alice@localhost E2EE.WELCOME #secure alice phone Bob tablet :d2VsY29tZQ"))]);
       (u "commit_payload_bound", JObj [
         (u "line", JStr (u "E2EEGROUP #secure commit phone :<payload>"));
         (u "payload_repeat", JObj [
           (u "char", JStr (u "A"));
           (u "count", JInt 4096)]);
         (u "delivery_verb", JStr (u "E2EE.COMMIT"))])]);
     (u "rejected", JObj [
       (u "bad_payload_noncanonical", JObj [
         (u "line", JStr (u "E2EEGROUP #secure commit phone :not+base64url"));
         (u "fail", JStr (u "FAIL E2EEGROUP BAD_PAYLOAD"))]);
       (u "device_not_owned", JObj [
         (u "line", JStr (u "E2EEGROUP #secure commit missing :AQIDBA"));
         (u "fail", JStr (u "FAIL E2EEGROUP DEVICE_NOT_OWNED"))]);
       (u "welcome_unknown_device", JObj [
         (u "line", JStr (u "E2EEGROUP #secure welcome phone bob missing :AQIDBA"));
         (u "fail", JStr (u "FAIL E2EEGROUP TARGET_UNAVAILABLE"))]);
       (u "welcome_target_not_in_channel", JObj [
         (u "line", JStr (u "E2EEGROUP #secure welcome phone carol laptop :AQIDBA"));
         (u "fail", JStr (u "FAIL E2EEGROUP TARGET_UNAVAILABLE"))]);
       (u "guest_authoring", JObj [
         (u "line", JStr (u "E2EEGROUP #secure commit phone :AQIDBA"));
         (u "fail", JStr (u "FAIL E2EEGROUP NOT_LOGGED_IN"))]);
       (u "missing_cap", JObj [
         (u "line", JStr (u "E2EEGROUP #secure commit phone :AQIDBA"));
         (u "fail", JStr (u "FAIL E2EEGROUP CAP_REQUIRED"))]);
       (u "missing_ircx", JObj [
         (u "line", JStr (u "E2EEGROUP #secure commit phone :AQIDBA"));
         (u "fail", JStr (u "FAIL E2EEGROUP IRCX_REQUIRED"))]);
       (u "sender_not_on_channel", JObj [
         (u "line", JStr (u "E2EEGROUP #secure commit phone :AQIDBA"));
         (u "fail", JStr (u "FAIL E2EEGROUP NOT_ON_CHANNEL"))]);
       (u "authenticated_no_reusable_session", JObj [
         (u "line", JStr (u "CAP REQ :onyx/e2ee"));
         (u "fail", JStr (u "FAIL E2EEGROUP SESSION_UNAVAILABLE"));
         (u "closes_connection", JBool true)])])])].
