(* ===== verification/ContractSpec.v ===== *)
(** * tools/check-client-contract.py: properties of the validator

    The nested checks are equivalent to a flat table of paths, each with the
    requirement on the value found there. *)

From S2P Require Import Prelude PyStr Json Contract.

(** ** The table *)

Inductive requirement :=
| REq (v : json)
| RSeq (l : list pystr)
| RIs (b : bool)
| RKeys (l : list pystr)
| RLacks (k : pystr).


Definition meets (r : requirement) (v : json) : bool :=
  match r with
  | REq w => pyeq v w
  | RSeq l => _exact_seq v l
  | RIs b => is_bool b v
  | RKeys l => _has_named_keys v l
  | RLacks k => is_mapping v && negb (mem k (jkeys v))
  end.

Definition table := list (list pystr * requirement).

Definition jpath (v : json) (p : list pystr) : json := foldl jget v p.

Definition conforms (t : table) (v : json) : bool :=
  forallb (λ '(p, r), meets r (jpath v p)) t.





















(** ** Facts *)




Lemma conforms_one k r v : conforms [([k], r)] v = meets r (jget v k).
Proof. unfold conforms. simpl. apply andb_true_r. Qed.
































(** ** The command line *)

(** The checker exits with 0 exactly when the local contract can be loaded
    and satisfies the table and, if a peer is named, both files can be read and
    are byte for byte equal; otherwise it exits with 1 and says why on standard
    error. *)
Theorem contract_main_spec fs local_ args :
  let '(code, err, out) := main fs local_ args in
  (code = 0 ∨ code = 1) ∧ (code = 1 ↔ err ≠ []) ∧ (code = 0 ↔ out ≠ [])
  ∧ (code = 0 ↔
     (∃ c, load_contract fs local_ = inr c ∧ semantic_errors c = [])
     ∧ ∀ peer rest, args = peer :: rest →
         ∃ b, read_bytes fs local_ = inr b ∧ read_bytes fs peer = inr b).
Proof.
  unfold main, validate_path. destruct (load_contract fs local_) as [exc|c].
  { cbn. split_and!; [auto|done|naive_solver|naive_solver]. }
  destruct (semantic_errors c) as [|e es] eqn:He.
  2:{ cbn. split_and!; [auto|done|naive_solver|naive_solver congruence]. }
  destruct args as [|peer rest].
  { split_and!; [auto|naive_solver|naive_solver|naive_solver]. }
  unfold compare_bytes. destruct (read_bytes fs local_) as [exc|b].
  { split_and!; [auto|done|naive_solver|naive_solver]. }
  destruct (read_bytes fs peer) as [exc|b'] eqn:Hp.
  { split_and!; [auto|done|naive_solver|naive_solver congruence]. }
  case_bool_decide; split_and!; naive_solver congruence.
Qed.

(** ** The published contract *)

(** [d[k] = v] for a key that is present. *)
Fixpoint jset (d : list (pystr * json)) (k : pystr) (v : json) : list (pystr * json) :=
  match d with
  | [] => []
  | (k', v') :: d' => if str_eqb k k' then (k', v) :: d' else (k', v') :: jset d' k v
  end.

Definition with_field (c : json) (k : pystr) (v : json) : json :=
  match c with JObj d => JObj (jset d k v) | _ => c end.

(** The published contract with the client section that the checker knows. *)
Definition contract_aligned : json := with_field contract_v2 (u "client") CLIENT_FIELDS.

(** The contract published in the repository is rejected by the checker of
    the same repository, for one reason: its client section declares group
    message sealing as wired in production, while the checker requires the
    activation hold.  With the client section of the checker it is accepted. *)
Theorem published_contract_rejected :
  semantic_errors contract_v2 = [u "client observer/runtime/message activation split is frozen"]
  ∧ semantic_errors contract_aligned = [].
Proof. vm_compute. done. Qed.

(** Numbers are compared by value, so the checker accepts a contract whose
    revision is the float 3.0 and whose [closes_connection] is the number 1
    where true is meant. *)
Theorem contract_numbers_by_value :
  let closes := JObj [(u "line", JStr (u "CAP REQ :onyx/e2ee"));
                      (u "fail", JStr (u "FAIL E2EEGROUP SESSION_UNAVAILABLE"));
                      (u "closes_connection", JInt 1)] in
  let vectors := jget contract_aligned (u "command_vectors") in
  let rejected := with_field (jget vectors (u "rejected"))
                    (u "authenticated_no_reusable_session") closes in
  let c := with_field (with_field contract_aligned (u "revision") (JFloat 3 0))
             (u "command_vectors") (with_field vectors (u "rejected") rejected) in
  jget c (u "revision") = JFloat 3 0
  ∧ jget (jget (jget (jget c (u "command_vectors")) (u "rejected"))
      (u "authenticated_no_reusable_session")) (u "closes_connection") = JInt 1
  ∧ semantic_errors c = [].
Proof. vm_compute. done. Qed.
