(* ===== verification/GateLedger.v ===== *)
(** * tools/gate_ledger.py: gate evidence

    A gate is run once; its record binds the outcome to the environment, the
    executable and the content of the inputs.  [Moment] is what the process
    sees of the machine at one instant, [Store] the record and log files of one
    evidence path.  SHA-256 is the parameter [sha256]. *)

From S2P Require Import Prelude PyStr Regex Json.

(** ** Paths *)

(** Lexicographic order on sequences of strings, the order of [Path] objects
    and of tuples of strings. *)
Fixpoint strs_leb (a b : list pystr) : bool :=
  match a, b with
  | [], _ => true
  | _ :: _, [] => false
  | x :: a', y :: b' => if str_eqb x y then strs_leb a' b' else str_leb x y
  end.

Definition path_le (a b : pystr) : Prop := strs_leb (split (u "/") a) (split (u "/") b) = true.
#[export] Instance path_le_dec : RelDecision path_le.
Proof. intros a b. unfold path_le. apply _. Defined.

Definition pair_le (a b : pystr * pystr) : Prop := strs_leb [a.1; a.2] [b.1; b.2] = true.
#[export] Instance pair_le_dec : RelDecision pair_le.
Proof. intros a b. unfold pair_le. apply _. Defined.

Definition path_parts (s : pystr) : list pystr :=
  List.filter (λ x, nonempty x && negb (str_eqb x (u "."))) (split (u "/") s).

(** [str(root / name)] for an absolute, normalised [root]. *)
Definition path_join (root name : pystr) : pystr :=
  if startswith name (u "/") then u "/" ++ join (u "/") (path_parts name)
  else match path_parts name with
       | [] => root
       | ps => (if str_eqb root (u "/") then root else root ++ u "/") ++ join (u "/") ps
       end.

(** ** The machine *)

Record Moment := mkMoment {
  m_platform : pystr;
  m_environ : list (pystr * pystr);
  m_exists : pystr → bool;
  m_symlink : pystr → bool;
  m_dir : pystr → bool;
  m_file : pystr → bool;
  m_exec : pystr → bool;               (* an executable that is not a directory *)
  m_rglob : pystr → list pystr;        (* [base.rglob("*")], in any order *)
  m_mode : pystr → Z;
  m_bytes : pystr → pybytes;
  m_resolve : pystr → pystr }.

Inductive ledger_error :=
| ValueError (text : pystr)
| KeyError (key : pystr)
| FileExistsError
| FileNotFoundError
| AttributeError
| IndexError
| NotTyped.                            (* a record whose fields have other types *)

Definition DEFAULT_INPUTS : list pystr :=
  [u "src"; u "etc"; u "tools"; u "packaging"; u "build.zig"; u "build.zig.zon"].

Definition environ_get (m : Moment) (k d : pystr) : pystr :=
  match List.find (λ kv, str_eqb kv.1 k) (m_environ m) with Some kv => kv.2 | None => d end.

(** [shutil.which(cmd, path)] for a command without a separator. *)
Definition which (m : Moment) (cmd : pystr) (dirs : list pystr) : option pystr :=
  List.find (m_exec m) ((λ d, path_join d cmd) <$> dirs).

Section Ledger.
Context (sha256 : pybytes → pystr).

Definition digest (data : pybytes) : pystr := sha256 data.

(** The entries of one input: [None] and the offending path on a symlink. *)
Fixpoint file_entries (m : Moment) (paths : list pystr) : pystr + list jtree :=
  match paths with
  | [] => inr []
  | path :: paths' =>
    if m_symlink m path then inl (u "symlink input: " ++ path)
    else
      match file_entries m paths' with
      | inl e => inl e
      | inr l =>
        inr (if m_file m path
             then TList [TStr path; TInt (Z.land (m_mode m path) 511); TStr (digest (m_bytes m path))] :: l
             else l)
      end
  end.

Fixpoint input_entries (m : Moment) (root : pystr) (names : list pystr) : pystr + list jtree :=
  match names with
  | [] => inr []
  | name :: names' =>
    let base := path_join root name in
    if negb (m_exists m base) || m_symlink m base
    then inl (u "missing or symlink input: " ++ name)
    else
      let paths := if m_dir m base then merge_sort path_le (m_rglob m base) else [base] in
      match file_entries m paths with
      | inl e => inl e
      | inr l =>
        match input_entries m root names' with
        | inl e => inl e
        | inr l' => inr (l ++ l')
        end
      end
  end.

Definition defpath : pystr := u "/bin:/usr/bin".

Definition find_executable (m : Moment) (root cmd : pystr) : option pystr :=
  if contains cmd (u "/") then Some (path_join root cmd)
  else which m cmd (path_join root <$> split (u ":") (environ_get m (u "PATH") defpath)).

Definition environment (m : Moment) : list (pystr * pystr) :=
  merge_sort pair_le
    (List.filter (λ kv, negb (str_eqb kv.1 (u "CODEX_TOOL_CALL_ID"))) (m_environ m)).

(** The value that is hashed. *)
Definition context (m : Moment) (root : pystr) (inputs command : list pystr)
    : ledger_error + jtree :=
  match input_entries m root (sorted_set (list_to_set inputs)) with
  | inl e => inl (ValueError e)
  | inr entries =>
    match command with
    | [] => inl IndexError
    | cmd :: _ =>
      match find_executable m root cmd with
      | None => inl (ValueError (u "gate executable not found"))
      | Some executable =>
        inr (TList [TStr root; TStr (m_platform m); TList (TStr <$> command);
                    TList ((λ kv, TList [TStr kv.1; TStr kv.2]) <$> environment m);
                    TStr (m_resolve m executable); TStr (digest (m_bytes m executable));
                    TList entries])
      end
    end
  end.

Definition snapshot (m : Moment) (root : pystr) (inputs command : list pystr)
    : ledger_error + pystr :=
  match context m root inputs command with
  | inl e => inl e
  | inr c => inr (digest (utf8_encode (dumps c)))
  end.

(** ** Test counts *)

Definition COUNT_LOG_LIMIT : Z := 16 * 1024 * 1024.

#[local] Open Scope re_scope.

Definition num20 : re := rep 1 20 (RChr d09).

Definition AGGREGATE : re :=
  RAssert at_bol_m @@ lit (bs "Build Summary: ") @@ num20 @@ lit (bs "/") @@ num20
  @@ lit (bs " steps succeeded") @@ opt (lit (bs " (") @@ num20 @@ lit (bs " failed)"))
  @@ lit (bs "; ") @@ RGroup 1 num20 @@ lit (bs "/") @@ RGroup 2 num20 @@ lit (bs " tests passed")
  @@ opt (lit (bs " (") @@ RGroup 3 (star (RChr (none_of (bs "()")))) @@ lit (bs ")"))
  @@ RAssert at_dollar_m.

Definition VERBOSE : re :=
  RAssert at_bol_m @@ lit (bs "verbose test summary: ") @@ RGroup 1 num20 @@ lit (bs " passed; ")
  @@ RGroup 2 num20 @@ lit (bs " skipped; ") @@ RGroup 3 num20 @@ lit (bs " failed; ")
  @@ RGroup 4 num20 @@ lit (bs " leaked; ") @@ RGroup 5 num20 @@ lit (bs " log errors; elapsed ")
  @@ plus (RChr (none_of [13; 10])) @@ RAssert at_dollar_m.

(** The eight fields, as groups from [2] on. *)
Definition PARALLEL_FIELDS : re :=
  lit (bs "discovered=") @@ RGroup 2 num20 @@ lit (bs " executed=") @@ RGroup 3 num20
  @@ lit (bs " passed=") @@ RGroup 4 num20 @@ lit (bs " skipped=") @@ RGroup 5 num20
  @@ lit (bs " failed=") @@ RGroup 6 num20 @@ lit (bs " leaked=") @@ RGroup 7 num20
  @@ lit (bs " log_errors=") @@ RGroup 8 num20 @@ lit (bs " complete=")
  @@ RGroup 9 (RChr (one_of (bs "01"))).

Definition PARALLEL_SUITE : re :=
  lit (bs "parallel suite summary: artifacts=") @@ RGroup 1 num20 @@ lit (bs " ") @@ PARALLEL_FIELDS.

Definition PARALLEL_ARTIFACT : re :=
  lit (bs "parallel artifact summary: index=") @@ RGroup 1 num20 @@ lit (bs " ") @@ PARALLEL_FIELDS.

#[local] Close Scope re_scope.

(** [int(match.group(n))]. *)
Definition int_group (m : mst) (n : nat) : Z := from_opt 0 (bint (group_ n m)).

Record Counts := mkCounts {
  scope : pystr; provenance : pystr; passed : Z; total : option Z; skipped : Z; failed : Z;
  crashed : option Z; leaked : option Z; log_errors : option Z }.

(** The eight counters of a parallel summary line. *)
Record Parallel := mkParallel {
  p_discovered : Z; p_executed : Z; p_passed : Z; p_skipped : Z; p_failed : Z; p_leaked : Z;
  p_errors : Z; p_complete : Z }.

Definition parallel_of (m : mst) : Parallel :=
  {| p_discovered := int_group m 2; p_executed := int_group m 3; p_passed := int_group m 4;
     p_skipped := int_group m 5; p_failed := int_group m 6; p_leaked := int_group m 7;
     p_errors := int_group m 8; p_complete := int_group m 9 |}.

Definition is_suite (line : pybytes) : bool := startswith line (bs "parallel suite summary:").
Definition is_artifact (line : pybytes) : bool := startswith line (bs "parallel artifact summary:").

Fixpoint artifact_values (index : Z) (artifacts : list pybytes) : option (list Parallel) :=
  match artifacts with
  | [] => Some []
  | line :: rest =>
    match rfullmatch PARALLEL_ARTIFACT line with
    | None => None
    | Some m =>
      let c := parallel_of m in
      if negb (int_group m 1 =? index) || negb (p_complete c =? 1)
         || negb (p_discovered c =? p_executed c)
         || negb (p_executed c =? p_passed c + p_skipped c + p_failed c)
      then None
      else match artifact_values (index + 1) rest with
           | None => None
           | Some values => Some (c :: values)
           end
    end
  end.

(** [sum(counts[i] for counts in values)] for one counter. *)
Definition psum (f : Parallel → Z) (values : list Parallel) : Z := foldr (λ c a, f c + a) 0 values.

Definition sums_match (values : list Parallel) (t : Parallel) : bool :=
  (psum p_discovered values =? p_discovered t) && (psum p_executed values =? p_executed t)
  && (psum p_passed values =? p_passed t) && (psum p_skipped values =? p_skipped t)
  && (psum p_failed values =? p_failed t) && (psum p_leaked values =? p_leaked t)
  && (psum p_errors values =? p_errors t).

Definition parallel_counts (raw : pybytes) : option Counts :=
  let lines := bsplitlines raw in
  let candidates := List.filter (λ l, is_suite l || is_artifact l) lines in
  let artifacts := List.filter is_artifact lines in
  match List.filter is_suite candidates with
  | [s] =>
    if negb (bool_decide (last candidates = Some s)) then None
    else
      match rfullmatch PARALLEL_SUITE s with
      | None => None
      | Some m =>
        let number := int_group m 1 in
        let totals := parallel_of m in
        if (number =? 0) || negb (Z.of_nat (length artifacts) =? number) then None
        else
          match artifact_values 0 artifacts with
          | None => None
          | Some values =>
            if negb (p_complete totals =? 1) || negb (sums_match values totals) then None
            else Some {| scope := u "parallel_full_suite"; provenance := u "parallel_suite_summary";
                         passed := p_passed totals; total := Some (p_discovered totals);
                         skipped := p_skipped totals; failed := p_failed totals;
                         crashed := Some 0; leaked := Some (p_leaked totals);
                         log_errors := Some (p_errors totals) |}
          end
      end
  | _ => None
  end.

(** The parenthesised details of a build summary. *)
Record Details := mkDetails { d_skipped : Z; d_failed : Z; d_crashed : Z }.

Definition re_detail : re :=
  RSeq (RGroup 1 num20) (RSeq (lit (bs " "))
    (RGroup 2 (alts [lit (bs "skipped"); lit (bs "failed"); lit (bs "crashed")]))).

Definition set_detail (k : pybytes) (v : Z) (d : Details) : Details :=
  if str_eqb k (bs "skipped") then mkDetails v (d_failed d) (d_crashed d)
  else if str_eqb k (bs "failed") then mkDetails (d_skipped d) v (d_crashed d)
  else mkDetails (d_skipped d) (d_failed d) v.

Fixpoint details_of (seen : list pybytes) (d : Details) (items : list pybytes) : option Details :=
  match items with
  | [] => Some d
  | item :: items' =>
    match rfullmatch re_detail item with
    | None => None
    | Some m =>
      if mem (group_ 2 m) seen then None
      else details_of (group_ 2 m :: seen) (set_detail (group_ 2 m) (int_group m 1) d) items'
    end
  end.

Definition aggregate_counts (line : pybytes) : option Counts :=
  match rfullmatch AGGREGATE line with
  | None => None
  | Some m =>
    let passed := int_group m 1 in
    let total := int_group m 2 in
    let details := group_ 3 m in
    match (if nonempty details
           then details_of [] (mkDetails 0 0 0) (split (bs ", ") details)
           else Some (mkDetails 0 0 0)) with
    | None => None
    | Some d =>
      if negb (passed + (d_skipped d + d_failed d + d_crashed d) =? total) then None
      else Some {| scope := u "build_aggregate"; provenance := u "zig_build_summary";
                   passed := passed; total := Some total; skipped := d_skipped d;
                   failed := d_failed d; crashed := Some (d_crashed d); leaked := None;
                   log_errors := None |}
    end
  end.

Definition verbose_counts (line : pybytes) : option Counts :=
  match rfullmatch VERBOSE line with
  | None => None
  | Some m =>
    Some {| scope := u "single_verbose_runner"; provenance := u "verbose_test_summary";
            passed := int_group m 1; total := None; skipped := int_group m 2;
            failed := int_group m 3; crashed := None; leaked := Some (int_group m 4);
            log_errors := Some (int_group m 5) |}
  end.

(** [test_counts] of a log with the given content. *)
Definition test_counts (log : pybytes) : option Counts :=
  if COUNT_LOG_LIMIT <? Z.of_nat (length log) then None
  else
    let lines := bsplitlines log in
    let aggregates := List.filter (λ l, startswith l (bs "Build Summary:")
                                        && contains l (bs "tests passed")) lines in
    let verbose := List.filter (λ l, startswith l (bs "verbose test summary:")) lines in
    if existsb (λ l, is_suite l || is_artifact l) lines then
      match aggregates, verbose with
      | [], [] => parallel_counts log
      | _, _ => None
      end
    else
      match aggregates with
      | [line] => aggregate_counts line
      | _ :: _ :: _ => None
      | [] => match verbose with [line] => verbose_counts line | _ => None end
      end.

(** ** Running a gate *)

(** The record file (absent, created but not yet complete, or complete) and
    the log file of one evidence path. *)
Inductive RecordFile := NoRecord | Incomplete | Complete (data : json).
Record Store := mkStore { record : RecordFile; log : option pybytes }.

(** What the gate did. *)
Record Outcome := mkOutcome { returncode : Z; output : pybytes; seconds : json }.

Definition opt_int (o : option Z) : json := match o with Some z => JInt z | None => JNull end.

Definition counts_json (o : option Counts) : json :=
  match o with
  | None => JNull
  | Some c =>
    JObj [(u "scope", JStr (scope c)); (u "provenance", JStr (provenance c));
          (u "passed", JInt (passed c)); (u "total", opt_int (total c));
          (u "skipped", JInt (skipped c)); (u "failed", JInt (failed c));
          (u "crashed", opt_int (crashed c)); (u "leaked", opt_int (leaked c));
          (u "log_errors", opt_int (log_errors c))]
  end.

Definition record_data (root : pystr) (inputs command : list pystr) (before after : pystr)
    (o : Outcome) : json :=
  JObj [(u "version", JInt 1); (u "root", JStr root); (u "inputs", JList (JStr <$> inputs));
        (u "command", JList (JStr <$> command)); (u "source_context", JStr before);
        (u "unchanged", JBool (str_eqb before after)); (u "exit_code", JInt (returncode o));
        (u "seconds", seconds o); (u "log_sha256", JStr (digest (output o)));
        (u "test_counts", counts_json (test_counts (output o)))].

(** [run]: the result and the files it leaves.  [before] and [after] are the
    machine before and after the gate. *)
Definition run (before after : Moment) (o : Outcome) (root : pystr) (inputs command : list pystr)
    (st : Store) : (ledger_error + Z) * Store :=
  match snapshot before root inputs command with
  | inl e => (inl e, st)
  | inr b =>
    match record st with
    | Incomplete | Complete _ => (inl FileExistsError, st)
    | NoRecord =>
      let st := mkStore Incomplete (log st) in
      match log st with
      | Some _ => (inl FileExistsError, st)
      | None =>
        let st := mkStore Incomplete (Some (output o)) in
        match snapshot after root inputs command with
        | inl e => (inl e, st)
        | inr a =>
          let st := mkStore (Complete (record_data root inputs command b a o)) (log st) in
          (inr (if str_eqb b a && (returncode o =? 0) then 0 else 1), st)
        end
      end
    end
  end.

(** ** Judging a record *)

(** A list of strings. *)
Fixpoint strs_of (l : list json) : option (list pystr) :=
  match l with
  | [] => Some []
  | JStr s :: l' => match strs_of l' with Some r => Some (s :: r) | None => None end
  | _ => None
  end.

Definition typed_strs (v : json) : ledger_error + list pystr :=
  match v with
  | JList l => match strs_of l with Some r => inr r | None => inl NotTyped end
  | _ => inl NotTyped
  end.

(** [data[k]]. *)
Definition item (data : json) (k : pystr) : ledger_error + json :=
  match data with
  | JObj d => match jassoc k d with Some v => inr v | None => inl (KeyError k) end
  | _ => inl NotTyped
  end.

Inductive Action := investigate | run_changed_context | diagnose | reuse.
#[export] Instance Action_eq_dec : EqDecision Action.
Proof. solve_decision. Defined.

Notation "x <-? m ;; k" := (match m with inl e => inl e | inr x => k end)
  (at level 100, m at next level, k at level 200, right associativity).

Definition decision_data (m : Moment) (root : pystr) (data : json) (log_bytes : option pybytes)
    : ledger_error + (Action * pystr) :=
  if negb (pyeq (jget data (u "version")) (JInt 1))
  then inl (ValueError (u "unsupported evidence record"))
  else
    match jget data (u "exit_code"), jget data (u "unchanged") with
    | JInt exit_code, JBool unchanged =>
      sha <-? item data (u "log_sha256") ;;
      match log_bytes with
      | None => inl FileNotFoundError
      | Some bytes =>
        if negb (pyeq sha (JStr (digest bytes))) then inr (investigate, u "evidence_log_changed")
        else if negb unchanged then inr (investigate, u "inputs_changed_during_gate")
        else
          ctx <-? item data (u "source_context") ;;
          inputs0 <-? item data (u "inputs") ;;
          command0 <-? item data (u "command") ;;
          inputs <-? typed_strs inputs0 ;;
          command <-? typed_strs command0 ;;
          now <-? snapshot m root inputs command ;;
          if negb (pyeq ctx (JStr now)) then inr (run_changed_context, u "recorded_context_changed")
          else if negb (exit_code =? 0) then inr (diagnose, u "unchanged_failure_do_not_repeat")
          else inr (reuse, u "matching_success_inspect_counts_and_supervisor")
      end
    | _, _ => inl (ValueError (u "incomplete evidence record"))
    end.

(** [decision]: an incomplete record is an empty file, which is no JSON. *)
Definition decision (m : Moment) (root : pystr) (st : Store) : ledger_error + (Action * pystr) :=
  match record st with
  | NoRecord => inl FileNotFoundError
  | Incomplete => inl (ValueError (u "Expecting value"))
  | Complete data =>
    if is_mapping data then decision_data m root data (log st) else inl AttributeError
  end.

Definition status_message (a : Action) : pystr :=
  match a with
  | reuse => u "CURRENT: inspect counts/skips and supervisor; not release approval"
  | run_changed_context => u "CHANGED: record the relevant correction before rerunning"
  | diagnose => u "FAILED UNCHANGED: diagnose or obtain independent review; do not repeat"
  | investigate => u "UNUSABLE: investigate changed evidence or unstable inputs before rerunning"
  end.

(** [status]: the exit status and what is printed. *)
Definition status (m : Moment) (root : pystr) (st : Store) : ledger_error + (Z * pystr) :=
  r <-? decision m root st ;;
  inr (if bool_decide (r.1 = reuse) then 0 else 1, status_message r.1).

(** The command line, after parsing: [None] stands for a usage error. *)
Inductive Cli := CliRun | CliStatus | CliDecision.

Definition main (cli : Cli) (root_is_dir : bool) (inputs : option (list pystr))
    (command : list pystr) (before after : Moment) (o : Outcome) (root : pystr) (st : Store)
    : option (ledger_error + Z) * Store :=
  if negb root_is_dir then (None, st)
  else
    let command := match command with
                   | c :: rest => if str_eqb c (u "--") then rest else command
                   | [] => []
                   end in
    match cli with
    | CliRun =>
      match command with
      | [] => (None, st)
      | _ => let r := run before after o root
                        (match inputs with Some ((_ :: _) as l) => l | _ => DEFAULT_INPUTS end)
                        command st in
             (Some r.1, r.2)
      end
    | _ =>
      match command, inputs with
      | [], (None | Some []) =>
        match cli with
        | CliDecision =>
          (Some (r <-? decision before root st ;; inr (if bool_decide (r.1 = reuse) then 0 else 1)), st)
        | _ => (Some (r <-? status before root st ;; inr r.1), st)
        end
      | _, _ => (None, st)
      end
    end.

End Ledger.
