(* ===== verification/GateLedgerSpec.v ===== *)
(** * tools/gate_ledger.py: properties

    Counts taken from a log balance; a record is never overwritten; a record
    is judged reusable exactly when the gate succeeded on stable inputs and
    nothing it was bound to has changed since. *)

From S2P Require Import Prelude PyStr Regex Json GateLedger.

(** ** Order of paths and pairs *)

Lemma strs_leb_total a : ∀ b, strs_leb a b = true ∨ strs_leb b a = true.
Proof.
  induction a as [|x a IH]; intros [|y b]; simpl; auto.
  destruct (str_eqb x y) eqn:E.
  - apply str_eqb_eq in E as ->. rewrite str_eqb_refl. apply IH.
  - destruct (str_eqb y x) eqn:E'; [apply str_eqb_eq in E' as ->; by rewrite str_eqb_refl in E|].
    apply (str_le_total x y).
Qed.

Lemma strs_leb_antisymm a : ∀ b, strs_leb a b = true → strs_leb b a = true → a = b.
Proof.
  induction a as [|x a IH]; intros [|y b]; simpl; try done.
  destruct (str_eqb x y) eqn:E.
  - apply str_eqb_eq in E as ->. rewrite str_eqb_refl. intros. f_equal. auto.
  - destruct (str_eqb y x) eqn:E'; [apply str_eqb_eq in E' as ->; by rewrite str_eqb_refl in E|].
    intros H1 H2. exfalso. apply str_eqb_neq in E. apply E. by apply (str_le_antisymm x y).
Qed.

Lemma strs_leb_trans a : ∀ b c, strs_leb a b = true → strs_leb b c = true → strs_leb a c = true.
Proof.
  induction a as [|x a IH]; intros [|y b] [|z c]; simpl; try done.
  destruct (str_eqb x y) eqn:Exy; [apply str_eqb_eq in Exy as ->|].
  - destruct (str_eqb y z); eauto.
  - destruct (str_eqb y z) eqn:Eyz; [apply str_eqb_eq in Eyz as ->; by rewrite Exy|].
    intros H1 H2. destruct (str_eqb x z) eqn:Exz; [|by apply (str_le_trans x y z)].
    apply str_eqb_eq in Exz as ->. exfalso. apply str_eqb_neq in Exy. apply Exy.
    by apply (str_le_antisymm z y).
Qed.

#[export] Instance path_le_total : Total path_le.
Proof. intros a b. apply strs_leb_total. Qed.
#[export] Instance path_le_trans : Transitive path_le.
Proof. intros a b c. apply strs_leb_trans. Qed.
#[export] Instance path_le_antisymm : AntiSymm (=) path_le.
Proof.
  intros a b H1 H2. assert (E : split (u "/") a = split (u "/") b) by (by apply strs_leb_antisymm).
  assert (Hs : u "/" ≠ []) by (by vm_compute).
  rewrite <-(join_split (u "/") a Hs), <-(join_split (u "/") b Hs). by rewrite E.
Qed.

Lemma sorted_paths_unique l l' : l ≡ₚ l' → merge_sort path_le l = merge_sort path_le l'.
Proof.
  intros Hp. apply (Sorted_unique path_le).
  - apply (Sorted_merge_sort path_le).
  - apply (Sorted_merge_sort path_le).
  - by rewrite !(merge_sort_Permutation path_le).
Qed.

(** ** Test counts *)

Lemma artifact_values_ok artifacts : ∀ index values,
  artifact_values index artifacts = Some values →
  length values = length artifacts
  ∧ Forall (λ c, p_complete c = 1 ∧ p_discovered c = p_executed c
                 ∧ p_executed c = p_passed c + p_skipped c + p_failed c) values.
Proof.
  induction artifacts as [|line rest IH]; intros index values; simpl; [intros [= <-]; auto|].
  destruct (rfullmatch PARALLEL_ARTIFACT line) as [m|]; [|done].
  destruct (negb (int_group m 1 =? index) || _ || _ || _) eqn:E; [done|].
  destruct (artifact_values (index + 1) rest) as [vs|] eqn:Ev; [|done].
  intros [= <-]. destruct (IH _ _ Ev) as [Hl Hf]. simpl. split; [lia|].
  constructor; [|done]. bool_hyps. auto.
Qed.

Lemma psum_ext f g values : Forall (λ c, f c = g c) values → psum f values = psum g values.
Proof. induction 1 as [|c vs Hc _ IH]; [done|]. simpl. unfold psum in *. simpl. lia. Qed.

Lemma psum_add f g values : psum (λ c, f c + g c) values = psum f values + psum g values.
Proof. unfold psum. induction values as [|c vs IH]; simpl; lia. Qed.

(** What an accepted parallel log says. *)
Definition parallel_evidence (raw : pybytes) (c : Counts) : Prop :=
  ∃ values,
    length values = length (List.filter is_artifact (bsplitlines raw))
    ∧ (0 < length values)%nat
    ∧ Forall (λ v, p_complete v = 1 ∧ p_discovered v = p_executed v
                   ∧ p_executed v = p_passed v + p_skipped v + p_failed v) values
    ∧ total c = Some (psum p_discovered values) ∧ passed c = psum p_passed values
    ∧ skipped c = psum p_skipped values ∧ failed c = psum p_failed values
    ∧ crashed c = Some 0.

Lemma parallel_counts_sound raw c : parallel_counts raw = Some c → parallel_evidence raw c.
Proof.
  unfold parallel_counts. destruct (List.filter is_suite _) as [|s [|? ?]]; try done.
  destruct (negb _); [done|]. destruct (rfullmatch PARALLEL_SUITE s) as [m|]; [|done]. cbv zeta.
  destruct ((int_group m 1 =? 0) || _) eqn:En; [done|].
  destruct (artifact_values 0 _) as [values|] eqn:Ev; [|done].
  destruct (_ || negb (sums_match values (parallel_of m))) eqn:Es; [done|]. intros [= <-].
  destruct (artifact_values_ok _ _ _ Ev) as [Hl Hf]. unfold sums_match in Es. bool_hyps.
  exists values. simpl in *. split_and!; try done; [lia|congruence..].
Qed.

Lemma parallel_balanced raw c : parallel_evidence raw c →
  total c = Some (passed c + skipped c + failed c).
Proof.
  intros (values & _ & _ & Hf & -> & -> & -> & -> & _). f_equal.
  rewrite (psum_ext p_discovered (λ v, (p_passed v + p_skipped v) + p_failed v)).
  - by rewrite (psum_add (λ v, p_passed v + p_skipped v)), psum_add.
  - eapply Forall_impl; [exact Hf|]. intros v (_ & -> & ->). done.
Qed.

(** Counts reported from a log balance: whenever a total is reported, it is
    the sum of the passed, skipped, failed and crashed tests. *)
Theorem test_counts_balanced log c t :
  test_counts log = Some c → total c = Some t →
  t = passed c + skipped c + failed c + from_opt 0 (crashed c).
Proof.
  unfold test_counts. destruct (_ <? _); [done|]. cbv zeta.
  destruct (existsb _ _).
  { destruct (List.filter _ _); [|done]. destruct (List.filter _ _); [|done].
    intros H Ht. apply parallel_counts_sound in H. pose proof (parallel_balanced _ _ H) as Hb.
    destruct H as (? & _ & _ & _ & _ & _ & _ & _ & ->). simpl. rewrite Hb in Ht.
    injection Ht. lia. }
  destruct (List.filter (λ l, startswith l (bs "Build Summary:") && _) _) as [|line [|? ?]]; [|..|done].
  - destruct (List.filter _ _) as [|line [|? ?]]; try done. unfold verbose_counts.
    destruct (rfullmatch _ _); [|done]. by intros [= <-].
  - unfold aggregate_counts. destruct (rfullmatch _ _) as [m|]; [|done]. cbv zeta.
    destruct (if nonempty _ then _ else _) as [d|]; [|done].
    destruct (negb _) eqn:E; [done|]. intros [= <-]. simpl. intros [= <-]. bool_hyps. lia.
Qed.

Lemma test_counts_balanced_witness : 14 = 10 + 3 + 1 + 0.
Proof.
  pose proof (test_counts_balanced
    (bs "Build Summary: 3/4 steps succeeded; 10/14 tests passed (3 skipped, 1 failed)")
    (mkCounts (u "build_aggregate") (u "zig_build_summary") 10 (Some 14) 3 1 (Some 0) None None) 14)
    as H.
  apply H; vm_compute; reflexivity.
Defined.

(** A parallel log is only accepted when every artifact reports complete:
    there is one line per artifact, each artifact executed all it discovered
    and accounts for all it executed, and the reported counts are the sums
    over the artifacts. *)
Theorem parallel_counts_evidence raw c :
  parallel_counts raw = Some c → parallel_evidence raw c.
Proof. apply parallel_counts_sound. Qed.

Lemma parallel_counts_evidence_witness :
  ∃ c, parallel_evidence
    (bs "parallel artifact summary: index=0 discovered=3 executed=3 passed=2 skipped=1 failed=0 leaked=0 log_errors=0 complete=1"
     ++ [10] ++
     bs "parallel suite summary: artifacts=1 discovered=3 executed=3 passed=2 skipped=1 failed=0 leaked=0 log_errors=0 complete=1") c.
Proof.
  eexists. apply parallel_counts_evidence. vm_compute. reflexivity.
Defined.

(** ** Records *)

Lemma strs_of_map l : strs_of (JStr <$> l) = Some l.
Proof. induction l as [|s l IH]; [done|]. rewrite fmap_cons. simpl. by rewrite IH. Qed.

Section Records.
Context (sha256 : pybytes → pystr).

(** The fields of the data that [run] writes. *)
Lemma record_version root inputs command b a o :
  jget (record_data sha256 root inputs command b a o) (u "version") = JInt 1.
Proof. vm_compute; reflexivity. Qed.
Lemma record_exit root inputs command b a o :
  jget (record_data sha256 root inputs command b a o) (u "exit_code") = JInt (returncode o).
Proof. vm_compute; reflexivity. Qed.
Lemma record_unchanged root inputs command b a o :
  jget (record_data sha256 root inputs command b a o) (u "unchanged") = JBool (str_eqb b a).
Proof. unfold record_data; generalize (str_eqb b a); intros; vm_compute; reflexivity. Qed.
Lemma record_sha root inputs command b a o :
  item (record_data sha256 root inputs command b a o) (u "log_sha256") = inr (JStr (digest sha256 (output o))).
Proof. vm_compute; reflexivity. Qed.
Lemma record_context root inputs command b a o :
  item (record_data sha256 root inputs command b a o) (u "source_context") = inr (JStr b).
Proof. vm_compute; reflexivity. Qed.
Lemma record_inputs root inputs command b a o :
  item (record_data sha256 root inputs command b a o) (u "inputs") = inr (JList (JStr <$> inputs)).
Proof. vm_compute; reflexivity. Qed.
Lemma record_command root inputs command b a o :
  item (record_data sha256 root inputs command b a o) (u "command") = inr (JList (JStr <$> command)).
Proof. vm_compute; reflexivity. Qed.

(** The judgement of the data that [run] writes. *)
Lemma decision_of_record m root inputs command b a o st :
  st = mkStore (Complete (record_data sha256 root inputs command b a o)) (Some (output o)) →
  decision sha256 m root st =
  if negb (str_eqb b a) then inr (investigate, u "inputs_changed_during_gate")
  else match snapshot sha256 m root inputs command with
       | inl e => inl e
       | inr now =>
         if negb (str_eqb b now) then inr (run_changed_context, u "recorded_context_changed")
         else if negb (returncode o =? 0) then inr (diagnose, u "unchanged_failure_do_not_repeat")
         else inr (reuse, u "matching_success_inspect_counts_and_supervisor")
       end.
Proof.
  intros ->. unfold decision. cbn [record log].
  change (is_mapping (record_data _ _ _ _ _ _ _)) with true. cbn match. unfold decision_data.
  rewrite record_version, record_exit, record_unchanged, record_sha, record_context, record_inputs,
    record_command.
  cbn [pyeq negb typed_strs]. rewrite !str_eqb_refl, !strs_of_map.
  reflexivity.
Qed.
(** Evidence is never overwritten: [run] leaves the files as they are when
    a record exists, never replaces an existing log, and leaves a complete
    record behind only when it returns an exit status. *)
Theorem run_never_overwrites before after o root inputs command st :
  let r := run sha256 before after o root inputs command st in
  (record st ≠ NoRecord → r.2 = st ∧ ∃ e, r.1 = inl e)
  ∧ (∀ l, log st = Some l → log r.2 = Some l)
  ∧ (record st = NoRecord → (∃ d, record r.2 = Complete d) ↔ ∃ code, r.1 = inr code).
Proof.
  cbv zeta. unfold run. destruct (snapshot sha256 before root inputs command) as [e|b].
  { split_and!; [eauto|done|]. intros H. simpl. rewrite H. naive_solver. }
  destruct (record st) eqn:Er; [|naive_solver congruence..].
  cbn [log record]. destruct (log st) as [l|].
  { split_and!; naive_solver. }
  destruct (snapshot sha256 after root inputs command) as [e|a]; split_and!; naive_solver.
Qed.

(** C18: The judgement of the evidence of a finished run, at any later moment:
    it is reusable exactly when the run exited with 0 (the gate succeeded and
    its inputs were stable) and the context then and now have the same
    snapshot; a log that was altered since is never reusable unless its digest
    is that of the original. *)
Theorem run_then_decision before after o root inputs command st code st' m :
  run sha256 before after o root inputs command st = (inr code, st') →
  ((∃ reason, decision sha256 m root st' = inr (reuse, reason))
   ↔ code = 0 ∧ snapshot sha256 m root inputs command = snapshot sha256 before root inputs command)
  ∧ ∀ forged, sha256 forged ≠ sha256 (output o) →
      decision sha256 m root (mkStore (record st') (Some forged))
      = inr (investigate, u "evidence_log_changed").
Proof.
  unfold run. destruct (snapshot sha256 before root inputs command) as [e|b]; [done|].
  destruct (record st); [|done..]. cbn [log record].
  destruct (log st) as [l|]; [done|].
  destruct (snapshot sha256 after root inputs command) as [e|a]; [done|].
  intros [= Hcode <-]. split.
  - rewrite (decision_of_record m root inputs command b a o) by done. subst code.
    destruct (str_eqb b a); simpl; [|naive_solver].
    destruct (snapshot sha256 m root inputs command) as [e|now]; [naive_solver|].
    destruct (str_eqb b now) eqn:E; simpl.
    + apply str_eqb_eq in E as ->. destruct (returncode o =? 0); naive_solver.
    + apply str_eqb_neq in E. naive_solver.
  - intros forged Hf. unfold decision. cbn [record log].
    change (is_mapping (record_data _ _ _ _ _ _ _)) with true. cbn match. unfold decision_data.
    rewrite record_version, record_exit, record_unchanged, record_sha. cbn [pyeq negb].
    unfold digest. by rewrite (proj2 (str_eqb_neq _ _) (not_eq_sym Hf)).
Qed.

End Records.

(** ** Witnesses *)

(** A machine with one input file and one executable. *)
Definition moment0 (content : pybytes) : Moment :=
  {| m_platform := u "Linux"; m_environ := [(u "PATH", u "/usr/bin"); (u "HOME", u "/root")];
     m_exists := λ _, true; m_symlink := λ _, false; m_dir := λ _, false; m_file := λ _, true;
     m_exec := λ p, str_eqb p (u "/usr/bin/zig"); m_rglob := λ _, []; m_mode := λ _, 33188;
     m_bytes := λ p, if str_eqb p (u "/r/build.zig") then content else u "zig"; m_resolve := λ p, p |}.

Lemma run_then_decision_witness :
  (∃ reason, decision id (moment0 [1]) (u "/r")
    (run id (moment0 [1]) (moment0 [1]) (mkOutcome 0 [] JNull) (u "/r") [u "build.zig"] [u "zig"]
       (mkStore NoRecord None)).2 = inr (reuse, reason)).
Proof.
  eapply (run_then_decision id (moment0 [1]) (moment0 [1]) (mkOutcome 0 [] JNull) (u "/r")
    [u "build.zig"] [u "zig"] (mkStore NoRecord None) 0).
  - vm_compute. reflexivity.
  - split; reflexivity.
Defined.

(** ** What a snapshot binds *)

(** The files of the inputs: path, permission bits and content, in the order in
    which they are hashed. *)
Definition input_files (m : Moment) (root : pystr) (names : list pystr)
    : list (pystr * Z * pybytes) :=
  names ≫= λ name,
    let base := path_join root name in
    let paths := if m_dir m base then merge_sort path_le (m_rglob m base) else [base] in
    (λ path, (path, Z.land (m_mode m path) 511, m_bytes m path)) <$> List.filter (m_file m) paths.

(** Everything a snapshot is taken of. *)
Definition bound (m : Moment) (root : pystr) (inputs command : list pystr) :=
  (root, m_platform m, command, environment m,
   match command with
   | [] => None
   | cmd :: _ => (λ e, (m_resolve m e, m_bytes m e)) <$> find_executable m root cmd
   end,
   input_files m root (sorted_set (list_to_set inputs))).

Section Binding.
Context (sha256 : pybytes → pystr).

Definition entry_tree (f : pystr * Z * pybytes) : jtree :=
  TList [TStr f.1.1; TInt f.1.2; TStr (sha256 f.2)].

Lemma file_entries_eq m paths l : file_entries sha256 m paths = inr l →
  l = entry_tree <$> ((λ path, (path, Z.land (m_mode m path) 511, m_bytes m path))
                        <$> List.filter (m_file m) paths).
Proof.
  revert l. induction paths as [|p paths IH]; intros l; simpl; [by intros [= <-]|].
  destruct (m_symlink m p); [done|]. destruct (file_entries sha256 m paths) as [e|l']; [done|].
  intros [= <-]. specialize (IH l' eq_refl). subst l'. by destruct (m_file m p).
Qed.

Lemma input_entries_eq m root names l : input_entries sha256 m root names = inr l →
  l = entry_tree <$> input_files m root names.
Proof.
  revert l. induction names as [|n names IH]; intros l; simpl; [by intros [= <-]|].
  destruct (_ || _); [done|].
  destruct (file_entries _ _ _) as [e|l1] eqn:E1; [done|].
  destruct (input_entries _ _ _ _) as [e|l2]; [done|]. intros [= <-].
  apply file_entries_eq in E1 as ->. rewrite (IH l2 eq_refl), <-fmap_app. reflexivity.
Qed.

Lemma entries_inj (l l' : list (pystr * Z * pybytes)) :
  (∀ x y, x ∈ l.*2 → y ∈ l'.*2 → sha256 x = sha256 y → x = y) →
  entry_tree <$> l = entry_tree <$> l' → l = l'.
Proof.
  revert l'. induction l as [|[[p mo] b] l IH]; intros [|[[p' mo'] b'] l'] Hs; try done.
  rewrite !fmap_cons. intros [= -> -> Hb Hl].
  rewrite (Hs b b') by (done || left). f_equal. apply IH; [|done].
  intros x y Hx Hy. apply Hs; by right.
Qed.

Lemma strs_tree_inj (l l' : list pystr) : TStr <$> l = TStr <$> l' → l = l'.
Proof. apply list_fmap_eq_inj. by intros ? ? [=]. Qed.

Lemma env_tree_inj (l l' : list (pystr * pystr)) :
  (λ kv, TList [TStr kv.1; TStr kv.2]) <$> l = (λ kv, TList [TStr kv.1; TStr kv.2]) <$> l' → l = l'.
Proof. apply list_fmap_eq_inj. intros [k v] [k' v'] [= -> ->]. done. Qed.

(** Everything a snapshot applies the digest to. *)
Definition hashed (m : Moment) (root : pystr) (inputs command : list pystr) : list pybytes :=
  match context sha256 m root inputs command with
  | inr c => [utf8_encode (dumps c)]
  | inl _ => []
  end
  ++ match command with
     | [] => []
     | cmd :: _ => match find_executable m root cmd with Some e => [m_bytes m e] | None => [] end
     end
  ++ (input_files m root (sorted_set (list_to_set inputs))).*2.

(** No text hashed on one side collides with a different one hashed on the
    other. *)
Definition no_collision (l l' : list pybytes) : Prop :=
  ∀ x y, x ∈ l → y ∈ l' → sha256 x = sha256 y → x = y.

(** The context determines what is bound. *)
Lemma context_bound m m' root root' inputs inputs' command command' c :
  no_collision (hashed m root inputs command) (hashed m' root' inputs' command') →
  context sha256 m root inputs command = inr c →
  context sha256 m' root' inputs' command' = inr c →
  bound m root inputs command = bound m' root' inputs' command'.
Proof.
  intros Hs H1 H2. unfold no_collision, hashed in Hs. rewrite H1, H2 in Hs.
  unfold context in H1, H2. unfold bound.
  destruct (input_entries sha256 m root _) as [e|l] eqn:E1; [done|].
  destruct (input_entries sha256 m' root' _) as [e|l'] eqn:E2; [done|].
  destruct command as [|cmd args]; [done|]. destruct command' as [|cmd' args']; [done|].
  destruct (find_executable m root cmd) as [e1|] eqn:F1; [|done].
  destruct (find_executable m' root' cmd') as [e2|] eqn:F2; [|done].
  injection H1 as <-. injection H2 as -> -> -> Hargs Henv Hres Hdig Hent.
  apply strs_tree_inj in Hargs as ->. apply env_tree_inj in Henv as ->.
  apply input_entries_eq in E1 as ->, E2 as ->.
  symmetry in Hdig, Hent. apply Hs in Hdig; [|right; left..]. apply entries_inj in Hent as ->.
  - simpl. by rewrite Hres, Hdig.
  - intros x y Hx Hy. apply Hs; right; by right.
Qed.

(** C19: Content binding: when SHA-256 does not collide on the texts the two
    snapshots hash, they agree only if root, platform, command, environment (but for the tool invocation
    identifier), executable path and content, and the path, permission bits and
    content of every input file agree.  The texts hashed are unambiguous for
    every context whose strings contain no high surrogate. *)
Theorem snapshot_binds m m' root root' inputs inputs' command command' c c' d :
  no_collision (hashed m root inputs command) (hashed m' root' inputs' command') →
  context sha256 m root inputs command = inr c → tree_ok c →
  context sha256 m' root' inputs' command' = inr c' → tree_ok c' →
  snapshot sha256 m root inputs command = inr d →
  snapshot sha256 m' root' inputs' command' = inr d →
  bound m root inputs command = bound m' root' inputs' command'.
Proof.
  intros Hs Hc Hok Hc' Hok'. unfold snapshot. rewrite Hc, Hc'. intros [= <-] [= E].
  symmetry in E. apply Hs in E; [|unfold hashed; rewrite ?Hc, ?Hc'; left..].
  apply encoded_dumps_inj in E; [|done..]. subst c'. by eapply context_bound.
Qed.

End Binding.

Lemma snapshot_binds_witness :
  bound (moment0 [1]) (u "/r") [u "build.zig"; u "src"] [u "zig"]
  = bound (moment0 [1]) (u "/r") [u "src"; u "build.zig"; u "src"] [u "zig"].
Proof.
  assert (Hc : ∃ c, context id (moment0 [1]) (u "/r") [u "build.zig"; u "src"] [u "zig"] = inr c
    ∧ context id (moment0 [1]) (u "/r") [u "src"; u "build.zig"; u "src"] [u "zig"] = inr c
    ∧ tree_ok c).
  { eexists. split; [vm_compute; reflexivity|]. split; [vm_compute; reflexivity|].
    repeat first [split | constructor | (unfold json_ok, is_high; simpl; lia) | reflexivity]. }
  destruct Hc as (c & H1 & H2 & Hok).
  refine (snapshot_binds id (moment0 [1]) (moment0 [1]) (u "/r") (u "/r")
    [u "build.zig"; u "src"] [u "src"; u "build.zig"; u "src"] [u "zig"] [u "zig"] c c
    (digest id (utf8_encode (dumps c))) (λ x y _ _ H, H) H1 Hok H2 Hok _ _).
  - unfold snapshot. rewrite H1. exact eq_refl.
  - unfold snapshot. rewrite H2. exact eq_refl.
Defined.

(** ** Listing order *)

(** The same machine with another listing order of its directories. *)
Definition relisted (m m' : Moment) : Prop :=
  ∃ ls, (∀ d, ls d ≡ₚ m_rglob m d)
  ∧ m' = mkMoment (m_platform m) (m_environ m) (m_exists m) (m_symlink m) (m_dir m) (m_file m)
           (m_exec m) ls (m_mode m) (m_bytes m) (m_resolve m).

Lemma relisted_entries sha256 m m' root names : relisted m m' →
  input_entries sha256 m' root names = input_entries sha256 m root names.
Proof.
  intros (ls & Hls & ->). induction names as [|n names IH]; [done|]. cbn [input_entries]. cbn.
  rewrite (sorted_paths_unique _ _ (Hls (path_join root n))). rewrite IH.
  assert (Hf : ∀ ps, file_entries sha256
    (mkMoment (m_platform m) (m_environ m) (m_exists m) (m_symlink m) (m_dir m) (m_file m)
       (m_exec m) ls (m_mode m) (m_bytes m) (m_resolve m)) ps = file_entries sha256 m ps).
  { clear. intros ps. induction ps as [|p ps IHp]; [done|]. simpl. by rewrite IHp. }
  by rewrite Hf.
Qed.

(** A snapshot does not depend on the order in which the operating system
    lists a directory, nor on the order or repetition of the inputs. *)
Theorem snapshot_order_independent sha256 m m' root inputs inputs' command :
  relisted m m' → (∀ x, x ∈ inputs ↔ x ∈ inputs') →
  snapshot sha256 m' root inputs' command = snapshot sha256 m root inputs command.
Proof.
  intros Hm Hi. assert (Hset : list_to_set inputs' = (list_to_set inputs : gset pystr)).
  { apply set_eq. intros x. rewrite !elem_of_list_to_set. by rewrite Hi. }
  unfold snapshot, context. rewrite Hset, (relisted_entries sha256 m m' root _ Hm).
  destruct Hm as (ls & _ & ->). reflexivity.
Qed.

Lemma snapshot_order_independent_witness :
  snapshot id (moment0 [1]) (u "/r") [u "src"; u "etc"; u "src"] [u "zig"]
  = snapshot id (moment0 [1]) (u "/r") [u "etc"; u "src"] [u "zig"].
Proof.
  apply (snapshot_order_independent id (moment0 [1]) (moment0 [1])).
  - exists (λ _, []). split; [done|reflexivity].
  - intros x. set_solver.
Defined.
