(* ===== verification/SelectGates.v ===== *)
(** * select-gates.py: which gates a change needs

    .agents/skills/onyx-server-zig-verification/scripts/select-gates.py.  The
    selection for one path is a sequence of rules, each adding gates and, for
    most, marking them critical (to be repeated in the optimised build). *)

From S2P Require Import Prelude PyStr.

(** [changed_paths], from the two outputs of git. *)
Definition changed_paths (tracked untracked : pystr) : list pystr :=
  sorted_set (list_to_set (List.filter nonempty (splitlines tracked ++ splitlines untracked))).

(** [contains(path, *needles)]. *)
Definition contains_any (path : pystr) (needles : list pystr) : bool :=
  existsb (λ needle, contains path needle) needles.

Definition startswith_any (path : pystr) (prefixes : list pystr) : bool :=
  existsb (startswith path) prefixes.

(** The gates and the critical gates selected so far for one path. *)
Abbreviation selection := (gset pystr * gset pystr)%type.

Definition add (new : list pystr) (s : selection) : selection :=
  (s.1 ∪ list_to_set new, s.2 ∪ list_to_set new).
Definition add_gate (new : list pystr) (s : selection) : selection := (s.1 ∪ list_to_set new, s.2).

Definition when (c : bool) (f : selection → selection) (s : selection) : selection :=
  if c then f s else s.

Definition suite_prefixes : list pystr :=
  [u "src/proto/dns/"; u "src/proto/ircx_prop_store/"; u "src/proto/lotus/";
   u "src/daemon/relay_v2_event_log/"].

Definition facades : list pystr :=
  [u "src/daemon/store"; u "src/daemon/sessions"; u "src/daemon/world";
   u "src/daemon/physical_lifecycle"; u "src/proto/lotus"].

(** The path that stands for a file of a split facade. *)
Definition facade_path (path : pystr) : pystr :=
  match List.find (λ f, startswith path (f ++ u "/")) facades with
  | Some f => f ++ u ".zig"
  | None => path
  end.

(** The rules, after the facade substitution. *)
Definition rules (path : pystr) (s : selection) : selection :=
  let s := when (str_eqb path (u "src/main.zig")) (add [u "test"]) s in
  let s := when (mem path [u "src/daemon/registry.zig"; u "src/daemon/diagnostics.zig";
                           u "src/daemon/dlog.zig"]
                 || startswith path (u "src/daemon/module_")
                 || startswith path (u "src/daemon/modules/"))
             (add [u "test-mod"; u "test-server"]) s in
  let s := when (mem path [u "src/daemon/store.zig"; u "src/daemon/physical_lifecycle.zig"])
             (add [u "test-mod"]) s in
  let s := when (str_eqb path (u "src/daemon/store.zig")) (add [u "test-services"]) s in
  let s := when (mem path [u "src/daemon/sendq.zig"; u "src/daemon/ws_output.zig"])
             (add [u "test-mod"; u "test-server"; u "test-tls"]) s in
  let s := when (str_eqb path (u "src/daemon/server.zig")
                 || contains_any path [u "world.zig"; u "sessions.zig"; u "deliver"])
             (add [u "test-server"; u "test-services"]) s in
  let s := when (contains_any path [u "sessions.zig"; u "world.zig"; u "session_"; u "migration_";
                                    u "session-"])
             (add [u "test-session"]) s in
  let s := when (startswith path (u "src/daemon/helix/") || contains path (u "session_")
                 || contains path (u "migration_"))
             (add [u "test-helix"; u "test-services"; u "test-mesh"]) s in
  let s := when (contains_any path [u "s2s"; u "undertow"; u "mesh"; u "relay_v2"])
             (add [u "test-mesh"; u "test-helix"]) s in
  let s := when (contains_any path [u "event_spine"; u "event-spine"; u "event_history";
                                    u "oper_event"; u "message_relay"; u "lotus.zig"; u "msgid.zig"])
             (add [u "test-event-spine"; u "test-mesh"; u "test-server"]) s in
  let s := when (contains_any path [u "ircx"; u "prop_store"]) (add_gate [u "test-ircx"]) s in
  let s := when (contains_any path [u "service"; u "account"; u "sasl"; u "webauthn"; u "totp";
                                    u "tegami"])
             (add [u "test-services"]) s in
  let s := when (contains_any path [u "config"; u "onyx-server.reference.toml"])
             (add_gate [u "test-config"]) s in
  let s := when (contains_any path [u "media"; u "rtp"; u "rtcp"; u "srtp"; u "webtransport"])
             (add [u "test-media"]) s in
  let s := when (mem path [u "src/substrate/media_capability.zig"; u "src/substrate/cadence_frame.zig";
                           u "src/substrate/native_feedback.zig"])
             (add [u "test-media"; u "test-mod"]) s in
  let s := when (startswith path (u "src/crypto/") || contains_any path [u "tls"; u "x509"; u "cloak"])
             (add [u "test-tls"; u "test-exploit"]) s in
  let s := when (contains_any path [u "warden"; u "security"]) (add [u "test-exploit"]) s in
  let s := when (startswith path (u "src/cli/")) (add_gate [u "test-cli"]) s in
  when (mem path [u "build.zig"; u "build.zig.zon"] || startswith path (u "packaging/"))
    (add [u "test"]) s.

(** The body of the loop for one path. *)
Definition select_path (path : pystr) : selection :=
  let s := when (startswith_any path suite_prefixes) (add [u "test-mod"]) (∅, ∅) in
  let path := facade_path path in
  let s := rules path s in
  when (bool_decide (s.1 = ∅) && startswith path (u "src/") && endswith path (u ".zig"))
    (add [u "test-mod"]) s.

Definition select_go (paths : list pystr) : selection :=
  foldl (λ s path, (s.1 ∪ (select_path path).1, s.2 ∪ (select_path path).2)) (∅, ∅) paths.

Definition select (paths : list pystr) : list pystr * gset pystr :=
  (sorted_set (select_go paths).1, (select_go paths).2).

(** The lines printed. *)
Definition release_lines : list pystr :=
  [u "zig build all-checks"; u "zig build release -Doptimize=fast";
   u "zig build package -Doptimize=fast"; u "packaging/release.sh dist";
   u "packaging/verify-release.sh dist/SHA256SUMS"].

Definition main (args_paths changed : list pystr) (release : bool) : list pystr :=
  let paths := match args_paths with [] => changed | _ => args_paths end in
  let '(gates, critical) := select paths in
  [u "zig build check"]
  ++ ((λ g, u "zig build " ++ g) <$> gates)
  ++ ((λ g, u "zig build " ++ g ++ u " -Doptimize=safe") <$>
        List.filter (λ g, bool_decide (g ∈ critical)) gates)
  ++ [u "git diff --check"]
  ++ (if release then release_lines else []).

(** ** Facts *)

(** Selections only grow, and a critical gate is a gate. *)
Definition sel_ok (s s' : selection) : Prop :=
  s.1 ⊆ s'.1 ∧ s.2 ⊆ s'.2 ∧ (s.2 ⊆ s.1 → s'.2 ⊆ s'.1).

Lemma sel_refl s : sel_ok s s.
Proof. unfold sel_ok. set_solver. Qed.

Lemma sel_when c f s0 s : sel_ok s0 s → (∀ t, sel_ok t (f t)) → sel_ok s0 (when c f s).
Proof.
  intros H Hf. destruct c; [|done]. specialize (Hf s). unfold when, sel_ok in *. set_solver.
Qed.

Lemma sel_add new t : sel_ok t (add new t).
Proof. unfold sel_ok, add. set_solver. Qed.
Lemma sel_add_gate new t : sel_ok t (add_gate new t).
Proof. unfold sel_ok, add_gate. set_solver. Qed.

Create HintDb gates discriminated.
#[export] Hint Constants Opaque : gates.
#[export] Hint Resolve sel_refl sel_when sel_add sel_add_gate : gates.

Lemma sel_rules path s : sel_ok s (rules path s).
Proof. unfold rules. cbv zeta. auto 60 with gates. Qed.

Lemma select_path_ok path : (select_path path).2 ⊆ (select_path path).1.
Proof.
  unfold select_path. cbv zeta.
  assert (H : sel_ok (∅, ∅) (when (startswith_any path suite_prefixes) (add [u "test-mod"]) (∅, ∅)))
    by auto with gates.
  pose proof (sel_rules (facade_path path)
    (when (startswith_any path suite_prefixes) (add [u "test-mod"]) (∅, ∅))) as H'.
  assert (Hs : (rules (facade_path path) (when (startswith_any path suite_prefixes)
    (add [u "test-mod"]) (∅, ∅))).2 ⊆ (rules (facade_path path)
    (when (startswith_any path suite_prefixes) (add [u "test-mod"]) (∅, ∅))).1).
  { apply H', H. done. }
  destruct (_ && _); [|done]. by apply sel_add.
Qed.

Lemma facade_source path :
  startswith path (u "src/") = true → endswith path (u ".zig") = true →
  startswith (facade_path path) (u "src/") = true ∧ endswith (facade_path path) (u ".zig") = true.
Proof.
  intros Hs He. unfold facade_path. destruct (List.find _ facades) as [f|] eqn:E; [|done].
  apply List.find_some in E as [Hin _]. revert Hin. clear.
  assert (H : forallb (λ f, startswith (f ++ u ".zig") (u "src/") && endswith (f ++ u ".zig") (u ".zig"))
    facades = true) by (vm_compute; reflexivity).
  intros Hin. rewrite forallb_forall in H. by apply andb_prop, H.
Qed.

Lemma select_path_source path :
  startswith path (u "src/") = true → endswith path (u ".zig") = true → (select_path path).1 ≠ ∅.
Proof.
  intros Hs He. destruct (facade_source path Hs He) as [Hs' He'].
  unfold select_path. cbv zeta. rewrite Hs', He'. set (s := rules _ _).
  case_bool_decide as Hempty; [|done]. simpl. intros Hne.
  assert (Hx : u "test-mod" ∈ s.1 ∪ ({[u "test-mod"]} ∪ ∅)).
  { apply elem_of_union_r, elem_of_union_l, elem_of_singleton. done. }
  rewrite Hne in Hx. by apply elem_of_empty in Hx.
Qed.

Lemma elem_of_select_go g paths :
  (g ∈ (select_go paths).1 ↔ ∃ p, p ∈ paths ∧ g ∈ (select_path p).1)
  ∧ (g ∈ (select_go paths).2 ↔ ∃ p, p ∈ paths ∧ g ∈ (select_path p).2).
Proof.
  unfold select_go. rewrite <-(rev_involutive paths). generalize (rev paths) as l. clear.
  intros l. induction l as [|p l IH].
  - simpl. set_solver.
  - simpl. rewrite foldl_app. simpl. rewrite !elem_of_union. destruct IH as [IH1 IH2].
    rewrite IH1, IH2. setoid_rewrite elem_of_app. setoid_rewrite list_elem_of_singleton.
    clear. naive_solver.
Qed.

(** Every gate selected is a test gate. *)
Definition tests (s : selection) : Prop := ∀ g, g ∈ s.1 → startswith g (u "test") = true.

Lemma tests_when c f s : tests s → (∀ t, tests t → tests (f t)) → tests (when c f s).
Proof. intros H Hf. destruct c; [by apply Hf|done]. Qed.

Lemma tests_add new t :
  forallb (λ g, startswith g (u "test")) new = true → tests t → tests (add new t).
Proof.
  intros Hn Ht g. unfold add. simpl. rewrite elem_of_union, elem_of_list_to_set. intros [Hg|Hg]; [by apply Ht|].
  rewrite forallb_forall in Hn. by apply Hn, list_elem_of_In.
Qed.

Lemma tests_add_gate new t :
  forallb (λ g, startswith g (u "test")) new = true → tests t → tests (add_gate new t).
Proof.
  intros Hn Ht g. unfold add_gate. simpl. rewrite elem_of_union, elem_of_list_to_set. intros [Hg|Hg]; [by apply Ht|].
  rewrite forallb_forall in Hn. by apply Hn, list_elem_of_In.
Qed.

#[export] Hint Resolve tests_when tests_add tests_add_gate : gates.
#[export] Hint Extern 1 (forallb _ _ = true) => vm_compute; reflexivity : gates.

Lemma select_path_tests path : tests (select_path path).
Proof.
  unfold select_path, rules. cbv zeta.
  assert (tests (∅, ∅)) by (intros g Hg; by apply elem_of_empty in Hg).
  auto 80 with gates.
Qed.

(** The gates of one path are in the plan. *)
Lemma plan_has_gate args changed release p g :
  p ∈ (match args with [] => changed | _ => args end) → g ∈ (select_path p).1 →
  u "zig build " ++ g ∈ main args changed release.
Proof.
  intros Hp Hg. unfold main, select. cbv zeta. set (paths := match args with [] => _ | _ => _ end) in *.
  apply elem_of_app. right. apply elem_of_app. left.
  apply (list_elem_of_fmap_2 (λ g, u "zig build " ++ g)). rewrite elem_of_sorted_set.
  apply elem_of_select_go. eauto.
Qed.

(** C34: A changed Zig source file under src/ never selects the bare [check]
    only: whatever the rest of its name and whatever else changed, the plan
    printed for the change builds at least one test gate that this very path
    selected. *)
Theorem no_silent_source args changed release path :
  path ∈ (match args with [] => changed | _ => args end) →
  startswith path (u "src/") = true → endswith path (u ".zig") = true →
  ∃ gate, startswith gate (u "test") = true ∧ gate ∈ (select_path path).1
          ∧ u "zig build " ++ gate ∈ main args changed release.
Proof.
  intros Hin Hs He. assert (Hne : (select_path path).1 ≠ ∅) by (by apply select_path_source).
  apply set_choose_L in Hne as [g Hg]. exists g. split; [by eapply select_path_tests|].
  split; [done|by eapply plan_has_gate].
Qed.

Lemma no_silent_source_witness :
  ∃ gate, startswith gate (u "test") = true ∧ gate ∈ (select_path (u "src/new/thing.zig")).1
          ∧ u "zig build " ++ gate ∈ main [] [u "README.md"; u "src/new/thing.zig"] false.
Proof.
  apply (no_silent_source [] [u "README.md"; u "src/new/thing.zig"] false (u "src/new/thing.zig")).
  - right. left.
  - vm_compute. reflexivity.
  - vm_compute. reflexivity.
Defined.

(** Outside src/ the fallback does not apply: of the Zig files under tools/ some
    select no gate. *)
Example tools_source_silent : elements (select_path (u "tools/verbose_test_runner.zig")).1 = [].
Proof. vm_compute. reflexivity. Qed.

(** The gates for a set of changes are the union of the gates for each
    change, listed without repetition and in order, whatever the order of the
    changes; every critical gate is among them, so the plan runs each critical
    gate in both build modes. *)
Theorem select_union paths g :
  (g ∈ (select paths).1 ↔ ∃ p, p ∈ paths ∧ g ∈ (select_path p).1)
  ∧ (g ∈ (select paths).2 ↔ ∃ p, p ∈ paths ∧ g ∈ (select_path p).2)
  ∧ (g ∈ (select paths).2 → g ∈ (select paths).1)
  ∧ NoDup (select paths).1 ∧ Sorted str_le (select paths).1.
Proof.
  unfold select. simpl. rewrite elem_of_sorted_set. destruct (elem_of_select_go g paths) as [H1 H2].
  split_and!; [done|done| |apply sorted_set_NoDup|apply sorted_strs_sorted].
  rewrite H1, H2. intros (p & Hp & Hg). exists p. split; [done|].
  by apply select_path_ok.
Qed.

(** The plan printed for a change contains the gate of every rule that
    matched and, for a critical gate, its safe-mode run, whatever else
    changed. *)
Theorem plan_complete args changed release p g :
  p ∈ (match args with [] => changed | _ => args end) →
  g ∈ (select_path p).1 →
  u "zig build " ++ g ∈ main args changed release
  ∧ (g ∈ (select_path p).2 →
     u "zig build " ++ g ++ u " -Doptimize=safe" ∈ main args changed release).
Proof.
  intros Hp Hg. split; [by eapply plan_has_gate|]. intros Hc.
  unfold main, select. cbv zeta. set (paths := match args with [] => _ | _ => _ end) in *.
  destruct (elem_of_select_go g paths) as [H1 H2].
  apply elem_of_app. right. apply elem_of_app. right. apply elem_of_app. left.
  apply (list_elem_of_fmap_2 (λ g, u "zig build " ++ g ++ u " -Doptimize=safe")).
  apply list_elem_of_In, filter_In. split; [apply list_elem_of_In; rewrite elem_of_sorted_set, H1; eauto|].
  apply bool_decide_eq_true. apply H2. eauto.
Qed.

Lemma plan_complete_witness :
  u "zig build " ++ u "test-tls" ∈ main [u "docs/x.md"; u "src/crypto/aead.zig"] [] false.
Proof.
  apply (plan_complete [u "docs/x.md"; u "src/crypto/aead.zig"] [] false (u "src/crypto/aead.zig")
    (u "test-tls")).
  - right. left.
  - vm_compute. repeat constructor.
Defined.
