(* ===== verification/ParallelTests.v ===== *)
(** * tools/parallel_tests.py: sharded test runs

    Timing profiles, the greedy balanced schedule, the check that the shards
    are an exact cover of the inventory, the verdict on each shard and the
    verdict on the run.  Child processes are functions from their arguments to
    an exit status and output; SHA-256 is the parameter [hexdigest]. *)

From S2P Require Import Prelude PyStr PyFloat Regex Json.

(** ** Patterns *)

#[local] Open Scope re_scope.

Definition number : re := plus (RChr is_digit).

Definition SUMMARY : re :=
  lit (u "verbose test summary: ") @@ RGroup 1 number @@ lit (u " passed; ")
  @@ RGroup 2 number @@ lit (u " skipped; ") @@ RGroup 3 number @@ lit (u " failed; ")
  @@ RGroup 4 number @@ lit (u " leaked; ") @@ RGroup 5 number @@ lit (u " log errors").

Definition EXECUTED : re :=
  lit (u "executed ") @@ RGroup 1 number @@ lit (u " tests; excluded ") @@ RGroup 2 number
  @@ lit (u " tests").

Definition re_beginning : re :=
  RAssert at_bol @@ lit (u "[") @@ number @@ lit (u "/") @@ number @@ lit (u "] ")
  @@ RGroup 1 (plus (RChr dot)) @@ lit (u " ... ").

Definition re_finish : re :=
  (RAssert at_bol </> lit (u " ")) @@ (lit (u "OK") </> lit (u "SKIP")) @@ lit (u " (")
  @@ RGroup 1 (number @@ opt (lit (u ".") @@ number))
  @@ RGroup 2 (alts [lit (u "us"); lit (u "ms"); lit (u "s")]) @@ lit (u ")") @@ RAssert at_dollar.

Definition re_listed : re := lit (u "listed ") @@ number @@ lit (u " tests; executed 0").

Definition re_hex64 : re := times 64 (RChr (λ c, range 97 102 c || d09 c)).

#[local] Close Scope re_scope.

Definition ROOT_IDENTITIES : list pystr := [u "module"; u "executable"; u "cli"].
Definition MAX_PROFILE_BYTES : Z := 16 * 1024 * 1024.

(** ** Timings *)

Abbreviation weights := (gmap pystr Z).

(** [int(float(text) * factor)] for the decimal text of a duration. *)
Definition duration_ns (text : pystr) (factor : Z) : Z :=
  let '(whole, _, frac) := partition (u ".") text in
  scaled_trunc (from_opt 0 (int (whole ++ frac))) (10 ^ Z.of_nat (length frac)) factor.

Definition unit_factor (unit : pystr) : Z :=
  if str_eqb unit (u "us") then 1000 else if str_eqb unit (u "ms") then 1000000 else 1000000000.

Fixpoint durations_go (allowed : list pystr) (found : weights) (current : option pystr)
    (lines : list pystr) : weights :=
  match lines with
  | [] => found
  | line :: lines' =>
    let current := match rmatch re_beginning line with
                   | Some m => Some (group_ 1 m)
                   | None => current
                   end in
    match rsearch re_finish line, current with
    | Some (_, _, m), Some name =>
      if mem name allowed then
        durations_go allowed
          (<[name := Z.max 1 (duration_ns (group_ 1 m) (unit_factor (group_ 2 m)))]> found)
          None lines'
      else durations_go allowed found current lines'
    | _, _ => durations_go allowed found current lines'
    end
  end.

Definition parse_durations (text : pystr) (names : list pystr) : weights :=
  durations_go names ∅ None (splitlines text).

(** [reject_duplicate_keys]: [None] for the [ValueError]. *)
Fixpoint reject_duplicate_keys (result pairs : list (pystr * json)) : option (list (pystr * json)) :=
  match pairs with
  | [] => Some result
  | (key, value) :: pairs' =>
    if mem key result.*1 then None else reject_duplicate_keys (result ++ [(key, value)]) pairs'
  end.

(** ** Loading a profile *)

Definition non_negative_int (v : json) : bool := match v with JInt z => 0 <=? z | _ => false end.
Definition int_value (v : json) : Z := match v with JInt z => z | _ => 0 end.
Definition sum_ints (l : list json) : Z := foldr (λ v a, int_value v + a) 0 l.
Definition nonzero (v : json) : bool := negb (int_value v =? 0).

Definition duration_ok (entry : pystr * json) : bool :=
  nonempty entry.1 && negb (existsb (λ ch, existsb (Z.eqb ch) entry.1) [13; 10; 0])
  && match entry.2 with JInt ns => (0 <? ns) && (ns <=? 86400000000000) | _ => false end.

Definition counts_ok (root : json) : bool :=
  match jget root (u "totals"), jget root (u "discovered") with
  | JList counts, JInt discovered =>
    Nat.eqb (length counts) 5 && forallb non_negative_int counts
    && negb (existsb nonzero (drop 2 counts))
    && (sum_ints (take 3 counts) =? discovered) && (0 <? discovered)
  | _, _ => false
  end.

Definition durations_ok (root : json) : bool :=
  match jget root (u "durations_ns"), jget root (u "discovered") with
  | JObj durations, JInt discovered =>
    (Z.of_nat (length durations) =? discovered) && forallb duration_ok durations
  | _, _ => false
  end.

Definition root_ok (identity : pystr) (root : json) : bool :=
  is_mapping root
  && pyeq (jget root (u "identity")) (JStr identity)
  && match jget root (u "binary_sha256") with
     | JStr s => is_someb (rfullmatch re_hex64 s)
     | _ => false
     end
  && counts_ok root && durations_ok root.

(** Whether the body of [load_profile] returns the profile; a failed test and
    an exception of a listed type both end in [None]. *)
Definition profile_ok (mode target : pystr) (profile : json) : bool :=
  is_mapping profile
  && match jget profile (u "version") with JInt v => v =? 1 | _ => false end
  && pyeq (jget profile (u "mode")) (JStr mode)
  && pyeq (jget profile (u "target")) (JStr target)
  && is_bool true (jget profile (u "complete"))
  && match jget profile (u "exit_code") with JInt v => v =? 0 | _ => false end
  && match jget profile (u "roots") with
     | JList [r0; r1; r2] =>
       root_ok (u "module") r0 && root_ok (u "executable") r1 && root_ok (u "cli") r2
     | _ => false
     end.

(** A profile file: its size and its parsed content, if it parses. *)
Record ProfileFile := mkProfileFile { pf_size : Z; pf_json : option json }.

Definition load_profile (read : pystr → option ProfileFile) (path mode target : option pystr)
    : option json :=
  match path, mode, target with
  | Some path, Some mode, Some target =>
    match read path with
    | None => None
    | Some f =>
      if MAX_PROFILE_BYTES <? pf_size f then None
      else match pf_json f with
           | Some profile => if profile_ok mode target profile then Some profile else None
           | None => None
           end
    end
  | _, _, _ => None
  end.

(** ** Scheduling *)

(** The middle of the sorted observations, or one millisecond. *)
Definition fallback_of (w : weights) : Z :=
  let observed := merge_sort Z.le ((map_to_list w).*2) in
  from_opt 1000000 (observed !! (length observed / 2)%nat).

Section Balance.
Context (w : weights).

Definition weight (name : pystr) : Z := from_opt (fallback_of w) (w !! name).

(** Heaviest first, ties by name. *)
Definition heavier (a b : pystr) : Prop :=
  weight b < weight a ∨ (weight a = weight b ∧ str_le a b).
#[export] Instance heavier_dec : RelDecision heavier.
Proof. intros a b. unfold heavier. apply _. Defined.

(** [min(range(workers), key=lambda i: (totals[i], i))]. *)
Fixpoint argmin (totals : list Z) : nat :=
  match totals with
  | [] => O
  | t :: rest =>
    match rest with
    | [] => O
    | _ => if t <=? from_opt t (rest !! argmin rest) then O else S (argmin rest)
    end
  end.

(** A bucket with its total weight. *)
Abbreviation bucket := (Z * list pystr)%type.

Definition place (buckets : list bucket) (name : pystr) : list bucket :=
  alter (λ b, (b.1 + weight name, b.2 ++ [name])) (argmin buckets.*1) buckets.

Definition schedule (names : list pystr) (workers : nat) : list bucket :=
  foldl place (replicate workers (0, [])) (merge_sort heavier names).

Definition balanced_names (names : list pystr) (workers : nat) : list (list pystr) :=
  (λ b, sorted_strs b.2) <$>
    List.filter (λ b, match b.2 with [] => false | _ => true end) (schedule names workers).

End Balance.

(** ** Inventory *)

(** An exit status and the combined output. *)
Record Proc := mkProc { p_returncode : Z; p_stdout : pystr }.

Definition inventory (result : Proc) : pystr + list pystr :=
  let lines := splitlines (p_stdout result) in
  if (p_returncode result =? 2) && contains (p_stdout result) (u "no tests matched") then inr []
  else
    let first := from_opt [] (hd_error lines) in
    let footer := from_opt [] (last lines) in
    if negb (p_returncode result =? 0) || Nat.ltb (length lines) 2
       || negb (startswith first (u "test selection:")) || negb (is_someb (rfullmatch re_listed footer))
    then inl (u "invalid inventory (" ++ dec (p_returncode result) ++ u "): " ++ p_stdout result)
    else
      let names := removelast (drop 1 lines) in
      if negb (Z.of_nat (length names) =? from_opt 0 (int (from_opt [] (split_ws footer !! 1%nat))))
      then inl (u "inventory count mismatch")
      else inr names.

(** ** Running the shards *)

Inductive Policy := Conservative | All.

(** The arguments of each candidate shard, and the name of the scheduler. *)
Definition shard_arg (count : nat) (i : nat) : list pystr :=
  [u "--test-shard-count=" ++ dec (Z.of_nat count); u "--test-shard-index=" ++ dec (Z.of_nat i)].

Definition plan_file (logs : pystr) (i : nat) : pystr :=
  logs ++ u "/plan-" ++ dec (Z.of_nat i) ++ u ".names".

Definition candidates (w : option weights) (workers : nat) (policy : Policy) (logs : pystr)
    (full : list pystr) : list (list pystr) * pystr :=
  match w, policy with
  | Some w, All =>
    if Nat.ltb 1 workers then
      ((λ i, [u "--test-name-file=" ++ plan_file logs i])
         <$> seq 0 (length (balanced_names w full workers)), u "duration")
    else ([[]], u "hash")
  | _, _ =>
    if Nat.eqb workers 1 then ([[]], u "hash")
    else match policy with
         | All => (shard_arg workers <$> seq 0 workers, u "hash")
         | Conservative =>
           ([u "--test-group=serial"]
            :: ((λ i, u "--test-group=parallel" :: shard_arg (workers - 1) i) <$> seq 0 (workers - 1)),
            u "hash")
         end
  end.

Abbreviation shard := (list pystr * list pystr)%type.

Fixpoint inventories (list_tests : list pystr → Proc) (cs : list (list pystr))
    : pystr + list shard :=
  match cs with
  | [] => inr []
  | args :: cs' =>
    match inventory (list_tests args) with
    | inl e => inl e
    | inr names =>
      match inventories list_tests cs' with
      | inl e => inl e
      | inr l => inr ((args, names) :: l)
      end
    end
  end.

Definition nonempty_shards (seed : Z) (shards : list shard) : list shard :=
  (λ s, (s.1 ++ [u "--seed=" ++ dec seed], s.2)) <$>
    List.filter (λ s, match s.2 with [] => false | _ => true end) shards.

(** [combined != Counter(full) or any(count != 1 ...)], negated: each name
    counts the same on both sides, and once. *)
Definition count (name : pystr) (l : list pystr) : nat := length (List.filter (str_eqb name) l).

Definition exact_cover (full combined : list pystr) : bool :=
  forallb (λ n, Nat.eqb (count n combined) (count n full)) (combined ++ full)
  && forallb (λ n, Nat.eqb (count n combined) 1) combined.

(** How the process of a shard ended. *)
Record Exec := mkExec {
  x_returncode : option Z;      (* [None] when an [OSError] came first *)
  x_timed_out : bool;
  x_interrupted : bool;
  x_oserror : option pystr;
  x_log : pystr }.

Record Status := mkStatus {
  index : nat; args : list pystr; expected : Z; returncode : option Z; counts : option (list Z);
  timed_out : bool; error : option pystr }.

(** [re.findall] for a pattern whose groups are all numbers. *)
Definition find_ints (r : re) (groups : nat) (text : pystr) : list (list Z) :=
  (λ '(_, _, m), (λ i, from_opt 0 (int (group_ i m))) <$> seq 1 groups) <$> rfinditer r text.

Definition sum_Z (l : list Z) : Z := foldr Z.add 0 l.

(** The counts and the error read from the log of a shard. *)
Definition log_verdict (text : pystr) (expected : Z) : option (list Z) * option pystr :=
  match find_ints SUMMARY 5 text, find_ints EXECUTED 2 text with
  | [counts], [executed] =>
    (Some counts,
     if negb (from_opt 0 (hd_error executed) =? expected) || negb (sum_Z (take 3 counts) =? expected)
     then Some (u "execution count mismatch") else None)
  | _, _ => (None, Some (u "missing terminal counts"))
  end.

Definition execute (timeout : pystr) (i : nat) (s : shard) (x : Exec) : Status :=
  let expected := Z.of_nat (length s.2) in
  let '(cs, err) :=
    match x_oserror x with
    | Some e => (None, Some e)
    | None =>
      if x_timed_out x then (None, Some (u "shard timeout after " ++ timeout ++ u "s"))
      else if x_interrupted x then (None, Some (u "interrupted; shard group terminated"))
      else log_verdict (x_log x) expected
    end in
  mkStatus i s.1 expected (x_returncode x) cs (x_timed_out x) err.

Record Metadata := mkMetadata {
  binary_sha256 : pystr; workers_ : nat; discovered : Z; scheduler : pystr; identity : option pystr;
  shards_ : list (list pystr * Z); results : list Status; totals : list Z; complete : bool }.

Definition column (i : nat) (rs : list Status) : Z :=
  sum_Z ((λ c, from_opt 0 (c !! i)) <$> omap counts rs).

Definition totals_of (rs : list Status) : list Z := (λ i, column i rs) <$> seq 0 5.

Definition failed_status (r : Status) : bool :=
  negb (bool_decide (returncode r = Some 0)) || is_someb (error r).

Definition exit_of (rs : list Status) (ts : list Z) : Z :=
  if existsb failed_status rs || existsb (λ t, negb (t =? 0)) (drop 2 ts) then 1 else 0.

Definition complete_of (rs : list Status) : bool :=
  forallb (λ r, is_someb (counts r) && negb (is_someb (error r))) rs.

(** The parameters of one run. *)
Record Job := mkJob {
  j_workers : Z; j_logs : pystr; j_policy : Policy; j_timeout : pystr; j_timeout_ok : bool;
  j_posix : bool; j_seed : Z; j_weights : option weights; j_identity : option pystr;
  j_sha256 : pystr }.

Definition run (list_tests : list pystr → Proc) (exec : nat → shard → Exec) (j : Job)
    : pystr + (Z * Metadata) :=
  if negb ((1 <=? j_workers j) && (j_workers j <=? 4)) then inl (u "workers must be between 1 and 4")
  else if negb (j_timeout_ok j) then inl (u "timeout must be positive")
  else if negb (j_posix j)
  then inl (u "runtime process-group cleanup currently requires POSIX; use the native standard gate")
  else
    match inventory (list_tests []) with
    | inl e => inl e
    | inr [] => inl (u "empty full inventory")
    | inr full =>
      let workers := Z.to_nat (j_workers j) in
      let '(cs, sched) := candidates (j_weights j) workers (j_policy j) (j_logs j) full in
      match inventories list_tests cs with
      | inl e => inl e
      | inr shards =>
        let shards := nonempty_shards (j_seed j) shards in
        if negb (exact_cover full (shards ≫= snd))
        then inl (u "shard inventories must be a disjoint exact cover of full inventory")
        else
          let rs := imap (λ i s, execute (j_timeout j) i s (exec i s)) shards in
          let ts := totals_of rs in
          inr (exit_of rs ts,
               mkMetadata (j_sha256 j) workers (Z.of_nat (length full)) sched (j_identity j)
                 ((λ s, (s.1, Z.of_nat (length s.2))) <$> shards) rs ts (complete_of rs))
      end
    end.

(** ** Summaries *)

Definition bit (b : bool) : pystr := if b then u "1" else u "0".

Definition fields_text (discovered : Z) (ts : list Z) (complete : bool) : pystr :=
  let t i := from_opt 0 (ts !! i) in
  u "discovered=" ++ dec discovered ++ u " executed=" ++ dec (t 0%nat + t 1%nat + t 2%nat)
  ++ u " passed=" ++ dec (t 0%nat) ++ u " skipped=" ++ dec (t 1%nat) ++ u " failed=" ++ dec (t 2%nat)
  ++ u " leaked=" ++ dec (t 3%nat) ++ u " log_errors=" ++ dec (t 4%nat)
  ++ u " complete=" ++ bit complete.

Definition artifact_line (i : nat) (m : Metadata) : pystr :=
  u "parallel artifact summary: index=" ++ dec (Z.of_nat i) ++ u " "
  ++ fields_text (discovered m) (totals m) (complete m).

Definition suite_totals (ms : list Metadata) : list Z :=
  (λ i, sum_Z ((λ m, from_opt 0 (totals m !! i)) <$> ms)) <$> seq 0 5.

Definition suite_discovered (ms : list Metadata) : Z := sum_Z (discovered <$> ms).
Definition suite_complete (ms : list Metadata) : bool := forallb complete ms.

Definition suite_line (ms : list Metadata) : pystr :=
  u "parallel suite summary: artifacts=" ++ dec (Z.of_nat (length ms)) ++ u " "
  ++ fields_text (suite_discovered ms) (suite_totals ms) (suite_complete ms).

(** The loop of [main] over the binaries: what each run returned, in order, up
    to the first error; [None] when an interrupt was seen between two runs. *)
Fixpoint run_all (runs : list (option (pystr + (Z * Metadata))))
    : (list (Z * Metadata)) * option (pystr + unit) :=
  match runs with
  | [] => ([], None)
  | None :: _ => ([], Some (inr tt))
  | Some (inl e) :: _ => ([], Some (inl e))
  | Some (inr r) :: rest => let '(l, stop) := run_all rest in (r :: l, stop)
  end.

Definition artifact_lines (ms : list Metadata) : list pystr := imap artifact_line ms.

(** The exit status and the summary lines of [main]. *)
Definition main (runs : list (option (pystr + (Z * Metadata)))) : Z * list pystr :=
  match run_all runs with
  | (rs, Some _) => (1, artifact_lines rs.*2)
  | (rs, None) =>
    (if existsb (λ c, negb (c =? 0)) rs.*1 then 1 else 0,
     artifact_lines rs.*2 ++ [suite_line rs.*2])
  end.

(** ** Timing profiles from a finished suite *)

(** A retained suite as [complete_profile] reads it.  Optional fields are
    absent ([None]) in older receipts; a field may also hold [null]. *)
Record ShardResult := mkShardResult {
  sr_returncode : option Z; sr_error : option pystr; sr_timed_out : bool; sr_log : pystr;
  sr_log_sha256 : pystr; sr_counts : option (list Z) }.

Record Artifact := mkArtifact {
  a_complete : bool; a_totals : list Z; a_identity : option (option pystr);
  a_mode : option (option pystr); a_target : option (option pystr);
  a_working_directory : option pystr; a_binary : pystr; a_binary_sha256 : pystr;
  a_discovered : Z; a_results : list ShardResult }.

Record Suite := mkSuite {
  s_complete : bool; s_exit_code : Z; s_artifacts : list Artifact; s_totals : list Z;
  s_discovered : Z }.

Record Root := mkRoot {
  rt_identity : pystr; rt_sha256 : pystr; rt_discovered : Z; rt_totals : list Z;
  rt_durations : list (pystr * Z) }.

(** Path components from the end. *)
Definition parent_n (n : nat) (path : pystr) : option pystr :=
  let parts := split (u "/") path in
  if Nat.leb (length parts) n then None
  else Some (match join (u "/") (take (length parts - n) parts) with [] => u "/" | p => p end).

Section Profile.
Context (hexdigest : pybytes → pystr).
(** Retained logs and inventories. *)
Context (read_bytes : pystr → option pybytes) (read_text : pystr → option pystr).

Definition artifact_ok (mode target identity : pystr) (a : Artifact) : bool :=
  a_complete a && Nat.eqb (length (a_totals a)) 5 && forallb (Z.leb 0) (a_totals a)
  && negb (existsb (λ c, negb (c =? 0)) (drop 2 (a_totals a)))
  && bool_decide (from_opt (Some identity) (a_identity a) = Some identity)
  && bool_decide (from_opt (Some target) (a_target a) ∈ [None; Some target])
  && bool_decide (from_opt (Some mode) (a_mode a) ∈ [None; Some mode]).

(** What the loop over the shards of an artifact accumulates. *)
Record Acc := mkAcc {
  acc_names : option (list pystr); acc_timings : weights; acc_executed : Z; acc_totals : list Z }.

Definition shard_step (cwd : pystr) (acc : Acc) (r : ShardResult) : option Acc :=
  if negb (bool_decide (sr_returncode r = Some 0)) || is_someb (sr_error r) || sr_timed_out r then None
  else
    let log := if startswith (sr_log r) (u "/") then sr_log r else cwd ++ u "/" ++ sr_log r in
    raw ← read_bytes log;
    if negb (str_eqb (hexdigest raw) (sr_log_sha256 r)) then None
    else
      let text := utf8_decode raw in
      match find_ints SUMMARY 5 text, find_ints EXECUTED 2 text with
      | [cs], [ex] =>
        let executed := from_opt 0 (hd_error ex) in
        if negb (bool_decide (sr_counts r = Some cs)) || negb (sum_Z (take 3 cs) =? executed)
           || existsb (λ c, negb (c =? 0)) (drop 2 cs)
        then None
        else
          dir ← parent_n 1 log;
          listing ← read_text (dir ++ u "/inventory.txt");
          let current := splitlines listing in
          if match acc_names acc with Some n => negb (bool_decide (current = n)) | None => false end
          then None
          else Some (mkAcc (Some current) (parse_durations text current ∪ acc_timings acc)
                       (acc_executed acc + executed) (zip_with Z.add (acc_totals acc) cs))
      | _, _ => None
      end.

Fixpoint shard_steps (cwd : pystr) (acc : Acc) (rs : list ShardResult) : option Acc :=
  match rs with
  | [] => Some acc
  | r :: rs' => acc' ← shard_step cwd acc r; shard_steps cwd acc' rs'
  end.

Definition artifact_root (mode target identity : pystr) (a : Artifact) : option Root :=
  if negb (artifact_ok mode target identity a) then None
  else
    cwd ← match a_working_directory a with Some d => Some d | None => parent_n 4 (a_binary a) end;
    acc ← shard_steps cwd (mkAcc None ∅ 0 [0; 0; 0; 0; 0]) (a_results a);
    match acc_names acc with
    | None | Some [] => None
    | Some names =>
      if negb (bool_decide (NoDup names)) || negb (Z.of_nat (length names) =? a_discovered a)
         || negb (acc_executed acc =? Z.of_nat (length names))
         || negb (bool_decide (acc_totals acc = a_totals a))
      then None
      else
        let w := acc_timings acc in
        Some (mkRoot identity (a_binary_sha256 a) (Z.of_nat (length names)) (a_totals a)
                ((λ n, (n, weight w n)) <$> names))
    end.

Definition complete_profile (suite : Suite) (mode target : pystr) : option (list Root) :=
  if negb (s_complete suite) || negb (s_exit_code suite =? 0) then None
  else
    match s_artifacts suite with
    | [a0; a1; a2] =>
      r0 ← artifact_root mode target (u "module") a0;
      r1 ← artifact_root mode target (u "executable") a1;
      r2 ← artifact_root mode target (u "cli") a2;
      let roots := [r0; r1; r2] in
      let totals := (λ i, sum_Z ((λ r, from_opt 0 (rt_totals r !! i)) <$> roots)) <$> seq 0 5 in
      if negb (bool_decide (s_totals suite = totals))
         || negb (s_discovered suite =? sum_Z (rt_discovered <$> roots))
      then None
      else Some roots
    | _ => None
    end.

Definition root_json (r : Root) : json :=
  JObj [(u "identity", JStr (rt_identity r)); (u "binary_sha256", JStr (rt_sha256 r));
        (u "discovered", JInt (rt_discovered r)); (u "totals", JList (JInt <$> rt_totals r));
        (u "durations_ns", JObj ((λ d, (d.1, JInt d.2)) <$> rt_durations r))].

Definition profile_json (mode target : pystr) (roots : list Root) : json :=
  JObj [(u "version", JInt 1); (u "mode", JStr mode); (u "target", JStr target);
        (u "complete", JBool true); (u "exit_code", JInt 0); (u "roots", JList (root_json <$> roots))].

(** [profile_path]: where the profile of a mode and target is cached. *)
Definition profile_path (cache : pystr) (mode target : option pystr) : option pystr :=
  match mode, target with
  | Some mode, Some target =>
    Some (cache ++ u "/" ++ hexdigest (utf8_encode (dumps (TList [TStr mode; TStr target])))
          ++ u ".json")
  | _, _ => None
  end.

End Profile.
