(* ===== verification/ParallelSpec.v ===== *)
(** * tools/parallel_tests.py: properties

    The balanced schedule is a partition and is balanced; a run that exits
    with 0 executed every discovered test exactly once; a timing profile that
    was saved can be loaded. *)

From S2P Require Import Prelude PyStr PyFloat Regex Json ParallelTests.

(** ** The schedule *)

Lemma argmin_spec ts : ts ≠ [] →
  ∃ t, ts !! argmin ts = Some t ∧ ∀ x, x ∈ ts → t ≤ x.
Proof.
  induction ts as [|t [|t' rest] IH]; intros H; [done| |].
  - exists t. split; [done|]. intros x Hx. apply list_elem_of_singleton in Hx. lia.
  - destruct IH as (m & Hm & Hmin); [done|]. 
    change (argmin (t :: t' :: rest)) with
      (if t <=? from_opt t ((t' :: rest) !! argmin (t' :: rest)) then O else S (argmin (t' :: rest))).
    rewrite Hm. cbn [from_opt].
    destruct (Z.leb_spec t m).
    + exists t. split; [done|]. intros x Hx. apply elem_of_cons in Hx as [->|Hx]; [lia|].
      specialize (Hmin x Hx). lia.
    + exists m. split; [exact Hm|]. intros x Hx. apply elem_of_cons in Hx as [->|Hx]; [lia|]. auto.
Qed.

Section Schedule.
Context (w : weights).

Abbreviation bucket := (Z * list pystr)%type.

Definition total_weight (l : list pystr) : Z := sum_Z (weight w <$> l).

Lemma total_weight_snoc l n : total_weight (l ++ [n]) = total_weight l + weight w n.
Proof.
  unfold total_weight, sum_Z. rewrite fmap_app, foldr_app. simpl.
  induction (weight w <$> l) as [|x xs IH]; simpl; lia.
Qed.

(** The target bucket of [place]. *)
Lemma place_split (bs : list bucket) name : bs ≠ [] →
  ∃ l1 b l2, bs = l1 ++ b :: l2
    ∧ place w bs name = l1 ++ (b.1 + weight w name, b.2 ++ [name]) :: l2
    ∧ ∀ b', b' ∈ bs → b.1 ≤ b'.1.
Proof.
  intros Hne. destruct (argmin_spec (bs.*1)) as (t & Ht & Hmin); [by destruct bs|].
  rewrite list_lookup_fmap in Ht. apply fmap_Some in Ht as (b & Hb & ->).
  apply list_elem_of_split_length in Hb as (l1 & l2 & Hbs & Hlen).
  exists l1, b, l2. split; [done|]. split.
  - unfold place. rewrite Hlen, Hbs.
    rewrite alter_app_r_alt by lia. by rewrite Nat.sub_diag.
  - intros b' Hb'. apply Hmin. by apply list_elem_of_fmap_2.
Qed.

(** Totals are right, and a bucket exceeds another by at most the heaviest
    name placed. *)
Definition balanced (top : Z) (bs : list bucket) : Prop :=
  (∀ b, b ∈ bs → b.1 = total_weight b.2)
  ∧ ∀ b b', b ∈ bs → b' ∈ bs → b.1 ≤ b'.1 + top.

Lemma place_balanced top bs name :
  bs ≠ [] → 0 ≤ weight w name ≤ top → balanced top bs → balanced top (place w bs name).
Proof.
  intros Hne Hw [Ht Hb]. destruct (place_split bs name Hne) as (l1 & b & l2 & -> & -> & Hmin).
  assert (Hin : ∀ x, x ∈ l1 ++ (b.1 + weight w name, b.2 ++ [name]) :: l2 →
    x = (b.1 + weight w name, b.2 ++ [name]) ∨ x ∈ l1 ++ b :: l2).
  { intros x. rewrite !elem_of_app, !elem_of_cons. tauto. }
  assert (Hbin : b ∈ l1 ++ b :: l2) by (rewrite elem_of_app, elem_of_cons; auto).
  split.
  - intros x [->|Hx]%Hin; [|auto]. simpl. rewrite total_weight_snoc, <-Ht by done. done.
  - intros x y [->|Hx]%Hin [->|Hy]%Hin; simpl.
    + lia.
    + specialize (Hmin y Hy). lia.
    + specialize (Hb x b Hx Hbin). lia.
    + auto.
Qed.

Lemma place_contents bs name : bs ≠ [] →
  concat (place w bs name).*2 ≡ₚ name :: concat bs.*2
  ∧ length (place w bs name) = length bs.
Proof.
  intros Hne. destruct (place_split bs name Hne) as (l1 & b & l2 & -> & -> & _).
  rewrite !fmap_app, !fmap_cons, !concat_app, !length_app. simpl. split; [|done].
  rewrite <-app_assoc. simpl. rewrite !app_assoc. by rewrite <-Permutation_middle.
Qed.

Lemma schedule_fold top l : ∀ bs,
  bs ≠ [] → Forall (λ n, 0 ≤ weight w n ≤ top) l → balanced top bs →
  let bs' := foldl (place w) bs l in
  balanced top bs' ∧ length bs' = length bs ∧ concat bs'.*2 ≡ₚ l ++ concat bs.*2.
Proof.
  induction l as [|n l IH]; intros bs Hne Hf Hb; simpl; [done|].
  inversion Hf as [|? ? Hn Hf']; subst. destruct (place_contents bs n Hne) as [Hc Hl].
  destruct (IH (place w bs n)) as (H1 & H2 & H3).
  - intros E. rewrite E in Hl. by destruct bs.
  - done.
  - by apply place_balanced.
  - split; [done|]. split; [congruence|]. rewrite H3, Hc. by rewrite <-Permutation_middle.
Qed.

Lemma replicate_balanced top n : 0 ≤ top → balanced top (replicate n (0, [])).
Proof.
  intros Ht. split.
  - intros b [-> _]%elem_of_replicate. done.
  - intros b b' [-> _]%elem_of_replicate [-> _]%elem_of_replicate. simpl. lia.
Qed.

Lemma schedule_spec names workers top :
  (0 < workers)%nat → 0 ≤ top → Forall (λ n, 0 ≤ weight w n ≤ top) names →
  balanced top (schedule w names workers) ∧ length (schedule w names workers) = workers
  ∧ concat (schedule w names workers).*2 ≡ₚ names.
Proof.
  intros Hw Ht Hf. unfold schedule.
  destruct (schedule_fold top (merge_sort (heavier w) names) (replicate workers (0, [])))
    as (H1 & H2 & H3).
  - by destruct workers; [lia|].
  - by rewrite (merge_sort_Permutation (heavier w)).
  - by apply replicate_balanced.
  - split; [done|]. split; [by rewrite H2, length_replicate|].
    assert (E : concat (replicate workers (0, ([] : list pystr))).*2 = []).
    { clear. induction workers as [|n IH]; [done|]. exact IH. }
    by rewrite H3, E, app_nil_r, (merge_sort_Permutation (heavier w)).
Qed.

(** Dropping the empty buckets and sorting the others keeps the names. *)
Lemma concat_buckets (bs : list bucket) :
  concat ((λ b, sorted_strs b.2) <$>
    List.filter (λ b, match b.2 with [] => false | _ => true end) bs) ≡ₚ concat bs.*2.
Proof.
  induction bs as [|[t [|n ns]] bs IH]; [done|exact IH|].
  simpl. rewrite sorted_strs_perm. simpl. f_equiv. f_equiv. exact IH.
Qed.

End Schedule.

(** The balanced schedule is a partition of the tests into at most
    [workers] non-empty sorted shards: every test is in exactly one shard, as
    often as it was listed. *)
Theorem balanced_names_partition w names workers :
  (0 < workers)%nat → (∀ n, 0 ≤ weight w n) →
  concat (balanced_names w names workers) ≡ₚ names
  ∧ (length (balanced_names w names workers) ≤ workers)%nat
  ∧ Forall (λ b, b ≠ [] ∧ Sorted str_le b) (balanced_names w names workers).
Proof.
  intros Hw Hp. set (top := foldr Z.max 0 (weight w <$> names)).
  destruct (schedule_spec w names workers top) as (_ & Hlen & Hc); [done|..].
  { unfold top. clear. induction (weight w <$> names); simpl; lia. }
  { apply Forall_forall. intros n Hn. split; [apply Hp|]. unfold top.
    induction names as [|x l IH]; [by apply elem_of_nil in Hn|].
    rewrite fmap_cons. simpl. apply elem_of_cons in Hn as [->|Hn]; [lia|]. specialize (IH Hn). lia. }
  unfold balanced_names. split; [by rewrite concat_buckets|]. split.
  - rewrite length_fmap. pose proof (List.filter_length_le
      (λ b : Z * list pystr, match b.2 with [] => false | _ => true end) (schedule w names workers)). lia.
  - apply Forall_forall. intros b (x & -> & Hx%list_elem_of_In)%list_elem_of_fmap.
    apply filter_In in Hx as [_ Hx]. split; [|apply sorted_strs_sorted].
    intros E. pose proof (sorted_strs_perm x.2) as Hp'. rewrite E in Hp'.
    apply Permutation_nil in Hp'. by rewrite Hp' in Hx.
Qed.

Lemma balanced_names_partition_witness :
  concat (balanced_names ∅ [u "b"; u "a"; u "c"] 2) ≡ₚ [u "b"; u "a"; u "c"].
Proof.
  apply (balanced_names_partition ∅ [u "b"; u "a"; u "c"] 2); [lia|].
  intros n. unfold weight. rewrite lookup_empty. vm_compute. discriminate.
Defined.

(** C33: The schedule is balanced: when no single test is heavier than [top],
    the weights of any two workers differ by at most [top]. *)
Theorem schedule_balanced w names workers top b b' :
  (0 < workers)%nat → 0 ≤ top → Forall (λ n, 0 ≤ weight w n ≤ top) names →
  b ∈ schedule w names workers → b' ∈ schedule w names workers →
  total_weight w b.2 ≤ total_weight w b'.2 + top.
Proof.
  intros Hw Ht Hf Hb Hb'. destruct (schedule_spec w names workers top Hw Ht Hf) as ((H1 & H2) & _).
  rewrite <-!H1 by done. auto.
Qed.

Lemma schedule_balanced_witness :
  let w : weights := list_to_map [(u "a", 9); (u "b", 4); (u "c", 3)] in
  total_weight w [u "a"] ≤ total_weight w [u "b"; u "c"] + 9.
Proof.
  apply (schedule_balanced (list_to_map [(u "a", 9); (u "b", 4); (u "c", 3)])
    [u "a"; u "b"; u "c"] 2 9 (9, [u "a"]) (7, [u "b"; u "c"])).
  - lia.
  - lia.
  - repeat constructor; vm_compute; discriminate.
  - vm_compute. repeat constructor.
  - vm_compute. repeat constructor.
Defined.

(** ** Exact cover *)

Lemma count_elem n l : n ∈ l ↔ (1 ≤ count n l)%nat.
Proof.
  unfold count. induction l as [|x l IH]; simpl.
  - rewrite elem_of_nil. split; [done|lia].
  - rewrite elem_of_cons. destruct (str_eqb n x) eqn:E; simpl.
    + apply str_eqb_eq in E. split; [lia|auto].
    + apply str_eqb_neq in E. rewrite <-IH. tauto.
Qed.

Lemma count_NoDup l : (∀ n, n ∈ l → count n l = 1%nat) → NoDup l.
Proof.
  induction l as [|x l IH]; intros H; constructor.
  - intros Hx%count_elem. assert (Hc : count x (x :: l) = 1%nat) by (apply H; left).
    unfold count in *. simpl in Hc. rewrite str_eqb_refl in Hc. simpl in Hc. lia.
  - apply IH. intros n Hn. specialize (H n (list_elem_of_further _ _ _ Hn)).
    unfold count in *. simpl in H. destruct (str_eqb n x); simpl in H; [|done].
    apply count_elem in Hn. unfold count in Hn. lia.
Qed.

Lemma exact_cover_spec full combined :
  exact_cover full combined = true → combined ≡ₚ full ∧ NoDup full.
Proof.
  unfold exact_cover. intros [H1 H2]%andb_prop.
  assert (Heq : ∀ n, n ∈ combined ++ full → count n combined = count n full).
  { intros n Hn. apply Nat.eqb_eq. by apply (proj1 (forallb_elem _ _) H1). }
  assert (Hone : ∀ n, n ∈ combined → count n combined = 1%nat).
  { intros n Hn. apply Nat.eqb_eq. by apply (proj1 (forallb_elem _ _) H2). }
  assert (Hin : ∀ n, n ∈ combined ↔ n ∈ full).
  { intros n. rewrite !count_elem. split; intros H; pose proof (proj2 (count_elem _ _) H) as Hn;
      [rewrite <-Heq|rewrite Heq]; auto; apply elem_of_app; auto. }
  assert (Hf : NoDup full).
  { apply count_NoDup. intros n Hn. rewrite <-Heq by (apply elem_of_app; auto).
    apply Hone. by apply Hin. }
  split; [|done]. apply NoDup_Permutation; [by apply count_NoDup|done|done].
Qed.

(** ** Shards *)

Lemma find_ints_length r g text l : l ∈ find_ints r g text → length l = g.
Proof.
  unfold find_ints. intros ([[i t] m] & -> & _)%list_elem_of_fmap.
  by rewrite length_fmap, length_seq.
Qed.

(** A shard without an error reported counts for exactly its tests. *)
Lemma execute_ok timeout i s x :
  error (execute timeout i s x) = None →
  ∃ p k f l e, counts (execute timeout i s x) = Some [p; k; f; l; e]
    ∧ p + k + f = Z.of_nat (length s.2).
Proof.
  unfold execute. destruct (x_oserror x); [done|]. destruct (x_timed_out x); [done|].
  destruct (x_interrupted x); [done|]. unfold log_verdict.
  destruct (find_ints SUMMARY 5 (x_log x)) as [|cs [|? ?]] eqn:E; try done.
  destruct (find_ints EXECUTED 2 (x_log x)) as [|ex [|? ?]]; try done.
  assert (Hl : length cs = 5%nat) by (apply (find_ints_length SUMMARY 5 (x_log x)); rewrite E; left).
  do 6 (destruct cs as [|? cs]; try done). simpl.
  destruct (_ || _) eqn:Ev; [done|]. intros _. bool_hyps. do 5 eexists. split; [done|]. lia.
Qed.

Lemma sum_column i rs r : column i (r :: rs)
  = from_opt 0 (c ← counts r; c !! i) + column i rs.
Proof. unfold column. simpl. by destruct (counts r). Qed.

(** The executed tests of error-free shards are the tests of the shards. *)
Lemma totals_executed timeout (exec : nat → shard → Exec) shards : ∀ k,
  let rs := imap (λ i s, execute timeout (k + i) s (exec (k + i)%nat s)) shards in
  Forall (λ r, error r = None) rs →
  column 0 rs + column 1 rs + column 2 rs = Z.of_nat (length (shards ≫= snd)).
Proof.
  induction shards as [|s shards IH]; intros k rs Hf; [done|]. subst rs.
  cbn [imap] in *. inversion Hf as [|? ? He Hf']; subst.
  rewrite !sum_column, bind_cons, length_app.
  specialize (IH (S k)). cbv zeta in IH.
  assert (E : imap (λ i s, execute timeout (S k + i) s (exec (S k + i)%nat s)) shards
    = imap ((λ i s, execute timeout (k + i) s (exec (k + i)%nat s)) ∘ S) shards).
  { apply imap_ext. intros i x _. simpl. by rewrite Nat.add_succ_r. }
  rewrite E in IH. specialize (IH Hf').
  destruct (execute_ok _ _ _ _ He) as (p & kk & f & l & e & -> & Hsum). simpl. simpl in IH. lia.
Qed.

(** What is known of a run that returned. *)
Lemma run_inv list_tests exec j code m :
  run list_tests exec j = inr (code, m) →
  ∃ full shards,
    inventory (list_tests []) = inr full ∧ full ≠ [] ∧ NoDup full ∧ shards ≫= snd ≡ₚ full
    ∧ results m = imap (λ i s, execute (j_timeout j) i s (exec i s)) shards
    ∧ totals m = totals_of (results m) ∧ discovered m = Z.of_nat (length full)
    ∧ complete m = complete_of (results m) ∧ code = exit_of (results m) (totals m).
Proof.
  unfold run. destruct (negb _); [done|]. destruct (negb _); [done|]. destruct (negb _); [done|].
  destruct (inventory (list_tests [])) as [e|[|n full]] eqn:Ei; [done|done|]. cbv zeta.
  destruct (candidates _ _ _ _ _) as [cs sched].
  destruct (inventories list_tests cs) as [e|shards]; [done|].
  destruct (negb _) eqn:Ec; [done|]. intros [= <- <-]. bool_hyps.
  apply exact_cover_spec in Ec as [Hp Hn].
  exists (n :: full), (nonempty_shards (j_seed j) shards). split_and!; done.
Qed.

Lemma complete_errors rs : complete_of rs = true → Forall (λ r, error r = None) rs.
Proof.
  unfold complete_of. rewrite forallb_elem. intros H. apply Forall_forall. intros r Hr.
  specialize (H r Hr). bool_hyps. by destruct (error r).
Qed.

(** A complete run accounts for every test it discovered. *)
Lemma run_complete_balanced list_tests exec j code m :
  run list_tests exec j = inr (code, m) → complete m = true →
  ∃ p k f l e, totals m = [p; k; f; l; e] ∧ p + k + f = discovered m.
Proof.
  intros (full & shards & _ & _ & _ & Hp & Hr & Ht & Hd & Hc & _)%run_inv Hcm.
  rewrite Hcm in Hc. symmetry in Hc. apply complete_errors in Hc.
  exists (column 0 (results m)), (column 1 (results m)), (column 2 (results m)),
    (column 3 (results m)), (column 4 (results m)). split; [by rewrite Ht|].
  rewrite Hr in Hc |- *. rewrite Hd, <-Hp. apply (totals_executed _ exec shards 0 Hc).
Qed.

(** C13: A run of the sharded suite that exits with 0 is a full run: the
    inventory has no duplicates, the shards partition it, every shard exited
    with 0 and without error, and the totals account for every discovered test
    as passed or skipped, with no failure, leak or log error. *)
Theorem run_exit_zero list_tests exec j m :
  run list_tests exec j = inr (0, m) →
  ∃ full shards,
    inventory (list_tests []) = inr full ∧ NoDup full ∧ shards ≫= snd ≡ₚ full
    ∧ results m = imap (λ i s, execute (j_timeout j) i s (exec i s)) shards
    ∧ Forall (λ r, returncode r = Some 0 ∧ error r = None) (results m)
    ∧ complete m = true
    ∧ ∃ passed skipped, totals m = [passed; skipped; 0; 0; 0]
        ∧ passed + skipped = Z.of_nat (length full).
Proof.
  intros Hrun. destruct (run_inv _ _ _ _ _ Hrun)
    as (full & shards & Hi & Hne & Hn & Hp & Hr & Ht & Hd & Hc & He).
  unfold exit_of in He. destruct (existsb failed_status (results m)) eqn:Ef; [done|].
  destruct (existsb _ (drop 2 (totals m))) eqn:Ez; [done|].
  assert (Hok : Forall (λ r, returncode r = Some 0 ∧ error r = None) (results m)).
  { apply Forall_forall. intros r Hin. assert (Hf : failed_status r = false).
    { apply not_true_is_false. intros H. assert (existsb failed_status (results m) = true)
        by (apply existsb_elem; eauto). congruence. }
    unfold failed_status in Hf. bool_hyps. by destruct (error r). }
  assert (Herr : Forall (λ r, error r = None) (results m))
    by (eapply Forall_impl; [exact Hok|]; by intros r [_ ?]).
  assert (Hcm : complete m = true).
  { rewrite Hc. unfold complete_of. apply forallb_elem. intros r Hin.
    rewrite Forall_forall in Herr. specialize (Herr r Hin). rewrite Hr in Hin.
    apply elem_of_lookup_imap in Hin as (i & s & -> & _).
    by destruct (execute_ok _ _ _ _ Herr) as (p & k & f & l & e & -> & _); rewrite Herr. }
  destruct (run_complete_balanced _ _ _ _ _ Hrun Hcm) as (p & k & f & l & e & Htot & Hsum).
  exists full, shards. split_and!; try done. rewrite Htot in Ez |- *. simpl in Ez. bool_hyps. subst.
  exists p, k. split; [done|]. lia.
Qed.

(** A test binary with two tests whose shards are its halves. *)
Definition list0 (args : list pystr) : Proc :=
  mkProc 0 (match args with
            | [] => u "test selection: all" ++ [10] ++ u "a" ++ [10] ++ u "b" ++ [10]
                    ++ u "listed 2 tests; executed 0" ++ [10]
            | [_; i] => u "test selection: shard" ++ [10]
                    ++ (if endswith i (u "0") then u "a" else u "b") ++ [10]
                    ++ u "listed 1 tests; executed 0" ++ [10]
            | _ => []
            end).

Definition exec0 (i : nat) (s : shard) : Exec :=
  mkExec (Some 0) false false None
    (u "executed 1 tests; excluded 1 tests" ++ [10]
     ++ u "verbose test summary: 1 passed; 0 skipped; 0 failed; 0 leaked; 0 log errors").

Definition job0 : Job := mkJob 2 (u "/l") All (u "3600") true true 0 None None (u "ab").

Lemma run_exit_zero_witness :
  ∃ m full (shards : list shard), run list0 exec0 job0 = inr (0, m)
    ∧ inventory (list0 []) = inr full ∧ NoDup full ∧ shards ≫= snd ≡ₚ full.
Proof.
  destruct (run list0 exec0 job0) as [e|[code m]] eqn:E; [vm_compute in E; discriminate|].
  assert (Hc : code = 0) by (vm_compute in E; congruence). subst code.
  destruct (run_exit_zero list0 exec0 job0 m E) as (full & shards & H1 & H2 & H3 & _).
  exists m, full, shards. exact (conj eq_refl (conj H1 (conj H2 H3))).
Defined.

(** ** Profiles *)

(** Every recorded duration is positive. *)
Definition positive (w : weights) : Prop := ∀ n v, w !! n = Some v → 0 < v.

Lemma fallback_positive w : positive w → 0 < fallback_of w.
Proof.
  intros Hw. unfold fallback_of. set (obs := merge_sort Z.le _).
  destruct (obs !! _) as [v|] eqn:E; [|done]. simpl.
  apply list_elem_of_lookup_2 in E. unfold obs in E.
  rewrite (merge_sort_Permutation Z.le) in E.
  apply list_elem_of_fmap in E as ([n x] & -> & Hin). apply elem_of_map_to_list in Hin.
  by apply (Hw n).
Qed.

Lemma weight_positive w n : positive w → 0 < weight w n.
Proof.
  intros Hw. unfold weight. destruct (w !! n) eqn:E; [by apply (Hw n)|]. by apply fallback_positive.
Qed.

Lemma durations_positive names lines : ∀ found current,
  positive found → positive (durations_go names found current lines).
Proof.
  induction lines as [|l lines IH]; intros found current Hf; simpl; [done|].
  destruct (rsearch re_finish l) as [[[i t] m]|]; [|auto].
  destruct (match rmatch re_beginning l with Some _ => _ | None => _ end) as [name|]; [|auto].
  destruct (mem name names); [|auto]. apply IH. intros n v Hv.
  apply lookup_insert_Some in Hv as [[_ <-]|[_ Hv]]; [lia|]. by apply (Hf n).
Qed.

Section ProfileFacts.
Context (hexdigest : pybytes → pystr).
Context (read_bytes : pystr → option pybytes) (read_text : pystr → option pystr).

Definition acc_ok (acc : Acc) : Prop :=
  positive (acc_timings acc) ∧ ∃ p k f l e, acc_totals acc = [p; k; f; l; e]
    ∧ p + k + f = acc_executed acc.

Lemma shard_step_ok cwd acc r acc' :
  acc_ok acc → shard_step hexdigest read_bytes read_text cwd acc r = Some acc' → acc_ok acc'.
Proof.
  intros [Hw (p & k & f & l & e & Ht & Hs)]. unfold shard_step. destruct (_ || _ || _); [done|].
  cbv zeta. destruct (read_bytes _) as [raw|]; [|done]. simpl. destruct (negb _); [done|].
  destruct (find_ints SUMMARY 5 (utf8_decode raw)) as [|cs [|? ?]] eqn:E; try done.
  destruct (find_ints EXECUTED 2 _) as [|ex [|? ?]]; try done.
  assert (Hl : length cs = 5%nat)
    by (apply (find_ints_length SUMMARY 5 (utf8_decode raw)); rewrite E; left).
  destruct (_ || _) eqn:Ev; [done|]. destruct (parent_n 1 _) as [dir|]; [|done]. simpl.
  destruct (read_text _) as [listing|]; [|done]. simpl. 
  destruct (match acc_names acc with
    Some n => negb (bool_decide (splitlines listing = n)) | None => false end); [done|].
  intros [= <-]. split; simpl.
  - intros n v Hv. apply lookup_union_Some_raw in Hv as [Hv|[_ Hv]]; [|by apply (Hw n)].
    eapply (durations_positive _ _ ∅ None); [|exact Hv]. intros ? ? Hx. by rewrite lookup_empty in Hx.
  - do 6 (destruct cs as [|? cs]; try done). rewrite Ht. simpl. do 5 eexists. split; [done|].
    simpl in Ev. bool_hyps. lia.
Qed.

Lemma shard_steps_ok cwd rs : ∀ acc acc',
  acc_ok acc → shard_steps hexdigest read_bytes read_text cwd acc rs = Some acc' → acc_ok acc'.
Proof.
  induction rs as [|r rs IH]; intros acc acc' Ha; simpl; [by intros [= <-]|].
  destruct (shard_step _ _ _ _ acc r) as [a|] eqn:E; [|done]. simpl. intros H.
  eapply IH; [|exact H]. by eapply shard_step_ok.
Qed.

(** What an accepted artifact provides. *)
Definition root_fine (identity : pystr) (r : Root) : Prop :=
  rt_identity r = identity
  ∧ NoDup (rt_durations r).*1 ∧ Z.of_nat (length (rt_durations r)) = rt_discovered r
  ∧ 0 < rt_discovered r ∧ Forall (λ d, 0 < d.2) (rt_durations r)
  ∧ ∃ p k, rt_totals r = [p; k; 0; 0; 0] ∧ 0 ≤ p ∧ 0 ≤ k ∧ p + k = rt_discovered r.

Lemma artifact_root_fine mode target identity a r :
  artifact_root hexdigest read_bytes read_text mode target identity a = Some r →
  root_fine identity r.
Proof.
  unfold artifact_root. destruct (negb _) eqn:Eok; [done|]. unfold artifact_ok in Eok.
  destruct (match a_working_directory a with Some d => Some d | None => parent_n 4 (a_binary a) end)
    as [cwd|]; [|done]. cbn [mbind option_bind].
  destruct (shard_steps _ _ _ cwd _ _) as [acc|] eqn:Es; [|done]. cbn [mbind option_bind].
  assert (Hacc : acc_ok acc).
  { eapply shard_steps_ok; [|exact Es]. split; [intros ? ? Hx; simpl in Hx; by rewrite lookup_empty in Hx|].
    by exists 0, 0, 0, 0, 0. }
  destruct Hacc as [Hw (p & k & f & l & e & Ht & Hsum)].
  destruct (acc_names acc) as [[|n names]|]; try done.
  destruct (negb (bool_decide _) || _ || _ || _) eqn:Ev; [done|]. intros [= <-].
  bool_hyps. unfold root_fine. cbn [rt_identity rt_durations rt_discovered rt_totals].
  assert (Hn : ((λ n, (n, weight (acc_timings acc) n)) <$> n :: names).*1 = n :: names).
  { rewrite <-list_fmap_compose. apply list_fmap_id. }
  assert (Hnd : NoDup ((λ n, (n, weight (acc_timings acc) n)) <$> n :: names).*1) by (by rewrite Hn).
  assert (Hl : length ((λ n, (n, weight (acc_timings acc) n)) <$> n :: names) = length (n :: names))
    by apply length_fmap.
  split; [done|]. split; [exact Hnd|]. split; [exact (f_equal Z.of_nat Hl)|].
  split; [simpl; lia|]. split.
  - assert (Hf : Forall (λ d : pystr * Z, 0 < d.2)
      ((λ n, (n, weight (acc_timings acc) n)) <$> n :: names)); [|exact Hf].
    apply Forall_forall. intros d (x & -> & _)%list_elem_of_fmap. by apply weight_positive.
  - assert (Et : a_totals a = [p; k; f; l; e]) by congruence. rewrite Et in *.
    simpl in *. bool_hyps. subst. exists p, k. split; [done|]. split_and!; lia.
Qed.

(** A root that can be loaded: a digest, storable names, days at most. *)
Definition storable (r : Root) : Prop :=
  is_Some (rfullmatch re_hex64 (rt_sha256 r))
  ∧ Forall (λ d, d.1 ≠ [] ∧ (∀ c, c ∈ d.1 → c ≠ 13 ∧ c ≠ 10 ∧ c ≠ 0) ∧ d.2 ≤ 86400000000000)
      (rt_durations r).

Lemma get_identity r : jget (root_json r) (u "identity") = JStr (rt_identity r).
Proof. vm_compute; reflexivity. Qed.
Lemma get_sha r : jget (root_json r) (u "binary_sha256") = JStr (rt_sha256 r).
Proof. vm_compute; reflexivity. Qed.
Lemma get_discovered r : jget (root_json r) (u "discovered") = JInt (rt_discovered r).
Proof. vm_compute; reflexivity. Qed.
Lemma get_totals r : jget (root_json r) (u "totals") = JList (JInt <$> rt_totals r).
Proof. vm_compute; reflexivity. Qed.
Lemma get_durations r :
  jget (root_json r) (u "durations_ns") = JObj ((λ d, (d.1, JInt d.2)) <$> rt_durations r).
Proof. vm_compute; reflexivity. Qed.

Lemma storable_duration (d : pystr * Z) : 0 < d.2 →
  d.1 ≠ [] ∧ (∀ c, c ∈ d.1 → c ≠ 13 ∧ c ≠ 10 ∧ c ≠ 0) ∧ d.2 ≤ 86400000000000 →
  duration_ok (d.1, JInt d.2) = true.
Proof.
  intros Hp (Hne & Hc & Hle). unfold duration_ok. simpl fst. simpl snd.
  assert (Hn : ∀ x, x = 13 ∨ x = 10 ∨ x = 0 → existsb (Z.eqb x) d.1 = false).
  { intros x Hx. apply not_true_is_false. intros (c & Hin & ->%Z.eqb_eq)%existsb_elem.
    specialize (Hc c Hin). lia. }
  simpl. rewrite !Hn by lia. simpl. destruct d.1; [done|]. simpl.
  apply andb_true_iff. rewrite Z.ltb_lt, Z.leb_le. done.
Qed.

Lemma root_ok_json identity r :
  root_fine identity r → storable r → root_ok identity (root_json r) = true.
Proof.
  intros (Hid & Hnd & Hlen & Hpos & Hdur & p & k & Ht & Hp & Hk & Hsum) [[m Hsha] Hst].
  unfold root_ok, counts_ok, durations_ok.
  rewrite get_identity, get_sha, get_discovered, get_totals, get_durations.
  cbn [pyeq is_mapping root_json]. rewrite Hid, str_eqb_refl, Hsha, Ht. simpl is_someb. cbn [andb].
  apply andb_true_iff. split.
  - rewrite <-Hsum in Hpos |- *. simpl.
    rewrite !andb_true_iff, !Z.leb_le, Z.eqb_eq, Z.ltb_lt. split_and!; lia || done.
  - rewrite length_fmap, Hlen, Z.eqb_refl. simpl. apply forallb_elem.
    intros d (x & -> & Hx)%list_elem_of_fmap. rewrite Forall_forall in Hdur, Hst.
    by apply storable_duration; [apply Hdur|apply Hst].
Qed.

(** A timing profile built from a retained suite lists every test of each
    root exactly once with a positive duration and failure-free totals, and,
    once written, it is accepted by [load_profile] for the same mode and
    target, provided its digests and names are storable. *)
Theorem profile_roundtrip suite mode target roots size path :
  complete_profile hexdigest read_bytes read_text suite mode target = Some roots →
  Forall storable roots → size ≤ MAX_PROFILE_BYTES →
  Forall2 root_fine ROOT_IDENTITIES roots
  ∧ load_profile (λ _, Some (mkProfileFile size (Some (profile_json mode target roots))))
      (Some path) (Some mode) (Some target) = Some (profile_json mode target roots).
Proof.
  unfold complete_profile. destruct (_ || _); [done|].
  destruct (s_artifacts suite) as [|a0 [|a1 [|a2 [|? ?]]]]; try done.
  destruct (artifact_root _ _ _ _ _ (u "module") a0) as [r0|] eqn:E0; [|done]. simpl.
  destruct (artifact_root _ _ _ _ _ (u "executable") a1) as [r1|] eqn:E1; [|done]. simpl.
  destruct (artifact_root _ _ _ _ _ (u "cli") a2) as [r2|] eqn:E2; [|done]. simpl.
  destruct (_ || _); [done|]. intros [= <-] Hst Hsize.
  apply artifact_root_fine in E0, E1, E2.
  split; [by apply Forall2_cons; split; [|apply Forall2_cons; split; [|apply Forall2_cons; split]]|].
  inversion Hst as [|? ? S0 Hst1]; subst. inversion Hst1 as [|? ? S1 Hst2]; subst.
  inversion Hst2 as [|? ? S2 _]; subst.
  unfold load_profile. simpl pf_size. rewrite (proj2 (Z.ltb_ge _ _) Hsize). simpl pf_json. cbn match.
  assert (profile_ok mode target (profile_json mode target [r0; r1; r2]) = true) as ->; [|done].
  unfold profile_ok.
  assert (jget (profile_json mode target [r0; r1; r2]) (u "version") = JInt 1) as ->
    by (vm_compute; reflexivity).
  assert (jget (profile_json mode target [r0; r1; r2]) (u "mode") = JStr mode) as ->
    by (vm_compute; reflexivity).
  assert (jget (profile_json mode target [r0; r1; r2]) (u "target") = JStr target) as ->
    by (vm_compute; reflexivity).
  assert (jget (profile_json mode target [r0; r1; r2]) (u "complete") = JBool true) as ->
    by (vm_compute; reflexivity).
  assert (jget (profile_json mode target [r0; r1; r2]) (u "exit_code") = JInt 0) as ->
    by (vm_compute; reflexivity).
  assert (jget (profile_json mode target [r0; r1; r2]) (u "roots")
          = JList [root_json r0; root_json r1; root_json r2]) as -> by (vm_compute; reflexivity).
  cbn [pyeq is_bool Bool.eqb is_mapping profile_json Z.eqb]. rewrite !str_eqb_refl.
  rewrite !root_ok_json by done. done.
Qed.

End ProfileFacts.

(** A suite of three roots with one test each. *)
Definition log0 : pybytes :=
  bs "[1/1] a ... OK (2ms)" ++ [10] ++ bs "executed 1 tests; excluded 0 tests" ++ [10]
  ++ bs "verbose test summary: 1 passed; 0 skipped; 0 failed; 0 leaked; 0 log errors" ++ [10].

Definition artifact0 : Artifact :=
  mkArtifact true [1; 0; 0; 0; 0] None None None (Some (u "/w")) (u "/w/t") (replicate 64 97) 1
    [mkShardResult (Some 0) None false (u "/w/l/shard-0.log") (replicate 64 97) (Some [1; 0; 0; 0; 0])].

Definition suite0 : Suite :=
  mkSuite true 0 [artifact0; artifact0; artifact0] [3; 0; 0; 0; 0] 3.

Lemma profile_roundtrip_witness :
  ∃ roots, load_profile (λ _, Some (mkProfileFile 900 (Some (profile_json (u "debug") (u "native") roots))))
    (Some (u "/p")) (Some (u "debug")) (Some (u "native"))
    = Some (profile_json (u "debug") (u "native") roots).
Proof.
  exists ((λ i, mkRoot i (replicate 64 97) 1 [1; 0; 0; 0; 0] [(u "a", 2000000)]) <$> ROOT_IDENTITIES).
  apply (profile_roundtrip (λ _, replicate 64 97) (λ _, Some log0) (λ _, Some (u "a" ++ [10]))
    suite0 (u "debug") (u "native") _ 900 (u "/p")).
  - vm_compute. reflexivity.
  - assert (Hs : ∀ i, storable (mkRoot i (replicate 64 97) 1 [1; 0; 0; 0; 0] [(u "a", 2000000)])).
    { intros i. split; [vm_compute; eauto|]. constructor; [|constructor]. split; [vm_compute; discriminate|].
      split; [|vm_compute; discriminate]. intros c Hc. vm_compute in Hc.
      apply list_elem_of_singleton in Hc. lia. }
    constructor; [apply Hs|constructor; [apply Hs|constructor; [apply Hs|constructor]]].
  - vm_compute. discriminate.
Defined.
