(* ===== verification/ProfileStore.v ===== *)
(** * tools/parallel_tests.py: saving a timing profile

    [save_profile] as the file systems it goes through, with the failures of
    its steps as arguments, and the import of a retained suite; and the proof
    that a reader of the target always finds the old profile or the complete
    new one. *)

From S2P Require Import Prelude PyStr Json ParallelTests.

Abbreviation files := (gmap pystr pystr) (only parsing).

(** What the steps of a save do: [so_written] is how many characters reach
    the temporary file before a write fails, [None] if none fails. *)
Record SaveOutcome := mkSave {
  so_mkdir : bool; so_open : bool; so_written : option nat; so_close : bool; so_replace : bool;
  so_unlink : bool }.

(** [path.name + "." + os.urandom(6).hex() + ".tmp"]. *)
Definition temporary_of (path nonce : pystr) : pystr := path ++ u "." ++ nonce ++ u ".tmp".

(** The states of the temporary file while [text] is written to it, up to the
    character [k]. *)
Definition write_states (temporary text : pystr) (k : nat) (fs : files) : list files :=
  (λ i, <[temporary := take i text]> fs) <$> seq 0 (S k).

(** [temporary.unlink(missing_ok=True)] in the state [fs]. *)
Definition unlink_state (temporary : pystr) (o : SaveOutcome) (fs : files) : list files :=
  if so_unlink o then [delete temporary fs] else [].

(** The file systems [save_profile] goes through, in order, and whether it
    returns; a process that is killed stops at one of them. *)
Definition save_profile (path nonce text : pystr) (o : SaveOutcome) (fs : files) : list files * bool :=
  let temporary := temporary_of path nonce in
  if negb (so_mkdir o) then ([], false)
  else if is_someb (fs !! temporary) || negb (so_open o) then (unlink_state temporary o fs, false)
  else
    match so_written o with
    | Some k => (write_states temporary text (Nat.min k (length text)) fs
                 ++ unlink_state temporary o (<[temporary := take k text]> fs), false)
    | None =>
      let full := <[temporary := text]> fs in
      let written := write_states temporary text (length text) fs in
      if negb (so_close o) || negb (so_replace o) then (written ++ unlink_state temporary o full, false)
      else
        let replaced := <[path := text]> (delete temporary full) in
        (written ++ [replaced] ++ unlink_state temporary o replaced, so_unlink o)
    end.

(** The text saved: the sorted profile and a newline. *)
Definition profile_file (dumped : pystr) : pystr := dumped ++ [10].

(** [--import-timings-suite]: the exit status and the file systems; [None] is
    a usage error.  [profile] is the complete profile of the retained suite,
    if it could be read and has one, as the text dumped. *)
Definition import_suite (mode target : option pystr) (binaries : list pystr) (output cached : option pystr)
    (profile : option pystr) (nonce : pystr) (o : SaveOutcome) (fs : files) : option (Z * list files) :=
  match mode, target, binaries, cached with
  | Some _, Some _, [], Some cached =>
    match profile with
    | None => Some (1, [])
    | Some dumped =>
      let destination := from_opt cached output in
      if is_someb output && is_someb (fs !! destination) then Some (1, [])
      else
        let '(states, ok) := save_profile destination nonce (profile_file dumped) o fs in
        Some (if ok then 0 else 1, states)
    end
  | _, _, _, _ => None
  end.

(** ** Atomic replacement *)

Lemma temporary_ne path nonce : temporary_of path nonce ≠ path.
Proof.
  unfold temporary_of. intros E. apply (f_equal length) in E. rewrite !length_app in E.
  assert (length (u ".") = 1%nat) by (vm_compute; reflexivity). lia.
Qed.

(** What a state may be: only the temporary file differs, or the target is the
    complete new text as well. *)
Definition old_state (path temporary : pystr) (fs x : files) : Prop :=
  ∀ p, p ≠ temporary → x !! p = fs !! p.
Definition new_state (path temporary text : pystr) (fs x : files) : Prop :=
  x !! path = Some text ∧ x !! temporary = None ∧ ∀ p, p ≠ temporary → p ≠ path → x !! p = fs !! p.

Lemma write_states_old path temporary text k fs :
  Forall (old_state path temporary fs) (write_states temporary text k fs).
Proof.
  unfold write_states. apply Forall_fmap, Forall_forall. intros i _ p Hp. by rewrite lookup_insert_ne.
Qed.

Lemma unlink_old path temporary o fs x : old_state path temporary fs x →
  Forall (old_state path temporary fs) (unlink_state temporary o x).
Proof.
  intros H. unfold unlink_state. destruct (so_unlink o); constructor; [|done].
  intros p Hp. rewrite lookup_delete_ne by done. by apply H.
Qed.

Lemma insert_old path temporary text fs : old_state path temporary fs (<[temporary := text]> fs).
Proof. intros p Hp. by rewrite lookup_insert_ne. Qed.

(** C26: Saving a profile replaces it atomically.  Whichever step fails and
    wherever the process is killed, every state of the file system has either
    the old target, or the complete new text as target and no temporary file,
    and no other file is ever touched.  When the save returns, the last state
    has the new text; when a step fails and the clean-up succeeds, no temporary
    file is left. *)
Theorem save_atomic path nonce text o fs :
  let '(states, ok) := save_profile path nonce text o fs in
  let temporary := temporary_of path nonce in
  Forall (λ x, old_state path temporary fs x ∨ new_state path temporary text fs x) states
  ∧ (ok = true → ∃ x, last states = Some x ∧ new_state path temporary text fs x)
  ∧ (so_unlink o = true → ∀ x, last states = Some x → x !! temporary = None).
Proof.
  unfold save_profile. cbv zeta. set (temporary := temporary_of path nonce).
  assert (Hne : temporary ≠ path) by apply temporary_ne.
  assert (Hold : ∀ l, Forall (old_state path temporary fs) l →
    Forall (λ x, old_state path temporary fs x ∨ new_state path temporary text fs x) l).
  { intros l H. eapply Forall_impl; [exact H|]. by left. }
  assert (Hlast : ∀ l y, so_unlink o = true → ∀ x, last (l ++ unlink_state temporary o y) = Some x → x !! temporary = None).
  { intros l y Hu x. unfold unlink_state. rewrite Hu, last_snoc. intros [= <-]. apply lookup_delete_eq. }
  destruct (so_mkdir o); cbn [negb]; [|done].
  destruct (is_someb (fs !! temporary) || negb (so_open o)).
  { split; [apply Hold, unlink_old; by intros p|]. split; [done|]. intros Hu. apply (Hlast [] fs Hu). }
  destruct (so_written o) as [k|].
  { split; [apply Hold, Forall_app; split; [apply write_states_old|apply unlink_old, insert_old]|].
    split; [done|]. intros Hu. by apply Hlast. }
  destruct (negb (so_close o) || negb (so_replace o)).
  { split; [apply Hold, Forall_app; split; [apply write_states_old|apply unlink_old, insert_old]|].
    split; [done|]. intros Hu. by apply Hlast. }
  set (replaced := <[path := text]> (delete temporary (<[temporary := text]> fs))).
  assert (Hr : new_state path temporary text fs replaced).
  { unfold replaced. split; [apply lookup_insert_eq|].
    split; [rewrite lookup_insert_ne by done; apply lookup_delete_eq|].
    intros p H1 H2. by rewrite lookup_insert_ne, lookup_delete_ne, lookup_insert_ne by done. }
  assert (Hru : ∀ x, x ∈ unlink_state temporary o replaced → new_state path temporary text fs x).
  { intros x. unfold unlink_state. destruct (so_unlink o); [|by intros ?%elem_of_nil].
    intros ->%list_elem_of_singleton. destruct Hr as (R1 & R2 & R3). split; [by rewrite lookup_delete_ne|].
    split; [apply lookup_delete_eq|]. intros p H1 H2. rewrite lookup_delete_ne by done. by apply R3. }
  split.
  - apply Forall_app. split; [apply Hold, write_states_old|]. constructor; [by right|].
    apply Forall_forall. intros x Hx. right. by apply Hru.
  - split.
    + intros Hu. exists (delete temporary replaced). rewrite app_assoc. unfold unlink_state. rewrite Hu, last_snoc.
      split; [done|]. apply Hru. unfold unlink_state. rewrite Hu. left.
    + intros Hu x. rewrite app_assoc. by apply Hlast.
Qed.

(** An explicit output that exists is never replaced. *)
Lemma import_keeps mode target output cached profile nonce o fs code states :
  import_suite mode target [] (Some output) cached profile nonce o fs = Some (code, states) →
  is_Some (fs !! output) → code = 1 ∧ states = [].
Proof.
  intros E [x Hx]. unfold import_suite in E. destruct mode, target, cached; try done.
  destruct profile; [|by injection E as <- <-]. cbn [is_someb from_opt andb] in E. rewrite Hx in E.
  by injection E as <- <-.
Qed.

(** A write that fails after three characters, and a complete save. *)
Example save_examples :
  let fs : files := {[ u "p.json" := u "old" ]} in
  let failed := save_profile (u "p.json") (u "ab") (u "new text") (mkSave true true (Some 3%nat) true true true) fs in
  let good := save_profile (u "p.json") (u "ab") (u "new text") (mkSave true true None true true true) fs in
  failed.2 = false ∧ (λ x : files, x !! u "p.json") <$> last failed.1 = Some (Some (u "old"))
  ∧ good.2 = true ∧ (λ x : files, x !! u "p.json") <$> last good.1 = Some (Some (u "new text"))
  ∧ (length failed.1 = 5)%nat.
Proof. vm_compute. repeat split. Qed.
