(* ===== verification/Evidence.v ===== *)
(** * From the test runner to the gate ledger

    tools/parallel_tests.py prints one summary line per artifact and one for
    the suite; tools/gate_ledger.py reads them back from the log of the gate.
    Reading what was printed gives the counts of the run. *)

From S2P Require Import Prelude PyStr PyFloat Regex Json GateLedger ParallelTests GateLedgerSpec ParallelSpec.

(** ** Matching printed text *)

(** The last character read. *)
Definition last_read (prev : option Z) (w : pystr) : option Z :=
  match last w with Some c => Some c | None => prev end.

Lemma last_read_cons prev c w : last_read (Some c) w = last_read prev (c :: w).
Proof. unfold last_read. rewrite last_cons. by destruct (last w). Qed.

Lemma run_lit s : ∀ k prev r caps x,
  k (Mst (last_read prev s) r caps) = Some x → rm (lit s) k (Mst prev (s ++ r) caps) = Some x.
Proof.
  induction s as [|c [|c' s] IH]; intros k prev r caps x H; [done| |].
  - simpl. rewrite Z.eqb_refl. exact H.
  - change (lit (c :: c' :: s)) with (RSeq (RChr (Z.eqb c)) (lit (c' :: s))).
    cbn [rm m_rest app]. rewrite Z.eqb_refl. apply IH.
    by rewrite (last_read_cons prev).
Qed.

Lemma run_upto n d : ∀ k prev r caps x,
  (length d ≤ n)%nat → Forall (λ c, is_ascii_digit c = true) d → number_stop r →
  k (Mst (last_read prev d) r caps) = Some x →
  rm (upto n (RChr d09)) k (Mst prev (d ++ r) caps) = Some x.
Proof.
  revert d. induction n as [|n IH]; intros [|c d] k prev r caps x Hl Hd Hr H; simpl in Hl; try lia.
  - exact H.
  - simpl. destruct r as [|c r]; [exact H|]. simpl in Hr. change (d09 c) with (is_ascii_digit c). by rewrite Hr.
  - inversion Hd as [|? ? Hc Hd']; subst. cbn [upto rm m_rest app].
    change (d09 c) with (is_ascii_digit c). rewrite Hc. cbn [m_caps].
    rewrite (IH d k (Some c) r caps x); [done|lia|done|done|]. by rewrite (last_read_cons prev).
Qed.

Lemma run_num20 d k prev r caps x :
  (0 < length d ≤ 20)%nat → Forall (λ c, is_ascii_digit c = true) d → number_stop r →
  k (Mst (last_read prev d) r caps) = Some x →
  rm num20 k (Mst prev (d ++ r) caps) = Some x.
Proof.
  intros Hl Hd Hr H. destruct d as [|c d]; [simpl in Hl; lia|]. inversion Hd as [|? ? Hc Hd']; subst.
  unfold num20, rep. cbn [times rm m_rest app]. change (d09 c) with (is_ascii_digit c). rewrite Hc.
  cbn [m_caps].
  apply (run_upto 19); [simpl in Hl; lia|done|done|]. by rewrite (last_read_cons prev).
Qed.

(** A number of at most twenty digits. *)
Definition small (z : Z) : Prop := 0 ≤ z < 10 ^ 20.

Lemma run_group n z k prev r caps x :
  small z → number_stop r →
  k (Mst (last_read prev (dec z)) r ((n, dec z) :: caps)) = Some x →
  rm (RGroup n num20) k (Mst prev (dec z ++ r) caps) = Some x.
Proof.
  intros Hz Hr H. cbn [rm].
  apply run_num20; [apply (dec_length z 20); [exact Hz|lia]|apply dec_chars, Hz|done|].
  unfold add_cap. cbn [m_prev m_rest m_caps].
  by rewrite (consumed_app (dec z)).
Qed.

(** The same steps inside a sequence. *)
Lemma seq_lit s r' k prev r caps x :
  rm r' k (Mst (last_read prev s) r caps) = Some x →
  rm (RSeq (lit s) r') k (Mst prev (s ++ r) caps) = Some x.
Proof. intros H. exact (run_lit s (rm r' k) prev r caps x H). Qed.

Lemma seq_group n z r' k prev r caps x :
  small z → number_stop r →
  rm r' k (Mst (last_read prev (dec z)) r ((n, dec z) :: caps)) = Some x →
  rm (RSeq (RGroup n num20) r') k (Mst prev (dec z ++ r) caps) = Some x.
Proof. intros Hz Hr H. exact (run_group n z (rm r' k) prev r caps x Hz Hr H). Qed.

(** The text after a number starts with the given character. *)
Lemma stop_lit s r : number_stop s → s ≠ [] → number_stop (s ++ r).
Proof. by destruct s. Qed.

(** A literal of the printer is the literal of the reader. *)
Lemma lit_bytes s : utf8_decode (bs s) = bs s → u s = bs s.
Proof. intros H. exact H. Qed.

(** ** One summary line *)

(** The values of a summary line. *)
Definition values_ok (v : Parallel) : Prop :=
  small (p_discovered v) ∧ small (p_executed v) ∧ small (p_passed v) ∧ small (p_skipped v)
  ∧ small (p_failed v) ∧ small (p_leaked v) ∧ small (p_errors v) ∧ p_complete v = 1.

Definition values_text (v : Parallel) : pystr :=
  u "discovered=" ++ dec (p_discovered v) ++ u " executed=" ++ dec (p_executed v)
  ++ u " passed=" ++ dec (p_passed v) ++ u " skipped=" ++ dec (p_skipped v)
  ++ u " failed=" ++ dec (p_failed v) ++ u " leaked=" ++ dec (p_leaked v)
  ++ u " log_errors=" ++ dec (p_errors v) ++ u " complete=" ++ u "1".

Definition full_match (st : mst) : option mst := match m_rest st with [] => Some st | _ => None end.

(** The groups of a matched line, latest first. *)
Definition line_caps (i : pystr) (v : Parallel) : list (nat * pystr) :=
  [(9%nat, [49]); (8%nat, dec (p_errors v)); (7%nat, dec (p_leaked v)); (6%nat, dec (p_failed v));
   (5%nat, dec (p_skipped v)); (4%nat, dec (p_passed v)); (3%nat, dec (p_executed v));
   (2%nat, dec (p_discovered v)); (1%nat, i)].

Lemma caps_parallel prev rest i v : values_ok v →
  parallel_of (Mst prev rest (line_caps i v)) = v.
Proof.
  intros (H1 & H2 & H3 & H4 & H5 & H6 & H7 & H8). unfold parallel_of, int_group, group_, group.
  cbn [m_caps line_caps assoc_nat Nat.eqb from_opt].
  rewrite !bint_dec by (unfold small in *; lia). cbn [from_opt].
  change (bint [49]) with (Some 1). cbn [from_opt]. rewrite <-H8. by destruct v.
Qed.

Ltac field := apply seq_lit; apply seq_group; [done|apply stop_lit; [vm_compute; reflexivity|done]|].

Lemma run_complete prev caps :
  ∃ p, rm (RSeq (lit (bs " complete=")) (RGroup 9 (RChr (one_of (bs "01"))))) full_match
    (Mst prev (bs " complete=" ++ [49]) caps) = Some (Mst p [] ((9%nat, [49]) :: caps)).
Proof. eexists. apply seq_lit. reflexivity. Qed.

Lemma bs_one : bs "1" = [49].
Proof. vm_compute; reflexivity. Qed.

Lemma run_fields v prev i : values_ok v →
  ∃ p, rm PARALLEL_FIELDS full_match (Mst prev (values_text v) [(1%nat, i)])
       = Some (Mst p [] (line_caps i v)).
Proof.
  intros (H1 & H2 & H3 & H4 & H5 & H6 & H7 & H8). unfold values_text, PARALLEL_FIELDS.
  rewrite !lit_bytes, bs_one by (vm_compute; reflexivity).
  edestruct run_complete as [p Hp]. exists p. do 7 field. exact Hp.
Qed.

Definition line_text (prefix : pystr) (i : Z) (v : Parallel) : pystr :=
  prefix ++ dec i ++ u " " ++ values_text v.

Lemma run_line prefix i v : small i → values_ok v →
  ∃ m, rfullmatch (RSeq (lit prefix) (RSeq (RGroup 1 num20) (RSeq (lit (bs " ")) PARALLEL_FIELDS)))
         (line_text prefix i v) = Some m
       ∧ int_group m 1 = i ∧ parallel_of m = v.
Proof.
  intros Hi Hv. unfold line_text. rewrite (lit_bytes " ") by (vm_compute; reflexivity).
  destruct (run_fields v (last_read (last_read (last_read None prefix) (dec i)) (bs " ")) (dec i) Hv)
    as (p & Hm).
  eexists. split.
  - apply seq_lit, seq_group; [done|apply stop_lit; [vm_compute; reflexivity|done]|].
    apply seq_lit. exact Hm.
  - split; [|by apply caps_parallel]. unfold int_group, group_, group.
    cbn [m_caps line_caps assoc_nat Nat.eqb from_opt]. by rewrite bint_dec by apply Hi.
Qed.

(** ** The summaries of a suite *)

Definition tot (m : Metadata) (i : nat) : Z := from_opt 0 (totals m !! i).
Definition suite_tot (ms : list Metadata) (i : nat) : Z := sum_Z ((λ m, tot m i) <$> ms).

(** The values printed for one artifact, and for the suite. *)
Definition values_of (m : Metadata) : Parallel :=
  mkParallel (discovered m) (tot m 0 + tot m 1 + tot m 2) (tot m 0) (tot m 1) (tot m 2) (tot m 3)
    (tot m 4) (if complete m then 1 else 0).

Definition suite_values (ms : list Metadata) : Parallel :=
  mkParallel (suite_discovered ms) (suite_tot ms 0 + suite_tot ms 1 + suite_tot ms 2)
    (suite_tot ms 0) (suite_tot ms 1) (suite_tot ms 2) (suite_tot ms 3) (suite_tot ms 4)
    (if suite_complete ms then 1 else 0).

Definition artifact_prefix : pybytes := bs "parallel artifact summary: index=".
Definition suite_prefix : pybytes := bs "parallel suite summary: artifacts=".

Lemma artifact_line_text i m : complete m = true →
  artifact_line i m = line_text artifact_prefix (Z.of_nat i) (values_of m).
Proof.
  intros Hc. unfold artifact_line, line_text, artifact_prefix, fields_text, values_text, tot.
  rewrite Hc. rewrite (lit_bytes "parallel artifact summary: index=") by (vm_compute; reflexivity).
  reflexivity.
Qed.

Lemma suite_line_text ms : suite_complete ms = true →
  suite_line ms = line_text suite_prefix (Z.of_nat (length ms)) (suite_values ms).
Proof.
  intros Hc. unfold suite_line, line_text, suite_prefix, fields_text, values_text, suite_totals.
  rewrite Hc. rewrite (lit_bytes "parallel suite summary: artifacts=") by (vm_compute; reflexivity).
  reflexivity.
Qed.

(** The reader tells the two kinds of line apart. *)
Lemma artifact_kind i v :
  is_artifact (line_text artifact_prefix i v) = true ∧ is_suite (line_text artifact_prefix i v) = false.
Proof.
  unfold line_text. generalize (dec i ++ u " " ++ values_text v). intros r.
  split; vm_compute; reflexivity.
Qed.

Lemma suite_kind i v :
  is_artifact (line_text suite_prefix i v) = false ∧ is_suite (line_text suite_prefix i v) = true.
Proof.
  unfold line_text. generalize (dec i ++ u " " ++ values_text v). intros r.
  split; vm_compute; reflexivity.
Qed.

(** An artifact whose line is accepted. *)
Definition good (m : Metadata) : Prop :=
  complete m = true ∧ values_ok (values_of m) ∧ discovered m = tot m 0 + tot m 1 + tot m 2.

Lemma artifact_values_lines ms : ∀ k, Forall good ms →
  Z.of_nat (k + length ms) < 10 ^ 20 →
  artifact_values (Z.of_nat k) (imap (λ i, artifact_line (k + i)) ms) = Some (values_of <$> ms).
Proof.
  induction ms as [|m ms IH]; intros k Hg Hk; [done|].
  inversion Hg as [|? ? (Hc & Hv & Hd) Hg']; subst. cbn [imap artifact_values].
  rewrite Nat.add_0_r, artifact_line_text by done.
  assert (Hi : small (Z.of_nat k)) by (unfold small; simpl length in Hk; lia).
  destruct (run_line artifact_prefix (Z.of_nat k) (values_of m) Hi Hv) as (st & Hm & H1 & Hp).
  change PARALLEL_ARTIFACT with (RSeq (lit artifact_prefix)
    (RSeq (RGroup 1 num20) (RSeq (lit (bs " ")) PARALLEL_FIELDS))).
  rewrite Hm, H1, Hp. cbv zeta. unfold values_of at 1 2 3 4 5 6 7. cbn [p_complete p_discovered p_executed p_passed p_skipped p_failed].
  rewrite Hc, Hd, !Z.eqb_refl. cbn [negb orb].
  assert (E : imap ((λ i, artifact_line (k + i)) ∘ S) ms = imap (λ i, artifact_line (S k + i)) ms).
  { apply imap_ext. intros i x _. simpl. by rewrite Nat.add_succ_r. }
  rewrite E. replace (Z.of_nat k + 1) with (Z.of_nat (S k)) by lia.
  rewrite IH; [done|done|]. simpl length in Hk. lia.
Qed.

Lemma sums_suite ms : Forall good ms → sums_match (values_of <$> ms) (suite_values ms) = true.
Proof.
  intros _. unfold sums_match, suite_values, suite_discovered, suite_tot.
  cbn [p_discovered p_executed p_passed p_skipped p_failed p_leaked p_errors].
  assert (Hs : ∀ (f : Parallel → Z) (g : Metadata → Z), (∀ m, f (values_of m) = g m) →
    psum f (values_of <$> ms) = sum_Z (g <$> ms)).
  { intros f g Hfg. induction ms as [|m l IH]; [done|].
    rewrite !fmap_cons. unfold psum, sum_Z in *. simpl. by rewrite IH, Hfg. }
  assert (He : sum_Z ((λ m, tot m 0 + tot m 1 + tot m 2) <$> ms) =
    sum_Z ((λ m, tot m 0) <$> ms) + sum_Z ((λ m, tot m 1) <$> ms) + sum_Z ((λ m, tot m 2) <$> ms)).
  { clear Hs. induction ms as [|m l IH]; [done|]. rewrite !fmap_cons. unfold sum_Z in *. simpl. lia. }
  rewrite (Hs p_discovered discovered), (Hs p_executed (λ m, tot m 0 + tot m 1 + tot m 2)),
    (Hs p_passed (λ m, tot m 0)), (Hs p_skipped (λ m, tot m 1)), (Hs p_failed (λ m, tot m 2)),
    (Hs p_leaked (λ m, tot m 3)), (Hs p_errors (λ m, tot m 4)), He by done.
  by rewrite !Z.eqb_refl.
Qed.

Lemma filter_sub {A} (f g : A → bool) l : (∀ x, f x = true → g x = true) →
  List.filter f (List.filter g l) = List.filter f l.
Proof.
  intros H. induction l as [|x l IH]; [done|]. simpl. destruct (g x) eqn:E; simpl.
  - by rewrite IH.
  - destruct (f x) eqn:F; [apply H in F; congruence|done].
Qed.

Lemma filter_lines ms : Forall good ms → suite_complete ms = true →
  List.filter is_artifact (artifact_lines ms ++ [suite_line ms]) = artifact_lines ms
  ∧ List.filter is_suite (artifact_lines ms ++ [suite_line ms]) = [suite_line ms].
Proof.
  intros Hg Hc. rewrite suite_line_text by done. rewrite !List.filter_app. cbn [List.filter].
  destruct (suite_kind (Z.of_nat (length ms)) (suite_values ms)) as [-> ->].
  assert (H : ∀ l : list pystr, Forall (λ x, is_artifact x = true ∧ is_suite x = false) l →
    List.filter is_artifact l = l ∧ List.filter is_suite l = []).
  { induction 1 as [|x l [H1 H2] _ [IH1 IH2]]; [done|]. simpl. by rewrite H1, H2, IH1, IH2. }
  destruct (H (artifact_lines ms)) as [-> ->]; [|by rewrite app_nil_r].
  apply Forall_forall. intros x (i & m & -> & Hm)%elem_of_lookup_imap.
  rewrite Forall_forall in Hg. destruct (Hg m (list_elem_of_lookup_2 _ _ _ Hm)) as (Hcm & _).
  rewrite artifact_line_text by done. apply artifact_kind.
Qed.

(** Reading back the summaries of a suite of accepted artifacts. *)
Lemma read_summaries raw ms :
  ms ≠ [] → Z.of_nat (length ms) < 10 ^ 20 → Forall good ms → suite_complete ms = true →
  values_ok (suite_values ms) →
  List.filter (λ l, is_suite l || is_artifact l) (bsplitlines raw) = artifact_lines ms ++ [suite_line ms] →
  parallel_counts raw =
  Some (mkCounts (u "parallel_full_suite") (u "parallel_suite_summary") (suite_tot ms 0)
          (Some (suite_discovered ms)) (suite_tot ms 1) (suite_tot ms 2) (Some 0)
          (Some (suite_tot ms 3)) (Some (suite_tot ms 4))).
Proof.
  intros Hne Hlen Hg Hc Hv Hraw.
  assert (Ha : List.filter is_artifact (bsplitlines raw)
    = List.filter is_artifact (artifact_lines ms ++ [suite_line ms])).
  { rewrite <-Hraw. symmetry. apply filter_sub. intros x ->. apply orb_true_r. }
  assert (Hz : (Z.of_nat (length ms) =? 0) = false)
    by (clear -Hne; apply Z.eqb_neq; destruct ms; [done|cbn [length]; lia]).
  unfold parallel_counts. cbv zeta. rewrite Hraw, Ha. destruct (filter_lines ms Hg Hc) as [-> ->].
  rewrite last_snoc, bool_decide_eq_true_2 by done. cbn [negb].
  assert (Hs : small (Z.of_nat (length ms))) by (unfold small; lia).
  destruct (run_line suite_prefix (Z.of_nat (length ms)) (suite_values ms) Hs Hv) as (st & Hm & H1 & Hp).
  rewrite suite_line_text by done.
  change PARALLEL_SUITE with (RSeq (lit suite_prefix)
    (RSeq (RGroup 1 num20) (RSeq (lit (bs " ")) PARALLEL_FIELDS))).
  rewrite Hm, H1, Hp. unfold artifact_lines. rewrite length_imap, Z.eqb_refl.
  rewrite Hz. cbn [negb orb].
  assert (artifact_values 0 (imap artifact_line ms) = Some (values_of <$> ms)) as ->
    by exact (artifact_values_lines ms 0 Hg Hlen).
  rewrite sums_suite by done. unfold suite_values. cbn. by rewrite Hc.
Qed.

(** A line that summarises the tests in one of the two other formats. *)
Definition other_summary (l : pybytes) : Prop :=
  (startswith l (bs "Build Summary:") = true ∧ contains l (bs "tests passed") = true)
  ∨ startswith l (bs "verbose test summary:") = true.

Lemma filter_none {A} (f : A → bool) l : (∀ x, x ∈ l → f x = false) → List.filter f l = [].
Proof.
  induction l as [|x l IH]; intros H; [done|]. simpl. rewrite (H x) by apply list_elem_of_here.
  apply IH. intros y Hy. apply H. by apply list_elem_of_further.
Qed.

Lemma filter_some {A} (f : A → bool) l x : x ∈ l → f x = true → List.filter f l ≠ [].
Proof.
  intros Hx%list_elem_of_In Hf He. assert (H : In x (List.filter f l)) by (by apply List.filter_In).
  by rewrite He in H.
Qed.

(** [test_counts] of a log that holds a parallel summary: the parallel counts
    when the log is small enough and has no other summary, nothing otherwise. *)
Lemma test_counts_parallel raw x :
  x ∈ List.filter (λ l, is_suite l || is_artifact l) (bsplitlines raw) →
  (Z.of_nat (length raw) ≤ COUNT_LOG_LIMIT → (∀ l, l ∈ bsplitlines raw → ¬ other_summary l) →
     test_counts raw = parallel_counts raw)
  ∧ (COUNT_LOG_LIMIT < Z.of_nat (length raw) ∨ (∃ l, l ∈ bsplitlines raw ∧ other_summary l) →
     test_counts raw = None).
Proof.
  intros Hx. assert (He : existsb (λ l, is_suite l || is_artifact l) (bsplitlines raw) = true).
  { apply existsb_exists. exists x. apply (List.filter_In (λ l, is_suite l || is_artifact l)). by apply list_elem_of_In. }
  unfold test_counts. rewrite He. split.
  - intros Hlen Hno. rewrite (proj2 (Z.ltb_ge _ _)) by done.
    rewrite (filter_none (λ l, startswith l (bs "Build Summary:") && contains l (bs "tests passed"))).
    2: { intros l Hl. specialize (Hno l Hl). unfold other_summary in Hno.
         destruct (startswith l (bs "Build Summary:")), (contains l (bs "tests passed")); tauto. }
    rewrite (filter_none (λ l, startswith l (bs "verbose test summary:"))); [done|].
    intros l Hl. specialize (Hno l Hl). unfold other_summary in Hno.
    destruct (startswith l (bs "verbose test summary:")); tauto.
  - intros [Hlen|(l & Hl & Ho)]; [by rewrite (proj2 (Z.ltb_lt _ _))|].
    destruct (_ <? _); [done|]. destruct Ho as [[Ha Hb]|Hv].
    + pose proof (filter_some (λ l, startswith l (bs "Build Summary:") && contains l (bs "tests passed"))
        _ _ Hl ltac:(cbn beta; by rewrite Ha, Hb)) as Hf.
      by destruct (List.filter (λ l, startswith l (bs "Build Summary:") && _) _).
    + pose proof (filter_some (λ l, startswith l (bs "verbose test summary:")) _ _ Hl Hv) as Hf.
      destruct (List.filter (λ l, startswith l (bs "Build Summary:") && _) _); [|done].
      by destruct (List.filter (λ l, startswith l (bs "verbose test summary:")) _).
Qed.

(** C7: Print and parse: when the runs of the test runner all completed and
    the lines of a log that start like a parallel summary are exactly the ones
    the runner prints for them, the gate ledger reads the counts of the runs
    back from the log - provided the log has at most 16 MiB and no line that
    summarises the tests in another format (a build or a verbose summary);
    otherwise it reports no counts.  Other output around the summaries does
    not matter.  The counters have at most twenty digits. *)
Theorem summary_evidence raw ms :
  ms ≠ [] → Z.of_nat (length ms) < 10 ^ 20 →
  Forall (λ m, ∃ list_tests exec j code, run list_tests exec j = inr (code, m)) ms →
  suite_complete ms = true →
  Forall (λ m, values_ok (values_of m)) ms → values_ok (suite_values ms) →
  List.filter (λ l, is_suite l || is_artifact l) (bsplitlines raw) = artifact_lines ms ++ [suite_line ms] →
  (Z.of_nat (length raw) ≤ COUNT_LOG_LIMIT → (∀ l, l ∈ bsplitlines raw → ¬ other_summary l) →
   test_counts raw =
   Some (mkCounts (u "parallel_full_suite") (u "parallel_suite_summary") (suite_tot ms 0)
          (Some (suite_discovered ms)) (suite_tot ms 1) (suite_tot ms 2) (Some 0)
          (Some (suite_tot ms 3)) (Some (suite_tot ms 4))))
  ∧ (COUNT_LOG_LIMIT < Z.of_nat (length raw) ∨ (∃ l, l ∈ bsplitlines raw ∧ other_summary l) →
     test_counts raw = None).
Proof.
  intros Hne Hlen Hruns Hc Hv Hs Hraw.
  destruct (test_counts_parallel raw (suite_line ms)) as [H1 H2].
  { rewrite Hraw. apply elem_of_app. right. by apply list_elem_of_singleton. }
  split; [|done]. intros Hl Ho. rewrite H1 by done. apply read_summaries; try done.
  apply Forall_forall. intros m Hm. rewrite Forall_forall in Hruns, Hv.
  destruct (Hruns m Hm) as (lt & ex & j & code & Hrun).
  assert (Hcm : complete m = true) by (by apply (proj1 (forallb_elem _ _) Hc)).
  split; [done|]. split; [by apply Hv|].
  destruct (run_complete_balanced _ _ _ _ _ Hrun Hcm) as (p & k & f & l & e & Ht & Hsum).
  unfold tot. rewrite Ht. simpl. lia.
Qed.

Lemma summary_evidence_witness :
  ∃ m raw c, run list0 exec0 job0 = inr (0, m) ∧ test_counts raw = Some c.
Proof.
  destruct (run list0 exec0 job0) as [e|[code m]] eqn:E; [vm_compute in E; discriminate|].
  assert (Hm : m = mkMetadata (u "ab") 2 2 (u "hash") None
    [([u "--test-shard-count=2"; u "--test-shard-index=0"; u "--seed=0"], 1);
     ([u "--test-shard-count=2"; u "--test-shard-index=1"; u "--seed=0"], 1)]
    (results m) [2; 0; 0; 0; 0] true).
  { clear -E. vm_compute in E. injection E as _ <-. vm_compute. reflexivity. }
  assert (Hc : code = 0) by (clear -E; vm_compute in E; congruence). subst code.
  assert (Hl : artifact_lines [m] ++ [suite_line [m]] = [
    u "parallel artifact summary: index=0 discovered=2 executed=2 passed=2 skipped=0 failed=0 leaked=0 log_errors=0 complete=1";
    u "parallel suite summary: artifacts=1 discovered=2 executed=2 passed=2 skipped=0 failed=0 leaked=0 log_errors=0 complete=1"]).
  { rewrite Hm. vm_compute. reflexivity. }
  assert (Hv : values_ok (values_of m)) by (rewrite Hm; repeat split; vm_compute; congruence).
  exists m, (bs "noise" ++ [10] ++ bs "parallel artifact summary: index=0 discovered=2 executed=2 passed=2 skipped=0 failed=0 leaked=0 log_errors=0 complete=1"
     ++ [10] ++ bs "parallel suite summary: artifacts=1 discovered=2 executed=2 passed=2 skipped=0 failed=0 leaked=0 log_errors=0 complete=1" ++ [10]).
  eexists. split; [reflexivity|]. eapply (summary_evidence _ [m]).
  - discriminate.
  - reflexivity.
  - constructor; [|constructor]. exists list0, exec0, job0, 0. exact E.
  - rewrite Hm. reflexivity.
  - constructor; [exact Hv|constructor].
  - rewrite Hm. repeat split; vm_compute; congruence.
  - rewrite Hl. vm_compute. reflexivity.
  - vm_compute. discriminate.
  - clear. intros l. rewrite list_elem_of_In. unfold other_summary.
    match goal with |- context [bsplitlines ?r] => let v := eval vm_compute in (bsplitlines r) in
      change (bsplitlines r) with v end.
    intros [<-|[<-|[<-|[]]]]; vm_compute; intros [[? ?]|?]; discriminate.
Defined.
