(* ===== verification/Delivery.v ===== *)
(** * tools/bench_live.py: the delivery ledger of the phase benchmark

    Line framing, the identity of benchmark messages, the ledger that checks
    that every message reaches every other client exactly once and in order,
    and the reader of one persistent client.  Clock readings are arguments. *)

From S2P Require Import Prelude PyStr PyBytes PyFloat.

Definition CHANNEL : pystr := u "#bench".

(** [PhaseFailure(text)] or a result. *)
Abbreviation failing A := (pystr + A)%type.

(** ** Framing *)

Definition CRLF : pybytes := [13; 10].

(** [LineFramer.feed] on the pending bytes: the complete lines and what is
    left pending. *)
Definition feed (pending chunk : pybytes) : failing (list pybytes * pybytes) :=
  let pending := pending ++ chunk in
  if 65536 <? Z.of_nat (length pending) then inl (u "receive buffer exceeded bound")
  else
    let parts := split CRLF pending in
    let lines := removelast parts in
    let pending := from_opt [] (last parts) in
    if existsb (λ line, 16384 <? Z.of_nat (length line)) lines
       || (16384 <? Z.of_nat (length pending))
    then inl (u "IRC line exceeded bound")
    else inr (lines, pending).

(** ** Observations *)

Record TlsObservation := mkTlsObservation {
  o_client : Z; o_version : option pystr; o_cipher : option pystr }.

Record TlsSummary := mkTlsSummary {
  ts_status : pystr; ts_values : list pystr; ts_unknown : Z }.

Definition summarize (expected_clients : Z) (values : list (option pystr)) : TlsSummary :=
  let known := sorted_set (list_to_set (omap id values)) in
  let unknown := expected_clients - Z.of_nat (length values)
                 + Z.of_nat (length (List.filter (λ v, negb (is_someb v)) values)) in
  mkTlsSummary
    (match known with
     | [] => u "unknown"
     | _ :: _ :: _ => u "mixed"
     | [_] => if unknown =? 0 then u "uniform" else u "partial"
     end) known unknown.

Definition phase_tls_summary (observations : list TlsObservation) (expected_clients : Z)
    : TlsSummary * TlsSummary :=
  (summarize expected_clients (o_version <$> observations),
   summarize expected_clients (o_cipher <$> observations)).

(** [percentile(values, q)] of tools/bench_sqpoll.py, where [q] is the float
    nearest to [num / den]. *)
Definition ceil_times (n num den : Z) : Z :=
  if n =? 0 then 0
  else
    let '(m, e) := float_div num den in
    let '(m', e') := float_div (n * m) (2 ^ (- e)) in
    if 0 <=? e' then m' * 2 ^ e' else - ((- m') / 2 ^ (- e')).

Definition percentile (values : list Z) (num den : Z) : option Z :=
  match values with
  | [] => None
  | _ => merge_sort Z.le values !!
           Z.to_nat (Z.max 0 (ceil_times (Z.of_nat (length values)) num den - 1))
  end.

Definition phase_latency_percentiles (latencies : list Z) : option Z * option Z * option Z :=
  (percentile latencies 5 10, percentile latencies 95 100, percentile latencies 99 100).

(** ** Message identity *)

(** [s.ljust(n, b"x")]. *)
Definition ljust_x (n : nat) (s : pybytes) : pybytes := s ++ replicate (n - length s) 120.

Definition phase_payload (run_id phase : pystr) (sender sequence : Z) : pybytes :=
  ljust_x 128 (utf8_encode (u "onyxbench:" ++ run_id ++ u ":" ++ phase ++ u ":" ++ dec sender
                            ++ u ":" ++ dec sequence ++ u ":")).

(** ** [asyncio.Event] *)

(** The flag, and the tasks that wait on a future not yet resolved. *)
Record Event := mkEvent { is_set : bool; waiters : list Z }.

Definition new_event : Event := mkEvent false [].

(** [set] resolves the futures only when it raises the flag. *)
Definition event_set (e : Event) : Event := if is_set e then e else mkEvent true [].

Definition event_clear (e : Event) : Event := mkEvent false (waiters e).

(** [wait] in [task]: whether it returns at once, else the task is queued. *)
Definition event_wait (task : Z) (e : Event) : bool * Event :=
  if is_set e then (true, e) else (false, mkEvent false (waiters e ++ [task])).

(** ** The ledger *)

Abbreviation stream := (pystr * Z * Z)%type.

Record DeliveryLedger := mkLedger {
  run_id : pystr;
  clients : Z;
  counts : gmap pystr Z;
  next : gmap stream Z;          (* (phase, sender, recipient) *)
  sent : gmap stream Z;          (* (phase, sender, sequence) to the time *)
  received : gmap pystr Z;
  latencies : gmap pystr (list Z);
  changed : Event }.

Definition new_ledger (run_id : pystr) (clients : Z) : DeliveryLedger :=
  mkLedger run_id clients ∅ ∅ ∅ ∅ ∅ new_event.

(** [range(n)]. *)
Definition range_ (n : Z) : list Z := Z.of_nat <$> seq 0 (Z.to_nat n).

(** The pairs of different clients, in the order of the loops. *)
Definition pairs (n : Z) : list (Z * Z) :=
  sender ← range_ n; recipient ← range_ n;
  if sender =? recipient then [] else [(sender, recipient)].

Definition add_phase (l : DeliveryLedger) (phase : pystr) (count : Z) : failing DeliveryLedger :=
  match counts l !! phase with
  | Some _ => inl (u "phase registered twice")
  | None =>
    inr (mkLedger (run_id l) (clients l) (<[phase := count]> (counts l))
           (foldl (λ m p, <[(phase, p.1, p.2) := 0]> m) (next l) (pairs (clients l)))
           (sent l) (<[phase := 0]> (received l)) (<[phase := []]> (latencies l)) (changed l))
  end.

Definition authored (now : Z) (l : DeliveryLedger) (phase : pystr) (sender sequence : Z)
    : failing DeliveryLedger :=
  match sent l !! (phase, sender, sequence) with
  | Some _ => inl (u "sender sequence reused")
  | None =>
    inr (mkLedger (run_id l) (clients l) (counts l) (next l)
           (<[(phase, sender, sequence) := now]> (sent l)) (received l) (latencies l) (changed l))
  end.

(** The identity fields of a payload: magic, run, phase, sender, sequence. *)
Definition payload_fields (payload : pybytes) : option (pybytes * pybytes * pystr * Z * Z) :=
  match split_max 5 (bs ":") payload with
  | [magic; run; phase_raw; sender_raw; sequence_raw; _] =>
    phase ← decode_ascii phase_raw; sender ← bint sender_raw; sequence ← bint sequence_raw;
    Some (magic, run, phase, sender, sequence)
  | _ => None
  end.

(** Strip message tags: [_, _, line = line.partition(b" ")]. *)
Definition untagged (line : pybytes) : pybytes :=
  if startswith line (bs "@") then (partition (bs " ") line).2 else line.

Definition command_of (line : pybytes) (parts : list pybytes) : pybytes :=
  if startswith line (bs ":") && Nat.ltb 1 (length parts)
  then from_opt [] (parts !! 1%nat) else from_opt [] (parts !! 0%nat).

(** The checks on a delivery and its effect. *)
Definition deliver (now : Z) (l : DeliveryLedger) (recipient : Z) (prefix payload : pybytes)
    : failing (bool * DeliveryLedger) :=
  match payload_fields payload with
  | None => inl (u "malformed message identity")
  | Some (magic, run, phase, sender, sequence) =>
    match counts l !! phase with
    | None => inl (u "unknown run or phase")
    | Some count =>
      if negb (str_eqb magic (bs "onyxbench")) || negb (str_eqb run (utf8_encode (run_id l)))
      then inl (u "unknown run or phase")
      else if negb ((0 <=? sender) && (sender <? clients l)) || (sender =? recipient)
              || negb ((0 <=? sequence) && (sequence <? count))
      then inl (u "unexpected sender/recipient/sequence")
      else if negb (str_eqb (from_opt [] (hd_error (split_max 1 (bs "!") prefix)))
                      (utf8_encode (u ":lb" ++ dec sender)))
      then inl (u "prefix does not match sender identity")
      else if negb (str_eqb payload (phase_payload (run_id l) phase sender sequence))
      then inl (u "payload changed")
      else
        match next l !! (phase, sender, recipient) with
        | None => inl (u "KeyError")
        | Some position =>
          if negb (sequence =? position) then inl (u "duplicate or reordered delivery")
          else
            match sent l !! (phase, sender, sequence) with
            | None => inl (u "delivery was not authored")
            | Some stamp =>
              inr (true,
                mkLedger (run_id l) (clients l) (counts l)
                  (<[(phase, sender, recipient) := position + 1]> (next l)) (sent l)
                  (<[phase := from_opt 0 (received l !! phase) + 1]> (received l))
                  (<[phase := from_opt [] (latencies l !! phase) ++ [now - stamp]]> (latencies l))
                  (event_set (changed l)))
            end
        end
    end
  end.

Definition receive (now : Z) (l : DeliveryLedger) (recipient : Z) (line : pybytes)
    : failing (bool * DeliveryLedger) :=
  let line := untagged line in
  let parts := split_max 3 (bs " ") line in
  if negb (str_eqb (bupper (command_of line parts)) (bs "PRIVMSG")) then inr (false, l)
  else
    match parts with
    | [prefix; _; target; rest] =>
      if negb (startswith line (bs ":")) || negb (str_eqb target (utf8_encode CHANNEL))
         || negb (startswith rest (bs ":"))
      then inl (u "unexpected PRIVMSG target/framing")
      else deliver now l recipient prefix (drop 1 rest)
    | _ => inl (u "unexpected PRIVMSG target/framing")
    end.

(** [complete] and [credit], for a registered phase. *)
Definition complete (l : DeliveryLedger) (phase : pystr) : bool :=
  from_opt 0 (received l !! phase)
  =? from_opt 0 (counts l !! phase) * clients l * (clients l - 1).

Definition credit (l : DeliveryLedger) (phase : pystr) (sender sequence window : Z) : bool :=
  forallb (λ recipient, (recipient =? sender)
             || (sequence - window <? from_opt 0 (next l !! (phase, sender, recipient))))
    (range_ (clients l)).

(** ** One client *)

Record PhaseClient := mkClient {
  c_index : Z;
  welcome : bool;
  joined : bool;
  pending_pongs : gmap pybytes bool;   (* [true]: the future is already done *)
  lines_sent : Z;
  framer : pybytes;
  written : list pybytes }.

Definition new_client (index : Z) : PhaseClient := mkClient index false false ∅ 0 [] [].

Definition send (c : PhaseClient) (line : pybytes) : failing PhaseClient :=
  if existsb (Z.eqb 13) line || existsb (Z.eqb 10) line || (510 <? Z.of_nat (length line))
  then inl (u "invalid outgoing IRC line")
  else inr (mkClient (c_index c) (welcome c) (joined c) (pending_pongs c) (lines_sent c + 1)
              (framer c) (written c ++ [line ++ CRLF])).

Definition is_numeric (s : pybytes) : bool := nonempty s && forallb is_ascii_digit s.

(** [line.rsplit(b" :", 1)[-1]]. *)
Definition after_last_colon (line : pybytes) : pybytes :=
  match rfind line (bs " :") with Some i => drop (i + 2) line | None => line end.

Definition set_welcome (c : PhaseClient) : PhaseClient :=
  mkClient (c_index c) true (joined c) (pending_pongs c) (lines_sent c) (framer c) (written c).
Definition set_joined (c : PhaseClient) : PhaseClient :=
  mkClient (c_index c) (welcome c) true (pending_pongs c) (lines_sent c) (framer c) (written c).
Definition set_pongs (p : gmap pybytes bool) (c : PhaseClient) : PhaseClient :=
  mkClient (c_index c) (welcome c) (joined c) p (lines_sent c) (framer c) (written c).
Definition set_framer (f : pybytes) (c : PhaseClient) : PhaseClient :=
  mkClient (c_index c) (welcome c) (joined c) (pending_pongs c) (lines_sent c) f (written c).

Definition read_line (now : Z) (c : PhaseClient) (l : DeliveryLedger) (line : pybytes)
    : failing (PhaseClient * DeliveryLedger) :=
  let words := split_max 1 (bs " ") line in
  if str_eqb (bupper (from_opt [] (hd_error words))) (bs "PING") then
    match words with
    | [_; token] => match send c (bs "PONG " ++ token) with
                    | inl e => inl e
                    | inr c => inr (c, l)
                    end
    | _ => inl (u "malformed PING")
    end
  else
    let fields := split (bs " ") line in
    let command := bupper (command_of line fields) in
    if str_eqb command (bs "ERROR")
       || (is_numeric command && (400 <=? from_opt 0 (bint command)) && negb (str_eqb command (bs "422")))
    then inl (u "daemon returned protocol error")
    else if str_eqb command (bs "001") then inr (set_welcome c, l)
    else if str_eqb command (bs "366") && mem (utf8_encode CHANNEL) fields then inr (set_joined c, l)
    else if str_eqb command (bs "PONG") then
      let marker := after_last_colon line in
      match pending_pongs c !! marker with
      | Some false => inr (set_pongs (delete marker (pending_pongs c)) c, l)
      | _ => inl (u "unexpected or duplicated PONG barrier")
      end
    else
      match receive now l (c_index c) line with
      | inl e => inl e
      | inr (_, l) => inr (c, l)
      end.

Fixpoint read_lines (now : Z) (c : PhaseClient) (l : DeliveryLedger) (lines : list pybytes)
    : failing (PhaseClient * DeliveryLedger) :=
  match lines with
  | [] => inr (c, l)
  | line :: lines' =>
    match read_line now c l line with
    | inl e => inl e
    | inr (c, l) => read_lines now c l lines'
    end
  end.

(** One chunk of [read]; an empty chunk is a disconnect. *)
Definition read_chunk (now : Z) (c : PhaseClient) (l : DeliveryLedger) (chunk : pybytes)
    : failing (PhaseClient * DeliveryLedger) :=
  match chunk with
  | [] => inl (u "persistent client disconnected")
  | _ =>
    match feed (framer c) chunk with
    | inl e => inl e
    | inr (lines, pending) => read_lines now (set_framer pending c) l lines
    end
  end.

(** [barrier] up to the wait for its future. *)
Definition barrier (c : PhaseClient) (marker : pybytes) : failing PhaseClient :=
  match pending_pongs c !! marker with
  | Some _ => inl (u "barrier reused")
  | None => send (set_pongs (<[marker := false]> (pending_pongs c)) c) (bs "PING :" ++ marker)
  end.
