(* ===== verification/DeliverySpec.v ===== *)
(** * tools/bench_live.py: properties of the delivery ledger

    Framing does not depend on how the stream is cut into chunks; a phase is
    complete exactly when every message of every sender has reached every
    other client once and in order; an honest delivery is accepted. *)

From S2P Require Import Prelude PyStr PyBytes PyFloat Json Delivery.

(** ** Framing *)

(** Feed chunks one after the other. *)
Fixpoint feeds (pending : pybytes) (chunks : list pybytes) : failing (list pybytes * pybytes) :=
  match chunks with
  | [] => inr ([], pending)
  | chunk :: chunks' =>
    match feed pending chunk with
    | inl e => inl e
    | inr (lines, pending) =>
      match feeds pending chunks' with
      | inl e => inl e
      | inr (lines', pending) => inr (lines ++ lines', pending)
      end
    end
  end.

Lemma crlf_nonnil : CRLF ≠ [].
Proof. done. Qed.

Lemma removelast_snoc_split s :
  split CRLF s = removelast (split CRLF s) ++ [from_opt [] (last (split CRLF s))].
Proof.
  pose proof (split_nonnil CRLF s). destruct (split CRLF s) as [|x l] using rev_ind; [done|].
  by rewrite last_snoc, removelast_last.
Qed.

Lemma feed_split pending chunk lines pending' :
  feed pending chunk = inr (lines, pending') →
  split CRLF (pending ++ chunk) = lines ++ [pending']
  ∧ Forall (λ l, Z.of_nat (length l) ≤ 16384) (lines ++ [pending']).
Proof.
  unfold feed. destruct (_ <? _); [done|]. cbv zeta. destruct (_ || _) eqn:E; [done|].
  intros [= <- <-]. split; [apply removelast_snoc_split|]. bool_hyps. apply Forall_snoc; [|lia].
  apply Forall_forall. intros l Hl. apply Z.ltb_ge, not_true_is_false. intros Hx.
  assert (existsb (λ line, 16384 <? Z.of_nat (length line))
    (removelast (split CRLF (pending ++ chunk))) = true) by (apply existsb_elem; eauto).
  congruence.
Qed.

Lemma feeds_split chunks : ∀ pending lines pending',
  split CRLF pending = [pending] → feeds pending chunks = inr (lines, pending') →
  split CRLF (pending ++ concat chunks) = lines ++ [pending'].
Proof.
  induction chunks as [|c chunks IH]; intros pending lines pending' Hp; simpl.
  - intros [= <- <-]. by rewrite app_nil_r.
  - destruct (feed pending c) as [e|[l1 p1]] eqn:E1; [done|].
    destruct (feeds p1 chunks) as [e|[l2 p2]] eqn:E2; [done|]. intros [= <- <-].
    apply feed_split in E1 as [E1 _].
    assert (Hp1 : split CRLF p1 = [p1]).
    { pose proof (split_app CRLF (pending ++ c) [] crlf_nonnil) as H.
      rewrite E1, !app_nil_r, E1, removelast_last, last_snoc in H. by apply app_inv_head in H. }
    rewrite app_assoc, split_app, E1, removelast_last, last_snoc by apply crlf_nonnil. simpl.
    by rewrite (IH p1 l2 p2 Hp1 E2), app_assoc.
Qed.

(** The lines a client reads do not depend on how the network cuts the
    stream: whenever the framer accepts a sequence of chunks, the lines it
    yields, followed by what is left pending, are the pieces of the whole
    stream between line ends. *)
Theorem framing_chunks chunks lines pending :
  feeds [] chunks = inr (lines, pending) → split CRLF (concat chunks) = lines ++ [pending].
Proof. apply (feeds_split chunks []). done. Qed.

Lemma framing_chunks_witness :
  split CRLF (bs "PING a" ++ [13; 10] ++ bs "NEXT") = [bs "PING a"] ++ [bs "NEXT"].
Proof.
  apply (framing_chunks [bs "PING a" ++ [13]; [10] ++ bs "NE"; bs "XT"] [bs "PING a"] (bs "NEXT")).
  vm_compute. reflexivity.
Defined.

(** ** The ledger *)

Inductive ledger_step : DeliveryLedger → DeliveryLedger → Prop :=
| StepPhase l phase count l' : 0 ≤ count → add_phase l phase count = inr l' → ledger_step l l'
| StepAuthored l now phase sender sequence l' :
    authored now l phase sender sequence = inr l' → ledger_step l l'
| StepReceive l now recipient line b l' :
    0 ≤ recipient < clients l → receive now l recipient line = inr (b, l') → ledger_step l l'.

Inductive ledger_reachable (run : pystr) (n : Z) : DeliveryLedger → Prop :=
| LReachInit : ledger_reachable run n (new_ledger run n)
| LReachStep l l' : ledger_reachable run n l → ledger_step l l' → ledger_reachable run n l'.

Definition position (l : DeliveryLedger) (phase : pystr) (p : Z * Z) : Z :=
  from_opt 0 (next l !! (phase, p.1, p.2)).

Definition sum_Z (xs : list Z) : Z := foldr Z.add 0 xs.

(** The invariant of a phase with [n] messages per sender. *)
Definition phase_inv (l : DeliveryLedger) (phase : pystr) (n : Z) : Prop :=
  0 ≤ n
  ∧ received l !! phase = Some (sum_Z (position l phase <$> pairs (clients l)))
  ∧ (∀ p, p ∈ pairs (clients l) →
       ∃ k, next l !! (phase, p.1, p.2) = Some k ∧ 0 ≤ k ≤ n
            ∧ ∀ i, 0 ≤ i < k → is_Some (sent l !! (phase, p.1, i)))
  ∧ ∃ ls, latencies l !! phase = Some ls
          ∧ Z.of_nat (length ls) = sum_Z (position l phase <$> pairs (clients l)).

Definition ledger_inv (l : DeliveryLedger) : Prop :=
  (∀ phase n, counts l !! phase = Some n → phase_inv l phase n)
  ∧ ∀ phase s r k, next l !! (phase, s, r) = Some k →
      is_Some (counts l !! phase) ∧ (s, r) ∈ pairs (clients l).

Lemma elem_of_range n x : x ∈ range_ n ↔ 0 ≤ x < n.
Proof.
  unfold range_. rewrite list_elem_of_fmap. setoid_rewrite elem_of_seq. split.
  - intros (k & -> & Hk). lia.
  - intros H. exists (Z.to_nat x). lia.
Qed.

Lemma elem_of_pairs n p : p ∈ pairs n ↔ 0 ≤ p.1 < n ∧ 0 ≤ p.2 < n ∧ p.1 ≠ p.2.
Proof.
  destruct p as [s r]. unfold pairs. simpl. rewrite list_elem_of_bind.
  setoid_rewrite list_elem_of_bind. setoid_rewrite elem_of_range. split.
  - intros (s' & (r' & H & Hr) & Hs). destruct (Z.eqb_spec s' r'); [by apply elem_of_nil in H|].
    apply list_elem_of_singleton in H as [= -> ->]. done.
  - intros (Hs & Hr & Hne). exists s. split; [|done]. exists r. split; [|done].
    rewrite (proj2 (Z.eqb_neq s r) Hne). by apply list_elem_of_singleton.
Qed.

Lemma pairs_NoDup n : NoDup (pairs n).
Proof.
  unfold pairs. assert (Hr : NoDup (range_ n)).
  { unfold range_. apply NoDup_fmap_2; [apply _|apply NoDup_seq]. }
  apply NoDup_bind; [|intros s _; apply NoDup_bind|done].
  - intros s s' p _ _ (r & H1 & _)%list_elem_of_bind (r' & H2 & _)%list_elem_of_bind.
    destruct (s =? r); [by apply elem_of_nil in H1|]. destruct (s' =? r'); [by apply elem_of_nil in H2|].
    apply list_elem_of_singleton in H1, H2. congruence.
  - intros r r' p _ _ H1 H2. destruct (s =? r); [by apply elem_of_nil in H1|].
    destruct (s =? r'); [by apply elem_of_nil in H2|].
    apply list_elem_of_singleton in H1, H2. congruence.
  - intros r _. destruct (s =? r); [constructor|apply NoDup_singleton].
  - done.
Qed.

(** There are [n * (n - 1)] streams. *)
Lemma pairs_length n : 0 ≤ n → Z.of_nat (length (pairs n)) = n * (n - 1).
Proof.
  intros Hn. unfold pairs.
  assert (Hrow : ∀ s l, NoDup l → Z.of_nat (length (recipient ← l;
    if s =? recipient then [] else [(s, recipient)])) =
    Z.of_nat (length l) - (if bool_decide (s ∈ l) then 1 else 0)).
  { intros s l Hl. induction Hl as [|x l Hx _ IH]; [done|]. rewrite bind_cons, length_app, Nat2Z.inj_add, IH.
    simpl length. destruct (Z.eqb_spec s x) as [->|Hne].
    - rewrite (bool_decide_eq_false_2 (x ∈ l)) by done.
      rewrite bool_decide_eq_true_2 by left. simpl. lia.
    - destruct (decide (s ∈ l)) as [Hs|Hs].
      + rewrite !bool_decide_eq_true_2 by (done || by right). simpl. lia.
      + rewrite !bool_decide_eq_false_2 by (done || (by apply not_elem_of_cons)). simpl. lia. }
  assert (Hlen : Z.of_nat (length (range_ n)) = n).
  { unfold range_. rewrite length_fmap, length_seq. lia. }
  assert (Hnd : NoDup (range_ n)).
  { unfold range_. apply NoDup_fmap_2; [apply _|apply NoDup_seq]. }
  assert (Hall : ∀ l, (∀ s, s ∈ l → s ∈ range_ n) → Z.of_nat (length (sender ← l; recipient ← range_ n;
    if sender =? recipient then [] else [(sender, recipient)])) = Z.of_nat (length l) * (n - 1)).
  { intros l. induction l as [|s l IH]; intros Hl; [done|].
    rewrite bind_cons, length_app, Nat2Z.inj_add, Hrow, IH by (done || (intros; apply Hl; by right)).
    rewrite bool_decide_eq_true_2 by (apply Hl; left). simpl length. lia. }
  rewrite Hall by done. by rewrite Hlen.
Qed.

(** Changing the value of one element of a duplicate-free list. *)
Lemma sum_update {A} (l : list A) (f g : A → Z) x d : NoDup l → x ∈ l →
  g x = f x + d → (∀ y, y ≠ x → g y = f y) → sum_Z (g <$> l) = sum_Z (f <$> l) + d.
Proof.
  intros Hl. revert x. induction Hl as [|a l Ha Hl IH]; intros x Hx Hg Ho; [by apply elem_of_nil in Hx|].
  rewrite !fmap_cons. unfold sum_Z in *. simpl. apply elem_of_cons in Hx as [->|Hx].
  - rewrite Hg. assert (E : g <$> l = f <$> l).
    { apply list_fmap_ext. intros i y Hy. apply Ho. intros ->. apply Ha.
      by apply list_elem_of_lookup_2 in Hy. }
    rewrite E. lia.
  - rewrite (IH x Hx Hg Ho), (Ho a); [lia|]. by intros ->.
Qed.

Lemma sum_bound l n : Forall (λ x, 0 ≤ x ≤ n) l →
  sum_Z l ≤ Z.of_nat (length l) * n ∧ (sum_Z l = Z.of_nat (length l) * n ↔ Forall (λ x, x = n) l).
Proof.
  induction 1 as [|x l Hx Hl [IH1 IH2]]; [simpl; split; [lia|split; [constructor|done]]|].
  unfold sum_Z in *. cbn [foldr length]. split; [lia|]. split.
  - intros E. constructor; [lia|]. apply IH2. lia.
  - intros H. inversion H; subst. assert (foldr Z.add 0 l = Z.of_nat (length l) * n) by (by apply IH2).
    lia.
Qed.

Lemma sum_ext {A} (l : list A) (f g : A → Z) : (∀ x, x ∈ l → f x = g x) →
  sum_Z (f <$> l) = sum_Z (g <$> l).
Proof.
  intros H. f_equal. apply list_fmap_ext. intros i x Hx. apply H. by apply list_elem_of_lookup_2 in Hx.
Qed.

Lemma sum_zero {A} (l : list A) : sum_Z ((λ _, 0) <$> l) = 0.
Proof. induction l as [|x l IH]; [done|]. exact IH. Qed.

(** A phase whose entries are unchanged, but for more authored messages, keeps
    its invariant. *)
Lemma phase_inv_same l l' phase n :
  clients l' = clients l → received l' !! phase = received l !! phase →
  latencies l' !! phase = latencies l !! phase →
  (∀ s r, next l' !! (phase, s, r) = next l !! (phase, s, r)) →
  (∀ k, is_Some (sent l !! k) → is_Some (sent l' !! k)) →
  phase_inv l phase n → phase_inv l' phase n.
Proof.
  intros Hc Hr Hl Hn Hs (H0 & H1 & H2 & ls & H3 & H4). unfold phase_inv. rewrite Hc, Hr, Hl.
  assert (E : sum_Z (position l' phase <$> pairs (clients l))
              = sum_Z (position l phase <$> pairs (clients l))).
  { apply sum_ext. intros p _. unfold position. by rewrite Hn. }
  rewrite E. split; [done|]. split; [done|]. split; [|by exists ls].
  intros p Hp. destruct (H2 p Hp) as (k & Hk & Hb & Hi). exists k. rewrite Hn.
  split; [done|]. split; [done|]. intros i Hi'. by apply Hs, Hi.
Qed.

Lemma fold_lookup phase ps : ∀ (m : gmap stream Z) k,
  foldl (λ m p, <[(phase, p.1, p.2) := 0]> m) m ps !! k
  = if decide (k.1.1 = phase ∧ (k.1.2, k.2) ∈ ps) then Some 0 else m !! k.
Proof.
  induction ps as [|p ps IH]; intros m k; simpl.
  - rewrite decide_False; [done|]. intros [_ H]. by apply elem_of_nil in H.
  - rewrite IH. destruct (decide (k.1.1 = phase ∧ (k.1.2, k.2) ∈ ps)) as [[H1 H2]|H].
    + rewrite decide_True; [done|]. split; [done|]. by right.
    + destruct (decide (k = (phase, p.1, p.2))) as [->|Hk].
      * rewrite lookup_insert_eq, decide_True; [done|]. split; [done|]. simpl.
        destruct p. left.
      * rewrite lookup_insert_ne by done. rewrite decide_False; [done|].
        intros [H1 H2]. apply elem_of_cons in H2 as [H2|H2]; [|tauto].
        apply Hk. destruct k as [[a b] c], p. simpl in *. congruence.
Qed.

Lemma inv_add_phase l phase count l' :
  0 ≤ count → ledger_inv l → add_phase l phase count = inr l' → ledger_inv l'.
Proof.
  intros Hcount [Hph Hdom]. unfold add_phase.
  destruct (counts l !! phase) eqn:Ec; [done|]. intros [= <-].
  assert (Hfresh : ∀ s r, next l !! (phase, s, r) = None).
  { intros s r. destruct (next l !! (phase, s, r)) eqn:E; [|done].
    apply Hdom in E as [[? E] _]. congruence. }
  split; simpl.
  - intros ph n Hn. apply lookup_insert_Some in Hn as [[<- <-]|[Hne Hn]].
    + set (l' := mkLedger _ _ _ _ _ _ _ _).
      assert (Hpos : ∀ p, p ∈ pairs (clients l) → next l' !! (phase, p.1, p.2) = Some 0).
      { intros p Hp. simpl. rewrite fold_lookup. simpl. rewrite decide_True; [done|].
        split; [done|]. by destruct p. }
      assert (E : sum_Z (position l' phase <$> pairs (clients l)) = 0).
      { rewrite (sum_ext _ _ (λ _, 0)).
        - apply sum_zero.
        - intros p Hp. unfold position. by rewrite Hpos. }
      unfold phase_inv. simpl. rewrite E, !lookup_insert_eq. split; [done|]. split; [done|]. split.
      * intros p Hp. exists 0. split; [by apply Hpos|]. split; [lia|]. intros i Hi. lia.
      * by exists [].
    + eapply phase_inv_same; [..|by apply Hph]; simpl; try done;
        [by rewrite lookup_insert_ne|by rewrite lookup_insert_ne|].
      intros s r. rewrite fold_lookup. simpl. rewrite decide_False; [done|]. by intros [-> _].
  - intros ph s r k. rewrite fold_lookup. simpl.
    destruct (decide _) as [[-> Hp]|_]; [intros _; rewrite lookup_insert_eq; eauto|].
    intros [Hk Hp]%Hdom. split; [|done].
    destruct (decide (phase = ph)) as [->|Hne]; [rewrite lookup_insert_eq; eauto|].
    by rewrite lookup_insert_ne.
Qed.

Lemma inv_authored now l phase s q l' :
  ledger_inv l → authored now l phase s q = inr l' → ledger_inv l'.
Proof.
  intros [Hph Hdom]. unfold authored. destruct (sent l !! _); [done|]. intros [= <-].
  split; [|done]. simpl. intros ph n Hn. eapply phase_inv_same; [..|by apply Hph]; try done.
  intros k Hk. simpl. destruct (decide (k = (phase, s, q))) as [->|Hne];
    [rewrite lookup_insert_eq; eauto|by rewrite lookup_insert_ne].
Qed.

(** The effect of an accepted delivery to [recipient]. *)
Definition delivered (now : Z) (l : DeliveryLedger) (recipient : Z) (l' : DeliveryLedger) : Prop :=
  ∃ phase sender k count stamp,
    counts l !! phase = Some count ∧ 0 ≤ sender < clients l ∧ sender ≠ recipient
    ∧ 0 ≤ k < count ∧ next l !! (phase, sender, recipient) = Some k
    ∧ sent l !! (phase, sender, k) = Some stamp
    ∧ l' = mkLedger (run_id l) (clients l) (counts l)
             (<[(phase, sender, recipient) := k + 1]> (next l)) (sent l)
             (<[phase := from_opt 0 (received l !! phase) + 1]> (received l))
             (<[phase := from_opt [] (latencies l !! phase) ++ [now - stamp]]> (latencies l))
             (event_set (changed l)).

Lemma deliver_effect now l recipient prefix payload b l' :
  deliver now l recipient prefix payload = inr (b, l') → delivered now l recipient l'.
Proof.
  unfold deliver. destruct (payload_fields payload) as [[[[[magic run] phase] sender] q]|]; [|done].
  destruct (counts l !! phase) as [count|] eqn:Ec; [|done].
  destruct (negb (str_eqb magic _) || _); [done|]. destruct (_ || _ || _) eqn:Er; [done|].
  destruct (negb (str_eqb (from_opt _ _) _)); [done|]. destruct (negb (str_eqb payload _)); [done|].
  destruct (next l !! (phase, sender, recipient)) as [k|] eqn:En; [|done].
  destruct (negb (q =? k)) eqn:Eq; [done|].
  destruct (sent l !! (phase, sender, q)) as [stamp|] eqn:Es; [|done].
  intros [= <- <-]. bool_hyps. subst q. exists phase, sender, k, count, stamp.
  split_and!; try done; lia.
Qed.

Lemma inv_delivered now l recipient l' :
  0 ≤ recipient < clients l → ledger_inv l → delivered now l recipient l' → ledger_inv l'.
Proof.
  intros Hrec [Hph Hdom] (phase & s & k & count & stamp & Hc & Hs & Hne & Hk & Hn & Hst & ->).
  assert (Hpair : (s, recipient) ∈ pairs (clients l)) by (by apply elem_of_pairs).
  split; simpl.
  - intros ph n Hcn. destruct (decide (ph = phase)) as [->|Hph'].
    2:{ eapply phase_inv_same; [..|by apply Hph]; simpl; try done; try (by rewrite lookup_insert_ne).
        intros s' r'. rewrite lookup_insert_ne; [done|]. congruence. }
    assert (n = count) as -> by congruence.
    destruct (Hph phase count Hc) as (H0 & H1 & H2 & ls & H3 & H4).
    set (l' := mkLedger _ _ _ _ _ _ _ _).
    assert (E : sum_Z (position l' phase <$> pairs (clients l))
                = sum_Z (position l phase <$> pairs (clients l)) + 1).
    { apply (sum_update _ _ _ (s, recipient)); [apply pairs_NoDup|done|..].
      - unfold position. simpl. by rewrite lookup_insert_eq, Hn.
      - intros [a c] Hy. unfold position. simpl. rewrite lookup_insert_ne; [done|]. congruence. }
    unfold phase_inv. simpl. rewrite E, !lookup_insert_eq, H1, H3. simpl.
    split; [done|]. split; [done|]. split.
    + intros p Hp. destruct (decide (p = (s, recipient))) as [->|Hpne].
      * exists (k + 1). simpl. rewrite lookup_insert_eq. split; [done|]. split; [lia|].
        intros i Hi. destruct (decide (i = k)) as [->|Hik]; [eauto|].
        destruct (H2 _ Hp) as (k' & Hk' & _ & Hi'). simpl in *.
        assert (k' = k) as -> by congruence. apply Hi'. lia.
      * destruct (H2 p Hp) as (k' & Hk' & Hb & Hi'). exists k'.
        rewrite lookup_insert_ne by (destruct p; simpl; congruence). done.
    + exists (ls ++ [now - stamp]). split; [done|]. rewrite length_app. simpl. lia.
  - intros ph s' r' k' Hl. destruct (decide ((ph, s', r') = (phase, s, recipient))) as [[= -> -> ->]|Hx].
    + eauto.
    + rewrite lookup_insert_ne in Hl by done. by apply Hdom in Hl.
Qed.

Lemma receive_effect now l recipient line b l' : receive now l recipient line = inr (b, l') →
  l' = l ∨ delivered now l recipient l'.
Proof.
  unfold receive. cbv zeta. destruct (negb _); [intros [= <- <-]; by left|].
  destruct (split_max 3 _ _) as [|prefix [|? [|target [|rest [|? ?]]]]]; try done.
  destruct (_ || _); [done|]. intros H%deliver_effect. by right.
Qed.

Lemma inv_receive now l recipient line b l' :
  0 ≤ recipient < clients l → ledger_inv l → receive now l recipient line = inr (b, l') → ledger_inv l'.
Proof. intros Hrec Hinv [->|H]%receive_effect; [done|]. by eapply inv_delivered. Qed.

Lemma clients_step l l' : ledger_step l l' → clients l' = clients l.
Proof.
  destruct 1 as [l phase count l' _ H|l now ph s q l' H|l now r line b l' _ H].
  - unfold add_phase in H. destruct (counts l !! phase); [done|]. by injection H as <-.
  - unfold authored in H. destruct (sent l !! _); [done|]. by injection H as <-.
  - by apply receive_effect in H as [->|(? & ? & ? & ? & ? & _ & _ & _ & _ & _ & _ & ->)].
Qed.

Lemma reachable_inv run n l : ledger_reachable run n l → ledger_inv l ∧ clients l = n.
Proof.
  induction 1 as [|l l' _ [IH Hc] Hs].
  - split; [|done]. split; simpl; intros *; by rewrite lookup_empty.
  - split; [|rewrite (clients_step _ _ Hs); done].
    destruct Hs as [l phase count l' Hcount H|l now ph s q l' H|l now r line b l' Hr H].
    + by eapply inv_add_phase.
    + by eapply inv_authored.
    + by eapply inv_receive.
Qed.

(** A phase is complete when every stream has all its messages. *)
Lemma complete_streams l phase n : 0 ≤ clients l → ledger_inv l → counts l !! phase = Some n →
  complete l phase = true ↔
  ∀ s r, 0 ≤ s < clients l → 0 ≤ r < clients l → s ≠ r → next l !! (phase, s, r) = Some n.
Proof.
  intros Hc [Hph _] Hn. destruct (Hph phase n Hn) as (H0 & H1 & H2 & _).
  assert (Hcomp : complete l phase = true ↔ Forall (λ x, x = n) (position l phase <$> pairs (clients l))).
  { unfold complete. rewrite H1, Hn. simpl. rewrite Z.eqb_eq.
    destruct (sum_bound (position l phase <$> pairs (clients l)) n) as [_ Hb].
    - apply Forall_fmap, Forall_forall. intros p Hp. destruct (H2 p Hp) as (k & Hk & Hb & _).
      unfold position, compose. rewrite Hk. simpl. lia.
    - rewrite <-Hb, length_fmap, pairs_length by done. split; lia. }
  rewrite Hcomp, Forall_fmap, Forall_forall. split.
  - intros H s r Hs Hr Hne. assert (Hp : (s, r) ∈ pairs (clients l)) by (by apply elem_of_pairs).
    specialize (H _ Hp). unfold position, compose in H. destruct (H2 _ Hp) as (k & Hk & _).
    simpl in *. rewrite Hk in H |- *. simpl in H. by subst.
  - intros H [s r] Hp. unfold position, compose. simpl. apply elem_of_pairs in Hp as (Hs & Hr & Hne).
    by rewrite (H s r Hs Hr Hne).
Qed.

(** C1: Exactly once, in order, to everyone: whatever lines arrive and whatever
    is authored, a registered phase is complete exactly when every stream from
    a client to another has received its [n] messages (each stream advances by
    the next expected sequence number only), and then every message was
    authored and every delivery has a latency sample. *)
Theorem ledger_exactly_once run c l phase n :
  0 ≤ c → ledger_reachable run c l → counts l !! phase = Some n →
  (complete l phase = true ↔
   ∀ s r, 0 ≤ s < c → 0 ≤ r < c → s ≠ r → next l !! (phase, s, r) = Some n)
  ∧ (complete l phase = true →
     (∀ s r i, 0 ≤ s < c → 0 ≤ r < c → s ≠ r → 0 ≤ i < n → is_Some (sent l !! (phase, s, i)))
     ∧ ∃ ls, latencies l !! phase = Some ls ∧ Z.of_nat (length ls) = n * c * (c - 1)).
Proof.
  intros Hc [Hinv <-]%reachable_inv Hn. pose proof (complete_streams l phase n Hc Hinv Hn) as Hall.
  destruct (proj1 Hinv phase n Hn) as (H0 & H1 & H2 & ls & H3 & H4).
  split; [done|]. intros Hdone. split.
  - intros s r i Hs Hr Hne Hi. destruct (H2 (s, r)) as (k & Hk & _ & Hx); [by apply elem_of_pairs|].
    simpl in *. rewrite (proj1 Hall Hdone s r) in Hk by done. injection Hk as <-. by apply Hx.
  - exists ls. split; [done|]. unfold complete in Hdone. rewrite H1, Hn in Hdone. simpl in Hdone. bool_hyps. lia.
Qed.

(** Two clients exchanging one message each. *)
Definition line0 (s : Z) : pybytes :=
  bs ":lb" ++ dec s ++ bs "!u@h PRIVMSG #bench :" ++ phase_payload (u "0000") (u "burst") s 0.

Definition events0 (l : DeliveryLedger) : failing DeliveryLedger :=
  match add_phase l (u "burst") 1 with
  | inl e => inl e
  | inr l => match authored 5 l (u "burst") 0 0 with
    | inl e => inl e
    | inr l => match authored 6 l (u "burst") 1 0 with
      | inl e => inl e
      | inr l => match receive 8 l 1 (line0 0) with
        | inl e => inl e
        | inr (_, l) => match receive 9 l 0 (line0 1) with inl e => inl e | inr (_, l) => inr l end
        end
      end
    end
  end.

Lemma events0_reachable l : events0 (new_ledger (u "0000") 2) = inr l → ledger_reachable (u "0000") 2 l.
Proof.
  unfold events0. intros H.
  destruct (add_phase _ _ _) as [e|l1] eqn:E1; [done|].
  destruct (authored 5 _ _ _ _) as [e|l2] eqn:E2; [done|].
  destruct (authored 6 _ _ _ _) as [e|l3] eqn:E3; [done|].
  destruct (receive 8 _ _ _) as [e|[b4 l4]] eqn:E4; [done|].
  destruct (receive 9 _ _ _) as [e|[b5 l5]] eqn:E5; [done|]. injection H as ->.
  assert (R1 : ledger_reachable (u "0000") 2 l1)
    by (eapply LReachStep; [apply LReachInit|]; eapply StepPhase; [|exact E1]; lia).
  assert (R2 : ledger_reachable (u "0000") 2 l2)
    by (eapply LReachStep; [exact R1|]; eapply StepAuthored; exact E2).
  assert (R3 : ledger_reachable (u "0000") 2 l3)
    by (eapply LReachStep; [exact R2|]; eapply StepAuthored; exact E3).
  assert (R4 : ledger_reachable (u "0000") 2 l4).
  { eapply LReachStep; [exact R3|]. eapply StepReceive; [|exact E4].
    destruct (reachable_inv _ _ _ R3) as [_ ->]. lia. }
  eapply LReachStep; [exact R4|]. eapply StepReceive; [|exact E5].
  destruct (reachable_inv _ _ _ R4) as [_ ->]. lia.
Qed.

Lemma ledger_exactly_once_witness :
  ∃ l, complete l (u "burst") = true
    ∧ ∀ s r, 0 ≤ s < 2 → 0 ≤ r < 2 → s ≠ r → next l !! (u "burst", s, r) = Some 1.
Proof.
  destruct (events0 (new_ledger (u "0000") 2)) as [e|l] eqn:E; [vm_compute in E; discriminate|].
  assert (Hc : counts l !! u "burst" = Some 1 ∧ complete l (u "burst") = true).
  { clear -E. vm_compute in E. injection E as <-. split; vm_compute; reflexivity. }
  exists l. split; [apply Hc|].
  apply (ledger_exactly_once (u "0000") 2 l (u "burst") 1); [lia|by apply events0_reachable|apply Hc|apply Hc].
Defined.

(** ** Honest deliveries *)

(** A field of the message identity. *)
Definition plain_field (s : pystr) : Prop := Forall ascii s ∧ 58 ∉ s.

Lemma dec_plain z : 0 ≤ z → plain_field (dec z).
Proof.
  intros Hz. split.
  - eapply Forall_impl; [by apply dec_chars|]. intros c Hc. unfold is_ascii_digit, ascii in *. bool_hyps. lia.
  - intros H. pose proof (dec_chars z Hz) as Hd. rewrite Forall_forall in Hd. by specialize (Hd _ H).
Qed.

Lemma decode_ascii_plain s : plain_field s → decode_ascii s = Some s.
Proof.
  intros [Ha _]. unfold decode_ascii.
  assert (forallb (λ c, c <? 128) s = true) as ->; [|done].
  apply forallb_elem. intros c Hc. rewrite Forall_forall in Ha. specialize (Ha c Hc).
  unfold ascii in Ha. apply Z.ltb_lt. lia.
Qed.

Lemma payload_text run phase s q : plain_field run → plain_field phase → 0 ≤ s → 0 ≤ q →
  ∃ pad, phase_payload run phase s q
    = bs "onyxbench" ++ 58 :: run ++ 58 :: phase ++ 58 :: dec s ++ 58 :: dec q ++ 58 :: pad.
Proof.
  intros [Hr _] [Hp _] Hs Hq. unfold phase_payload, ljust_x.
  rewrite utf8_encode_ascii.
  2:{ assert (Hl : ∀ x, Forall (λ c, (0 <=? c) && (c <? 128) = true) x → Forall ascii x).
      { intros x Hx. eapply Forall_impl; [exact Hx|]. intros c Hc. cbn beta in Hc. unfold ascii. bool_hyps. lia. }
      repeat (apply Forall_app; split); try done; try (by apply dec_plain);
        apply Hl; vm_compute; repeat constructor. }
  eexists. assert (E1 : u "onyxbench:" = bs "onyxbench" ++ [58]) by (vm_compute; reflexivity).
  assert (E2 : u ":" = [58]) by (vm_compute; reflexivity).
  rewrite E1, E2, <-!app_assoc. cbn [app]. reflexivity.
Qed.

Lemma payload_parse run phase s q : plain_field run → plain_field phase → 0 ≤ s → 0 ≤ q →
  payload_fields (phase_payload run phase s q) = Some (bs "onyxbench", run, phase, s, q).
Proof.
  intros Hr Hp Hs Hq. destruct (payload_text run phase s q Hr Hp Hs Hq) as [pad ->].
  unfold payload_fields. assert (bs ":" = [58]) as -> by (vm_compute; reflexivity).
  rewrite split_max_word by (vm_compute; intros H; repeat (apply elem_of_cons in H as [H|H]; [done|]);
    by apply elem_of_nil in H).
  rewrite !split_max_word by (apply Hr || apply Hp || (by apply dec_plain)).
  unfold split_max at 1. rewrite split_go_zero, decode_ascii_plain, !bint_dec by done. reflexivity.
Qed.

(** The line by which client [s] delivers its message number [q]. *)
Definition honest_line (l : DeliveryLedger) (userhost : pybytes) (phase : pystr) (s q : Z) : pybytes :=
  (58 :: bs "lb" ++ dec s ++ 33 :: userhost) ++ 32 :: bs "PRIVMSG" ++ 32 :: bs "#bench"
  ++ 32 :: 58 :: phase_payload (run_id l) phase s q.

Lemma in_literal (c : Z) (x : pybytes) : existsb (Z.eqb c) x = false → c ∉ x.
Proof.
  intros H Hc. assert (existsb (Z.eqb c) x = true); [|congruence].
  apply existsb_elem. exists c. split; [done|]. apply Z.eqb_refl.
Qed.

Lemma dec_no_char z c : 0 ≤ z → is_ascii_digit c = false → c ∉ dec z.
Proof.
  intros Hz Hc H. pose proof (dec_chars z Hz) as Hd. rewrite Forall_forall in Hd.
  specialize (Hd _ H). congruence.
Qed.

Lemma honest_prefix s userhost : 0 ≤ s →
  hd_error (split_max 1 (bs "!") (58 :: bs "lb" ++ dec s ++ 33 :: userhost))
  = Some (utf8_encode (u ":lb" ++ dec s)).
Proof.
  intros Hs. assert (bs "!" = [33]) as -> by (vm_compute; reflexivity).
  assert (E : 58 :: bs "lb" ++ dec s ++ 33 :: userhost = (58 :: bs "lb" ++ dec s) ++ 33 :: userhost).
  { cbn [app]. by rewrite <-app_assoc. }
  rewrite E, split_max_word.
  - simpl. rewrite utf8_encode_ascii.
    + do 2 f_equal.
    + apply Forall_app. split; [|apply dec_plain; done].
      vm_compute. repeat constructor; discriminate.
  - apply not_elem_of_cons. split; [done|]. intros [H|H]%elem_of_app.
    + revert H. apply in_literal. vm_compute. reflexivity.
    + revert H. by apply dec_no_char.
Qed.

Lemma receive_parts now l r line prefix rest :
  startswith line (bs "@") = false → startswith line (bs ":") = true →
  split_max 3 (bs " ") line = [prefix; bs "PRIVMSG"; bs "#bench"; 58 :: rest] →
  receive now l r line = deliver now l r prefix rest.
Proof.
  intros Hat Hcol Hsplit. unfold receive, untagged. rewrite Hat. cbv zeta.
  rewrite Hsplit. unfold command_of. rewrite Hcol.
  assert (E1 : str_eqb (bupper (bs "PRIVMSG")) (bs "PRIVMSG") = true) by (vm_compute; reflexivity).
  assert (E2 : str_eqb (bs "#bench") (utf8_encode CHANNEL) = true) by (vm_compute; reflexivity).
  assert (E3 : startswith (58 :: rest) (bs ":") = true) by (vm_compute; reflexivity).
  rewrite E2, E3. simpl. rewrite E1. simpl. by rewrite drop_0.
Qed.

Lemma deliver_fields now l r prefix payload phase s q count stamp :
  payload_fields payload = Some (bs "onyxbench", run_id l, phase, s, q) →
  payload = phase_payload (run_id l) phase s q →
  hd_error (split_max 1 (bs "!") prefix) = Some (utf8_encode (u ":lb" ++ dec s)) →
  utf8_encode (run_id l) = run_id l → 0 ≤ s < clients l → s ≠ r → 0 ≤ q < count →
  counts l !! phase = Some count → next l !! (phase, s, r) = Some q →
  sent l !! (phase, s, q) = Some stamp →
  deliver now l r prefix payload = inr (true,
    mkLedger (run_id l) (clients l) (counts l) (<[(phase, s, r) := q + 1]> (next l)) (sent l)
      (<[phase := from_opt 0 (received l !! phase) + 1]> (received l))
      (<[phase := from_opt [] (latencies l !! phase) ++ [now - stamp]]> (latencies l))
      (event_set (changed l))).
Proof.
  intros Hf Hp Hpre Hrun Hs Hne Hq Hc Hn Hst. unfold deliver. rewrite Hf, Hc, Hn, Hst, Hrun, Hpre.
  rewrite <-Hp. cbn [from_opt]. rewrite !str_eqb_refl, Z.eqb_refl. cbn [negb orb].
  assert (Es : ((0 <=? s) && (s <? clients l)) = true) by (rewrite andb_true_iff, Z.leb_le, Z.ltb_lt; lia).
  assert (Eq : ((0 <=? q) && (q <? count)) = true) by (rewrite andb_true_iff, Z.leb_le, Z.ltb_lt; lia).
  rewrite Es, Eq, (proj2 (Z.eqb_neq s r) Hne). reflexivity.
Qed.

Lemma honest_head l userhost phase s q :
  startswith (honest_line l userhost phase s q) (bs "@") = false
  ∧ startswith (honest_line l userhost phase s q) (bs ":") = true.
Proof.
  unfold honest_line. cbn [app]. generalize ((bs "lb" ++ dec s ++ 33 :: userhost) ++
    32 :: bs "PRIVMSG" ++ 32 :: bs "#bench" ++ 32 :: 58 :: phase_payload (run_id l) phase s q).
  intros x. split; vm_compute; reflexivity.
Qed.

Lemma honest_split l userhost phase s q : 32 ∉ userhost → 0 ≤ s →
  split_max 3 (bs " ") (honest_line l userhost phase s q)
  = [58 :: bs "lb" ++ dec s ++ 33 :: userhost; bs "PRIVMSG"; bs "#bench";
     58 :: phase_payload (run_id l) phase s q].
Proof.
  intros Hhost Hs. unfold honest_line. generalize (phase_payload (run_id l) phase s q). intros rest.
  assert (Hsp : 32 ∉ 58 :: bs "lb" ++ dec s ++ 33 :: userhost).
  { apply not_elem_of_cons. split; [done|]. intros [H|[H|H]%elem_of_app]%elem_of_app.
    - revert H. apply in_literal. vm_compute. reflexivity.
    - revert H. apply dec_no_char; [lia|done].
    - by apply elem_of_cons in H as [H|H]. }
  assert (E : bs " " = [32]) by (vm_compute; reflexivity).
  rewrite E, split_max_word by exact Hsp.
  rewrite split_max_word by (apply in_literal; vm_compute; reflexivity).
  rewrite split_max_word by (apply in_literal; vm_compute; reflexivity).
  unfold split_max. by rewrite split_go_zero.
Qed.

(** An honest delivery is accepted: the next message of a stream, authored
    by its sender and relayed to the recipient with the sender's prefix, is
    recognised and advances exactly that stream by one. *)
Theorem honest_delivery now l userhost phase s r q count stamp :
  plain_field (run_id l) → plain_field phase →
  32 ∉ userhost → 0 ≤ s < clients l → s ≠ r → 0 ≤ q < count →
  counts l !! phase = Some count → next l !! (phase, s, r) = Some q →
  sent l !! (phase, s, q) = Some stamp →
  ∃ l', receive now l r (honest_line l userhost phase s q) = inr (true, l')
    ∧ next l' = <[(phase, s, r) := q + 1]> (next l)
    ∧ received l' = <[phase := from_opt 0 (received l !! phase) + 1]> (received l)
    ∧ sent l' = sent l ∧ counts l' = counts l.
Proof.
  intros Hrun Hph Hhost Hs Hne Hq Hc Hn Hst. eexists. split.
  - rewrite (receive_parts now l r _ _ _ (proj1 (honest_head l userhost phase s q))
      (proj2 (honest_head l userhost phase s q)) (honest_split l userhost phase s q Hhost ltac:(lia))).
    apply (deliver_fields now l r _ _ phase s q count stamp); try done.
    + apply payload_parse; done || lia.
    + apply honest_prefix. lia.
    + apply utf8_encode_ascii, Hrun.
  - done.
Qed.

Lemma honest_delivery_witness :
  ∃ l l', receive 7 l 1 (honest_line l (bs "u@h") (u "burst") 0 0) = inr (true, l')
    ∧ next l' = <[(u "burst", 0, 1) := 1]> (next l).
Proof.
  set (l := mkLedger (u "0000") 2 {[u "burst" := 1]} {[(u "burst", 0, 1) := 0; (u "burst", 1, 0) := 0]}
              {[(u "burst", 0, 0) := 5]} {[u "burst" := 0]} {[u "burst" := []]} new_event).
  exists l. edestruct (honest_delivery 7 l (bs "u@h") (u "burst") 0 1 0 1 5) as (l' & H1 & H2 & _);
    [split; [vm_compute; repeat constructor; discriminate|apply in_literal; vm_compute; reflexivity]
    |split; [vm_compute; repeat constructor; discriminate|apply in_literal; vm_compute; reflexivity]
    |apply in_literal; vm_compute; reflexivity|simpl; lia|lia|lia|vm_compute; reflexivity
    |vm_compute; reflexivity|vm_compute; reflexivity|].
  exists l'. exact (conj H1 H2).
Defined.
