(* ===== verification/Scram.v ===== *)
(** * tools/scram_fixture.py: the SCRAM client of the integration fixtures

    The SCRAM attributes, the client's state machine (one challenge, then one
    server proof) and its message construction.  The digest primitives of
    [hashlib] and [hmac] are arguments. *)

From S2P Require Import Prelude PyStr Base64.

(** [ScramFailure(message)] or a result. *)
Abbreviation scram A := (pystr + A)%type.

Definition require {A} (condition : bool) (message : pystr) (k : scram A) : scram A :=
  if condition then k else inl message.

Abbreviation attributes := (gmap (list Z) (list Z)) (only parsing).

(** The loop of [fields] over the comma-separated parts. *)
Fixpoint fields_go (parts : list pybytes) (result : attributes) : scram attributes :=
  match parts with
  | [] => inr result
  | part :: parts =>
    let '(key, separator, value) := partition [61] part in
    require (nonempty separator && (length key =? 1)%nat && negb (bool_decide (is_Some (result !! key))))
      (u "SCRAM attributes malformed")
      (fields_go parts (<[key := value]> result))
  end.

Definition fields (message : pybytes) : scram attributes :=
  let n := Z.of_nat (length message) in
  require ((0 <? n) && (n <=? 2048)) (u "SCRAM message exceeds fixture bounds")
    (fields_go (split [44] message) ∅).

Definition decode (value : pybytes) : scram pybytes :=
  match b64decode value with
  | Some r => inr r
  | None => inl (u "SCRAM base64 malformed")
  end.

Inductive Digest := Sha256 | Sha512.

(** [digest in ("sha256", "sha512")]. *)
Definition digest_of (name : pystr) : option Digest :=
  if str_eqb name (u "sha256") then Some Sha256
  else if str_eqb name (u "sha512") then Some Sha512 else None.

Definition account_chars : pybytes := bs "abcdefghijklmnopqrstuvwxyz0123456789_-.".

Definition account_char (c : Z) : bool := existsb (Z.eqb c) account_chars.

(** Printable ASCII other than space and comma. *)
Definition nonce_char (c : Z) : bool := (0x21 <=? c) && (c <=? 0x7e) && negb (c =? 0x2c).

Record Client := mkClient {
  c_digest : Digest;
  c_nonce : pybytes;
  c_bare : pybytes;
  c_first : pybytes;
  c_signature : option pybytes }.

Definition set_signature (s : pybytes) (c : Client) : Client :=
  mkClient (c_digest c) (c_nonce c) (c_bare c) (c_first c) (Some s).

(** [Client.__init__]. *)
Definition new_client (account nonce : pybytes) (digest : pystr) : scram Client :=
  match digest_of digest with
  | None => inl (u "unsupported fixture digest")
  | Some d =>
    let a := Z.of_nat (length account) in
    let n := Z.of_nat (length nonce) in
    require ((0 <? a) && (a <=? 32) && forallb account_char account)
      (u "fixture account must be canonical")
    (require ((16 <=? n) && (n <=? 128) && forallb nonce_char nonce)
      (u "fixture nonce malformed")
      (let bare := bs "n=" ++ account ++ bs ",r=" ++ nonce in
       inr (mkClient d nonce bare (bs "n,," ++ bare) None)))
  end.

Definition xor_bytes (a b : pybytes) : pybytes := zip_with Z.lxor a b.

Section Scram.

(** [hashlib.pbkdf2_hmac(digest, password, salt, count)],
    [hmac.digest(key, message, digest)] and [hashlib.new(digest, data).digest()]. *)
Variable pbkdf2_hmac : Digest → pybytes → pybytes → Z → pybytes.
Variable hmac : Digest → pybytes → pybytes → pybytes.
Variable hash : Digest → pybytes → pybytes.

(** The arithmetic of [Client.respond] after its checks: the message sent and
    the server signature expected in return. *)
Definition exchange (c : Client) (server_first nonce password salt : pybytes) (count : Z)
    : pybytes * pybytes :=
  let h := c_digest c in
  let salted := pbkdf2_hmac h password salt count in
  let client_key := hmac h salted (bs "Client Key") in
  let stored_key := hash h client_key in
  let final := bs "c=biws,r=" ++ nonce in
  let auth := c_bare c ++ [44] ++ server_first ++ [44] ++ final in
  let client_signature := hmac h stored_key auth in
  let proof := xor_bytes client_key client_signature in
  let server_key := hmac h salted (bs "Server Key") in
  (final ++ bs ",p=" ++ b64encode proof, hmac h server_key auth).

(** [Client.respond]: the client after the call and the message returned; a
    failed call leaves the client as it was. *)
Definition respond (c : Client) (server_first password : pybytes) : scram (Client * pybytes) :=
  require (negb (is_someb (c_signature c))) (u "SCRAM fixture challenge already consumed")
  match fields server_first with
  | inl e => inl e
  | inr values =>
    require (bool_decide (dom values = {[ bs "r"; bs "s"; bs "i" ]} :> gset pybytes))
      (u "unsupported SCRAM attributes")
    (let nonce := from_opt [] (values !! bs "r") in
     let len := Z.of_nat (length nonce) in
     require (startswith nonce (c_nonce c) && (Z.of_nat (length (c_nonce c)) <? len) && (len <=? 256))
       (u "SCRAM nonce mismatch")
     (require (forallb nonce_char nonce) (u "SCRAM nonce malformed")
     (let iterations := from_opt [] (values !! bs "i") in
      let k := Z.of_nat (length iterations) in
      require ((1 <=? k) && (k <=? 7) && forallb is_ascii_digit iterations)
        (u "SCRAM iterations malformed")
      match bint iterations with
      | None => inl (u "ValueError")
      | Some count =>
        require ((1 <=? count) && (count <=? 1000000)) (u "SCRAM iterations exceed fixture bounds")
        match decode (from_opt [] (values !! bs "s")) with
        | inl e => inl e
        | inr salt =>
          let n := Z.of_nat (length salt) in
          require ((1 <=? n) && (n <=? 64)) (u "SCRAM salt exceeds fixture bounds")
          (let '(message, signature) := exchange c server_first nonce password salt count in
           inr (set_signature signature c, message))
        end
      end)))
  end.

(** [Client.verify]. *)
Definition verify (c : Client) (server_final : pybytes) : scram unit :=
  match c_signature c with
  | None => inl (u "SCRAM fixture has no expected server proof")
  | Some signature =>
    match fields server_final with
    | inl e => inl e
    | inr values =>
      require (bool_decide (dom values = {[ bs "v" ]} :> gset pybytes))
        (u "SCRAM server proof missing")
      match decode (from_opt [] (values !! bs "v")) with
      | inl e => inl e
      | inr v => require (str_eqb v signature) (u "SCRAM server proof mismatch") (inr tt)
      end
    end
  end.

End Scram.
