(* ===== verification/ScramSpec.v ===== *)
(** * The SCRAM client against the server of RFC 5802

    Attribute round trip, the checks a challenge passes before any key is
    derived, and mutual authentication with a conforming server. *)

From S2P Require Import Prelude PyStr Base64 Scram.

(** ** The server of RFC 5802

    A server that stores [StoredKey] and [ServerKey] for a password and got the
    client's first message [n,,n=account,r=nonce], which has no channel
    binding. *)

Section Rfc5802.
Variable pbkdf2_hmac : Digest → pybytes → pybytes → Z → pybytes.
Variable hmac : Digest → pybytes → pybytes → pybytes.
Variable hash : Digest → pybytes → pybytes.

Record Stored := mkStored { stored_key : pybytes; server_key : pybytes }.

Definition stored_for (d : Digest) (password salt : pybytes) (count : Z) : Stored :=
  let salted := pbkdf2_hmac d password salt count in
  mkStored (hash d (hmac d salted (bs "Client Key"))) (hmac d salted (bs "Server Key")).

Definition client_first (account nonce : pybytes) : pybytes :=
  bs "n,," ++ bs "n=" ++ account ++ bs ",r=" ++ nonce.

Definition server_first (nonce salt : pybytes) (count : Z) : pybytes :=
  bs "r=" ++ nonce ++ bs ",s=" ++ b64encode salt ++ bs ",i=" ++ dec count.

(** The check of the client's final message: its channel binding is the header
    of its first message, its nonce the one the server issued, nothing stands
    between them and the proof, and the proof is right.  Then the server's own
    final message. *)
Definition server_final (d : Digest) (st : Stored) (account nonce ext salt : pybytes) (count : Z)
    (final : pybytes) : option pybytes :=
  let issued := nonce ++ ext in
  let without := bs "c=" ++ b64encode (bs "n,,") ++ bs ",r=" ++ issued in
  if negb (startswith final (without ++ bs ",p=")) then None
  else
    proof ← b64decode (drop (length (without ++ bs ",p=")) final);
    let auth := (bs "n=" ++ account ++ bs ",r=" ++ nonce) ++ [44] ++ server_first issued salt count
                ++ [44] ++ without in
    if str_eqb (hash d (xor_bytes proof (hmac d (stored_key st) auth))) (stored_key st)
    then Some (bs "v=" ++ b64encode (hmac d (server_key st) auth))
    else None.
End Rfc5802.

(** ** Attributes *)

Definition attr (kv : Z * pybytes) : pybytes := kv.1 :: 61 :: kv.2.

Definition attr_ok (kv : Z * pybytes) : Prop := kv.1 ≠ 44 ∧ kv.1 ≠ 61 ∧ 44 ∉ kv.2.

Definition entry (kv : Z * pybytes) : pybytes * pybytes := ([kv.1], kv.2).

Lemma require_inr {A} c m (k : scram A) r : require c m k = inr r ↔ c = true ∧ k = inr r.
Proof. destruct c; simpl; naive_solver. Qed.

Lemma attr_no_comma kv : attr_ok kv → 44 ∉ attr kv.
Proof. intros (? & ? & ?). unfold attr. rewrite !not_elem_of_cons. naive_solver. Qed.

Lemma partition_attr kv : attr_ok kv → partition [61] (attr kv) = ([kv.1], [61], kv.2).
Proof.
  intros (_ & ? & _). apply (partition_char 61 [kv.1] kv.2). by apply not_elem_of_cons; split; [|set_solver].
Qed.

Lemma fields_go_attrs kvs m :
  Forall attr_ok kvs → NoDup (fst <$> kvs) → (∀ kv, kv ∈ kvs → m !! [kv.1] = None) →
  fields_go (attr <$> kvs) m = inr (list_to_map (entry <$> kvs) ∪ m).
Proof.
  intros Hok. revert m. induction Hok as [|kv kvs Hkv Hok IH]; intros m Hnd Hm.
  { simpl. by rewrite (left_id_L ∅ (∪)). }
  rewrite !fmap_cons in *. cbn [fields_go]. rewrite partition_attr by done.
  apply NoDup_cons in Hnd as [Hx Hnd]. simpl.
  rewrite bool_decide_eq_false_2 by (rewrite Hm by set_solver; by intros []). simpl.
  rewrite IH; [|done|].
  - f_equal. rewrite <-insert_union_r; [by rewrite insert_union_l|].
    apply not_elem_of_list_to_map_1. intros (e & He & (kv' & -> & Hin)%list_elem_of_fmap)%list_elem_of_fmap.
    unfold entry in He. simpl in He. injection He as He. apply Hx. rewrite He. by apply list_elem_of_fmap_2.
  - intros kv' Hin. rewrite lookup_insert_ne; [apply Hm; set_solver|].
    intros E. injection E as E. apply Hx. rewrite E. by apply list_elem_of_fmap_2.
Qed.

Lemma fields_attrs kvs :
  kvs ≠ [] → Forall attr_ok kvs → NoDup (fst <$> kvs) →
  Z.of_nat (length (join [44] (attr <$> kvs))) ≤ 2048 →
  fields (join [44] (attr <$> kvs)) = inr (list_to_map (entry <$> kvs)).
Proof.
  intros Hne Hok Hnd Hlen. unfold fields.
  assert (0 < Z.of_nat (length (join [44] (attr <$> kvs)))).
  { destruct kvs as [|kv [|kv' kvs]]; [done|..]; unfold attr; simpl; rewrite ?length_app; simpl; lia. }
  rewrite (proj2 (Z.ltb_lt _ _)), (proj2 (Z.leb_le _ _)) by done. simpl.
  rewrite split_join, fields_go_attrs, (right_id_L ∅ (∪)); try done.
  - by destruct kvs.
  - rewrite Forall_fmap. eapply Forall_impl; [exact Hok|]. apply attr_no_comma.
Qed.

(** ** Bytes *)

Lemma lxor_byte a b : is_byte a → is_byte b → is_byte (Z.lxor a b).
Proof. intros Ha Hb. by apply (lxor_range 8). Qed.

Lemma xor_bytes_byte a b : Forall is_byte a → Forall is_byte b → Forall is_byte (xor_bytes a b).
Proof.
  intros Ha. revert b. induction Ha as [|x a Hx Ha IH]; intros b Hb; [constructor|].
  inversion_clear Hb; constructor; [by apply lxor_byte|by apply IH].
Qed.

Lemma xor_bytes_length a b : length a = length b → length (xor_bytes a b) = length a.
Proof. intros H. unfold xor_bytes. rewrite length_zip_with. lia. Qed.

Lemma xor_bytes_cancel a b : length a = length b → xor_bytes (xor_bytes a b) b = a.
Proof.
  revert b. induction a as [|x a IH]; intros [|y b] H; simpl in *; try done.
  rewrite Z.lxor_assoc, Z.lxor_nilpotent, Z.lxor_0_r. f_equal. apply IH. lia.
Qed.

(** Base64 text holds no comma. *)
Lemma b64_char_no_comma v : 0 ≤ v < 64 → b64_char v ≠ 44.
Proof. intros H. unfold b64_char. repeat case_match; bool_hyps; lia. Qed.

Lemma b64encode_no_comma n l : (length l ≤ n)%nat → Forall is_byte l → 44 ∉ b64encode l.
Proof.
  revert l. induction n as [|n IH]; intros l Hn Hl.
  { destruct l; [set_solver|simpl in Hn; lia]. }
  unfold is_byte in Hl.
  destruct l as [|x [|y [|z l]]]; [set_solver|..]; cbn [b64encode app];
    repeat match goal with H : Forall _ (_ :: _) |- _ => inversion_clear H end;
    rewrite !not_elem_of_cons; repeat split; try done;
    try (apply not_eq_sym, b64_char_no_comma; Z.to_euclidean_division_equations; lia);
    try set_solver.
  apply IH; [simpl in Hn; lia|done].
Qed.

Lemma nonce_no_comma s : forallb nonce_char s = true → 44 ∉ s.
Proof.
  intros H Hin. rewrite forallb_elem in H. apply H in Hin. unfold nonce_char in Hin. by bool_hyps.
Qed.

Lemma dec_no_comma z : 0 ≤ z → 44 ∉ dec z.
Proof.
  intros Hz Hin. pose proof (dec_chars z Hz) as H. rewrite Forall_forall in H.
  apply H in Hin. done.
Qed.

(** ** Message texts as attribute lists *)

Lemma server_first_attrs nonce salt count :
  server_first nonce salt count
  = join [44] (attr <$> [(114, nonce); (115, b64encode salt); (105, dec count)]).
Proof.
  unfold server_first, attr. simpl.
  replace (bs "r=") with [114; 61] by by vm_compute.
  replace (bs ",s=") with [44; 115; 61] by by vm_compute.
  by replace (bs ",i=") with [44; 105; 61] by by vm_compute.
Qed.

Lemma server_final_attrs sig : bs "v=" ++ sig = join [44] (attr <$> [(118, sig)]).
Proof. by replace (bs "v=") with [118; 61] by by vm_compute. Qed.

(** The client's final message without its proof, by the parts of RFC 5802. *)
Lemma client_final_rest nonce :
  bs "c=biws,r=" ++ nonce = bs "c=" ++ b64encode (bs "n,,") ++ bs ",r=" ++ nonce.
Proof.
  replace (bs "c=biws,r=") with (bs "c=" ++ b64encode (bs "n,,") ++ bs ",r=") by by vm_compute.
  by rewrite <-!app_assoc.
Qed.

Ltac names_out :=
  replace (bs "r") with [114] by (by vm_compute);
  replace (bs "s") with [115] by (by vm_compute);
  replace (bs "i") with [105] by (by vm_compute).

(** The attributes of the server's first message and of the two final ones. *)
Lemma fields_server_first nonce salt count :
  forallb nonce_char nonce = true → (length nonce ≤ 256)%nat →
  Forall is_byte salt → (length salt ≤ 64)%nat → 0 ≤ count < 10 ^ 7 →
  fields (server_first nonce salt count)
  = inr (<[[114] := nonce]> (<[[115] := b64encode salt]> {[ [105] := dec count ]})).
Proof.
  intros Hn Hnl Hs Hsl Hc. rewrite server_first_attrs, fields_attrs; [done|done|..].
  - repeat constructor; simpl; try lia; [by apply nonce_no_comma| |by apply dec_no_comma; lia].
    by apply (b64encode_no_comma (length salt)).
  - apply (bool_decide_unpack _). by vm_compute.
  - unfold attr. simpl. rewrite !length_app. simpl. rewrite !length_app. simpl.
    rewrite (b64encode_length (length salt)) by done.
    pose proof (dec_length count 7 Hc ltac:(lia)).
    assert ((length salt + 2) / 3 ≤ 22)%nat by (apply Nat.Div0.div_le_upper_bound; lia). lia.
Qed.

Lemma fields_server_final sig :
  Forall is_byte sig → (length sig ≤ 64)%nat →
  fields (bs "v=" ++ b64encode sig) = inr {[ [118] := b64encode sig ]}.
Proof.
  intros Hs Hl. rewrite server_final_attrs, fields_attrs; [done|done|..].
  - repeat constructor; simpl; try lia. by apply (b64encode_no_comma (length sig)).
  - apply (bool_decide_unpack _). by vm_compute.
  - unfold attr. simpl. rewrite (b64encode_length (length sig)) by done.
    assert ((length sig + 2) / 3 ≤ 22)%nat by (apply Nat.Div0.div_le_upper_bound; lia). lia.
Qed.

(** ** The client's checks *)

Lemma new_client_inv account nonce digest c :
  new_client account nonce digest = inr c →
  c_nonce c = nonce ∧ c_signature c = None ∧ c_bare c = bs "n=" ++ account ++ bs ",r=" ++ nonce
  ∧ c_first c = client_first account nonce
  ∧ forallb nonce_char nonce = true ∧ digest_of digest = Some (c_digest c).
Proof.
  unfold new_client. destruct (digest_of digest); [|done].
  rewrite !require_inr. intros (_ & H & E). injection E as <-. bool_hyps. done.
Qed.

Section Server.

Variable pbkdf2_hmac : Digest → pybytes → pybytes → Z → pybytes.
Variable hmac : Digest → pybytes → pybytes → pybytes.
Variable hash : Digest → pybytes → pybytes.

#[local] Abbreviation respond := (respond pbkdf2_hmac hmac hash).

(** A challenge that [Client.respond] answers has passed every check: the
    client had not answered one before, the attributes are exactly [r], [s]
    and [i], the nonce extends the client's own by at least one printable
    character and is at most 256 bytes, the iteration count is between one and
    a million and the salt decodes to between 1 and 64 bytes.  The answer
    echoes that nonce, and the client is left waiting for one server proof:
    a second challenge is always refused. *)
Theorem scram_respond_checks c first password c' message :
  respond c first password = inr (c', message) →
  ∃ values ext iterations count salt,
    c_signature c = None
    ∧ fields first = inr values
    ∧ dom values = {[ bs "r"; bs "s"; bs "i" ]}
    ∧ values !! bs "r" = Some (c_nonce c ++ ext) ∧ ext ≠ []
    ∧ (length (c_nonce c ++ ext) ≤ 256)%nat ∧ forallb nonce_char (c_nonce c ++ ext) = true
    ∧ values !! bs "i" = Some iterations ∧ bint iterations = Some count ∧ 1 ≤ count ≤ 1000000
    ∧ (values !! bs "s" ≫= b64decode) = Some salt ∧ (1 ≤ length salt ≤ 64)%nat
    ∧ startswith message (bs "c=biws,r=" ++ c_nonce c ++ ext ++ bs ",p=") = true
    ∧ is_Some (c_signature c')
    ∧ ∀ first' password',
        respond c' first' password' = inl (u "SCRAM fixture challenge already consumed").
Proof.
  unfold Scram.respond. rewrite require_inr. intros [Hs H].
  destruct (fields first) as [|values] eqn:Hf; [done|].
  rewrite !require_inr in H. destruct H as (Hd & Hn & Hc & Hi & H). bool_hyps.
  assert (Hall : ∀ k, k ∈ ({[ bs "r"; bs "s"; bs "i" ]} : gset pybytes) → is_Some (values !! k)).
  { intros k Hk. by rewrite <-Hd, elem_of_dom in Hk. }
  destruct (Hall (bs "r")) as [nonce Er]; [set_solver|].
  destruct (Hall (bs "s")) as [salt64 Es]; [set_solver|].
  destruct (Hall (bs "i")) as [iterations Ei]; [set_solver|].
  rewrite Er, Es, Ei in *. cbn [from_opt] in *.
  destruct (bint iterations) as [count|] eqn:Eb; [|done].
  rewrite require_inr in H. destruct H as [Hcount H]. unfold decode in H.
  destruct (b64decode salt64) as [salt|] eqn:E64; [|done].
  rewrite require_inr in H. destruct H as [Hsalt H].
  unfold exchange in H. injection H as <- <-.
  match goal with H : startswith _ _ = true |- _ => apply startswith_iff in H as [ext ->] end.
  bool_hyps. rewrite length_app in *.
  exists values, ext, iterations, count, salt. simpl.
  split_and!; try done; try lia; rewrite ?length_app; try lia.
  - by destruct (c_signature c).
  - intros ->. simpl in *. lia.
  - by rewrite Es.
  - apply startswith_iff. eexists. by rewrite <-!app_assoc.
Qed.

(** The proof check of [Client.verify]: it succeeds exactly when a
    challenge has been answered and the server's message carries the one
    attribute [v] that decodes to the expected signature; before a challenge
    every message is refused. *)
Theorem scram_verify_exact c message :
  verify c message = inr tt ↔
  ∃ signature v, c_signature c = Some signature
    ∧ fields message = inr {[ bs "v" := v ]} ∧ b64decode v = Some signature.
Proof.
  unfold verify. split.
  - destruct (c_signature c) as [signature|]; [|done].
    destruct (fields message) as [|values] eqn:Ef; [done|].
    rewrite require_inr. unfold decode. intros [Hd H]. bool_hyps.
    destruct (values !! bs "v") as [v|] eqn:Ev.
    2:{ assert (bs "v" ∈ dom values) as [? ?]%elem_of_dom by set_solver. congruence. }
    simpl in H. destruct (b64decode v) eqn:E64; [|done].
    rewrite require_inr, str_eqb_eq in H. destruct H as [-> _].
    exists signature, v. split_and!; [done| |done]. f_equal.
    apply map_eq. intros k. destruct (decide (k = bs "v")) as [->|Hk].
    + by rewrite Ev, lookup_singleton_eq.
    + rewrite lookup_singleton_ne by done. apply not_elem_of_dom. rewrite Hd. set_solver.
  - intros (signature & v & -> & -> & E). rewrite dom_singleton_L, bool_decide_eq_true_2 by done.
    simpl. rewrite lookup_singleton_eq. simpl. unfold decode. by rewrite E, str_eqb_refl.
Qed.

(** ** Mutual authentication *)

(** The length of a digest and of a keyed digest. *)
Definition hlen (d : Digest) : nat := match d with Sha256 => 32 | Sha512 => 64 end.

Hypothesis hmac_bytes : ∀ d k m, Forall is_byte (hmac d k m) ∧ length (hmac d k m) = hlen d.

Lemma hlen_bound d : (hlen d ≤ 64)%nat.
Proof. destruct d; simpl; lia. Qed.

#[local] Abbreviation keys_of := (stored_for pbkdf2_hmac hmac hash).
#[local] Abbreviation final_of := (server_final hmac hash).

Lemma respond_server_first c nonce salt count password :
  c_signature c = None → startswith nonce (c_nonce c) = true →
  (length (c_nonce c) < length nonce ≤ 256)%nat → forallb nonce_char nonce = true →
  Forall is_byte salt → (1 ≤ length salt ≤ 64)%nat → 1 ≤ count ≤ 1000000 →
  respond c (server_first nonce salt count) password =
  let '(message, signature) :=
    exchange pbkdf2_hmac hmac hash c (server_first nonce salt count) nonce password salt count in
  inr (set_signature signature c, message).
Proof.
  intros Hs Hpre Hlen Hc Hb Hsl Hcount. unfold Scram.respond. rewrite Hs. simpl.
  rewrite fields_server_first by (done || lia). names_out.
  rewrite !dom_insert_L, dom_singleton_L.
  rewrite bool_decide_eq_true_2 by set_solver. unfold require at 1. cbv zeta.
  rewrite lookup_insert_eq, !(lookup_insert_ne _ [114]) by done.
  rewrite lookup_insert_eq, lookup_insert_ne, lookup_singleton_eq by done. cbn [from_opt].
  rewrite Hpre, Hc, bint_dec by lia.
  pose proof (dec_length count 7 ltac:(lia) ltac:(lia)) as Hd.
  assert (Hdc : forallb is_ascii_digit (dec count) = true).
  { apply forallb_elem. intros x Hx. pose proof (dec_chars count ltac:(lia)) as Hall.
    rewrite Forall_forall in Hall. by apply Hall. }
  rewrite Hdc. unfold decode. rewrite b64decode_encode by done.
  rewrite !(proj2 (Z.leb_le _ _)), (proj2 (Z.ltb_lt _ _)) by lia. done.
Qed.

Lemma server_accepts c account nonce ext salt count password message signature :
  c_bare c = bs "n=" ++ account ++ bs ",r=" ++ nonce →
  exchange pbkdf2_hmac hmac hash c (server_first (nonce ++ ext) salt count) (nonce ++ ext) password salt count
    = (message, signature) →
  final_of (c_digest c) (keys_of (c_digest c) password salt count) account nonce ext salt count message
  = Some (bs "v=" ++ b64encode signature).
Proof.
  intros Eb E. unfold exchange in E. injection E as <- <-. unfold server_final. rewrite Eb.
  rewrite client_final_rest. cbv zeta. set (without := bs "c=" ++ _).
  set (d := c_digest c) in *. set (key := hmac d _ (bs "Client Key")).
  set (signature := hmac d (hash d key) _).
  destruct (hmac_bytes d (pbkdf2_hmac d password salt count) (bs "Client Key")) as [Hk1 Hk2].
  fold key in Hk1, Hk2.
  assert (Forall is_byte signature ∧ length signature = hlen d) as [Hs1 Hs2] by apply hmac_bytes.
  assert (Hx : Forall is_byte (xor_bytes key signature)) by by apply xor_bytes_byte.
  assert (Hl : length key = length signature) by (by rewrite Hk2, Hs2).
  rewrite (app_assoc without), startswith_app, drop_app_length. cbn [negb].
  rewrite b64decode_encode by done. cbn [mbind option_bind stored_key stored_for].
  fold key signature. rewrite xor_bytes_cancel by done. by rewrite str_eqb_refl.
Qed.

(** C14: mutual authentication.  Whatever the digest primitives are, a client
    accepted by the constructor opens with the first message of RFC 5802; when
    a conforming server that holds keys for the same password challenges it,
    with a nonce that extends the client's by printable characters to at most
    256 bytes, a salt of 1 to 64 bytes and between one and a million iterations,
    the client answers with a message that server accepts, which it does only
    if the channel binding, the nonce it issued and the proof are right, and the
    server's final message passes the client's check. *)
Theorem scram_mutual account nonce ext digest c salt count password :
  new_client account nonce digest = inr c →
  ext ≠ [] → (length (nonce ++ ext) ≤ 256)%nat → forallb nonce_char ext = true →
  Forall is_byte salt → (1 ≤ length salt ≤ 64)%nat → 1 ≤ count ≤ 1000000 →
  c_first c = client_first account nonce
  ∧ ∃ c' message final,
    respond c (server_first (nonce ++ ext) salt count) password = inr (c', message)
    ∧ final_of (c_digest c) (keys_of (c_digest c) password salt count) account nonce ext salt count message
      = Some final
    ∧ verify c' final = inr tt.
Proof.
  intros Hnew Hext Hlen Hc Hb Hsl Hcount.
  apply new_client_inv in Hnew as (En & Es & Eb & Ef & Hnc & _). split; [done|].
  assert (Hall : forallb nonce_char (nonce ++ ext) = true) by (by rewrite forallb_app, Hnc, Hc).
  pose proof (respond_server_first c (nonce ++ ext) salt count password Es) as Hr.
  rewrite En in Hr. specialize (Hr (startswith_app _ _)). rewrite Hr; try done.
  2:{ rewrite length_app in *. destruct ext; [done|]. simpl in *. lia. }
  destruct (exchange _ _ _ _ _ _ _ _ _) as [message signature] eqn:E.
  eexists _, message, (bs "v=" ++ b64encode signature). split; [done|].
  split; [by apply server_accepts|].
  assert (Forall is_byte signature ∧ length signature = hlen (c_digest c)) as [H1 H2].
  { unfold exchange in E. injection E as _ <-. apply hmac_bytes. }
  pose proof (hlen_bound (c_digest c)).
  unfold verify, set_signature. simpl. rewrite fields_server_final by (done || lia).
  replace (bs "v") with [118] by (by vm_compute).
  rewrite dom_singleton_L, bool_decide_eq_true_2, lookup_singleton_eq by done.
  simpl. unfold decode. by rewrite b64decode_encode, str_eqb_refl by done.
Qed.

End Server.

(** A toy keyed digest that satisfies the law of the primitives. *)
Definition toy_hmac (d : Digest) (k m : pybytes) : pybytes :=
  replicate (hlen d) ((Z.of_nat (length k) * 7 + Z.of_nat (length m)) mod 256).

Definition toy_hash (d : Digest) (m : pybytes) : pybytes := take (hlen d) (rev m).

Definition toy_pbkdf2 (d : Digest) (password salt : pybytes) (count : Z) : pybytes :=
  password ++ salt ++ dec count.

Lemma toy_hmac_bytes d k m : Forall is_byte (toy_hmac d k m) ∧ length (toy_hmac d k m) = hlen d.
Proof.
  unfold toy_hmac. split; [|by rewrite length_replicate].
  apply Forall_replicate. unfold is_byte. apply Z.mod_pos_bound. lia.
Qed.

Definition demo_nonce : pybytes := replicate 16 97.

Definition demo_client : Client :=
  mkClient Sha256 demo_nonce (bs "n=alice,r=" ++ demo_nonce) (bs "n,,n=alice,r=" ++ demo_nonce) None.

Lemma scram_mutual_witness :
  c_first demo_client = client_first (bs "alice") demo_nonce
  ∧ ∃ c' message final,
  respond toy_pbkdf2 toy_hmac toy_hash demo_client
    (server_first (demo_nonce ++ bs "xyz") [1; 2; 3] 4096) (bs "pencil") = inr (c', message)
  ∧ server_final toy_hmac toy_hash Sha256
      (stored_for toy_pbkdf2 toy_hmac toy_hash Sha256 (bs "pencil") [1; 2; 3] 4096)
      (bs "alice") demo_nonce (bs "xyz") [1; 2; 3] 4096 message = Some final
  ∧ verify c' final = inr tt.
Proof.
  apply (scram_mutual toy_pbkdf2 toy_hmac toy_hash toy_hmac_bytes (bs "alice") demo_nonce
           (bs "xyz") (u "sha256") demo_client).
  - by vm_compute.
  - by vm_compute.
  - apply Nat.leb_le. by vm_compute.
  - by vm_compute.
  - by repeat constructor.
  - simpl. lia.
  - lia.
Defined.

Lemma scram_respond_checks_witness : ∃ ext,
  ext ≠ [] ∧ (length (demo_nonce ++ ext) ≤ 256)%nat.
Proof.
  destruct (respond toy_pbkdf2 toy_hmac toy_hash demo_client
    (server_first (demo_nonce ++ bs "xyz") [1; 2; 3] 4096) (bs "pencil")) as [e|[c' m]] eqn:E.
  - exfalso. revert E. by vm_compute.
  - destruct (scram_respond_checks toy_pbkdf2 toy_hmac toy_hash _ _ _ _ _ E)
      as (values & ext & iterations & count & salt & _ & _ & _ & _ & He & Hl & _).
    by exists ext.
Defined.
