(* ===== verification/Qemu.v ===== *)
(** * qemu-verify/: the guest-image helpers

    [memscan.py] searches a RAM dump chunk by chunk, [mkcpio.py] writes a newc
    archive, [ppm2png.py] converts a screen dump and [hmp.py] reads the
    monitor's answer.  File contents, command lines and received chunks are
    arguments; what a program prints or writes is its result. *)

From S2P Require Import Prelude PyStr Json Regex.

(** ** Hexadecimal formatting: [f"{z:0{w}x}"] for a non-negative [z]. *)

Fixpoint hexn (n : nat) (z : Z) : pystr :=
  match n with
  | O => []
  | S n => hexn n (z / 16) ++ [hex_digit (z mod 16)]
  end.

Definition ndigits (z : Z) : nat := S (Z.to_nat (Z.log2 z / 4)).

Definition hexfmt (w : nat) (z : Z) : pystr := hexn (w `max` ndigits z) z.

Module memscan.

Definition CHUNK : Z := Z.shiftl 1 20.

(** The inner loop: every index [i >= start] at which [buf.find] reports the
    needle. *)
Fixpoint scan (fuel : nat) (needle buf : pybytes) (start : nat) : list nat :=
  match fuel with
  | O => []
  | S f =>
    match find (drop start buf) needle with
    | None => []
    | Some j => (start + j)%nat :: scan f needle buf (start + j + 1)
    end
  end.

(** The outer loop over [f.read(chunk)]; the file offsets found. *)
Fixpoint find_chunks (fuel : nat) (chunk : nat) (needle carry : pybytes) (off : Z)
    (rest : pybytes) : list Z :=
  match fuel with
  | O => []
  | S f =>
    let data := take chunk rest in
    if negb (nonempty data) then []
    else
      let buf := carry ++ data in
      let found := scan (S (length buf)) needle buf 0 in
      let m := length needle in
      let carry' := if (1 <? m)%nat then last_n (m - 1) buf else [] in
      ((λ i, off - Z.of_nat (length carry) + Z.of_nat i) <$> found)
      ++ find_chunks f chunk needle carry' (off + Z.of_nat (length data)) (drop chunk rest)
  end.

Definition offsets (chunk : nat) (file needle : pybytes) : list Z :=
  find_chunks (S (length file)) chunk needle [] 0 file.

Definition find_all (file needle : pybytes) : list pystr :=
  (λ o, utf8_decode needle ++ u " at fileoff 0x" ++ hexfmt 1 o)
  <$> offsets (Z.to_nat CHUNK) file needle.

Definition needles : list pybytes :=
  [bs "070701"; bs "boot.wim"; bs "TRAILER!!!"; bs "MSWIM"].

Definition main (file : pybytes) : list pystr := needles ≫= find_all file.

End memscan.

Module mkcpio.

Definition pad4 (n : Z) : Z := (4 - n mod 4) mod 4.

Definition zeros (n : Z) : pybytes := replicate (Z.to_nat n) 0.

Definition header (fields : list Z) : pybytes := bs "070701" ++ (fields ≫= hexfmt 8).

(** The bytes written for one member and for the trailer. *)
Definition member (ino : Z) (name data : pybytes) : pybytes :=
  let dlen := Z.of_nat (length data) in
  let nlen := Z.of_nat (length name) in
  header [ino; 0x81a4 (* 0o100644 *); 0; 0; 1; 0; dlen; 0; 0; 0; 0; nlen; 0]
  ++ name ++ zeros (pad4 (110 + nlen)) ++ data ++ zeros (pad4 dlen).

Definition trailer (ino : Z) : pybytes :=
  let name := bs "TRAILER!!!" ++ [0] in
  let nlen := Z.of_nat (length name) in
  header [ino; 0; 0; 0; 1; 0; 0; 0; 0; 0; 0; nlen; 0] ++ name ++ zeros (pad4 (110 + nlen)).

(** The loop over the members, in order, from inode number [ino]; [None] is a
    specification without [=] or a file that cannot be read. *)
Fixpoint members (read : pystr → option pybytes) (ino : Z) (specs : list pystr)
    : option (pybytes * Z) :=
  match specs with
  | [] => Some ([], ino)
  | spec :: specs =>
    match split_max 1 (u "=") spec with
    | [arcname; path] =>
      data ← read path;
      '(out, ino') ← members read (ino + 1) specs;
      Some (member ino (utf8_encode arcname ++ [0]) data ++ out, ino')
    | _ => None
    end
  end.

(** [main]: the contents of the archive. *)
Definition main (read : pystr → option pybytes) (specs : list pystr) : option pybytes :=
  '(out, ino) ← members read 1 specs;
  let out := out ++ trailer ino in
  let pos := Z.of_nat (length out) in
  Some (out ++ zeros ((512 - pos mod 512) mod 512)).

End mkcpio.

Module ppm2png.

(** [f.readline()]: up to and with the newline, or the rest of the file. *)
Fixpoint readline (s : pybytes) : pybytes * pybytes :=
  match s with
  | [] => ([], [])
  | c :: t => if c =? 10 then ([10], t) else let '(l, r) := readline t in (c :: l, r)
  end.

(** [while line.startswith(b"#"): line = f.readline()]. *)
Fixpoint skip_comments (fuel : nat) (line rest : pybytes) : pybytes * pybytes :=
  match fuel with
  | O => (line, rest)
  | S f => if startswith line (bs "#")
           then let '(line, rest) := readline rest in skip_comments f line rest
           else (line, rest)
  end.

(** [f.read(n)]: everything for a negative [n]. *)
Definition read (n : Z) (s : pybytes) : pybytes := if n <? 0 then s else take (Z.to_nat n) s.

Definition split_bytes (s : pybytes) : list pybytes :=
  List.filter nonempty (split_by bisspace s).

(** [zlib.crc32]: the reflected polynomial 0xEDB88320, bit by bit. *)
Definition crc_bit (c : Z) : Z :=
  if Z.testbit c 0 then Z.lxor (Z.shiftr c 1) 0xEDB88320 else Z.shiftr c 1.
Definition crc_byte (c b : Z) : Z := Nat.iter 8 crc_bit (Z.lxor c b).
Definition crc32 (s : pybytes) : Z := Z.lxor (foldl crc_byte 0xFFFFFFFF s) 0xFFFFFFFF.

(** [struct.pack(">I", z)]; [None] is [struct.error]. *)
Definition pack_u32 (z : Z) : option pybytes :=
  if (0 <=? z) && (z <? 2 ^ 32)
  then Some [z / 2 ^ 24; z / 2 ^ 16 mod 256; z / 2 ^ 8 mod 256; z mod 256] else None.

Definition chunk (typ data : pybytes) : option pybytes :=
  len ← pack_u32 (Z.of_nat (length data));
  crc ← pack_u32 (Z.land (crc32 (typ ++ data)) 0xFFFFFFFF);
  Some (len ++ typ ++ data ++ crc).

Definition row (px : pybytes) (w y : nat) : pybytes := [0] ++ take (w * 3) (drop (y * w * 3) px).

(** The scan lines, each with filter type 0. *)
Definition raw (px : pybytes) (w h : Z) : pybytes :=
  seq 0 (Z.to_nat h) ≫= row px (Z.to_nat w).

Definition signature : pybytes := [137] ++ bs "PNG" ++ [13; 10; 26; 10].

Section Convert.
(** [zlib.compress(data, 6)]. *)
Variable compress : pybytes → pybytes.

Definition encode (w h : Z) (px : pybytes) : option pybytes :=
  dims ← (pw ← pack_u32 w; ph ← pack_u32 h; Some (pw ++ ph));
  ihdr ← chunk (bs "IHDR") (dims ++ [8; 2; 0; 0; 0]);
  idat ← chunk (bs "IDAT") (compress (raw px w h));
  iend ← chunk (bs "IEND") [];
  Some (signature ++ ihdr ++ idat ++ iend).

(** [main]: the bytes of the PNG file; [None] is a failed assertion or a
    conversion error. *)
Definition main (file : pybytes) : option pybytes :=
  let '(magic, rest) := readline file in
  if negb (str_eqb (strip_by bisspace magic) (bs "P6")) then None
  else
    let '(line, rest) := readline rest in
    let '(line, rest) := skip_comments (S (length rest)) line rest in
    match split_bytes line with
    | [sw; sh] =>
      w ← bint sw; h ← bint sh;
      let '(line, rest) := readline rest in
      maxval ← bint line;
      if negb (maxval =? 255) then None
      else
        let px := read (w * h * 3) rest in
        if Z.of_nat (length px) =? w * h * 3 then encode w h px else None
    | _ => None
    end.
End Convert.

End ppm2png.

Module hmp.

Definition prompt : pybytes := bs "(qemu) ".

Definition re_csi : re := lit [27; 91] @@ (star (RChr (λ c, d09 c || (c =? 59) || (c =? 63)))
  @@ RChr (λ c, az c || AZ c)).
Definition re_charset : re :=
  RChr (Z.eqb 27) @@ (RChr (λ c, (c =? 40) || (c =? 41)) @@ RChr (λ c, d09 c || AZ c)).
Definition ANSI : re := re_csi </> (re_charset </> RChr (Z.eqb 0)).

(** The receive loop over the chunks the socket delivers: it stops at the
    prompt or at the end of the stream ([recv] returning nothing). *)
Fixpoint recv_prompt (buf : pybytes) (chunks : list pybytes) : pybytes * list pybytes :=
  if endswith buf prompt then (buf, chunks)
  else match chunks with
       | [] => (buf, [])
       | [] :: rest => (buf, rest)
       | chunk :: rest => recv_prompt (buf ++ chunk) rest
       end.

Definition strip_bytes (s : pybytes) : pybytes := strip_by bisspace s.

Definition is_tail (line : pybytes) : bool :=
  str_eqb (strip_bytes line) [] || str_eqb (strip_bytes line) (bs "(qemu)").

(** [while lines and lines[-1].strip() in (...): lines.pop()], on the
    reversed list. *)
Fixpoint drop_tail (rev_lines : list pybytes) : list pybytes :=
  match rev_lines with
  | l :: rest => if is_tail l then drop_tail rest else l :: rest
  | [] => []
  end.

Definition clean (cmd : pystr) (buf : pybytes) : list pybytes :=
  let lines := split [13; 10] (rsub ANSI [] buf) in
  let lines := match lines with
               | l :: rest => if str_eqb (strip_bytes l) (utf8_encode cmd) then rest else lines
               | [] => []
               end in
  rev (drop_tail (rev lines)).

(** [main]: what is sent, and what is printed. *)
Definition main (args : list pystr) (chunks : list pybytes) : pybytes * pystr :=
  let cmd := join (u " ") args in
  let '(_, chunks) := recv_prompt [] chunks in
  let '(buf, _) := recv_prompt [] chunks in
  (utf8_encode cmd ++ [10], utf8_decode (join [13; 10] (clean cmd buf)) ++ [10]).

End hmp.
