(* ===== verification/QemuSpec.v ===== *)
(** * Properties of the guest-image helpers

    The chunked search finds every occurrence once whatever the chunk size,
    and the archive reads back as the members it was made from. *)

From S2P Require Import Prelude PyStr Json Regex Qemu.

(** ** memscan: chunk boundaries *)

(** The reference search: every offset from [i] on at which the needle starts
    in the whole text. *)
Fixpoint occs (i : Z) (needle s : pybytes) : list Z :=
  match s with
  | [] => []
  | _ :: t => (if startswith s needle then [i] else []) ++ occs (i + 1) needle t
  end.

Lemma startswith_short s p : (length s < length p)%nat → startswith s p = false.
Proof.
  intros H. destruct (startswith s p) eqn:E; [|done].
  apply startswith_iff in E as [t ->]. rewrite length_app in H. lia.
Qed.

Lemma occs_short i needle s : (length s < length needle)%nat → occs i needle s = [].
Proof.
  revert i. induction s as [|c s IH]; intros i H; [done|]. cbn [occs].
  rewrite startswith_short, IH; [done|simpl in H; lia|done].
Qed.

Lemma find_nil needle : needle ≠ [] → find [] needle = None.
Proof. by destruct needle. Qed.

(** The occurrences found by repeated [find]. *)
Lemma occs_find i needle s : needle ≠ [] →
  occs i needle s =
  match find s needle with
  | None => []
  | Some j => (i + Z.of_nat j) :: occs (i + Z.of_nat j + 1) needle (drop (S j) s)
  end.
Proof.
  intros Hn. revert i. induction s as [|c s IH]; intros i; [by rewrite find_nil|].
  cbn [occs find]. destruct (startswith (c :: s) needle).
  - simpl. rewrite drop_0. do 2 f_equal; lia.
  - rewrite IH. simpl. destruct (find s needle) as [j|]; [|done]. simpl.
    f_equal; [lia|]. f_equal. lia.
Qed.

Lemma scan_occs fuel needle buf start : needle ≠ [] → (length buf - start < fuel)%nat →
  Z.of_nat <$> memscan.scan fuel needle buf start = occs (Z.of_nat start) needle (drop start buf).
Proof.
  intros Hn. revert start. induction fuel as [|f IH]; intros start Hf; [lia|].
  cbn [memscan.scan]. rewrite occs_find by done.
  destruct (find (drop start buf) needle) as [j|] eqn:E; [|done].
  assert (j < length (drop start buf))%nat as Hj.
  { apply find_Some in E as [E Hle]. apply (f_equal length) in E.
    rewrite !length_app, length_take in E. destruct needle; [done|]. simpl in E. lia. }
  rewrite length_drop in Hj. rewrite fmap_cons, IH by lia. rewrite drop_drop.
  f_equal; [lia|]. f_equal; [lia|]. f_equal. lia.
Qed.

(** Occurrences across a boundary start in the last [m - 1] bytes. *)
Lemma occs_overlap i needle a c d :
  (length c < length needle)%nat → (a = [] ∨ S (length c) = length needle) →
  occs i needle (a ++ c ++ d) = occs i needle (a ++ c) ++ occs (i + Z.of_nat (length a)) needle (c ++ d).
Proof.
  intros Hc. revert i. induction a as [|x a IH]; intros i Ha.
  - simpl. rewrite (occs_short i needle c) by done. simpl. by rewrite Z.add_0_r.
  - destruct Ha as [|Ha]; [done|]. cbn [app occs].
    rewrite IH by by right. rewrite <-app_assoc. f_equal.
    + rewrite app_comm_cons, app_assoc, app_comm_cons, startswith_app_long; [done|].
      simpl. rewrite length_app. lia.
    + do 2 f_equal. simpl. lia.
Qed.

Lemma occs_shift i needle s : occs i needle s = (λ z, i + z) <$> occs 0 needle s.
Proof.
  assert (Hg : ∀ k, occs (i + k) needle s = (λ z, i + z) <$> occs k needle s).
  { induction s as [|c s IHs]; intros k; [done|]. cbn [occs].
    rewrite fmap_app, <-Z.add_assoc, IHs. f_equal. by destruct (startswith _ _). }
  by rewrite <-(Hg 0), Z.add_0_r.
Qed.

(** What is carried over after a buffer: its last [m - 1] bytes, or all of it
    when it is shorter and nothing has been dropped yet. *)
Lemma carry_split (needle a carry data : pybytes) :
  needle ≠ [] → (a = [] ∨ S (length carry) = length needle) →
  let buf := carry ++ data in
  let carry' := if (1 <? length needle)%nat then last_n (length needle - 1) buf else [] in
  ∃ b, buf = b ++ carry' ∧ (length carry' < length needle)%nat
       ∧ (a ++ b = [] ∨ S (length carry') = length needle).
Proof.
  intros Hn Ha buf carry'. unfold carry'. destruct (1 <? length needle)%nat eqn:E1.
  - apply Nat.ltb_lt in E1. set (k := (length buf - (length needle - 1))%nat).
    exists (take k buf).
    assert (last_n (length needle - 1) buf = drop k buf) as ->.
    { unfold last_n, k. destruct (length needle - 1)%nat eqn:Em; [lia|done]. }
    rewrite take_drop, length_drop.
    split; [done|]. split; [unfold k; lia|].
    destruct (decide (length needle - 1 ≤ length buf)%nat) as [Hle|Hle]; [right; unfold k; lia|].
    left. assert (k = O) as -> by (unfold k; lia).
    destruct Ha as [->|Ha]; [done|]. exfalso. apply Hle. unfold buf. rewrite length_app. lia.
  - apply Nat.ltb_ge in E1. exists buf. rewrite app_nil_r.
    destruct needle as [|n [|]]; [done| |simpl in E1; lia]. simpl. by split_and!; [|lia|right].
Qed.

Lemma scan_shift needle buf i : needle ≠ [] →
  (λ j, i + Z.of_nat j) <$> memscan.scan (S (length buf)) needle buf 0 = occs i needle buf.
Proof.
  intros Hn. pose proof (scan_occs (S (length buf)) needle buf 0 Hn ltac:(lia)) as Hs.
  rewrite drop_0 in Hs. rewrite occs_shift. change (occs 0) with (occs (Z.of_nat 0)).
  by rewrite <-Hs, <-list_fmap_compose.
Qed.

Lemma find_chunks_occs fuel chunk needle a carry rest :
  (0 < chunk)%nat → needle ≠ [] → (length rest < fuel)%nat →
  (length carry < length needle)%nat → (a = [] ∨ S (length carry) = length needle) →
  occs 0 needle (a ++ carry ++ rest) =
  occs 0 needle (a ++ carry) ++
  memscan.find_chunks fuel chunk needle carry (Z.of_nat (length (a ++ carry))) rest.
Proof.
  intros Hchunk Hn. revert a carry rest.
  induction fuel as [|f IH]; intros a carry rest Hf Hc Ha; [lia|]. cbn [memscan.find_chunks].
  destruct (take chunk rest) as [|x t] eqn:Et.
  { destruct rest; [by rewrite !app_nil_r|]. by destruct chunk; [lia|]. }
  rewrite <-Et. assert (Hd : (length (drop chunk rest) < length rest)%nat).
  { destruct rest; [by destruct chunk|]. rewrite length_drop. simpl. lia. }
  assert (Hne : nonempty (take chunk rest) = true) by by rewrite Et. rewrite Hne. cbn [negb].
  set (data := take chunk rest) in *.
  assert (Hbuf : carry ++ rest = (carry ++ data) ++ drop chunk rest).
  { unfold data. by rewrite <-app_assoc, take_drop. }
  destruct (carry_split needle a carry data Hn Ha) as (b & Eb & Hl' & Hb).
  set (buf := carry ++ data) in *. set (carry' := if (1 <? _)%nat then _ else _) in *.
  rewrite Hbuf, Eb, <-app_assoc, (app_assoc a b).
  rewrite IH by (done || lia). rewrite <-(app_assoc a b), <-Eb.
  unfold buf at 1. rewrite occs_overlap by done. rewrite <-app_assoc. fold buf. f_equal.
  replace (Z.of_nat (length (a ++ carry)) - Z.of_nat (length carry)) with (Z.of_nat (length a))
    by (rewrite length_app; lia).
  rewrite scan_shift by done. f_equal. f_equal. unfold buf. rewrite !length_app. lia.
Qed.

(** C31: the chunked search of [memscan.find_all] reports exactly the offsets at
    which the needle occurs in the whole file, in increasing order and each
    once, for any chunk size: an occurrence that spans a chunk boundary is not
    lost, and one near a boundary is not reported twice. *)
Theorem memscan_complete chunk file needle :
  (0 < chunk)%nat → needle ≠ [] → memscan.offsets chunk file needle = occs 0 needle file.
Proof.
  intros Hc Hn. symmetry.
  apply (find_chunks_occs (S (length file)) chunk needle [] [] file); try done; [lia| |by left].
  destruct needle; [done|simpl; lia].
Qed.

Lemma memscan_complete_witness :
  memscan.offsets 3 (bs "abababxxaba") (bs "aba") = occs 0 (bs "aba") (bs "abababxxaba")
  ∧ memscan.offsets 3 (bs "abababxxaba") (bs "aba") = [0; 2; 8].
Proof.
  split; [apply (memscan_complete 3 (bs "abababxxaba") (bs "aba")); [lia|by vm_compute] | by vm_compute].
Defined.

(** ** mkcpio: a reader of the newc format *)

Fixpoint hex_read (acc : Z) (s : pybytes) : Z :=
  match s with
  | [] => acc
  | c :: s => hex_read (acc * 16 + hex_val c) s
  end.

Fixpoint read_fields (n : nat) (s : pybytes) : list Z :=
  match n with
  | O => []
  | S n => hex_read 0 (take 8 s) :: read_fields n (drop 8 s)
  end.

(** The next multiple of four: where the format puts the data of a member and
    the next header, counted from the start of the archive. *)
Definition align4 (n : Z) : Z := (n + 3) / 4 * 4.

(** The [n] bytes at an offset. *)
Definition bytes_at (s : pybytes) (pos n : Z) : pybytes := take (Z.to_nat n) (drop (Z.to_nat pos) s).

(** The archive member at an offset: the name with its terminator, the data and
    the offset of the next member. *)
Definition read_member (s : pybytes) (pos : Z) : option (pybytes * pybytes * Z) :=
  if str_eqb (bytes_at s pos 6) (bs "070701") then
    let fs := read_fields 13 (bytes_at s (pos + 6) 104) in
    dlen ← fs !! 6%nat; nlen ← fs !! 11%nat;
    let data := align4 (pos + 110 + nlen) in
    Some (bytes_at s (pos + 110) nlen, bytes_at s data dlen, align4 (data + dlen))
  else None.

Definition trailer_name : pybytes := bs "TRAILER!!!" ++ [0].

(** The members from an offset up to the trailer. *)
Fixpoint unpack (fuel : nat) (s : pybytes) (pos : Z) : option (list (pybytes * pybytes)) :=
  match fuel with
  | O => None
  | S f =>
    '(name, data, next) ← read_member s pos;
    if str_eqb name trailer_name then Some []
    else cons (removelast name, data) <$> unpack f s next
  end.

Lemma hex_read_app acc s t : hex_read acc (s ++ t) = hex_read (hex_read acc s) t.
Proof. revert acc. induction s as [|c s IH]; intros acc; [done|]. apply IH. Qed.

Lemma hexn_length n z : length (hexn n z) = n.
Proof.
  revert z. induction n as [|n IH]; intros z; [done|]. cbn [hexn]. rewrite length_app, IH. simpl. lia.
Qed.

Lemma hexn_read n z acc : 0 ≤ z < 16 ^ Z.of_nat n →
  hex_read acc (hexn n z) = acc * 16 ^ Z.of_nat n + z.
Proof.
  revert z acc. induction n as [|n IH]; intros z acc Hz; [simpl in *; lia|].
  cbn [hexn]. rewrite hex_read_app, IH.
  - cbn [hex_read]. rewrite hex_val_digit by (apply Z.mod_pos_bound; lia).
    rewrite Nat2Z.inj_succ, Z.pow_succ_r by lia. pose proof (Z.div_mod z 16). lia.
  - rewrite Nat2Z.inj_succ, Z.pow_succ_r in Hz by lia. split; [apply Z.div_pos; lia|].
    apply Z.div_lt_upper_bound; lia.
Qed.

Definition field_ok (z : Z) : Prop := 0 ≤ z < 2 ^ 32.

Lemma hexfmt_8 z : field_ok z → hexfmt 8 z = hexn 8 z.
Proof.
  intros Hz. unfold hexfmt, ndigits. f_equal.
  assert (Z.log2 z / 4 ≤ 7); [|lia].
  apply Z.lt_succ_r, Z.div_lt_upper_bound; [lia|].
  destruct (decide (z = 0)) as [->|]; [simpl; lia|]. apply Z.log2_lt_pow2; unfold field_ok in Hz; lia.
Qed.

Lemma fields_length fs : Forall field_ok fs → length (fs ≫= hexfmt 8) = (8 * length fs)%nat.
Proof.
  induction 1 as [|z fs Hz _ IH]; [done|]. rewrite bind_cons, length_app, IH, hexfmt_8 by done.
  rewrite hexn_length. simpl. lia.
Qed.

Lemma read_fields_ok fs s : Forall field_ok fs → read_fields (length fs) ((fs ≫= hexfmt 8) ++ s) = fs.
Proof.
  induction 1 as [|z fs Hz _ IH]; [done|]. rewrite bind_cons, <-app_assoc, hexfmt_8 by done.
  cbn [length read_fields].
  rewrite take_app_length', drop_app_length' by (by rewrite hexn_length). rewrite IH. f_equal.
  rewrite hexn_read; [lia|]. unfold field_ok in Hz. simpl. lia.
Qed.

Lemma magic_length : length (bs "070701") = 6%nat.
Proof. by vm_compute. Qed.

Lemma header_length fs : Forall field_ok fs → length fs = 13%nat → length (mkcpio.header fs) = 110%nat.
Proof.
  intros Hf Hl. unfold mkcpio.header. rewrite length_app, magic_length, fields_length, Hl by done. done.
Qed.

Lemma zeros_length n : 0 ≤ n → Z.of_nat (length (mkcpio.zeros n)) = n.
Proof. intros. unfold mkcpio.zeros. rewrite length_replicate. lia. Qed.

Lemma pad4_range n : 0 ≤ mkcpio.pad4 n < 4.
Proof. apply Z.mod_pos_bound. lia. Qed.

(** The padding written reaches the next multiple of four. *)
Lemma pad4_align n : n + mkcpio.pad4 n = align4 n.
Proof.
  unfold mkcpio.pad4, align4. pose proof (Z.div_mod n 4). pose proof (Z.mod_pos_bound n 4).
  destruct (decide (n mod 4 = 0)) as [E|E].
  - rewrite E. change ((4 - 0) mod 4) with 0.
    replace (n + 3) with (n / 4 * 4 + 3) by lia. rewrite Z.div_add_l by lia. change (3 / 4) with 0. lia.
  - rewrite (Z.mod_small (4 - n mod 4)) by lia.
    replace (n + 3) with ((n / 4 + 1) * 4 + (n mod 4 - 1)) by lia.
    rewrite Z.div_add_l, (Z.div_small (n mod 4 - 1)) by lia. lia.
Qed.

Lemma align4_mult n : align4 n mod 4 = 0.
Proof. apply Z.mod_mul. lia. Qed.

Lemma align4_add pos n : pos mod 4 = 0 → align4 (pos + n) = pos + align4 n.
Proof.
  intros Hp. unfold align4. rewrite (Z.div_mod pos 4) at 1 by lia. rewrite Hp, Z.add_0_r.
  replace (4 * (pos / 4) + n + 3) with (pos / 4 * 4 + (n + 3)) by lia.
  rewrite Z.div_add_l by lia. rewrite (Z.div_mod pos 4) at 2 by lia. rewrite Hp. lia.
Qed.

(** The bytes of a part whose offset is the length of what precedes it. *)
Lemma bytes_at_app pre x post pos n :
  pos = Z.of_nat (length pre) → n = Z.of_nat (length x) → bytes_at (pre ++ x ++ post) pos n = x.
Proof.
  intros -> ->. unfold bytes_at. rewrite !Nat2Z.id, drop_app_length. by rewrite take_app_length.
Qed.

(** The reader on a header followed by a name, data and their padding. *)
Lemma read_member_ok pre fs name data rest dlen nlen :
  Z.of_nat (length pre) mod 4 = 0 →
  Forall field_ok fs → length fs = 13%nat → fs !! 6%nat = Some dlen → fs !! 11%nat = Some nlen →
  dlen = Z.of_nat (length data) → nlen = Z.of_nat (length name) →
  let m := mkcpio.header fs ++ name ++ mkcpio.zeros (mkcpio.pad4 (110 + nlen)) ++ data
           ++ mkcpio.zeros (mkcpio.pad4 dlen) in
  read_member (pre ++ m ++ rest) (Z.of_nat (length pre))
    = Some (name, data, Z.of_nat (length (pre ++ m))) ∧ Z.of_nat (length (pre ++ m)) mod 4 = 0.
Proof.
  intros Hp Hf Hl Hd Hn Ed En m. pose proof (pad4_range (110 + nlen)). pose proof (pad4_range dlen).
  assert (Hh := header_length fs Hf Hl).
  assert (Hm : Z.of_nat (length (pre ++ m)) = Z.of_nat (length pre) + align4 (110 + nlen) + align4 dlen).
  { unfold m. rewrite !length_app, Hh. rewrite <-!pad4_align, !Nat2Z.inj_add, !zeros_length by lia. lia. }
  assert (Hz : Z.of_nat (length pre) + align4 (110 + nlen)
               = Z.of_nat (length (pre ++ mkcpio.header fs ++ name ++ mkcpio.zeros (mkcpio.pad4 (110 + nlen))))).
  { rewrite !length_app, Hh, <-pad4_align, !Nat2Z.inj_add, zeros_length by lia. lia. }
  assert (Hza : (Z.of_nat (length pre) + align4 (110 + nlen)) mod 4 = 0).
  { rewrite Z.add_mod, Hp, align4_mult by lia. done. }
  split.
  2:{ rewrite Hm, Z.add_mod, Hza, align4_mult by lia. done. }
  unfold read_member.
  assert (E1 : bytes_at (pre ++ m ++ rest) (Z.of_nat (length pre)) 6 = bs "070701").
  { unfold m, mkcpio.header. rewrite <-!app_assoc. by apply bytes_at_app; [|rewrite magic_length]. }
  assert (E2 : bytes_at (pre ++ m ++ rest) (Z.of_nat (length pre) + 6) 104 = fs ≫= hexfmt 8).
  { unfold m, mkcpio.header. rewrite <-!app_assoc, (app_assoc pre (bs "070701")).
    apply bytes_at_app; [rewrite length_app, magic_length; lia|by rewrite fields_length, Hl]. }
  assert (E3 : bytes_at (pre ++ m ++ rest) (Z.of_nat (length pre) + 110) nlen = name).
  { unfold m. rewrite <-!app_assoc, (app_assoc pre (mkcpio.header fs)).
    apply bytes_at_app; [rewrite length_app, Hh; lia|done]. }
  assert (E4 : bytes_at (pre ++ m ++ rest) (Z.of_nat (length pre) + align4 (110 + nlen)) dlen = data).
  { replace (pre ++ m ++ rest) with ((pre ++ mkcpio.header fs ++ name ++ mkcpio.zeros (mkcpio.pad4 (110 + nlen)))
      ++ data ++ mkcpio.zeros (mkcpio.pad4 dlen) ++ rest) by (unfold m; by rewrite <-!app_assoc).
    by apply bytes_at_app. }
  rewrite E1, str_eqb_refl, E2. rewrite <-Hl, <-(app_nil_r (fs ≫= _)), read_fields_ok by done.
  rewrite Hd, Hn. cbn [mbind option_bind]. rewrite <-Z.add_assoc, align4_add by done. rewrite E3, E4.
  by rewrite align4_add, Hm.
Qed.

(** What one command-line specification asks for. *)
Definition entry_of (read : pystr → option pybytes) (spec : pystr) : option (pybytes * pybytes) :=
  match split_max 1 (u "=") spec with
  | [arcname; path] => data ← read path; Some (utf8_encode arcname, data)
  | _ => None
  end.

Definition entry_ok (e : pybytes * pybytes) : Prop :=
  e.1 ≠ bs "TRAILER!!!" ∧ Z.of_nat (length e.1) < 2 ^ 32 - 1 ∧ Z.of_nat (length e.2) < 2 ^ 32.

Lemma read_trailer pre ino s :
  Z.of_nat (length pre) mod 4 = 0 → field_ok ino →
  ∃ next, read_member (pre ++ mkcpio.trailer ino ++ s) (Z.of_nat (length pre)) = Some (trailer_name, [], next).
Proof.
  intros Hp Hi. eexists. unfold mkcpio.trailer. cbv zeta. fold trailer_name.
  assert (Hf : Forall field_ok [ino; 0; 0; 0; 1; 0; 0; 0; 0; 0; 0; Z.of_nat (length trailer_name); 0]).
  { assert (Z.of_nat (length trailer_name) = 11) as -> by by vm_compute.
    unfold field_ok in *. repeat (apply Forall_cons; split; [lia|]). by apply Forall_nil. }
  destruct (read_member_ok pre _ trailer_name [] s 0 (Z.of_nat (length trailer_name)) Hp Hf eq_refl eq_refl eq_refl
              eq_refl eq_refl) as [E _].
  assert (mkcpio.zeros (mkcpio.pad4 0) = []) as Hz by (by vm_compute). rewrite Hz, !app_nil_r in E. exact E.
Qed.

Lemma read_entry pre ino name data s :
  Z.of_nat (length pre) mod 4 = 0 →
  field_ok ino → Z.of_nat (length name) < 2 ^ 32 - 1 → Z.of_nat (length data) < 2 ^ 32 →
  let m := mkcpio.member ino (name ++ [0]) data in
  read_member (pre ++ m ++ s) (Z.of_nat (length pre)) = Some (name ++ [0], data, Z.of_nat (length (pre ++ m)))
  ∧ Z.of_nat (length (pre ++ m)) mod 4 = 0.
Proof.
  intros Hp Hi Hn Hd. assert (Hl : length (name ++ [0]) = S (length name)) by (rewrite length_app; simpl; lia).
  revert Hl. generalize (name ++ [0]). intros nm Hl.
  unfold mkcpio.member. cbv zeta.
  apply (read_member_ok pre _ nm data s (Z.of_nat (length data)) (Z.of_nat (length nm))); [done| |done..].
  unfold field_ok in *.
  repeat (apply Forall_cons; split; [lia|]). by apply Forall_nil.
Qed.

Lemma removelast_snoc {A} (l : list A) x : removelast (l ++ [x]) = l.
Proof. apply removelast_last. Qed.

Lemma unpack_members read specs pre ino es s :
  mapM (entry_of read) specs = Some es → Forall entry_ok es →
  Z.of_nat (length pre) mod 4 = 0 → 1 ≤ ino → ino + Z.of_nat (length specs) < 2 ^ 32 →
  ∃ out ino', mkcpio.members read ino specs = Some (out, ino')
    ∧ unpack (S (length specs)) (pre ++ out ++ mkcpio.trailer ino' ++ s) (Z.of_nat (length pre)) = Some es.
Proof.
  revert pre ino es. induction specs as [|spec specs IH]; intros pre ino es He Hok Hp Hi Hn.
  - injection He as <-. eexists [], ino. split; [done|]. cbn [app length unpack].
    destruct (read_trailer pre ino s Hp) as [rest ->]; [unfold field_ok; simpl in Hn; lia|].
    simpl. by rewrite str_eqb_refl.
  - cbn [mapM] in He. apply bind_Some in He as (e & He & H).
    apply bind_Some in H as (es' & Hes & E). injection E as <-.
    apply Forall_cons in Hok as [(Hne & Hl & Hd) Hok].
    unfold entry_of in He. cbn [mkcpio.members].
    destruct (split_max 1 (u "=") spec) as [|arc [|path [|]]]; try done.
    apply bind_Some in He as (data & Hr & E). injection E as <-. cbn [fst snd] in *.
    assert (Hio : field_ok ino) by (unfold field_ok; cbn [length] in Hn; lia).
    destruct (read_entry pre ino (utf8_encode arc) data [] Hp Hio Hl Hd) as [_ Hnext].
    set (m := mkcpio.member ino (utf8_encode arc ++ [0]) data) in *.
    destruct (IH (pre ++ m) (ino + 1) es' Hes Hok Hnext) as (out & ino' & Hm & Hu);
      [lia|cbn [length] in Hn; lia|].
    rewrite Hr. cbn [mbind option_bind]. rewrite Hm. cbn [mbind option_bind].
    eexists _, ino'. split; [done|]. fold m.
    change (length (spec :: specs)) with (S (length specs)). revert Hu.
    generalize (S (length specs)). intros f Hu. cbn [unpack]. rewrite <-(app_assoc m).
    destruct (read_entry pre ino (utf8_encode arc) data (out ++ mkcpio.trailer ino' ++ s) Hp Hio Hl Hd) as [E _].
    fold m in E. rewrite E. clear E.
    cbn [mbind option_bind]. unfold trailer_name.
    rewrite (proj2 (str_eqb_neq _ _)) by (intros E; apply Hne; by apply app_inj_tail in E as [-> _]).
    rewrite removelast_snoc. fold m. rewrite <-app_assoc in Hu. by rewrite Hu.
Qed.

(** C32: [mkcpio] writes a readable archive: reading the file back by the newc
    format, which puts every header and the data of every member at a multiple
    of four from the start of the archive, gives exactly the members named on
    the command line, in order, with their names and contents, and its size is
    a multiple of 512 bytes.  No member may be named TRAILER!!!, which ends an
    archive, and the sizes and the number of members are those the format's
    eight hexadecimal digits can hold. *)
Theorem cpio_roundtrip read specs es :
  mapM (entry_of read) specs = Some es → Forall entry_ok es →
  Z.of_nat (length specs) < 2 ^ 32 - 1 →
  ∃ out, mkcpio.main read specs = Some out
    ∧ Z.of_nat (length out) mod 512 = 0
    ∧ unpack (S (length specs)) out 0 = Some es.
Proof.
  intros He Hok Hn. unfold mkcpio.main.
  destruct (unpack_members read specs [] 1 es [] He Hok) as (out & ino & Hm & _); [done|lia|lia|].
  rewrite Hm. cbn [mbind option_bind]. eexists. split; [done|].
  set (pos := Z.of_nat (length (out ++ mkcpio.trailer ino))).
  split.
  - rewrite length_app, Nat2Z.inj_add, zeros_length by (apply Z.mod_pos_bound; lia). fold pos.
    pose proof (Z.div_mod pos 512). pose proof (Z.mod_pos_bound pos 512).
    destruct (decide (pos mod 512 = 0)) as [E|E].
    + rewrite E. change ((512 - 0) mod 512) with 0. by rewrite Z.add_0_r.
    + rewrite (Z.mod_small (512 - pos mod 512)) by lia.
      replace (pos + (512 - pos mod 512)) with ((pos / 512 + 1) * 512) by lia. by apply Z.mod_mul.
  - destruct (unpack_members read specs [] 1 es (mkcpio.zeros ((512 - pos mod 512) mod 512)) He Hok)
      as (out' & ino' & Hm' & Hu); [done|lia|lia|].
    rewrite Hm in Hm'. injection Hm' as <- <-. rewrite <-app_assoc. exact Hu.
Qed.

Lemma cpio_roundtrip_witness : ∃ out,
  mkcpio.main (λ _, Some (bs "data")) [u "boot=a"; u "x/y=b"] = Some out
  ∧ Z.of_nat (length out) mod 512 = 0
  ∧ unpack 3 out 0 = Some [(bs "boot", bs "data"); (bs "x/y", bs "data")].
Proof.
  apply (cpio_roundtrip (λ _, Some (bs "data")) [u "boot=a"; u "x/y=b"]).
  - by vm_compute.
  - repeat constructor; by vm_compute.
  - simpl. lia.
Defined.

(** ** ppm2png: a reader of the PNG structure *)

Definition u32_of (s : pybytes) : Z := foldl (λ a b, a * 256 + b) 0 s.

(** One chunk: its type and data, when the checksum agrees. *)
Definition read_chunk (s : pybytes) : option (pybytes * pybytes * pybytes) :=
  let n := Z.to_nat (u32_of (take 4 s)) in
  let typ := take 4 (drop 4 s) in
  let data := take n (drop 8 s) in
  let rest := drop (8 + n) s in
  if u32_of (take 4 rest) =? ppm2png.crc32 (typ ++ data) then Some (typ, data, drop 4 rest) else None.

(** Scan lines of [w] RGB pixels with filter type 0. *)
Fixpoint unfilter (fuel w : nat) (s : pybytes) : option pybytes :=
  match fuel, s with
  | O, [] => Some []
  | S f, 0 :: s => app (take (w * 3) s) <$> unfilter f w (drop (w * 3) s)
  | _, _ => None
  end.

Definition decode_png (inflate : pybytes → option pybytes) (s : pybytes)
    : option (Z * Z * pybytes) :=
  if negb (startswith s ppm2png.signature) then None
  else
    '(t1, ihdr, s) ← read_chunk (drop 8 s);
    '(t2, idat, s) ← read_chunk s;
    '(t3, iend, s) ← read_chunk s;
    if str_eqb t1 (bs "IHDR") && str_eqb t2 (bs "IDAT") && str_eqb t3 (bs "IEND")
       && str_eqb (drop 8 ihdr) [8; 2; 0; 0; 0] && negb (nonempty iend) && negb (nonempty s) then
      let w := u32_of (take 4 ihdr) in
      let h := u32_of (take 4 (drop 4 ihdr)) in
      lines ← inflate idat;
      px ← unfilter (Z.to_nat h) (Z.to_nat w) lines;
      Some (w, h, px)
    else None.

Lemma pack_u32_ok z p : ppm2png.pack_u32 z = Some p → length p = 4%nat ∧ u32_of p = z.
Proof.
  unfold ppm2png.pack_u32. destruct (_ && _) eqn:E; [|done]. intros [= <-]. bool_hyps.
  split; [done|]. unfold u32_of. simpl. Z.to_euclidean_division_equations. lia.
Qed.

Lemma crc_bit_range c : 0 ≤ c < 2 ^ 32 → 0 ≤ ppm2png.crc_bit c < 2 ^ 32.
Proof.
  intros H. unfold ppm2png.crc_bit.
  assert (Hs : 0 ≤ Z.shiftr c 1 < 2 ^ 31).
  { rewrite Z.shiftr_div_pow2 by lia. change (2 ^ 1) with 2.
    split; [apply Z.div_pos; lia|apply Z.div_lt_upper_bound; lia]. }
  destruct (Z.testbit c 0); [|lia]. apply lxor_range; lia.
Qed.

Lemma crc32_range s : Forall (λ b, 0 ≤ b < 256) s → 0 ≤ ppm2png.crc32 s < 2 ^ 32.
Proof.
  intros H. unfold ppm2png.crc32. apply lxor_range; [lia| |lia].
  assert (Hg : ∀ c, 0 ≤ c < 2 ^ 32 → 0 ≤ foldl ppm2png.crc_byte c s < 2 ^ 32); [|apply Hg; lia].
  induction H as [|b s Hb _ IH]; intros c Hc; [done|]. cbn [foldl]. apply IH.
  unfold ppm2png.crc_byte. apply (Nat.iter_invariant 8 Z ppm2png.crc_bit (λ z, 0 ≤ z < 2 ^ 32)).
  - intros z Hz. by apply crc_bit_range.
  - apply lxor_range; lia.
Qed.

Lemma take_drop_app {A} (a b : list A) n : n = length a → take n (a ++ b) = a ∧ drop n (a ++ b) = b.
Proof. intros ->. split; [apply take_app_length|apply drop_app_length]. Qed.

(** A written chunk reads back, whatever follows it. *)
Lemma read_chunk_ok typ data s c :
  length typ = 4%nat → Forall (λ b, 0 ≤ b < 256) (typ ++ data) → ppm2png.chunk typ data = Some c →
  read_chunk (c ++ s) = Some (typ, data, s).
Proof.
  intros Ht Hb. unfold ppm2png.chunk.
  intros (len & Hl & (crc & Hc & [= <-])%bind_Some)%bind_Some.
  apply pack_u32_ok in Hl as [Hl Hlen]. apply pack_u32_ok in Hc as [Hc Hcrc].
  pose proof (crc32_range _ Hb) as Hr.
  change 0xFFFFFFFF with (Z.ones 32) in Hcrc. rewrite Z.land_ones, Z.mod_small in Hcrc by lia.
  unfold read_chunk. rewrite <-!app_assoc.
  destruct (take_drop_app len (typ ++ data ++ crc ++ s) 4 (eq_sym Hl)) as [-> ->].
  rewrite Hlen, Nat2Z.id.
  assert (H8 : drop 8 (len ++ typ ++ data ++ crc ++ s) = data ++ crc ++ s).
  { rewrite app_assoc. apply drop_app_length'. rewrite length_app. lia. }
  assert (Hn : drop (8 + length data) (len ++ typ ++ data ++ crc ++ s) = crc ++ s).
  { rewrite <-drop_drop, H8. apply drop_app_length. }
  rewrite H8, Hn, take_app_length.
  destruct (take_drop_app typ (data ++ crc ++ s) 4 (eq_sym Ht)) as [-> _].
  destruct (take_drop_app crc s 4 (eq_sym Hc)) as [-> ->].
  by rewrite Hcrc, Z.eqb_refl.
Qed.

(** Removing the filter bytes gives the pixels back. *)
Lemma unfilter_rows w h px :
  (length px = h * w * 3)%nat →
  unfilter h w (seq 0 h ≫= ppm2png.row px w) = Some px.
Proof.
  intros Hl.
  assert (Hg : ∀ k y, (y + k = h)%nat →
    unfilter k w (seq y k ≫= ppm2png.row px w) = Some (drop (y * w * 3) px)).
  { induction k as [|k IH]; intros y Hy.
    - simpl. rewrite drop_ge; [done|]. rewrite Hl. nia.
    - cbn [seq]. rewrite bind_cons. unfold ppm2png.row at 1. cbn [app unfilter].
      assert (Hlen : length (take (w * 3) (drop (y * w * 3) px)) = (w * 3)%nat).
      { rewrite length_take, length_drop, Hl. nia. }
      rewrite take_app_length', drop_app_length' by done. rewrite IH by lia.
      cbn [fmap option_fmap option_map]. f_equal.
      replace (S y * w * 3)%nat with (y * w * 3 + w * 3)%nat by lia.
      rewrite <-drop_drop. apply take_drop. }
  rewrite Hg by lia. by rewrite drop_0.
Qed.

Lemma pack_u32_bytes z p : ppm2png.pack_u32 z = Some p → Forall (λ b, 0 ≤ b < 256) p.
Proof.
  unfold ppm2png.pack_u32. destruct (_ && _) eqn:E; [|done]. intros [= <-]. bool_hyps.
  repeat constructor; try (apply Z.mod_pos_bound; lia); Z.to_euclidean_division_equations; lia.
Qed.

Lemma pack_u32_nonneg z p : ppm2png.pack_u32 z = Some p → 0 ≤ z.
Proof. unfold ppm2png.pack_u32. destruct (_ && _) eqn:E; [|done]. intros _. by bool_hyps. Qed.

Definition bytes_ok (s : pybytes) : Prop := Forall (λ b, 0 ≤ b < 256) s.

Section Png.
(** [zlib.compress] and a decompressor that inverts it. *)
Variable compress : pybytes → pybytes.
Variable inflate : pybytes → option pybytes.
Hypothesis inflate_compress : ∀ s, bytes_ok s → inflate (compress s) = Some s.
Hypothesis compress_bytes : ∀ s, bytes_ok s → bytes_ok (compress s).

Lemma readline_app s : s = (ppm2png.readline s).1 ++ (ppm2png.readline s).2.
Proof.
  induction s as [|c s IH]; [done|]. simpl. destruct (c =? 10) eqn:E; bool_hyps; [by subst|].
  destruct (ppm2png.readline s). simpl in *. by rewrite <-IH.
Qed.

Lemma skip_comments_app fuel line rest :
  ∃ p, line ++ rest = p ++ (ppm2png.skip_comments fuel line rest).1
                        ++ (ppm2png.skip_comments fuel line rest).2.
Proof.
  revert line rest. induction fuel as [|f IH]; intros line rest; [by exists []|]. cbn [ppm2png.skip_comments].
  destruct (startswith line _); [|by exists []].
  pose proof (readline_app rest) as Hr. destruct (ppm2png.readline rest) as [l r]. simpl in Hr.
  destruct (IH l r) as [p Hp]. exists (line ++ p). by rewrite <-app_assoc, <-Hp, <-Hr.
Qed.

Lemma read_prefix n s : ∃ t, s = ppm2png.read n s ++ t.
Proof.
  unfold ppm2png.read. destruct (n <? 0); [exists []; by rewrite app_nil_r|].
  exists (drop (Z.to_nat n) s). by rewrite take_drop.
Qed.

Lemma raw_bytes w h px : bytes_ok px → bytes_ok (ppm2png.raw px w h).
Proof.
  intros H. unfold ppm2png.raw. induction (seq 0 (Z.to_nat h)) as [|y l IH]; [constructor|].
  rewrite bind_cons. apply Forall_app. split; [|done]. unfold ppm2png.row.
  apply Forall_app. split; [repeat constructor; lia|by apply Forall_take, Forall_drop].
Qed.

#[local] Ltac literal_bytes := apply (bool_decide_unpack _); by vm_compute.

Lemma encode_decode w h px out :
  bytes_ok px → Z.of_nat (length px) = w * h * 3 → ppm2png.encode compress w h px = Some out →
  decode_png inflate out = Some (w, h, px).
Proof.
  intros Hb Hl. unfold ppm2png.encode.
  intros (dims & (pw & Hw & (ph & Hh & [= <-])%bind_Some)%bind_Some & H)%bind_Some.
  apply bind_Some in H as (ihdr & H1 & H). apply bind_Some in H as (idat & H2 & H).
  apply bind_Some in H as (iend & H3 & H).
  apply (inj Some) in H. rewrite <-H. clear H.
  pose proof (pack_u32_bytes _ _ Hw) as Bw. pose proof (pack_u32_bytes _ _ Hh) as Bh.
  pose proof (pack_u32_nonneg _ _ Hw) as Hw0. pose proof (pack_u32_nonneg _ _ Hh) as Hh0.
  apply pack_u32_ok in Hw as [Lw Ew]. apply pack_u32_ok in Hh as [Lh Eh].
  unfold decode_png. rewrite startswith_app. cbn [negb].
  rewrite drop_app_length' by by vm_compute.
  assert (R1 : read_chunk (ihdr ++ idat ++ iend)
    = Some (bs "IHDR", (pw ++ ph) ++ [8; 2; 0; 0; 0], idat ++ iend)).
  { apply read_chunk_ok; [by vm_compute| |exact H1]. apply Forall_app; split; [literal_bytes|].
    apply Forall_app; split; [apply Forall_app; split; [exact Bw|exact Bh]|].
    clear H1 H2 H3. repeat constructor; lia. }
  assert (R2 : read_chunk (idat ++ iend) = Some (bs "IDAT", compress (ppm2png.raw px w h), iend)).
  { apply read_chunk_ok; [by vm_compute| |exact H2]. apply Forall_app; split; [literal_bytes|].
    apply compress_bytes, raw_bytes. exact Hb. }
  assert (R3 : read_chunk iend = Some (bs "IEND", [], [])).
  { rewrite <-(app_nil_r iend). apply read_chunk_ok; [by vm_compute| |exact H3].
    apply Forall_app; split; [literal_bytes|constructor]. }
  clear H1 H2 H3.
  rewrite R1. cbn [mbind option_bind]. rewrite R2. cbn [mbind option_bind]. rewrite R3.
  cbn [mbind option_bind]. rewrite !str_eqb_refl.
  rewrite <-app_assoc.
  destruct (take_drop_app pw (ph ++ [8; 2; 0; 0; 0]) 4 (eq_sym Lw)) as [-> ->].
  rewrite (app_assoc pw), drop_app_length' by (rewrite length_app; lia).
  rewrite take_app_length' by lia. rewrite str_eqb_refl, Ew, Eh, inflate_compress by by apply raw_bytes.
  cbn [andb negb nonempty mbind option_bind].
  unfold ppm2png.raw. rewrite unfilter_rows; [done|]. apply Nat2Z.inj. rewrite Hl. lia.
Qed.

(** [ppm2png] writes a PNG that decodes to the picture it read: the three
    chunks are well formed with correct checksums, the header carries the
    width and height for eight-bit RGB, and the inflated scan lines give back
    exactly the pixels, which are a contiguous part of the input. *)
Theorem png_roundtrip file out :
  bytes_ok file → ppm2png.main compress file = Some out →
  ∃ w h head px tail,
    file = head ++ px ++ tail ∧ Z.of_nat (length px) = w * h * 3
    ∧ decode_png inflate out = Some (w, h, px).
Proof.
  intros Hb. unfold ppm2png.main. pose proof (readline_app file) as E1.
  destruct (ppm2png.readline file) as [magic r1]. simpl in E1. destruct (negb _); [done|].
  pose proof (readline_app r1) as E2. destruct (ppm2png.readline r1) as [l2 r2]. simpl in E2.
  destruct (skip_comments_app (S (length r2)) l2 r2) as [p E3].
  destruct (ppm2png.skip_comments _ l2 r2) as [l3 r3]. cbn [fst snd] in E3.
  destruct (ppm2png.split_bytes l3) as [|sw [|sh [|]]]; try done.
  intros (w & _ & (h & _ & H)%bind_Some)%bind_Some.
  pose proof (readline_app r3) as E4. destruct (ppm2png.readline r3) as [l4 r4]. simpl in E4.
  apply bind_Some in H as (maxval & _ & H). destruct (negb _); [done|].
  destruct (_ =? _) eqn:Hl; [|done]. apply Z.eqb_eq in Hl.
  destruct (read_prefix (w * h * 3) r4) as [tail E5].
  exists w, h, (magic ++ p ++ l3 ++ l4), (ppm2png.read (w * h * 3) r4), tail.
  assert (E : file = (magic ++ p ++ l3 ++ l4) ++ ppm2png.read (w * h * 3) r4 ++ tail).
  { by rewrite <-!app_assoc, <-E5, <-E4, <-E3, <-E2. }
  split_and!; [done|done|]. apply encode_decode; [|done|done].
  rewrite E in Hb. apply Forall_app in Hb as [_ Hb]. by apply Forall_app in Hb as [Hb _].
Qed.

End Png.

Definition demo_ppm : pybytes :=
  bs "P6" ++ [10] ++ bs "2 1" ++ [10] ++ bs "255" ++ [10] ++ [1; 2; 3; 4; 5; 6].

Lemma png_roundtrip_witness : ∃ out w h head px tail,
  ppm2png.main id demo_ppm = Some out
  ∧ demo_ppm = head ++ px ++ tail ∧ Z.of_nat (length px) = w * h * 3
  ∧ decode_png Some out = Some (w, h, px).
Proof.
  destruct (ppm2png.main id demo_ppm) as [out|] eqn:E; [|exfalso; revert E; by vm_compute].
  exists out.
  destruct (png_roundtrip id Some (λ _ _, eq_refl) (λ _ H, H) demo_ppm out)
    as (w & h & head & px & tail & H1 & H2 & H3); [|exact E|].
  - apply (bool_decide_unpack _). by vm_compute.
  - exists w, h, head, px, tail. exact (conj eq_refl (conj H1 (conj H2 H3))).
Defined.
