(* ===== verification/Checkpoint.v ===== *)
(** * tools/roadmap_checkpoint_audit.py: the audit of the roadmap handoff

    The secret scanner, the audit of running jobs, of the acceptance ledger
    and of the full-suite claim, and the exit status.  Files are read through
    an oracle indexed by the point of the program that reads, so that a file
    may change between two reads; [json.loads] and the Unicode class of word
    characters are arguments. *)

From S2P Require Import Prelude PyStr PyBytes Regex Json.

#[local] Open Scope re_scope.

Definition LIMIT : Z := 4 * 1024 * 1024.

(** ** Patterns *)

Definition NAME : re :=
  RChr (λ c, az c || d09 c) @@ rep 0 99 (RChr (λ c, az c || d09 c || one_of (u "_.-") c)) @@ RAssert at_end.

Definition spaces : re := star (RChr isspace).

Definition ROW : re :=
  RAssert at_bol @@ lit (u "|") @@ spaces @@ RGroup 1 (RChr AZ @@ plus (RChr d09)) @@ spaces @@ lit (u "|").

Definition STATES : list pystr := [u "accepted"; u "partial"; u "open"].
Definition TERMINAL : list pystr := [u "terminal"; u "terminal_with_survivors"; u "supervisor_failed"].
Definition ACTIVE : list pystr := [u "starting"; u "running"].

(** A letter or one of the four characters that fold to one. *)
Definition letter_ci (c : Z) : bool :=
  az c || AZ c || (c =? 304) || (c =? 305) || (c =? 383) || (c =? 8490).

Definition PRIVATE_KEY : re :=
  lit (u "-----BEGIN ") @@ opt (RChr AZ @@ star (RChr (λ c, AZ c || d09 c || (c =? 32))))
  @@ lit (u "PRIVATE KEY-----").

(** A quoted text, or a run of characters other than white space, comma and
    brackets. *)
Definition re_value : re :=
  alts [RChr (Z.eqb 34) @@ star (RChr (λ c, negb (c =? 34))) @@ RChr (Z.eqb 34);
        RChr (Z.eqb 39) @@ star (RChr (λ c, negb (c =? 39))) @@ RChr (Z.eqb 39);
        plus (RChr (λ c, negb (isspace c) && none_of (u ",}]{") c))].

Definition quote_ : re := opt (RChr (λ c, (c =? 34) || (c =? 39))).

Definition after_separator (prev : option Z) (_ : pystr) : bool :=
  match prev with Some c => one_of (u "{,;") c | None => false end.

(** Group 1 is the key and group 2 the value. *)
Definition ASSIGNMENT : re :=
  (RAssert at_bol </> RAssert after_separator) @@ spaces @@ quote_
  @@ RGroup 1 (rep 1 100 (RChr (λ c, letter_ci c || d09 c || one_of (u "_.-") c))) @@ quote_
  @@ spaces @@ RChr (λ c, (c =? 58) || (c =? 61)) @@ spaces @@ RGroup 2 re_value.

Definition hex_ (c : Z) : bool := d09 c || range 97 102 c || range 65 70 c.

Definition HEX_DIGEST : re :=
  alts [times 64 (RChr hex_); times 128 (RChr hex_); times 40 (RChr hex_); times 32 (RChr hex_)]
  @@ RAssert at_end.

Definition REFERENCE : re :=
  alts [lit (u "$"); lit (u "${"); lit_ci (u "env") @@ RChr (one_of (u ":.("));
        lit_ci (u "process.env."); lit_ci (u "os.environ"); lit_ci (u "getenv")].

Definition PLACEHOLDERS : list pystr :=
  [ []; u "*"; u "**"; u "***"; u "redacted"; u "[redacted]"; u "<redacted>"; u "placeholder";
    u "example"; u "changeme"; u "change-me"; u "change_me"; u "none"; u "null"; u "nil";
    u "true"; u "false"; u "todo"; u "n/a"; u "na"; u "dummy"; u "sample"; u "fake"; u "mock";
    u "xxx"; u "xxxx"; u "xxxxxxxx"; u "your-secret-here"; u "your_secret_here";
    u "your-password-here"; u "your_password_here"; u "insert-here"; u "not-set" ].

Definition NON_SECRET_SUFFIXES : list pystr :=
  [ u "hash"; u "digest"; u "sha"; u "sha256"; u "sha512"; u "md5"; u "fingerprint"; u "checksum";
    u "count"; u "length"; u "exists"; u "enabled"; u "required"; u "policy"; u "scanning"; u "scan" ].

Definition SECRET_SUFFIXES : list pystr :=
  [ u "secret"; u "secrets"; u "password"; u "passwd"; u "pwd"; u "token"; u "apikey"; u "passphrase" ].

Definition placeholder_words : list pystr :=
  [ u "placeholder"; u "redacted"; u "example"; u "changeme"; u "change-me"; u "xxxx"; u "****" ].

Definition re_filler : re :=
  alts [plus (lit (u "*")); plus (lit (u "x")); plus (lit (u ".")); plus (lit (u "-"));
        plus (lit (u "_")); lit (u "<") @@ star (RChr (λ c, negb (c =? 62))) @@ lit (u ">");
        lit (u "[") @@ star (RChr (λ c, negb (c =? 93))) @@ lit (u "]")].

Definition re_scalar : re :=
  alts [opt (lit (u "-")) @@ plus (RChr is_digit); lit (u "true"); lit (u "false"); lit (u "null");
        lit (u "none")].

Definition not_before_lower (_ : option Z) (rest : pystr) : bool :=
  match rest with c :: _ => negb (az c) | [] => true end.

(** [[A-Z]+(?![a-z])|[A-Z]?[a-z]+|\d+]. *)
Definition re_camel : re :=
  alts [plus (RChr AZ) @@ RAssert not_before_lower; opt (RChr AZ) @@ plus (RChr az);
        plus (RChr is_digit)].

(** ** Secrets *)

Definition searches (r : re) (s : pystr) : bool := is_someb (rsearch r s).
Definition fullmatches (r : re) (s : pystr) : bool := is_someb (rfullmatch r s).

Definition is_placeholder (value : pystr) : bool :=
  let lowered := lower value in
  mem lowered PLACEHOLDERS || existsb (contains lowered) placeholder_words
  || fullmatches re_filler value || searches REFERENCE value || fullmatches HEX_DIGEST value
  || fullmatches re_scalar lowered.

Definition last_in (parts l : list pystr) : bool :=
  match last parts with Some p => mem p l | None => false end.

(** The last part is [key], qualified by the part before it. *)
Definition qualified_key (parts : list pystr) : bool :=
  match rev parts with
  | k :: q :: _ =>
    str_eqb k (u "key") && mem q [u "api"; u "access"; u "private"; u "secret"]
  | _ => false
  end.

Definition is_secret_key (key : pystr) : bool :=
  let lowered := strip_by (λ c, (c =? 39) || (c =? 34)) (lower key) in
  let parts := List.filter nonempty (rsplit (RChr (one_of (u "_-."))) lowered) in
  if negb (match parts with [] => false | _ => true end) || last_in parts NON_SECRET_SUFFIXES
  then false
  else
    let camel := (λ m, lower (m.1.2)) <$> rfinditer re_camel key in
    if last_in camel NON_SECRET_SUFFIXES then false
    else if last_in parts SECRET_SUFFIXES || last_in camel SECRET_SUFFIXES then true
    else if qualified_key parts then true
    else mem lowered [u "api_key"; u "apikey"; u "access_key"; u "private_key"].

(** [issue(kind, **fields)]. *)
Definition issue (kind : pystr) (fields : list (pystr * json)) : json :=
  JObj ((u "kind", JStr kind) :: fields).

Definition secret_issue (source pattern : pystr) (line : Z) : json :=
  issue (u "checkpoint_secret_pattern")
    [(u "source", JStr source); (u "pattern", JStr pattern); (u "line", JInt line)].

(** The value of an assignment without surrounding white space, trailing
    commas and surrounding quotes. *)
Definition assigned_value (v : pystr) : pystr :=
  strip_by (λ c, (c =? 39) || (c =? 34)) (rstrip_by (Z.eqb 44) (strip v)).

Definition is_secret_assignment (m : nat * pystr * mst) : bool :=
  let '(_, _, st) := m in
  let value := assigned_value (group_ 2 st) in
  is_secret_key (group_ 1 st) && (4 <=? length value)%nat && negb (is_placeholder value).

(** [enumerate(l, n)]. *)
Fixpoint enumerate {A} (n : Z) (l : list A) : list (Z * A) :=
  match l with [] => [] | x :: l => (n, x) :: enumerate (n + 1) l end.

Section Audit.

(** The characters of the class [\w] and [json.loads] ([None] is a
    [ValueError]). *)
Variable word : Z → bool.
Variable loads : pystr → option json.

Definition boundary : re := RAssert (word_boundary word).

Definition BEARER : re :=
  boundary @@ lit_ci (u "bearer") @@ plus (RChr isspace)
  @@ RGroup 1 (let c := RChr (λ c, letter_ci c || d09 c || one_of (u "._~+/=-") c) in
               times 8 c @@ star c).

Definition has_bearer (line : pystr) : bool :=
  match rsearch BEARER line with
  | Some (_, _, m) => negb (is_placeholder (group_ 1 m))
  | None => false
  end.

(** The findings on one line; the first secret assignment ends the line. *)
Definition scan_line (source : pystr) (number : Z) (line : pystr) : list json :=
  (if searches PRIVATE_KEY line then [secret_issue source (u "private_key") number] else [])
  ++ (if has_bearer line then [secret_issue source (u "bearer_token") number] else [])
  ++ (if existsb is_secret_assignment (rfinditer ASSIGNMENT line)
      then [secret_issue source (u "secret_assignment") number] else []).

Definition scan_secrets (text source : pystr) : list json :=
  enumerate 1 (splitlines text) ≫= λ nl, scan_line source nl.1 nl.2.

(** ** Files *)

(** A path as its components. *)
Abbreviation path := (list (list Z)) (only parsing).

Inductive Read := Missing | Unreadable | Data (b : pybytes).

(** The points at which the audit reads a file: a job reads its status, its
    receipt and its status again. *)
Inductive Point := AtCheckpoint | AtScan (i : nat) | AtJob (i k : nat) | AtLedger | AtFull.

Record World := mkWorld {
  w_read : Point → path → Read;
  w_resolve : path → option path;
  w_history : option (list path) }.

Variable world : World.
Variable root : path.

(** [read_text]: [inl true] is [FileNotFoundError], [inl false] any other of
    the exceptions the callers catch. *)
Definition read_text (at_ : Point) (p : path) : bool + pystr :=
  match w_read world at_ p with
  | Missing => inl true
  | Unreadable => inl false
  | Data b =>
    if LIMIT <? Z.of_nat (length b) then inl false
    else match utf8_strict b with Some s => inr s | None => inl false end
  end.

Definition read_json (at_ : Point) (p : path) : option json :=
  match read_text at_ p with inr s => loads s | inl _ => None end.

(** [read_json(path).get(key)] inside a handler that also catches
    [AttributeError]. *)
Definition read_key (at_ : Point) (p : path) (k : pystr) : option json :=
  v ← read_json at_ p;
  if is_mapping v then Some (jget v k) else None.

Definition CACHE : pystr := u ".zig-cache".

(** [path.relative_to(root).as_posix()], or the last component. *)
Definition source_name (p : path) : pystr :=
  if bool_decide (take (length root) p = root) then join (u "/") (drop (length root) p)
  else from_opt [] (last p).

Fixpoint dedup (seen : list path) (candidates : list path) : list path :=
  match candidates with
  | [] => []
  | p :: rest =>
    let marker := from_opt p (w_resolve world p) in
    if bool_decide (marker ∈ seen) then dedup seen rest
    else p :: dedup (marker :: seen) rest
  end.

Definition scan_sources (checkpoint : path) : list path :=
  dedup [] ([checkpoint; root ++ [CACHE; u "CURRENT.json"]] ++ from_opt [] (w_history world)).

(** The findings and unknowns of one source of [secret_scan]. *)
Definition scan_source (checkpoint : path) (ip : Z * path) : list json * list json :=
  let '(i, p) := ip in
  let source := source_name p in
  match read_text (AtScan (Z.to_nat i)) p with
  | inl true => ([], [])
  | inl false =>
    ([], if bool_decide (p = checkpoint) then []
         else [issue (u "checkpoint_secret_scan_unavailable") [(u "source", JStr source)]])
  | inr text => (scan_secrets text source, [])
  end.

Definition secret_scan (checkpoint : path) : list json * list json :=
  let rs := scan_source checkpoint <$> enumerate 0 (scan_sources checkpoint) in
  (rs ≫= fst, rs ≫= snd).

(** ** Running jobs *)

Definition job_issue (kind name : pystr) (wave : Z) (extra : list (pystr * json)) : json :=
  issue kind ([(u "job", JStr name); (u "wave", JInt wave)] ++ extra).

Definition evidence_dir (wave : Z) : path := root ++ [CACHE; u "wave-" ++ dec wave].
Definition status_path (wave : Z) (name : pystr) : path :=
  evidence_dir wave ++ [name ++ u "-supervisor"; u "status.json"].
Definition record_path (wave : Z) (name : pystr) : path := evidence_dir wave ++ [name ++ u ".json"].

(** The identifiers of a job, when they are acceptable. *)
Definition job_identity (job : json) : option (Z * pystr) :=
  match jget job (u "wave"), jget job (u "name") with
  | JInt wave, JStr name =>
    if (1 <=? wave) && fullmatches NAME name then Some (wave, name) else None
  | _, _ => None
  end.

Definition is_running (job : json) : bool :=
  is_mapping job && pyeq (jget job (u "state")) (JStr (u "running")).

Definition finished_receipt (r : option json) : bool :=
  match r with
  | Some record =>
    is_mapping record && match jget record (u "exit_code") with JInt _ => true | _ => false end
  | None => false
  end.

(** The second look at the status of a job whose receipt is finished. *)
Definition recheck (wave : Z) (name : pystr) (latest : option json) : list json * list json :=
  match latest with
  | None => ([], [job_issue (u "job_status_unavailable") name wave []])
  | Some (JStr status) =>
    if mem status TERMINAL
    then ([job_issue (u "running_job_terminal") name wave [(u "supervisor", JStr status)]], [])
    else if mem status ACTIVE
    then ([job_issue (u "running_job_completed_receipt") name wave []], [])
    else ([], [job_issue (u "job_status_unknown") name wave []])
  | Some _ => ([], [job_issue (u "job_status_unknown") name wave []])
  end.

(** One iteration of the loop over the jobs: its issues and unknowns. *)
Definition audit_job (i : nat) (job : json) : list json * list json :=
  if negb (is_running job) then ([], [])
  else
    match job_identity job with
    | None => ([], [issue (u "job_identifier_invalid") []])
    | Some (wave, name) =>
      match read_key (AtJob i 0) (status_path wave name) (u "status") with
      | None => ([], [job_issue (u "job_status_unavailable") name wave []])
      | Some (JStr status) =>
        if mem status TERMINAL
        then ([job_issue (u "running_job_terminal") name wave [(u "supervisor", JStr status)]], [])
        else if negb (mem status ACTIVE)
        then ([], [job_issue (u "job_status_unknown") name wave []])
        else if finished_receipt (read_json (AtJob i 1) (record_path wave name))
        then recheck wave name (read_key (AtJob i 2) (status_path wave name) (u "status"))
        else ([], [])
      | Some _ => ([], [job_issue (u "job_status_unknown") name wave []])
      end
    end.

Fixpoint audit_jobs (i : nat) (jobs : list json) : list json * list json :=
  match jobs with
  | [] => ([], [])
  | job :: jobs =>
    let '(a, b) := audit_job i job in
    let '(c, d) := audit_jobs (S i) jobs in
    (a ++ c, b ++ d)
  end.

(** ** The acceptance ledger *)

Record Tally := mkTally { accepted : Z; partial : Z; open_ : Z }.

Definition count_of (t : Tally) (state : pystr) : Z :=
  if str_eqb state (u "accepted") then accepted t
  else if str_eqb state (u "partial") then partial t else open_ t.

Definition bump (t : Tally) (state : pystr) : Tally :=
  if str_eqb state (u "accepted") then mkTally (accepted t + 1) (partial t) (open_ t)
  else if str_eqb state (u "partial") then mkTally (accepted t) (partial t + 1) (open_ t)
  else mkTally (accepted t) (partial t) (open_ t + 1).

Definition re_ident : re := RChr AZ @@ times 2 (RChr d09).

(** The identifier and the state of a well-formed row. *)
Definition row_state (ident line : pystr) : option pystr :=
  match split (u "|") line with
  | [_; _; f2; f3; f4; _] =>
    if fullmatches re_ident ident && nonempty (strip f2) && nonempty (strip f4)
       && mem (strip f3) STATES
    then Some (strip f3) else None
  | _ => None
  end.

Record Ledger := mkLedger { l_ids : list pystr; l_counts : Tally; l_issues : list json }.

Definition row_issue (kind ident : pystr) (number : Z) : json :=
  issue kind [(u "id", JStr ident); (u "line", JInt number)].

Definition ledger_step (l : Ledger) (nl : Z * pystr) : Ledger :=
  let '(number, line) := nl in
  match rmatch ROW line with
  | None => l
  | Some m =>
    let ident := group_ 1 m in
    match row_state ident line with
    | None => mkLedger (l_ids l) (l_counts l)
                (l_issues l ++ [row_issue (u "ledger_row_malformed") ident number])
    | Some state =>
      if mem ident (l_ids l)
      then mkLedger (l_ids l) (l_counts l)
             (l_issues l ++ [row_issue (u "ledger_duplicate_id") ident number])
      else mkLedger (ident :: l_ids l) (bump (l_counts l) state) (l_issues l)
    end
  end.

Definition read_ledger (lines : list pystr) : Ledger :=
  foldl ledger_step (mkLedger [] (mkTally 0 0 0) []) (enumerate 1 lines).

(** [acceptance_ledger_counts] of the checkpoint, when all three are
    integers. *)
Definition claimed_counts (current : json) : option Tally :=
  let claimed := jget current (u "acceptance_ledger_counts") in
  match jget claimed (u "accepted"), jget claimed (u "partial"), jget claimed (u "open") with
  | JInt a, JInt p, JInt o => Some (mkTally a p o)
  | _, _, _ => None
  end.

Definition tally_json (t : Tally) : json :=
  JObj [(u "accepted", JInt (accepted t)); (u "partial", JInt (partial t)); (u "open", JInt (open_ t))].

Definition tally_eqb (a b : Tally) : bool :=
  (accepted a =? accepted b) && (partial a =? partial b) && (open_ a =? open_ b).

Definition audit_ledger (current : json) (lines : list pystr) : list json * list json :=
  let l := read_ledger lines in
  let has_ids := match l_ids l with [] => false | _ => true end in
  let unknown := if has_ids then [] else [issue (u "ledger_no_rows") []] in
  match claimed_counts current with
  | None => (l_issues l, unknown ++ [issue (u "ledger_counts_unavailable") []])
  | Some claimed =>
    if has_ids && negb (tally_eqb claimed (l_counts l))
    then (l_issues l ++ [issue (u "ledger_counts_mismatch")
                           [(u "claimed", tally_json claimed); (u "actual", tally_json (l_counts l))]],
          unknown)
    else (l_issues l, unknown)
  end.

(** ** The full-suite claim *)

Definition words (l : list pystr) : re := boundary @@ alts (lit <$> l) @@ boundary.

Definition re_current : re :=
  boundary @@ lit (u "current") @@ boundary @@ star (RChr dot) @@ words [u "full"; u "suite"].
Definition re_green : re := words [u "green"; u "passed"].
Definition re_qualified : re := words [u "parent"; u "historical"; u "pending"; u "not current"].

(** A claim that reads as a current green suite. *)
Definition asserts_green (claim : pystr) : bool :=
  let normalized := lower claim in
  searches re_current normalized && searches re_green normalized
  && negb (searches re_qualified normalized).

(** [root / full]. *)
Definition join_path (full : pystr) : path :=
  let parts := List.filter (λ x, nonempty x && negb (str_eqb x (u "."))) (split (u "/") full) in
  if startswith full (u "/") then u "/" :: parts else root ++ parts.

(** The issues and unknowns; [None] when resolving a path raises. *)
Definition audit_full (current : json) : option (list json * list json) :=
  let actual := jget current (u "actual_source") in
  let release := jget current (u "release") in
  match jget release (u "full_verification"), jget actual (u "sha256"),
        jget release (u "current_full_suite") with
  | JStr full, JStr actual_sha, JStr claim =>
    path ← w_resolve world (join_path full);
    home ← w_resolve world root;
    if negb (bool_decide (take (length home) path = home))
    then Some ([], [issue (u "full_suite_evidence_outside_root") []])
    else
      match read_key AtFull path (u "manifest_sha256") with
      | Some (JStr evidence_sha) =>
        if negb (str_eqb evidence_sha actual_sha) && asserts_green claim
        then Some ([issue (u "full_suite_wrong_manifest") []], [])
        else Some ([], [])
      | _ => Some ([], [issue (u "full_suite_evidence_unavailable") []])
      end
  | _, _, _ => Some ([], [issue (u "full_suite_context_unavailable") []])
  end.

(** ** The audit *)

Record Result := mkResult { issues : list json; unknown : list json; counts : option Tally }.

Definition audit (checkpoint ledger : path) : option Result :=
  match read_json AtCheckpoint checkpoint with
  | Some ((JObj _) as current) =>
    let '(i1, u1) := secret_scan checkpoint in
    let '(i2, u2) := match jget current (u "jobs") with
                     | JList jobs => audit_jobs 0 jobs
                     | _ => ([], [issue (u "jobs_missing_or_invalid") []])
                     end in
    let '(i3, u3, counts) :=
      match read_text AtLedger ledger with
      | inr text => let lines := splitlines text in
                    (audit_ledger current lines, Some (l_counts (read_ledger lines)))
      | inl _ => ([], [issue (u "ledger_unreadable") []], None)
      end in
    '(i4, u4) ← audit_full current;
    Some (mkResult (i1 ++ i2 ++ i3 ++ i4) (u1 ++ u2 ++ u3 ++ u4) counts)
  | _ => Some (mkResult [] [issue (u "checkpoint_unreadable") []] None)
  end.

(** [main]: the exit status. *)
Definition main (checkpoint ledger : path) : option Z :=
  r ← audit checkpoint ledger;
  Some (match issues r, unknown r with
        | _ :: _, _ => 1
        | [], _ :: _ => 2
        | [], [] => 0
        end).

End Audit.
