(* ===== verification/CheckpointSpec.v ===== *)
(** * What a clean roadmap audit guarantees

    The private keys the scanner finds and what it reports of them, the row counts of the acceptance ledger, the
    confinement of the job paths, and the meaning of exit status zero. *)

From S2P Require Import Prelude PyStr Regex Json Checkpoint.

#[local] Open Scope re_scope.

(** ** Lists *)

Lemma elem_of_enumerate {A} (l : list A) n i x :
  (i, x) ∈ enumerate n l ↔ n ≤ i ∧ l !! Z.to_nat (i - n) = Some x.
Proof.
  revert n. induction l as [|y l IH]; intros n; simpl.
  - split; [by intros ?%not_elem_of_nil|]. by intros [_ ?].
  - rewrite elem_of_cons, IH. split.
    + intros [[= -> ->]|[Hn Hl]]; [rewrite Z.sub_diag; simpl; split; [lia|done]|].
      split; [lia|]. replace (Z.to_nat (i - n)) with (S (Z.to_nat (i - (n + 1)))) by lia. done.
    + intros [Hn Hl]. destruct (decide (i = n)) as [->|Hne].
      * rewrite Z.sub_diag in Hl. injection Hl as ->. by left.
      * right. split; [lia|].
        replace (Z.to_nat (i - n)) with (S (Z.to_nat (i - (n + 1)))) in Hl by lia. done.
Qed.

Lemma bind_nil_iff {A B} (f : A → list B) l : l ≫= f = [] ↔ ∀ x, x ∈ l → f x = [].
Proof.
  induction l as [|x l IH]; [split; [by intros _ ? ?%not_elem_of_nil|done]|].
  rewrite bind_cons. split.
  - intros [H1 H2]%app_nil y [->|Hy]%elem_of_cons; [done|]. by apply IH.
  - intros H. rewrite H by set_solver. apply IH. intros y Hy. apply H. set_solver.
Qed.

(** ** The secret scanner *)

Section Scan.
Variable word : Z → bool.

(** The detector of each pattern. *)
Definition detects (pattern line : pystr) : Prop :=
  pattern = u "private_key" ∧ searches PRIVATE_KEY line = true
  ∨ pattern = u "bearer_token" ∧ has_bearer word line = true
  ∨ pattern = u "secret_assignment"
    ∧ existsb is_secret_assignment (rfinditer ASSIGNMENT line) = true.

Lemma elem_of_if {A} (b : bool) (x y : A) : x ∈ (if b then [y] else []) ↔ b = true ∧ x = y.
Proof. destruct b; [rewrite list_elem_of_singleton|rewrite elem_of_nil]; naive_solver. Qed.

Lemma elem_of_scan_line source number line i :
  i ∈ scan_line word source number line ↔
  ∃ pattern, i = secret_issue source pattern number ∧ detects pattern line.
Proof.
  unfold scan_line, detects. rewrite !elem_of_app, !elem_of_if. split.
  - intros [[H ->]|[[H ->]|[H ->]]]; eexists; (split; [reflexivity|]);
      [left|right; left|right; right]; (split; [reflexivity|exact H]).
  - intros (p & -> & [[-> H]|[[-> H]|[-> H]]]); [left|right; left|right; right];
      (split; [exact H|reflexivity]).
Qed.





End Scan.

(** ** The acceptance ledger *)

(** The rows of a ledger: the identifier and the line of each. *)
Definition row_ident (line : pystr) : option pystr := group_ 1 <$> rmatch ROW line.

(** The well-formed rows, as identifier and state. *)
Definition row_of (line : pystr) : option (pystr * pystr) :=
  ident ← row_ident line; state ← row_state ident line; Some (ident, state).

Definition rows (lines : list pystr) : list (pystr * pystr) := omap row_of lines.

Definition states_of (rs : list (pystr * pystr)) (s : pystr) : Z :=
  Z.of_nat (length (List.filter (λ r, str_eqb r.2 s) rs)).

(** The tally that counts the given rows. *)
Definition counts_rows (t : Tally) (rs : list (pystr * pystr)) : Prop :=
  ∀ s, s ∈ STATES → count_of t s = states_of rs s.

Lemma row_state_known ident line state : row_state ident line = Some state → state ∈ STATES.
Proof.
  unfold row_state. destruct (split (u "|") line) as [|? [|? [|f2 [|f3 [|f4 [|? [|]]]]]]]; try done.
  destruct (_ && mem _ _) eqn:E; [|done]. intros [= <-]. apply andb_prop in E as [_ E].
  by apply mem_elem.
Qed.

Lemma names_distinct : u "accepted" ≠ u "partial" ∧ u "accepted" ≠ u "open" ∧ u "partial" ≠ u "open".
Proof. split_and!; by vm_compute. Qed.

Lemma count_bump t s s' : s ∈ STATES → s' ∈ STATES →
  count_of (bump t s) s' = count_of t s' + (if str_eqb s s' then 1 else 0).
Proof.
  pose proof names_distinct as H. revert H. unfold STATES, count_of, bump.
  generalize (u "accepted") (u "partial") (u "open"). intros a p o (H1 & H2 & H3).
  rewrite !elem_of_cons, !elem_of_nil.
  intros [->|[->|[->|[]]]] [->|[->|[->|[]]]];
    repeat (rewrite ?str_eqb_refl; try (rewrite (proj2 (str_eqb_neq _ _)) by congruence));
    cbn [accepted partial open_]; lia.
Qed.

(** The first row of each identifier. *)
Fixpoint keep (seen : list pystr) (rs : list (pystr * pystr)) : list (pystr * pystr) :=
  match rs with
  | [] => []
  | r :: rs => if mem r.1 seen then keep seen rs else r :: keep (r.1 :: seen) rs
  end.

Lemma keep_length seen rs : (length (keep seen rs) ≤ length rs)%nat.
Proof.
  revert seen. induction rs as [|r rs IH]; intros seen; simpl; [lia|].
  destruct (mem r.1 seen); simpl; [pose proof (IH seen)|pose proof (IH (r.1 :: seen))]; lia.
Qed.

Lemma keep_all seen rs :
  keep seen rs = rs ↔ NoDup rs.*1 ∧ ∀ i, i ∈ rs.*1 → i ∉ seen.
Proof.
  revert seen. induction rs as [|r rs IH]; intros seen; simpl.
  { split; [|done]. intros _. split; [constructor|]. by intros i ?%not_elem_of_nil. }
  rewrite NoDup_cons. destruct (mem r.1 seen) eqn:E.
  - apply mem_elem in E. split.
    + intros Ek. pose proof (keep_length seen rs) as Hl. rewrite Ek in Hl. simpl in Hl. lia.
    + intros [_ H]. exfalso. apply (H r.1); [by left|done].
  - assert (Hr : r.1 ∉ seen) by (rewrite <-mem_elem; congruence).
    rewrite (inj_iff (cons r)), IH. set_solver.
Qed.

Lemma states_of_cons r rs s :
  states_of (r :: rs) s = (if str_eqb r.2 s then 1 else 0) + states_of rs s.
Proof. unfold states_of. simpl. destruct (str_eqb r.2 s); simpl length; lia. Qed.

(** A row-like line is well formed. *)
Definition line_ok (line : pystr) : Prop := is_Some (row_ident line) → is_Some (row_of line).

Inductive step_case (l : Ledger) (line : pystr) : Ledger → Prop :=
| step_skip : row_ident line = None → row_of line = None → step_case l line l
| step_malformed x : is_Some (row_ident line) → row_of line = None →
    step_case l line (mkLedger (l_ids l) (l_counts l) (l_issues l ++ [x]))
| step_duplicate r x : row_of line = Some r → mem r.1 (l_ids l) = true →
    step_case l line (mkLedger (l_ids l) (l_counts l) (l_issues l ++ [x]))
| step_new r : row_of line = Some r → mem r.1 (l_ids l) = false → r.2 ∈ STATES →
    step_case l line (mkLedger (r.1 :: l_ids l) (bump (l_counts l) r.2) (l_issues l)).

Lemma ledger_step_case l n line : step_case l line (ledger_step l (n, line)).
Proof.
  unfold ledger_step. destruct (rmatch ROW line) as [m|] eqn:Em.
  - assert (Hi : row_ident line = Some (group_ 1 m)) by (unfold row_ident; by rewrite Em).
    destruct (row_state (group_ 1 m) line) as [state|] eqn:Es.
    + assert (Hr : row_of line = Some (group_ 1 m, state)) by (unfold row_of; rewrite Hi; simpl; by rewrite Es).
      destruct (mem (group_ 1 m) (l_ids l)) eqn:Ed.
      * by eapply step_duplicate.
      * apply (step_new l line (group_ 1 m, state)); [done|done|]. by apply row_state_known in Es.
    + apply step_malformed; [by rewrite Hi|]. unfold row_of. rewrite Hi. simpl. by rewrite Es.
  - apply step_skip; unfold row_of, row_ident; by rewrite Em.
Qed.

Lemma ledger_fold lines n l :
  let l' := foldl ledger_step l (enumerate n lines) in
  l_ids l' = rev (keep (l_ids l) (rows lines)).*1 ++ l_ids l
  ∧ (∀ s, s ∈ STATES → count_of (l_counts l') s
       = count_of (l_counts l) s + states_of (keep (l_ids l) (rows lines)) s)
  ∧ (l_issues l' = [] ↔ l_issues l = [] ∧ Forall line_ok lines
       ∧ keep (l_ids l) (rows lines) = rows lines).
Proof.
  revert n l. induction lines as [|line lines IH]; intros n l; cbv zeta.
  { simpl. split_and!; [done|intros s _; change (states_of [] s) with 0; lia|].
    split; [|by intros [? _]]. intros ->. by split_and!; constructor. }
  cbn [enumerate foldl]. unfold rows. cbn [omap list_omap]. fold (rows lines).
  rewrite Forall_cons. unfold line_ok at 1.
  destruct (ledger_step_case l n line) as [Hi Hr|x Hi Hr|r x Hr Hd|r Hr Hd Hs];
    rewrite Hr; (match goal with |- context [foldl ledger_step ?l0 _] =>
      destruct (IH (n + 1) l0) as (H1 & H2 & H3) end); cbn [l_ids l_counts l_issues] in *.
  - split_and!; [done|done|]. rewrite H3, Hi. split; [intros (? & ? & ?)|intros (? & [_ ?] & ?)]; done || split_and!; try done.
  - split_and!; [done|done|]. rewrite H3. split.
    + by intros [[]%app_eq_nil _].
    + intros (_ & [H _] & _). by apply H in Hi as [].
  - cbn [keep]. rewrite Hd. split_and!; [done|done|]. rewrite H3. split.
    + by intros [[]%app_eq_nil _].
    + intros (_ & _ & E). pose proof (keep_length (l_ids l) (rows lines)) as Hl.
      rewrite E in Hl. simpl in Hl. lia.
  - cbn [keep]. rewrite Hd. split_and!.
    + rewrite H1. simpl. by rewrite <-app_assoc.
    + intros s Hin. rewrite H2, count_bump, states_of_cons by done. lia.
    + rewrite H3, (inj_iff (cons r)). naive_solver.
Qed.

Lemma count_total t :
  accepted t + partial t + open_ t
  = count_of t (u "accepted") + count_of t (u "partial") + count_of t (u "open").
Proof.
  pose proof names_distinct as H. revert H. unfold count_of.
  generalize (u "accepted") (u "partial") (u "open"). intros a p o (H1 & H2 & H3).
  rewrite !str_eqb_refl, !(proj2 (str_eqb_neq _ _)) by congruence. done.
Qed.

Lemma accepted_in : u "accepted" ∈ STATES.
Proof. apply list_elem_of_here. Qed.
Lemma partial_in : u "partial" ∈ STATES.
Proof. apply list_elem_of_further, list_elem_of_here. Qed.
Lemma open_in : u "open" ∈ STATES.
Proof. do 2 apply list_elem_of_further. apply list_elem_of_here. Qed.

Lemma states_total rs : Forall (λ r, r.2 ∈ STATES) rs →
  states_of rs (u "accepted") + states_of rs (u "partial") + states_of rs (u "open")
  = Z.of_nat (length rs).
Proof.
  pose proof names_distinct as H. revert H. unfold STATES.
  generalize (u "accepted") (u "partial") (u "open"). intros a p o (H1 & H2 & H3).
  induction 1 as [|r rs Hr _ IH]; [done|]. rewrite !states_of_cons.
  rewrite !elem_of_cons, elem_of_nil in Hr.
  destruct Hr as [->|[->|[->|[]]]];
    repeat (rewrite ?str_eqb_refl; try (rewrite (proj2 (str_eqb_neq _ _)) by congruence));
    simpl length; lia.
Qed.

Lemma keep_Forall (P : pystr * pystr → Prop) seen rs : Forall P rs → Forall P (keep seen rs).
Proof.
  intros H. revert seen. induction H as [|r rs Hr _ IH]; intros seen; [constructor|]. simpl.
  destruct (mem r.1 seen); [apply IH|by constructor].
Qed.

Lemma rows_known lines : Forall (λ r, r.2 ∈ STATES) (rows lines).
Proof.
  apply Forall_forall. intros r (line & _ & Hr)%list_elem_of_omap. unfold row_of in Hr.
  apply bind_Some in Hr as (ident & _ & Hr). apply bind_Some in Hr as (state & Hs & [= <-]).
  by apply row_state_known in Hs.
Qed.

(** The ledger loop counts what it should: the identifiers it keeps are
    those of the well-formed rows, each once and with its first row deciding;
    the three counts are the numbers of those rows in each state and add up to
    the number of identifiers; and it raises no issue exactly when every
    row-like line is well formed and no identifier is repeated. *)
Theorem ledger_tally lines :
  let l := read_ledger lines in
  let kept := keep [] (rows lines) in
  l_ids l = rev kept.*1
  ∧ counts_rows (l_counts l) kept
  ∧ accepted (l_counts l) + partial (l_counts l) + open_ (l_counts l) = Z.of_nat (length (l_ids l))
  ∧ (l_issues l = [] ↔ Forall line_ok lines ∧ NoDup (rows lines).*1).
Proof.
  intros l kept. unfold l, kept, read_ledger.
  destruct (ledger_fold lines 1 (mkLedger [] (mkTally 0 0 0) [])) as (H1 & H2 & H3).
  cbn [l_ids l_counts l_issues] in *.
  assert (Hc : counts_rows (l_counts (read_ledger lines)) (keep [] (rows lines))).
  { intros s Hs. unfold read_ledger. rewrite H2 by done.
    assert (count_of (mkTally 0 0 0) s = 0) as ->; [|lia].
    unfold count_of. destruct (str_eqb s (u "accepted")), (str_eqb s (u "partial")); reflexivity. }
  rewrite app_nil_r in H1. split_and!; [done|done| |].
  - rewrite H1, length_rev, length_fmap, <-states_total by (apply keep_Forall, rows_known).
    unfold counts_rows, read_ledger in Hc.
    rewrite <-(Hc _ accepted_in), <-(Hc _ partial_in), <-(Hc _ open_in). apply count_total.
  - rewrite H3, keep_all. split; [by intros (_ & ? & ? & _)|]. intros [? ?].
    split_and!; try done. by intros i _ ?%not_elem_of_nil.
Qed.

(** ** Job paths *)

Definition name_char (c : Z) : Prop := az c = true ∨ d09 c = true ∨ c = 95 ∨ c = 46 ∨ c = 45.

(** A single path component that stays in its directory. *)
Definition component (p : pystr) : Prop := 47 ∉ p ∧ p ≠ [] ∧ p ≠ u "." ∧ p ≠ u "..".

Lemma NAME_chars name : fullmatches NAME name = true → Forall name_char name.
Proof.
  unfold fullmatches. rewrite is_someb_true. intros H. apply (rfullmatch_chars _ _ _ H).
  unfold NAME, rep. cbn [re_chars times Nat.sub]. split_and!; try done.
  - unfold name_char. intros c [?|?]%orb_prop; auto.
  - apply re_chars_upto. cbn [re_chars]. intros c. unfold one_of, name_char.
    replace (u "_.-") with [95; 46; 45] by (by vm_compute). simpl.
    rewrite !orb_true_iff, !Z.eqb_eq. intuition discriminate.
Qed.

Lemma long_component p : 47 ∉ p → (2 < length p)%nat → component p.
Proof.
  intros Hs Hl. unfold component.
  assert (length (u ".") = 1%nat ∧ length (u "..") = 2%nat) as [L1 L2] by by vm_compute.
  split_and!; [done|..]; intros E; rewrite E in Hl; rewrite ?L1, ?L2 in Hl; simpl in Hl; lia.
Qed.

Lemma literal_component p : bool_decide (47 ∉ p) && (2 <? length p)%nat = true → component p.
Proof. intros H. bool_hyps. apply long_component; [done|by apply Nat.ltb_lt]. Qed.

Lemma name_component name suffix :
  Forall name_char name → bool_decide (47 ∉ suffix) && (2 <? length suffix)%nat = true →
  component (name ++ suffix).
Proof.
  intros Hn H. bool_hyps. match goal with H : (_ <? _)%nat = true |- _ => apply Nat.ltb_lt in H end.
  apply long_component; [|rewrite length_app; lia]. rewrite not_elem_of_app. split; [|done].
  intros Hin. rewrite Forall_forall in Hn. apply Hn in Hin. by destruct Hin as [|[|[|[|]]]].
Qed.

Lemma wave_component wave : 0 ≤ wave → component (u "wave-" ++ dec wave).
Proof.
  intros Hw. assert (length (u "wave-") = 5%nat) as L by by vm_compute.
  apply long_component; [|rewrite length_app; lia]. rewrite not_elem_of_app. split.
  - apply (bool_decide_unpack _). by vm_compute.
  - intros Hin. pose proof (dec_chars wave Hw) as Hd. rewrite Forall_forall in Hd. by apply Hd in Hin.
Qed.

(** An accepted job identity cannot lead outside the evidence directory:
    the status and receipt paths read for the job are the audited root
    followed by plain components, none of which holds a slash or is empty,
    [.] or [..]. *)
Theorem job_paths_confined root job wave name :
  job_identity job = Some (wave, name) →
  ∃ p q, status_path root wave name = root ++ p ∧ record_path root wave name = root ++ q
    ∧ Forall component p ∧ Forall component q.
Proof.
  unfold job_identity. destruct (jget job (u "wave")) as [| |w| | | | | |]; try done.
  destruct (jget job (u "name")); try done. destruct (_ && _) eqn:E; [|done].
  intros [= -> ->]. apply andb_prop in E as [Hw Hn]. apply Z.leb_le in Hw.
  apply NAME_chars in Hn.
  pose proof (wave_component wave ltac:(lia)) as Hwave.
  assert (Hcache : component CACHE) by (apply literal_component; by vm_compute).
  unfold status_path, record_path, evidence_dir. rewrite <-!app_assoc.
  eexists _, _. split_and!; [reflexivity|reflexivity|..]; cbn [app].
  - repeat (apply Forall_cons; split); [exact Hcache|exact Hwave|..|apply Forall_nil; exact I].
    + apply name_component; [exact Hn|by vm_compute].
    + apply literal_component. by vm_compute.
  - repeat (apply Forall_cons; split); [exact Hcache|exact Hwave|..|apply Forall_nil; exact I].
    apply name_component; [exact Hn|by vm_compute].
Qed.

Definition demo_job : json :=
  JObj [(u "name", JStr (u "sample")); (u "wave", JInt 1); (u "state", JStr (u "running"))].

Lemma job_paths_confined_witness :
  ∃ p q, status_path [u "/"; u "srv"] 1 (u "sample") = [u "/"; u "srv"] ++ p
    ∧ record_path [u "/"; u "srv"] 1 (u "sample") = [u "/"; u "srv"] ++ q
    ∧ Forall component p ∧ Forall component q.
Proof. apply (job_paths_confined [u "/"; u "srv"] demo_job). by vm_compute. Defined.

(** ** A clean audit *)

Section Clean.
Variable word : Z → bool.
Variable loads : pystr → option json.
Variable world : World.
Variable root : list pystr.

#[local] Abbreviation read_json := (read_json loads world).
#[local] Abbreviation read_key := (read_key loads world).

(** Job [i] is what the checkpoint says: identified, its supervisor active,
    and no finished receipt beside it. *)
Definition job_clean (i : nat) (job : json) : Prop :=
  is_running job = true →
  ∃ wave name status,
    job_identity job = Some (wave, name)
    ∧ read_key (AtJob i 0) (status_path root wave name) (u "status") = Some (JStr status)
    ∧ status ∈ ACTIVE
    ∧ finished_receipt (read_json (AtJob i 1) (record_path root wave name)) = false.

Lemma recheck_noisy wave name latest : recheck wave name latest ≠ ([], []).
Proof.
  destruct latest as [[| | | | | |s| |]|]; cbn [recheck]; try discriminate.
  destruct (mem s TERMINAL), (mem s ACTIVE); discriminate.
Qed.

Lemma audit_job_clean i job : audit_job loads world root i job = ([], []) → job_clean i job.
Proof.
  unfold audit_job, job_clean. intros H Hr. rewrite Hr in H. cbn [negb] in H.
  destruct (job_identity job) as [[wave name]|]; [|discriminate].
  destruct (read_key _ _ _) as [[| | | | | |s| |]|] eqn:Es; try discriminate.
  destruct (mem s TERMINAL); [discriminate|]. destruct (mem s ACTIVE) eqn:Ea; [|discriminate].
  cbn [negb] in H.
  destruct (finished_receipt _) eqn:Ef; [by apply recheck_noisy in H|].
  exists wave, name, s. split_and!; [reflexivity|done|by apply mem_elem|done].
Qed.

Lemma audit_jobs_clean i jobs : audit_jobs loads world root i jobs = ([], []) →
  ∀ k job, jobs !! k = Some job → job_clean (i + k) job.
Proof.
  revert i. induction jobs as [|j jobs IH]; intros i; [done|]. cbn [audit_jobs].
  destruct (audit_job _ _ _ i j) as [a b] eqn:Ej. destruct (audit_jobs _ _ _ (S i) jobs) as [c d] eqn:Es.
  intros [= [-> ->]%app_nil [-> ->]%app_nil] [|k] job.
  - intros [= <-]. rewrite Nat.add_0_r. by apply audit_job_clean.
  - simpl. rewrite <-Nat.add_succ_comm. by apply IH.
Qed.

(** The claim of the checkpoint about the full suite is backed by evidence
    inside the root, or does not read as a current green suite. *)
Definition full_clean (current : json) : Prop :=
  ∃ full sha claim evidence path home,
    jget (jget current (u "release")) (u "full_verification") = JStr full
    ∧ jget (jget current (u "actual_source")) (u "sha256") = JStr sha
    ∧ jget (jget current (u "release")) (u "current_full_suite") = JStr claim
    ∧ w_resolve world (join_path root full) = Some path ∧ w_resolve world root = Some home
    ∧ take (length home) path = home
    ∧ read_key AtFull path (u "manifest_sha256") = Some (JStr evidence)
    ∧ (evidence = sha ∨ asserts_green word claim = false).

Lemma audit_full_clean current :
  audit_full word loads world root current = Some ([], []) → full_clean current.
Proof.
  unfold audit_full, full_clean. intros H.
  destruct (jget (jget current (u "release")) (u "full_verification")) as [| | | | | |full| |] eqn:E1;
    try discriminate.
  destruct (jget (jget current (u "actual_source")) (u "sha256")) as [| | | | | |sha| |] eqn:E2;
    try discriminate.
  destruct (jget (jget current (u "release")) (u "current_full_suite")) as [| | | | | |claim| |] eqn:E3;
    try discriminate.
  apply bind_Some in H as (path & Hp & H). apply bind_Some in H as (home & Hh & H).
  destruct (bool_decide _) eqn:Eb; [|discriminate]. apply bool_decide_eq_true in Eb. cbn [negb] in H.
  destruct (read_key _ _ _) as [[| | | | | |evidence| |]|] eqn:Ek; try discriminate.
  exists full, sha, claim, evidence, path, home. split_and!; try reflexivity; try done.
  destruct (str_eqb evidence sha) eqn:Ee; [left; by apply str_eqb_eq|right].
  destruct (asserts_green word claim); [discriminate|done].
Qed.

(** The acceptance ledger is well formed and the checkpoint's counts are its
    row counts. *)
Definition ledger_clean (current : json) (lines : list pystr) : Prop :=
  Forall line_ok lines ∧ NoDup (rows lines).*1 ∧ rows lines ≠ []
  ∧ ∃ claimed, claimed_counts current = Some claimed ∧ counts_rows claimed (rows lines).

Lemma audit_ledger_clean current lines :
  audit_ledger current lines = ([], []) → ledger_clean current lines.
Proof.
  unfold audit_ledger, ledger_clean. intros H.
  destruct (ledger_fold lines 1 (mkLedger [] (mkTally 0 0 0) [])) as (H1 & H2 & H3).
  fold (read_ledger lines) in H1, H2, H3. cbn [l_ids l_counts l_issues] in *.
  destruct (l_ids (read_ledger lines)) as [|x ids] eqn:Ei.
  { destruct (claimed_counts current) as [t|]; [|done]. cbn [andb negb] in H.
    by injection H as _ ?. }
  destruct (claimed_counts current) as [t|]; [|by injection H as _ ?].
  cbn [andb] in H. destruct (tally_eqb t _) eqn:Et; cbn [negb] in H.
  2:{ injection H as H. by apply app_nil in H as [_ ?]. }
  injection H as Hi. apply H3 in Hi as (_ & Hok & Hk). rewrite Hk in H1, H2.
  apply keep_all in Hk as [Hnd _]. split_and!; [done|done| |].
  - intros E. by rewrite E in H1.
  - exists t. split; [done|]. intros s Hs. unfold tally_eqb in Et. bool_hyps.
    assert (count_of t s = count_of (l_counts (read_ledger lines)) s) as ->.
    { unfold count_of. by destruct (str_eqb s (u "accepted")), (str_eqb s (u "partial")). }
    rewrite H2 by done. unfold count_of.
    by destruct (str_eqb s (u "accepted")), (str_eqb s (u "partial")).
Qed.

Lemma scan_secrets_nil text source line pattern :
  scan_secrets word text source = [] → line ∈ splitlines text → ¬ detects word pattern line.
Proof.
  unfold scan_secrets. rewrite bind_nil_iff. intros H [i Hl]%list_elem_of_lookup Hd.
  assert (Hin : (Z.of_nat i + 1, line) ∈ enumerate 1 (splitlines text)).
  { apply elem_of_enumerate. split; [lia|]. by replace (Z.to_nat (Z.of_nat i + 1 - 1)) with i by lia. }
  specialize (H _ Hin). cbn [fst snd] in H.
  assert (secret_issue source pattern (Z.of_nat i + 1) ∈ scan_line word source (Z.of_nat i + 1) line)
    as Hc by (apply elem_of_scan_line; by eexists).
  rewrite H in Hc. by apply not_elem_of_nil in Hc.
Qed.

Lemma secret_scan_nil checkpoint unknown i p s :
  secret_scan word world root checkpoint = ([], unknown) →
  scan_sources world root checkpoint !! i = Some p → read_text world (AtScan i) p = inr s →
  scan_secrets word s (source_name root p) = [].
Proof.
  unfold secret_scan. intros H Hp Hs. apply (f_equal fst) in H. cbn [fst] in H.
  rewrite bind_nil_iff in H.
  assert (Hin : scan_source word world root checkpoint (Z.of_nat i, p)
    ∈ scan_source word world root checkpoint <$> enumerate 0 (scan_sources world root checkpoint)).
  { apply list_elem_of_fmap_2, elem_of_enumerate. split; [lia|].
    by replace (Z.to_nat (Z.of_nat i - 0)) with i by lia. }
  apply H in Hin. unfold scan_source in Hin. by rewrite Nat2Z.id, Hs in Hin.
Qed.

Lemma main_zero checkpoint ledger :
  main word loads world root checkpoint ledger = Some 0 →
  ∃ counts, audit word loads world root checkpoint ledger = Some (mkResult [] [] counts).
Proof.
  unfold main. intros ([iss us cs] & Ha & H)%bind_Some. cbn [issues unknown] in H.
  destruct iss; [|done]. destruct us; [|done]. by exists cs.
Qed.

(** C11: exit status zero means that the handoff is consistent.  The checkpoint
    is a JSON object; every job it lists as running has a valid identity, an
    active supervisor and no finished receipt; every row of the acceptance
    ledger is well formed, no identifier is repeated, there is at least one
    row, and the three counts in the checkpoint are the numbers of rows in
    each state; the full-suite claim is backed by evidence under the root for
    the current source, or makes no unqualified green claim; and no scanned
    checkpoint file has a line that a secret detector matches. *)
Theorem audit_clean checkpoint ledger :
  main word loads world root checkpoint ledger = Some 0 →
  ∃ current jobs text,
    read_json AtCheckpoint checkpoint = Some (JObj current)
    ∧ jget (JObj current) (u "jobs") = JList jobs
    ∧ (∀ i job, jobs !! i = Some job → job_clean i job)
    ∧ read_text world AtLedger ledger = inr text
    ∧ ledger_clean (JObj current) (splitlines text)
    ∧ full_clean (JObj current)
    ∧ ∀ i p s line pattern, scan_sources world root checkpoint !! i = Some p →
        read_text world (AtScan i) p = inr s → line ∈ splitlines s → ¬ detects word pattern line.
Proof.
  intros [counts H]%main_zero. unfold audit in H.
  destruct (read_json AtCheckpoint checkpoint) as [[| | | | | | | |current]|]; try discriminate.
  destruct (secret_scan _ _ _ _) as [i1 u1] eqn:E1.
  destruct (match jget (JObj current) (u "jobs") with JList _ => _ | _ => _ end) as [i2 u2] eqn:E2.
  destruct (match read_text world AtLedger ledger with inl _ => _ | inr _ => _ end)
    as [[i3 u3] c] eqn:E3.
  apply bind_Some in H as ([i4 u4] & E4 & H). injection H as Hi Hu _.
  apply app_nil in Hi as [-> [-> [-> ->]%app_nil]%app_nil].
  apply app_nil in Hu as [-> [-> [-> ->]%app_nil]%app_nil].
  destruct (jget (JObj current) (u "jobs")) as [| | | | | | |jobs|] eqn:Ej; try discriminate.
  destruct (read_text world AtLedger ledger) as [|text] eqn:Et; [discriminate|].
  injection E3 as E3 _. exists current, jobs, text.
  split; [reflexivity|]. split; [exact Ej|]. split; [|split; [reflexivity|split; [|split]]].
  - intros i job Hj. by apply (audit_jobs_clean 0 jobs).
  - by apply audit_ledger_clean.
  - by apply audit_full_clean.
  - intros i p s line pattern Hp Hs. apply (scan_secrets_nil s (source_name root p)).
    by eapply secret_scan_nil.
Qed.

End Clean.

(** A consistent handoff with one running job. *)
Definition demo_world : World :=
  mkWorld (λ at_ _, match at_ with
            | AtCheckpoint => Data (bs "checkpoint")
            | AtJob _ 0 => Data (bs "status")
            | AtLedger => Data (bs "| P01 | Requirement | accepted | Proof |")
            | AtFull => Data (bs "full")
            | _ => Missing
            end) Some None.

Definition demo_loads (s : pystr) : option json :=
  if str_eqb s (u "checkpoint") then Some (JObj
    [(u "jobs", JList [demo_job]);
     (u "acceptance_ledger_counts",
       JObj [(u "accepted", JInt 1); (u "partial", JInt 0); (u "open", JInt 0)]);
     (u "actual_source", JObj [(u "sha256", JStr (u "current"))]);
     (u "release", JObj [(u "full_verification", JStr (u "full.json"));
                         (u "current_full_suite", JStr (u "current full suite green"))])])
  else if str_eqb s (u "status") then Some (JObj [(u "status", JStr (u "running"))])
  else if str_eqb s (u "full") then Some (JObj [(u "manifest_sha256", JStr (u "current"))])
  else None.

Definition demo_root : list pystr := [u "/"; u "srv"].

Lemma audit_clean_witness : ∃ current jobs text,
  read_json demo_loads demo_world AtCheckpoint (demo_root ++ [u "c.json"]) = Some (JObj current)
  ∧ jget (JObj current) (u "jobs") = JList jobs
  ∧ (∀ i job, jobs !! i = Some job → job_clean demo_loads demo_world demo_root i job)
  ∧ read_text demo_world AtLedger (demo_root ++ [u "l.md"]) = inr text
  ∧ ledger_clean (JObj current) (splitlines text)
  ∧ full_clean ascii_word demo_loads demo_world demo_root (JObj current)
  ∧ ∀ i p s line pattern,
      scan_sources demo_world demo_root (demo_root ++ [u "c.json"]) !! i = Some p →
      read_text demo_world (AtScan i) p = inr s → line ∈ splitlines s →
      ¬ detects ascii_word pattern line.
Proof.
  apply (audit_clean ascii_word demo_loads demo_world demo_root). by vm_compute.
Defined.
