(* ===== verification/Toolkit.v ===== *)
(** * .agents/.../validate_toolkit.py: the agent and skill validator

    Front matter, the server.zig authority markers, and the validation of
    skills, Codex agents and Claude agents, which stops at the first failure.
    The files found and the parsed TOML documents are arguments. *)

From S2P Require Import Prelude PyStr Regex Json.

#[local] Open Scope re_scope.

(** ** Failures

    One constructor per [fail] call; [Crash] is an exception of the
    interpreter (a value of the wrong type). *)
Inductive failure :=
| NoFrontmatter | Unterminated
| BadSkillName (dir : pystr) | NoSkillDescription (dir : pystr) | DuplicateSkill (name : pystr)
| IntegrationOwnership | SessionHandoff | StaleUi (name : pystr) | NoSkills
| BadCodexName (stem : pystr) | IncompleteCodex (name : pystr) | DuplicateCodex (name : pystr)
| CodexSandbox (name : pystr) | CodexNoEdit (name : pystr) | CodexEffort (name : pystr)
| CodexModel (name : pystr) | CodexExcluded (name : pystr) | CodexOwner | CodexNotOwner (name : pystr)
| CodexSkill (name skill : pystr)
| BadClaudeName (stem : pystr) | NoClaudeDescription (name : pystr) | ClaudeTools (name : pystr)
| ClaudeExcluded (name : pystr) | ClaudeOwner | ClaudeNotOwner (name : pystr)
| ClaudeModel (name : pystr) | ClaudeSkill (name : pystr) | DuplicateClaude (name : pystr)
| SkillLink | CodexRoster | ClaudeRoster
| Crash.

Abbreviation checked A := (failure + A)%type.

(** [if condition: fail(...)]. *)
Definition fail_if {A} (condition : bool) (e : failure) (k : checked A) : checked A :=
  if condition then inl e else k.

Notation "x <-? m ;; k" := (match m with inl e => inl e | inr x => k end)
  (at level 100, m at next level, k at level 200, right associativity).

(** ** Constants *)

Definition NAME : re := RAssert at_bol @@ plus (RChr (λ c, az c || d09 c || (c =? 45))) @@ RAssert at_dollar.

Definition name_ok (s : pystr) : bool := is_someb (rfullmatch NAME s).

Definition INTEGRATOR : pystr := u "onyx-server-integrator".

Definition REQUIRED_SHARED : list pystr :=
  [u "zig-coder"; u "onyx-session"; u "onyx-server-integrator"; u "onyx-server-dst";
   u "onyx-reviewer"; u "onyx-release-gate"; u "onyx-server-deploy"; u "onyx-docs";
   u "onyx-agent-architect"].

Definition CODEX_SANDBOX : list (pystr * pystr) :=
  [(u "onyx-agent-architect", u "read-only"); (u "onyx-reviewer", u "read-only");
   (u "onyx-server-deploy", u "danger-full-access"); (u "onyx-docs", u "workspace-write");
   (u "onyx-server-dst", u "workspace-write"); (u "onyx-release-gate", u "read-only");
   (u "onyx-server-integrator", u "workspace-write"); (u "onyx-session", u "workspace-write");
   (u "zig-coder", u "workspace-write")].

Definition CODEX_EFFORT : list (pystr * pystr) :=
  [(u "zig-coder", u "high"); (u "onyx-release-gate", u "high"); (u "onyx-docs", u "high");
   (u "onyx-session", u "xhigh"); (u "onyx-server-integrator", u "xhigh");
   (u "onyx-server-dst", u "xhigh"); (u "onyx-reviewer", u "xhigh");
   (u "onyx-server-deploy", u "xhigh"); (u "onyx-agent-architect", u "xhigh")].

Definition readers : list pystr := [u "Read"].
Definition runners : list pystr := [u "Read"; u "Grep"; u "Glob"; u "Bash"; u "Skill"].
Definition writers : list pystr :=
  [u "Read"; u "Grep"; u "Glob"; u "Bash"; u "Write"; u "Edit"; u "Skill"].

Definition CLAUDE_TOOLS : list (pystr * list pystr) :=
  [(u "onyx-agent-architect", [u "Read"; u "Grep"; u "Glob"; u "Skill"]);
   (u "onyx-reviewer", readers); (u "onyx-fast-auditor", readers);
   (u "onyx-integration-reviewer", readers); (u "onyx-security-reviewer", readers);
   (u "onyx-release-gate", runners); (u "onyx-server-deploy-authorized", runners);
   (u "onyx-docs", writers); (u "onyx-server-dst-leaf", writers);
   (u "onyx-server-integrator", writers); (u "onyx-session", writers); (u "zig-coder-leaf", writers)].

Definition CODEX_SERVER_EXCLUDED_WRITERS : list pystr :=
  (List.filter (λ ns, negb (str_eqb ns.2 (u "read-only")) && negb (str_eqb ns.1 INTEGRATOR))
     CODEX_SANDBOX).*1.

Definition CLAUDE_MODEL_EFFORT : list (pystr * (pystr * pystr)) :=
  let model := u "claude-sonnet-5" in
  [(u "onyx-fast-auditor", (model, u "low")); (u "onyx-integration-reviewer", (model, u "medium"));
   (u "onyx-security-reviewer", (model, u "high")); (u "onyx-release-gate", (model, u "medium"));
   (u "onyx-docs", (model, u "medium"))].

Fixpoint lookup_name {V} (k : pystr) (l : list (pystr * V)) : option V :=
  match l with
  | [] => None
  | (k', v) :: l => if str_eqb k k' then Some v else lookup_name k l
  end.

(** ** Authority markers *)

Definition MARK : pystr := u "server_zig_role:".

Definition no_ticks (text : pystr) : pystr := replace (u "`") [] text.

Definition role_markers (text : pystr) : gset pystr :=
  list_to_set (List.filter (λ l, startswith l MARK)
    ((λ line, lower (strip line)) <$> splitlines (no_ticks text))).

Inductive Role := NoRole | Owner | Excluded.
#[export] Instance Role_eq_dec : EqDecision Role.
Proof. solve_decision. Defined.

Definition server_zig_role (text : pystr) : Role :=
  match elements (role_markers text) with
  | [marker] =>
    if str_eqb marker (u "server_zig_role: owner") then Owner
    else if str_eqb marker (u "server_zig_role: excluded") then Excluded else NoRole
  | _ => NoRole
  end.

Definition normalized (text : pystr) : pystr := lower (no_ticks text).

Definition server_exclusion_consistent (text : pystr) : bool :=
  contains (normalized text) (u "never edit src/daemon/server.zig")
  && (count_sub (normalized text) (u "server.zig") =? 1)%nat.

Definition after_dot (prev : option Z) (_ : pystr) : bool :=
  match prev with Some c => c =? 46 | None => false end.

(** Clauses end at a semicolon, a newline, or white space after a full stop. *)
Definition re_clause : re :=
  lit (u ";") </> RChr (Z.eqb 10) </> (RAssert after_dot @@ plus (RChr isspace)).

Definition server_owner_consistent (text : pystr) : bool :=
  (count_sub (normalized text) (u "server.zig") =? 1)%nat
  && existsb (λ clause, startswith (strip clause)
                (u "hold the permanent named-role reservation on src/daemon/server.zig"))
       (rsplit re_clause (normalized text)).

(** ** Front matter *)

Inductive MetaValue := Scalar (s : pystr) | Items (l : list pystr).

Abbreviation meta := (gmap (list Z) MetaValue) (only parsing).

Definition DASHES : pystr := u "---" ++ [10].

Definition unquote (s : pystr) : pystr := strip_by (Z.eqb 34) (strip s).

Definition push_item (item : pystr) (v : option MetaValue) : MetaValue :=
  match v with Some (Items l) => Items (l ++ [item]) | _ => Items [item] end.

(** One line of the front matter; the state is the values read so far and the
    key whose list is open. *)
Definition frontmatter_line (st : meta * option pystr) (line : pystr) : meta * option pystr :=
  let '(values, current) := st in
  let plain :=
    match line with
    | [] => (values, None)
    | c :: _ =>
      if isspace c then (values, None)
      else match split_max 1 (u ":") line with
           | [key; value] =>
             let key := strip key in
             let value := unquote value in
             if nonempty value then (<[key := Scalar value]> values, None)
             else (<[key := Items []]> values, Some key)
           | _ => (values, None)
           end
    end in
  match current with
  | Some key =>
    if startswith line (u "  - ")
    then (<[key := push_item (unquote (drop 4 line)) (values !! key)]> values, current)
    else plain
  | None => plain
  end.

Definition frontmatter (text : pystr) : checked meta :=
  fail_if (negb (startswith text DASHES)) NoFrontmatter
  match split_max 2 DASHES text with
  | [_; raw; _] => inr (foldl frontmatter_line (∅, None) (splitlines raw)).1
  | _ => inl Unterminated
  end.

Definition scalar (m : meta) (key : pystr) : pystr :=
  match m !! key with Some (Scalar s) => s | _ => [] end.

Definition csv (m : meta) (key : pystr) : gset pystr :=
  match m !! key with
  | Some (Items l) => list_to_set l
  | Some (Scalar s) => list_to_set (List.filter nonempty (strip <$> split (u ",") s))
  | None => ∅
  end.

(** ** The tree under validation *)

Record SkillFile := mkSkill { sk_dir : pystr; sk_text : pystr; sk_ui : option pystr }.
Record CodexFile := mkCodex { cx_stem : pystr; cx_data : list (pystr * json) }.
Record ClaudeFile := mkClaude { cl_stem : pystr; cl_text : pystr }.

(** The files in the order of the sorted globs, whether
    [SKILLS / name / "SKILL.md"] is a file, and whether [.claude/skills]
    resolves to the canonical tree. *)
Record Tree := mkTree {
  t_skills : list SkillFile;
  t_codex : list CodexFile;
  t_claude : list ClaudeFile;
  t_skill_file : pystr → bool;
  t_link_ok : bool }.

(** ** Skills *)

Definition skill_step (names : list pystr) (f : SkillFile) : checked (list pystr) :=
  m <-? frontmatter (sk_text f) ;;
  let name := scalar m (u "name") in
  let text := normalized (sk_text f) in
  fail_if (negb (name_ok name) || negb (str_eqb name (sk_dir f))) (BadSkillName (sk_dir f))
  (fail_if (negb (nonempty (scalar m (u "description")))) (NoSkillDescription (sk_dir f))
  (fail_if (mem name names) (DuplicateSkill name)
  (fail_if (str_eqb name (u "onyx-server-integration")
            && (negb (contains text (u "permanent named-role reservation on src/daemon/server.zig"))
                || negb (contains text INTEGRATOR))) IntegrationOwnership
  (fail_if (str_eqb name (u "onyx-session-mesh")
            && (negb (contains text (u "never edit src/daemon/server.zig"))
                || negb (contains text INTEGRATOR))) SessionHandoff
  (fail_if (match sk_ui f with None => true | Some ui => negb (contains ui (u "$" ++ name)) end)
     (StaleUi name)
     (inr (name :: names))))))).

(** A loop that accumulates names and stops at the first failure. *)
Fixpoint fold_checked {A} (step : list pystr → A → checked (list pystr)) (names : list pystr)
    (l : list A) : checked (list pystr) :=
  match l with
  | [] => inr names
  | x :: l => names <-? step names x ;; fold_checked step names l
  end.

Definition validate_skills (t : Tree) : checked (list pystr) :=
  names <-? fold_checked skill_step [] (t_skills t) ;;
  fail_if (match names with [] => true | _ => false end) NoSkills (inr names).

(** ** Codex agents *)

(** Python's truth value. *)
Definition truthy (v : json) : bool :=
  match v with
  | JNull => false
  | JBool b => b
  | JInt z => negb (z =? 0)
  | JFloat m _ => negb (m =? 0)
  | JInf _ | JNaN => true
  | JStr s => nonempty s
  | JList l => match l with [] => false | _ => true end
  | JObj d => match d with [] => false | _ => true end
  end.

Definition text_of (v : json) : checked pystr := match v with JStr s => inr s | _ => inl Crash end.

Definition re_skill_ref : re :=
  lit (u "$") @@ RGroup 1 (lit (u "onyx-") @@ plus (RChr (λ c, az c || d09 c || (c =? 45)))).

Definition skill_refs (text : pystr) : list pystr :=
  (λ m, group_ 1 m.2) <$> rfinditer re_skill_ref text.

Fixpoint first_missing (exists_ : pystr → bool) (l : list pystr) : option pystr :=
  match l with
  | [] => None
  | x :: l => if exists_ x then first_missing exists_ l else Some x
  end.

Definition differs (expected : option pystr) (v : json) : bool :=
  match expected with Some e => negb (pyeq v (JStr e)) | None => false end.

(** The promise of a read-only agent, in its description or instructions. *)
Definition no_edit_contract (description instructions : json) : checked bool :=
  d <-? text_of description ;;
  if contains (lower d) (u "without editing source") then inr true
  else i <-? text_of instructions ;; inr (contains (lower i) (u "remain read-only")).

Definition codex_step (t : Tree) (names : list pystr) (f : CodexFile) : checked (list pystr) :=
  let data := JObj (cx_data f) in
  let description := jget data (u "description") in
  let instructions := jget data (u "developer_instructions") in
  let sandbox := jget data (u "sandbox_mode") in
  match jget data (u "name") with
  | JStr name =>
    fail_if (negb (str_eqb name (cx_stem f)) || negb (name_ok name)) (BadCodexName (cx_stem f))
    (fail_if (negb (truthy description) || negb (truthy instructions)) (IncompleteCodex name)
    (fail_if (mem name names) (DuplicateCodex name)
    (fail_if (differs (lookup_name name CODEX_SANDBOX) sandbox) (CodexSandbox name)
    (no_edit <-? no_edit_contract description instructions ;;
     fail_if (no_edit && negb (pyeq sandbox (JStr (u "read-only")))) (CodexNoEdit name)
    (fail_if (differs (lookup_name name CODEX_EFFORT) (jget data (u "model_reasoning_effort")))
       (CodexEffort name)
    (fail_if (is_someb (jassoc (u "model") (cx_data f))) (CodexModel name)
    (text <-? text_of instructions ;;
     let role := server_zig_role text in
     fail_if (mem name CODEX_SERVER_EXCLUDED_WRITERS
              && (negb (bool_decide (role = Excluded)) || negb (server_exclusion_consistent text)))
       (CodexExcluded name)
    (fail_if (str_eqb name INTEGRATOR
              && (negb (bool_decide (role = Owner)) || negb (server_owner_consistent text)))
       CodexOwner
    (fail_if (negb (str_eqb name INTEGRATOR) && bool_decide (role = Owner)) (CodexNotOwner name)
    match first_missing (t_skill_file t) (skill_refs text) with
    | Some skill => inl (CodexSkill name skill)
    | None => inr (name :: names)
    end)))))))))
  | _ => inl (BadCodexName (cx_stem f))
  end.

Definition validate_codex (t : Tree) : checked (list pystr) :=
  fold_checked (codex_step t) [] (t_codex t).

(** ** Claude agents *)

Definition WRITE_TOOLS : gset pystr := {[ u "Write"; u "Edit"; u "Bash" ]}.

(** The text after the front matter. *)
Definition agent_body (text : pystr) : pystr := from_opt [] (split_max 2 DASHES text !! 2%nat).

Definition claude_step (skills names : list pystr) (f : ClaudeFile) : checked (list pystr) :=
  m <-? frontmatter (cl_text f) ;;
  let name := scalar m (u "name") in
  let tools := csv m (u "tools") in
  let body := agent_body (cl_text f) in
  let role := server_zig_role body in
  let '(model, effort) := from_opt (u "claude-sonnet-5", u "high") (lookup_name name CLAUDE_MODEL_EFFORT) in
  fail_if (negb (str_eqb name (cl_stem f)) || negb (name_ok name)) (BadClaudeName (cl_stem f))
  (fail_if (negb (nonempty (scalar m (u "description")))) (NoClaudeDescription name)
  (fail_if (match lookup_name name CLAUDE_TOOLS with
            | None => true
            | Some e => negb (bool_decide (tools = list_to_set e))
            end) (ClaudeTools name)
  (fail_if (negb (str_eqb name INTEGRATOR) && negb (bool_decide (tools ∩ WRITE_TOOLS = ∅))
            && (negb (bool_decide (role = Excluded)) || negb (server_exclusion_consistent body)))
     (ClaudeExcluded name)
  (fail_if (str_eqb name INTEGRATOR
            && (negb (bool_decide (role = Owner)) || negb (server_owner_consistent body))) ClaudeOwner
  (fail_if (negb (str_eqb name INTEGRATOR) && bool_decide (role = Owner)) (ClaudeNotOwner name)
  (fail_if (negb (str_eqb (scalar m (u "model")) model) || negb (str_eqb (scalar m (u "effort")) effort))
     (ClaudeModel name)
  (fail_if (negb (forallb (λ s, mem s skills) (elements (csv m (u "skills"))))) (ClaudeSkill name)
  (fail_if (mem name names) (DuplicateClaude name)
     (inr (name :: names)))))))))).

Definition validate_claude (t : Tree) (skills : list pystr) : checked (list pystr) :=
  fold_checked (claude_step skills) [] (t_claude t).

Definition same_set (a b : list pystr) : bool :=
  bool_decide (list_to_set a = list_to_set b :> gset pystr).

(** [main]: the three numbers printed on success. *)
Definition main (t : Tree) : checked (nat * nat * nat) :=
  skills <-? validate_skills t ;;
  codex <-? validate_codex t ;;
  claude <-? validate_claude t skills ;;
  fail_if (negb (t_link_ok t)) SkillLink
  (fail_if (negb (same_set codex REQUIRED_SHARED)) CodexRoster
  (fail_if (negb (same_set claude CLAUDE_TOOLS.*1)) ClaudeRoster
     (inr (length skills, length codex, length claude)))).
