(* ===== verification/ToolkitSpec.v ===== *)
(** * What a validated toolkit guarantees

    A run of the validator that succeeds leaves exactly one agent per runtime
    with authority over server.zig, and every other writer excluded from it. *)

From S2P Require Import Prelude PyStr Regex Json Toolkit.

Lemma fail_if_inr {A} b e (k : checked A) r : fail_if b e k = inr r ↔ b = false ∧ k = inr r.
Proof. destruct b; simpl; naive_solver. Qed.

(** The successes of a loop: every element passed its step, the names are
    those of the elements and no two are equal. *)
Section Loop.
Context {A : Type} (name_of : A → pystr) (ok : A → Prop).
Variable step : list pystr → A → checked (list pystr).
Hypothesis step_inr : ∀ names x names', step names x = inr names' →
  names' = name_of x :: names ∧ name_of x ∉ names ∧ ok x.

Lemma fold_checked_inr l names names' :
  fold_checked step names l = inr names' → NoDup names →
  names' = rev (name_of <$> l) ++ names ∧ NoDup names' ∧ Forall ok l.
Proof.
  revert names. induction l as [|x l IH]; intros names; cbn [fold_checked].
  - intros [= <-] Hn. split_and!; [done|done|constructor].
  - destruct (step names x) as [|n1] eqn:E; [discriminate|]. intros H Hn.
    apply step_inr in E as (-> & Hx & Hok).
    destruct (IH _ H) as (-> & Hnd & Hl); [by constructor|].
    split_and!; [|done|by constructor]. rewrite fmap_cons. simpl rev. by rewrite <-app_assoc.
Qed.

End Loop.

Lemma roster_perm {A} (name_of : A → pystr) l names expected :
  names = rev (name_of <$> l) ++ [] → NoDup names → NoDup expected →
  same_set names expected = true → name_of <$> l ≡ₚ expected.
Proof.
  intros -> Hn He Hs. rewrite app_nil_r in *. unfold same_set in Hs. apply bool_decide_eq_true in Hs.
  rewrite (Permutation_rev (name_of <$> l)). apply NoDup_Permutation; [done|done|].
  intros x. rewrite <-!(elem_of_list_to_set (C := gset pystr)). by rewrite Hs.
Qed.

(** ** Codex agents *)

Definition instructions (f : CodexFile) : json := jget (JObj (cx_data f)) (u "developer_instructions").
Definition sandbox (f : CodexFile) : json := jget (JObj (cx_data f)) (u "sandbox_mode").

(** The agent's authority over server.zig: ownership is declared by the
    integrator alone, and an excluded writer says so consistently. *)
Definition authority (integrator writer : Prop) (text : pystr) : Prop :=
  (server_zig_role text = Owner ↔ integrator)
  ∧ (integrator → server_owner_consistent text = true)
  ∧ (writer → server_zig_role text = Excluded ∧ server_exclusion_consistent text = true).

#[export] Instance authority_proper : Proper (iff ==> iff ==> eq ==> iff) authority.
Proof. intros i i' Hi w w' Hw text _ <-. unfold authority. by rewrite Hi, Hw. Qed.

Definition codex_ok (t : Tree) (f : CodexFile) : Prop :=
  ∃ text, instructions f = JStr text
    ∧ authority (cx_stem f = INTEGRATOR) (cx_stem f ∈ CODEX_SERVER_EXCLUDED_WRITERS) text
    ∧ (∀ s, lookup_name (cx_stem f) CODEX_SANDBOX = Some s → sandbox f = JStr s)
    ∧ ∀ skill, skill ∈ skill_refs text → t_skill_file t skill = true.

Lemma pyeq_str v s : pyeq v (JStr s) = true → v = JStr s.
Proof. destruct v; simpl; try done. intros H%str_eqb_eq. by subst. Qed.

Lemma first_missing_None p l : first_missing p l = None → ∀ x, x ∈ l → p x = true.
Proof.
  induction l as [|y l IH]; intros H x; [by intros ?%not_elem_of_nil|]. simpl in H.
  destruct (p y) eqn:E; [|done]. intros [->|Hx]%elem_of_cons; [done|by apply IH].
Qed.

(** The three authority guards, as one statement. *)
Lemma authority_intro name (writer : bool) text :
  writer && (negb (bool_decide (server_zig_role text = Excluded))
             || negb (server_exclusion_consistent text)) = false →
  str_eqb name INTEGRATOR && (negb (bool_decide (server_zig_role text = Owner))
             || negb (server_owner_consistent text)) = false →
  negb (str_eqb name INTEGRATOR) && bool_decide (server_zig_role text = Owner) = false →
  authority (name = INTEGRATOR) (writer = true) text.
Proof.
  intros H1 H2 H3. unfold authority. rewrite <-str_eqb_eq.
  destruct (str_eqb name INTEGRATOR); cbn [andb negb] in *.
  - bool_hyps. split_and!; [naive_solver|done|]. intros ->. cbn [andb] in H1. by bool_hyps.
  - bool_hyps. split_and!; [naive_solver|done|]. intros ->. cbn [andb] in H1. by bool_hyps.
Qed.

Lemma codex_step_inr t names f names' : codex_step t names f = inr names' →
  names' = cx_stem f :: names ∧ cx_stem f ∉ names ∧ codex_ok t f.
Proof.
  unfold codex_step. destruct (jget _ (u "name")) as [| | | | | |name| |]; try discriminate.
  rewrite !fail_if_inr. intros (H1 & _ & H3 & H4 & H).
  destruct (no_edit_contract _ _) as [|no_edit]; [discriminate|].
  rewrite !fail_if_inr in H. destruct H as (_ & _ & _ & H).
  fold (instructions f) in H. destruct (instructions f) as [| | | | | |text| |] eqn:Ei; try discriminate.
  cbn [text_of] in H. rewrite !fail_if_inr in H. destruct H as (H5 & H6 & H7 & H).
  destruct (first_missing _ _) eqn:Em; [discriminate|]. injection H as <-.
  apply orb_false_elim in H1 as [H1 _]. apply negb_false_iff, str_eqb_eq in H1. subst name.
  split; [done|]. split; [rewrite <-mem_elem, H3; discriminate|].
  exists text. split; [done|]. split; [|split].
  - rewrite <-mem_elem. by apply authority_intro.
  - intros s Hs. rewrite Hs in H4. cbn [differs] in H4. apply negb_false_iff, pyeq_str in H4. done.
  - by apply first_missing_None.
Qed.

(** ** Claude agents *)

Definition claude_ok (skills : list pystr) (f : ClaudeFile) : Prop :=
  ∃ m, frontmatter (cl_text f) = inr m
    ∧ authority (cl_stem f = INTEGRATOR)
        (cl_stem f ≠ INTEGRATOR ∧ csv m (u "tools") ∩ WRITE_TOOLS ≠ ∅) (agent_body (cl_text f))
    ∧ (∃ tools, lookup_name (cl_stem f) CLAUDE_TOOLS = Some tools
         ∧ csv m (u "tools") = list_to_set tools)
    ∧ ∀ skill, skill ∈ csv m (u "skills") → skill ∈ skills.

Lemma claude_step_inr skills names f names' : claude_step skills names f = inr names' →
  names' = cl_stem f :: names ∧ cl_stem f ∉ names ∧ claude_ok skills f.
Proof.
  unfold claude_step. destruct (frontmatter (cl_text f)) as [|m] eqn:Em; [discriminate|].
  destruct (from_opt _ _) as [model effort]. rewrite !fail_if_inr.
  intros (H1 & _ & H3 & H4 & H5 & H6 & _ & H8 & H9 & H). injection H as <-.
  apply orb_false_elim in H1 as [H1 _]. apply negb_false_iff, str_eqb_eq in H1. rewrite H1 in *.
  split; [done|]. split; [rewrite <-mem_elem, H9; discriminate|].
  exists m. split; [done|]. split; [|split].
  - assert (cl_stem f ≠ INTEGRATOR ∧ csv m (u "tools") ∩ WRITE_TOOLS ≠ ∅ ↔
      negb (str_eqb (cl_stem f) INTEGRATOR) && negb (bool_decide (csv m (u "tools") ∩ WRITE_TOOLS = ∅))
      = true) as ->.
    { by rewrite andb_true_iff, !negb_true_iff, str_eqb_neq, bool_decide_eq_false. }
    by apply authority_intro.
  - destruct (lookup_name _ _) as [tools|]; [|discriminate]. exists tools. split; [done|].
    by apply negb_false_iff, bool_decide_eq_true in H3.
  - intros skill Hs. apply negb_false_iff in H8. rewrite forallb_elem in H8.
    by apply mem_elem, H8, elem_of_elements.
Qed.

(** ** Skills *)

(** A skill document that validates: its front matter names its directory and
    describes it, and its UI prompt mentions it. *)
Definition skill_ok (f : SkillFile) : Prop :=
  ∃ m ui, frontmatter (sk_text f) = inr m ∧ scalar m (u "name") = sk_dir f
    ∧ scalar m (u "description") ≠ [] ∧ sk_ui f = Some ui ∧ contains ui (u "$" ++ sk_dir f) = true.

Lemma skill_step_inr names f names' : skill_step names f = inr names' →
  names' = sk_dir f :: names ∧ sk_dir f ∉ names ∧ skill_ok f.
Proof.
  unfold skill_step. destruct (frontmatter (sk_text f)) as [|m] eqn:Em; [discriminate|].
  rewrite !fail_if_inr. intros (H1 & H2 & H3 & _ & _ & H6 & H). injection H as <-.
  apply orb_false_elim in H1 as [_ H1]. apply negb_false_iff, str_eqb_eq in H1. rewrite H1 in *.
  split; [done|]. split; [rewrite <-mem_elem, H3; discriminate|].
  destruct (sk_ui f) as [ui|] eqn:Eu; [|discriminate]. apply negb_false_iff in H6.
  exists m, ui. split; [done|]. split; [done|]. split; [|done].
  intros Hd. rewrite Hd in H2. discriminate H2.
Qed.

(** The names [validate_skills] returns are those of the skill directories. *)
Lemma validate_skills_inr t skills : validate_skills t = inr skills →
  (∀ name, name ∈ skills ↔ name ∈ sk_dir <$> t_skills t) ∧ NoDup (sk_dir <$> t_skills t)
  ∧ Forall skill_ok (t_skills t).
Proof.
  unfold validate_skills. destruct (fold_checked skill_step [] (t_skills t)) as [|names] eqn:E; [discriminate|].
  rewrite fail_if_inr. intros [_ H]. injection H as <-.
  destruct (fold_checked_inr sk_dir skill_ok skill_step skill_step_inr _ _ _ E NoDup_nil_2) as (-> & Hn & Hf).
  rewrite app_nil_r in *. split; [|split; [|done]].
  - intros name. by rewrite <-Permutation_rev.
  - by rewrite <-Permutation_rev in Hn.
Qed.

Lemma claude_ok_mono (l1 l2 : list pystr) f : (∀ s, s ∈ l1 → s ∈ l2) → claude_ok l1 f → claude_ok l2 f.
Proof. intros Hl (m & H1 & H2 & H3 & H4). exists m. split; [done|]. split; [done|]. split; [done|]. auto. Qed.

(** ** The validated tree *)

Lemma main_inr t r : main t = inr r →
  ∃ skills codex claude, validate_skills t = inr skills ∧ validate_codex t = inr codex ∧ validate_claude t skills = inr claude
    ∧ same_set codex REQUIRED_SHARED = true ∧ same_set claude CLAUDE_TOOLS.*1 = true.
Proof.
  unfold main. destruct (validate_skills t) as [|skills]; [discriminate|].
  destruct (validate_codex t) as [|codex]; [discriminate|].
  destruct (validate_claude t skills) as [|claude] eqn:E; [discriminate|].
  rewrite !fail_if_inr, !negb_false_iff. intros (_ & ? & ? & _).
  by exists skills, codex, claude.
Qed.

Lemma required_NoDup : NoDup REQUIRED_SHARED.
Proof. apply (bool_decide_unpack _). by vm_compute. Qed.

Lemma claude_NoDup : NoDup CLAUDE_TOOLS.*1.
Proof. apply (bool_decide_unpack _). by vm_compute. Qed.

(** The writers of the sandbox table other than the integrator. *)
Lemma excluded_writers name s :
  lookup_name name CODEX_SANDBOX = Some s → s ≠ u "read-only" → name ≠ INTEGRATOR →
  name ∈ CODEX_SERVER_EXCLUDED_WRITERS.
Proof.
  unfold CODEX_SERVER_EXCLUDED_WRITERS. induction CODEX_SANDBOX as [|[k v] l IH]; [done|].
  cbn [lookup_name List.filter fst snd]. intros H Hs Hn.
  destruct (str_eqb name k) eqn:E.
  - injection H as ->. apply str_eqb_eq in E as ->.
    rewrite (proj2 (str_eqb_neq _ _) Hs), (proj2 (str_eqb_neq _ _) Hn). cbn [negb andb]. apply list_elem_of_here.
  - specialize (IH H Hs Hn). destruct (negb (str_eqb v _) && _); [by apply list_elem_of_further|exact IH].
Qed.

(** C37: a toolkit that validates has one owner of server.zig per runtime.  The
    Codex agents are exactly the required roster and the Claude agents exactly
    the roster with assigned tools, each once.  In either runtime an agent
    declares ownership of server.zig if and only if it is the integrator; a
    Codex agent with a sandbox that can write, and a Claude agent with a tool
    that can write, other than the integrator declares that it is excluded and
    names server.zig only to say that it never edits it; the file
    of every skill a Codex agent refers to exists, and every skill a Claude
    agent lists is one of the skill directories of the tree, each of which
    validates under its own name. *)
Theorem toolkit_single_owner t r :
  main t = inr r →
  cx_stem <$> t_codex t ≡ₚ REQUIRED_SHARED
  ∧ cl_stem <$> t_claude t ≡ₚ CLAUDE_TOOLS.*1
  ∧ (∀ f, f ∈ t_codex t → ∃ text, instructions f = JStr text
       ∧ authority (cx_stem f = INTEGRATOR)
           (sandbox f ≠ JStr (u "read-only") ∧ cx_stem f ≠ INTEGRATOR
            ∧ is_Some (lookup_name (cx_stem f) CODEX_SANDBOX)) text
       ∧ ∀ skill, skill ∈ skill_refs text → t_skill_file t skill = true)
  ∧ (∀ f, f ∈ t_claude t → claude_ok (sk_dir <$> t_skills t) f)
  ∧ NoDup (sk_dir <$> t_skills t) ∧ Forall skill_ok (t_skills t).
Proof.
  intros (skills & codex & claude & Hk0 & Hx & Hc & Sx & Sc)%main_inr.
  destruct (fold_checked_inr cx_stem (codex_ok t) (codex_step t) (codex_step_inr t) _ _ _ Hx
    (NoDup_nil_2)) as (Ex & Nx & Fx).
  destruct (fold_checked_inr cl_stem (claude_ok skills) (claude_step skills) (claude_step_inr skills)
    _ _ _ Hc (NoDup_nil_2)) as (Ec & Nc & Fc).
  split; [by apply (roster_perm cx_stem _ codex); [| |apply required_NoDup|]|].
  split; [by apply (roster_perm cl_stem _ claude); [| |apply claude_NoDup|]|].
  destruct (validate_skills_inr _ _ Hk0) as (Hsk & Nk & Fk).
  split; [|split; [|done]].
  2: { intros f Hf. eapply claude_ok_mono; [|by eapply Forall_forall in Fc]. intros s Hs. by apply Hsk. }
  intros f Hf. rewrite Forall_forall in Fx. destruct (Fx f Hf) as (text & Ei & Ha & Hs & Hk).
  exists text. split; [done|]. split; [|done]. destruct Ha as (A1 & A2 & A3).
  split; [done|]. split; [done|]. intros (Hw & Hn & [s El]). apply A3.
  apply (excluded_writers _ s); [done| |done]. intros ->. apply Hw. by apply Hs.
Qed.

(** A tree with the full rosters that validates. *)
Definition demo_body (name : pystr) : pystr :=
  if str_eqb name INTEGRATOR
  then u "server_zig_role: owner
Hold the permanent named-role reservation on `src/daemon/server.zig`; integrate."
  else u "server_zig_role: excluded
Never edit src/daemon/server.zig; hand off.".

Definition demo_codex (name : pystr) : CodexFile :=
  mkCodex name
    [(u "name", JStr name); (u "description", JStr (u "agent"));
     (u "developer_instructions", JStr (demo_body name));
     (u "sandbox_mode", JStr (from_opt [] (lookup_name name CODEX_SANDBOX)));
     (u "model_reasoning_effort", JStr (from_opt [] (lookup_name name CODEX_EFFORT)))].

Definition demo_claude (nt : pystr * list pystr) : ClaudeFile :=
  let '(model, effort) :=
    from_opt (u "claude-sonnet-5", u "high") (lookup_name nt.1 CLAUDE_MODEL_EFFORT) in
  mkClaude nt.1
    (join [10] [u "---"; u "name: " ++ nt.1; u "description: agent"; u "tools: " ++ join (u ", ") nt.2;
                u "model: " ++ model; u "effort: " ++ effort; u "skills:"; u "  - demo"; u "---";
                demo_body nt.1]).

Definition demo_skill : SkillFile :=
  mkSkill (u "demo") (join [10] [u "---"; u "name: demo"; u "description: a skill"; u "---"; u "text"])
    (Some (u "use $demo")).

Definition demo_tree : Tree :=
  mkTree [demo_skill] (demo_codex <$> REQUIRED_SHARED) (demo_claude <$> CLAUDE_TOOLS)
    (λ _, false) true.

Lemma toolkit_single_owner_witness :
  cx_stem <$> t_codex demo_tree ≡ₚ REQUIRED_SHARED
  ∧ cl_stem <$> t_claude demo_tree ≡ₚ CLAUDE_TOOLS.*1
  ∧ (∀ f, f ∈ t_codex demo_tree → ∃ text, instructions f = JStr text
       ∧ authority (cx_stem f = INTEGRATOR)
           (sandbox f ≠ JStr (u "read-only") ∧ cx_stem f ≠ INTEGRATOR
            ∧ is_Some (lookup_name (cx_stem f) CODEX_SANDBOX)) text
       ∧ ∀ skill, skill ∈ skill_refs text → t_skill_file demo_tree skill = true)
  ∧ (∀ f, f ∈ t_claude demo_tree → claude_ok (sk_dir <$> t_skills demo_tree) f)
  ∧ NoDup (sk_dir <$> t_skills demo_tree) ∧ Forall skill_ok (t_skills demo_tree).
Proof.
  apply (toolkit_single_owner demo_tree (1, 9, 12)%nat). by vm_compute.
Defined.
