(* ===== verification/Bench.v ===== *)
(** * tools/bench_live.py and tools/bench_sqpoll.py: the benchmark drivers

    Configuration texts, the report table, the benchmark matrices with their
    exit status, the CPU accounting of a measurement and the order in which
    cells are measured.  What the daemon, the kernel and the clock report is an
    argument. *)

From S2P Require Import Prelude PyStr PyFloat Json Delivery.

(** A line of a generated text. *)
Definition ln (s : pystr) : pystr := s ++ [10].
Definition quoted (s : pystr) : pystr := [34] ++ s ++ [34].
Definition bool_text (b : bool) : pystr := if b then u "true" else u "false".

(** ** bench_live: cells *)

Definition HOST : pystr := u "127.0.0.1".
Definition FORBIDDEN_PORTS : list Z := [6667; 6680; 6697; 8080].

(** [free_port] on the port the kernel handed out. *)
Definition free_port (port : Z) : failing Z :=
  if existsb (Z.eqb port) FORBIDDEN_PORTS then inl (u "kernel handed forbidden port " ++ dec port)
  else inr port.

(** [rss_kib] on the lines of the status file: [None] is an exception (no
    second field, or one that is no integer), [Some None] no such line. *)
Fixpoint rss_lines (lines : list pystr) : option (option Z) :=
  match lines with
  | [] => Some None
  | line :: lines =>
    if startswith line (u "VmRSS:")
    then match split_ws line with _ :: v :: _ => Some <$> int v | _ => None end
    else rss_lines lines
  end.

Definition OFF : pystr := u "off".
Definition USERSPACE : pystr := u "userspace".
Definition KTLS : pystr := u "ktls".

Definition ktls_note (log : option pystr) (tls_mode : pystr) : pystr :=
  if negb (str_eqb tls_mode KTLS) then []
  else match log with
       | None => []
       | Some text =>
         if contains text (u "kTLS TX+RX offload ACTIVE") || contains text (u "kTLS TX offload ACTIVE")
         then u "ktls-active"
         else if contains text (u "no TLS ULP") then u "ktls-fallback-userspace"
         else u "ktls-unknown"
       end.

Record Cell := mkCell {
  tls : pystr; shards : Z; ring : Z; cqe : Z; sqpoll : bool }.

Definition tls_block (tls_mode : pystr) (tls_port : Z) : pystr :=
  if str_eqb tls_mode OFF then []
  else ln (u "[tls]") ++ ln (u "enabled = true") ++ ln (u "port = " ++ dec tls_port)
       ++ ln (u "dns_name = " ++ quoted (u "localhost"))
       ++ ln (u "ktls = " ++ quoted (if str_eqb tls_mode KTLS then u "txrx" else u "off")).

Definition write_config (irc_port tls_port : Z) (c : Cell) : pystr :=
  ln (u "[node]") ++ ln (u "id = 1") ++ ln (u "[listen]") ++ ln (u "host = " ++ quoted HOST)
  ++ ln (u "irc = " ++ dec irc_port) ++ tls_block (tls c) tls_port
  ++ ln (u "[limits]") ++ ln (u "num_shards = " ++ dec (shards c))
  ++ ln (u "[io]") ++ ln (u "ring_entries = " ++ dec (ring c)) ++ ln (u "cqe_batch = " ++ dec (cqe c))
  ++ ln (u "sqpoll = " ++ bool_text (sqpoll c)).

Record CellResult := mkCellResult {
  r_cell : Cell;
  register_ms : option flt;
  join_ms : option flt;
  privmsg_ms : option flt;
  rss_idle_kib : option Z;
  rss_loaded_kib : option Z;
  r_clients : Z;
  r_note : pystr;
  r_error : option pystr }.

Definition rss_per_client (r : CellResult) : option flt :=
  match rss_idle_kib r, rss_loaded_kib r with
  | Some idle, Some loaded => if r_clients r <=? 0 then None else Some (int_div (loaded - idle) (r_clients r))
  | _, _ => None
  end.

(** [if r.error]: a failed cell. *)
Definition has_error (r : CellResult) : bool := nonempty (from_opt [] (r_error r)).

(** ** bench_live: the report *)

Definition DASH : pystr := u "—".

Definition fmt_ms (v : option flt) : pystr := match v with None => DASH | Some x => fixed 2 x end.
Definition fmt_rss (v : option flt) : pystr := match v with None => DASH | Some x => fixed 1 x end.
Definition fmt_int (v : option Z) : pystr := match v with None => DASH | Some z => dec z end.

Definition bar : pystr := u " | ".

Definition table_row (r : CellResult) : pystr :=
  let c := r_cell r in
  let err := take 120 (replace [10] (u " ") (from_opt [] (r_error r))) in
  u "| " ++ join bar
    [bool_text (sqpoll c); tls c; dec (shards c); dec (ring c) ++ u "×" ++ dec (cqe c);
     fmt_ms (register_ms r); fmt_ms (join_ms r); fmt_ms (privmsg_ms r);
     fmt_int (rss_idle_kib r); fmt_int (rss_loaded_kib r); fmt_rss (rss_per_client r);
     r_note r; err] ++ u " |".

Definition report_head (title command : pystr) (clients samples : Z) : list pystr :=
  [u "# " ++ title; [];
   u "Every number in the table below was produced by this command and no other:"; [];
   u "```sh"; command; u "```"; [];
   u "Throwaway `onyx-server` on 127.0.0.1, kernel-assigned ports, "
   ++ u "`--check-config` before each boot. Not a production service unit."; [];
   u "clients=" ++ dec clients ++ u "  privmsg_samples=" ++ dec samples; [];
   u "JOIN p50 is the median time from `JOIN` to numeric 366. PRIVMSG p50 is";
   u "the median time from `PRIVMSG` on the first client until the last client";
   u "receives that token. RSS idle is before any client; RSS loaded is after";
   u "every client has joined."; []].

Definition table_head : list pystr :=
  [u "| sqpoll | tls | shards | ring×cqe | register p50 ms | JOIN p50 ms | PRIVMSG p50 ms | RSS idle KiB | RSS loaded KiB | RSS/client KiB | note | error |";
   u "| --- | --- | ---: | ---: | ---: | ---: | ---: | ---: | ---: | ---: | --- | --- |"].

Definition report_tail : list pystr :=
  [[]; u "RSS/client is (loaded − idle) / N after JOIN. A small or negative";
   u "delta means the idle image already dwarfs N clients — do not treat";
   u "it as a per-conn floor. A blank timing with an error is an unmeasured";
   u "cell, not a zero. TLS `userspace` sets `ktls = " ++ quoted (u "off") ++ u "`. The kTLS";
   u "`txrx` cell, when present, is configured intent only; the note says";
   u "whether the kernel attached ULP. `[io] sqpoll` is set without";
   u "`defer_taskrun`."; [];
   u "This command writes the Linux rows only. A later run keeps an";
   u "existing `## FreeBSD` section in the output file. SQPOLL is Linux";
   u "io_uring, and the portable reactor does not serve a TLS listener."; []].

(** [provenance(bin_path)] is an argument. *)
Definition render (provenance : list pystr) (results : list CellResult) (clients samples : Z)
    (title command : pystr) : pystr :=
  join [10] (report_head title command clients samples ++ provenance ++ table_head
             ++ (table_row <$> results) ++ report_tail).

Definition MARKER : pystr := [10] ++ u "## FreeBSD".

(** [keep_freebsd_section] on the previous content, if the file exists. *)
Definition keep_freebsd_section (old : option pystr) (text : pystr) : pystr :=
  match old with
  | None => text
  | Some old =>
    match find old MARKER with
    | None => text
    | Some at_ => rstrip text ++ [10] ++ drop (at_ + 1) old
    end
  end.

(** ** bench_live: the matrices *)

Record Args := mkArgs {
  quick : bool; gap_x4 : bool; a_clients : Z; a_samples : Z; out : bool;
  sqpoll_phases : bool; phase_option : bool; bin_is_file : bool }.

Definition gap_cells : list Cell :=
  sqpoll ← [false; true]; tls_mode ← [OFF; USERSPACE]; shards ← [1; 4];
  [mkCell tls_mode shards 32 256 sqpoll].

Definition quick_cells : list Cell := [mkCell OFF 1 32 256 false].

Definition full_cells : list Cell :=
  [mkCell OFF 1 32 256 false; mkCell OFF 2 32 256 false; mkCell OFF 1 128 256 false;
   mkCell OFF 1 32 512 false; mkCell USERSPACE 1 32 256 false; mkCell KTLS 1 32 256 false].

Definition or_else (v d : Z) : Z := if v =? 0 then d else v.

(** The cells, the numbers of clients and samples, the title and the command. *)
Definition matrix (a : Args) : list Cell * Z * Z * pystr * pystr :=
  if gap_x4 a then
    (gap_cells, or_else (a_clients a) 4, or_else (a_samples a) 16, u "GAP-X4 Linux live bench",
     u "zig build bench-live -- --gap-x4 -o docs/audit/bench-gap-x4.md")
  else if quick a then
    (quick_cells, or_else (a_clients a) 4, or_else (a_samples a) 8,
     u "Live-daemon bench — one plaintext cell", u "zig build bench-live -- --quick")
  else
    (full_cells, or_else (a_clients a) 8, or_else (a_samples a) 16,
     u "Live-daemon bench — P0-1 remaining axes", u "zig build bench-live").

Definition exit_status (a : Args) (results : list CellResult) : Z :=
  if gap_x4 a then if existsb has_error results then 1 else 0
  else
    let required := List.filter (λ r, str_eqb (tls (r_cell r)) OFF) results in
    if existsb has_error required then 1 else 0.

(** [main]: the exit status, the text printed and the file written.
    [run_cell cell clients samples] is the measured cell, [old] the previous
    report and [phases] the retained-phase profile. *)
Definition main (a : Args) (provenance : list pystr) (run_cell : Cell → Z → Z → CellResult)
    (old : option pystr) (phases : failing Z) : failing (Z * option pystr * option pystr) :=
  if negb (bin_is_file a) then inr (2, None, None)
  else if sqpoll_phases a then
    if quick a || gap_x4 a
    then inl (u "retained phases and legacy benchmark matrices are separate profiles")
    else match phases with inl e => inl e | inr code => inr (code, None, None) end
  else if phase_option a then inl (u "phase options require --sqpoll-phases")
  else if quick a && gap_x4 a then inr (2, None, None)
  else
    let '(cells, clients, samples, title, command) := matrix a in
    let results := (λ c, run_cell c clients samples) <$> cells in
    let text := render provenance results clients samples title command in
    inr (exit_status a results, Some text,
         if out a then Some (keep_freebsd_section old text) else None).

(** ** bench_live: the retained phases *)

Definition LIMITS : pystr := ln (u "[limits]").
Definition TLS_HEAD : pystr := ln (u "[tls]").

Definition forbidden_sections : list pystr := [u "[io]"; u "[metrics]"; u "[stats]"; u "[class."].

Definition phase_extra (mode metrics_port : Z) : pystr :=
  [10] ++ ln (u "[io]") ++ ln (u "ring_entries = 512") ++ ln (u "cqe_batch = 256")
  ++ ln (u "sqpoll = " ++ bool_text (negb (mode =? 0)))
  ++ ln (u "sqpoll_idle_ms = " ++ dec (or_else mode 10))
  ++ ln (u "[metrics]") ++ ln (u "listen = " ++ dec metrics_port)
  ++ ln (u "bind = " ++ quoted (u "127.0.0.1"))
  ++ ln (u "[stats]") ++ ln (u "interval = " ++ quoted (u "1s"))
  ++ ln (u "[class.benchmark]") ++ ln (u "match = [" ++ quoted (u "127.0.0.1/32") ++ u "]")
  ++ ln (u "sendq = " ++ quoted (u "1M")) ++ ln (u "recvq = " ++ quoted (u "16K"))
  ++ ln (u "flood_exempt = true").

Definition tls_lines : pystr := TLS_HEAD ++ ln (u "ktls = " ++ quoted OFF).
Definition limit_lines : pystr :=
  LIMITS ++ ln (u "num_shards = 1") ++ ln (u "sweep_interval = " ++ quoted (u "2s")).

Definition phase_config (base : pystr) (mode metrics_port : Z) : failing pystr :=
  if negb (count_sub base LIMITS =? 1)%nat || existsb (contains base) forbidden_sections
  then inl (u "generated bundle shape changed")
  else if negb (count_sub base TLS_HEAD =? 1)%nat || contains base (u "ktls =")
  then inl (u "generated TLS template shape changed")
  else
    let base := replace_max 1 TLS_HEAD tls_lines base in
    inr (replace_max 1 LIMITS limit_lines base ++ phase_extra mode metrics_port).

(** One CPU task as the kernel reports it. *)
Record Task := mkTask { t_name : pystr; t_ticks : Z; t_start : Z }.
Abbreviation tasks := (gmap Z Task) (only parsing).

Definition sq_name (pid : Z) : pystr := u "iou-sqp-" ++ dec pid.

(** [task_stat] on the text of a stat file; [None] is an exception. *)
Definition task_stat (content : pystr) : option Task :=
  let close := rfind content (u ")") in
  let rest := match close with Some i => drop (i + 2) content | None => drop 1 content end in
  let fields := split_ws rest in
  openp ← find content (u "(");
  let name := match close with
              | Some i => take (i - (openp + 1)) (drop (openp + 1) content)
              | None => drop (openp + 1) (removelast content)
              end in
  f11 ← fields !! 11%nat; f12 ← fields !! 12%nat; f19 ← fields !! 19%nat;
  a ← int f11; b ← int f12; c ← int f19;
  Some (mkTask name (a + b) c).

(** The check at the end of bench_sqpoll's [snapshot] on the tasks read. *)
Definition sq_count (pid : Z) (values : tasks) : nat :=
  length (List.filter (λ kv, str_eqb (t_name kv.2) (sq_name pid)) (map_to_list values)).

Definition snapshot (pid mode rings : Z) (values : tasks) : failing tasks :=
  if negb (mode =? 0) && negb (Z.of_nat (sq_count pid values) =? rings)
  then inl (u "CPU coverage invalid: found " ++ dec (Z.of_nat (sq_count pid values))
            ++ u " SQ workers, expected " ++ dec rings)
  else inr values.

Definition phase_cpu_snapshot (pid mode : Z) (values : tasks) : failing tasks :=
  match snapshot pid mode 1 values with
  | inl e => inl e
  | inr values =>
    let workers := List.filter (λ kv, startswith (t_name kv.2) (u "iou-sqp-")) (map_to_list values) in
    let expected := if mode =? 0 then O else 1%nat in
    if negb (length workers =? expected)%nat
       || existsb (λ kv, negb (str_eqb (t_name kv.2) (sq_name pid))) workers
    then inl (u "SQPOLL mode does not match observed worker custody")
    else inr values
  end.

Definition same_keys (a b : tasks) : bool := bool_decide (dom a = dom b :> gset Z).

(** [phase_verify_cpu_discovery] on the tasks found afterwards. *)
Definition phase_verify_cpu_discovery (pid mode : Z) (timed rediscovered : tasks) : failing unit :=
  match phase_cpu_snapshot pid mode rediscovered with
  | inl e => inl e
  | inr fresh =>
    if negb (same_keys fresh timed)
       || existsb (λ kv, match fresh !! kv.1 with
                         | Some f => negb (t_start f =? t_start kv.2)
                                     || negb (str_eqb (t_name f) (t_name kv.2))
                         | None => true
                         end) (map_to_list timed)
    then inl (u "fresh discovery changed CPU task custody")
    else inr tt
  end.

(** The comparison of the task tables before and after a phase. *)
Definition coverage_changed (before after : tasks) : bool :=
  negb (same_keys before after)
  || existsb (λ kv, match after !! kv.1 with
                    | Some a => negb (t_start kv.2 =? t_start a) || negb (str_eqb (t_name kv.2) (t_name a))
                                || (t_ticks a <? t_ticks kv.2)
                    | None => true
                    end) (map_to_list before).

Definition task_deltas (before after : tasks) : list (Z * pystr * Z) :=
  omap (λ kv, a ← after !! kv.1; Some (kv.1, t_name a, t_ticks a - t_ticks kv.2)) (map_to_list before).

(** The number of messages each sender authors in a phase. *)
Definition phase_count (pilot : bool) (phase : pystr) : Z :=
  if str_eqb phase (u "idle") then 0
  else if str_eqb phase (u "burst") then if pilot then 2 else 320
  else if pilot then 16 else 16384.

(** The sequence numbers of the burst phase, tick by tick. *)
Definition burst_sequence (pilot : bool) : list Z :=
  let '(ticks, width) := if pilot then (2, 1) else (40, 8) in
  tick ← range_ ticks; offset ← range_ width; [tick * width + offset].

(** ** bench_sqpoll: one measurement *)

Record Workload := mkWorkload { w_mode : Z; w_rings : Z; w_burst : bool; w_batch : Z }.
#[export] Instance Workload_eq_dec : EqDecision Workload.
Proof. solve_decision. Defined.

(** What the worker and the kernel report during a measurement: the two
    protocol records, the task tables around the run and the exit status. *)
Record Observed := mkObserved {
  o_ready : failing json;
  o_before : failing tasks;
  o_result : failing json;
  o_after : failing tasks;
  o_exit : failing Z;
  o_wall : Z;
  o_pid : Z }.

Record Measured := mkMeasured {
  m_completed : Z;
  m_ticks : Z;
  m_sq_ticks : Z;
  m_p50 : option Z;
  m_p99 : option Z;
  m_samples : nat;
  m_tasks : list (Z * pystr * Z) }.

Inductive Record_ := Ok_ (m : Measured) | Unsupported (reason : json) | Failed (reason : pystr).

Notation "x <-! m ;; k" := (match m with inl e => inl e | inr x => k end)
  (at level 100, m at next level, k at level 200, right associativity).

Definition need {A} (ok : bool) (reason : pystr) (k : failing A) : failing A :=
  if ok then k else inl reason.

Definition item (v : json) (k : pystr) : failing json :=
  match v with
  | JObj d => match jassoc k d with Some x => inr x | None => inl ([39] ++ k ++ [39]) end
  | _ => inl (u "TypeError")
  end.

Definition as_int (v : json) : failing Z := match v with JInt z => inr z | _ => inl (u "TypeError") end.

Fixpoint as_ints (l : list json) : failing (list Z) :=
  match l with
  | [] => inr []
  | v :: l => z <-! as_int v ;; zs <-! as_ints l ;; inr (z :: zs)
  end.

Definition as_list (v : json) : failing (list Z) :=
  match v with JList l => as_ints l | _ => inl (u "TypeError") end.

(** The identity or the counter of a task changed. *)
Definition task_changed (before after : tasks) : bool :=
  existsb (λ kv, match after !! kv.1 with
                 | Some a => negb (t_start kv.2 =? t_start a) || (t_ticks a <? t_ticks kv.2)
                 | None => true
                 end) (map_to_list before).

Definition sum_ticks (l : list (Z * pystr * Z)) : Z := foldr (λ d acc, d.2 + acc) 0 l.

(** The body of [measure]'s [try]: the reason of a failure (without the text of
    the worker's record), the reason of a worker without support, or the
    measurement.  The worker's counters are integers. *)
Definition measure_body (w : Workload) (duration_ms : Z) (o : Observed)
    : failing (json + Measured) :=
  ready <-! o_ready o ;;
  status <-! item ready (u "status") ;;
  if pyeq status (JStr (u "unsupported"))
  then _ <-! o_exit o ;; reason <-! item ready (u "reason") ;; inr (inl reason)
  else
    need (pyeq status (JStr (u "ready"))) (u "invalid READY identity/status")
    (pid <-! item ready (u "pid") ;;
     need (pyeq pid (JInt (o_pid o))) (u "invalid READY identity/status")
    (woken <-! (if w_mode w =? 0 then inr true
                else wake <-! item ready (u "wake_observed") ;; inr (pyeq wake (JInt (w_rings w)))) ;;
     need woken (u "SQ sleeping-worker wakeup test did not cover every ring")
    (table0 <-! o_before o ;; before <-! snapshot (o_pid o) (w_mode w) (w_rings w) table0 ;;
     result <-! o_result o ;;
     table1 <-! o_after o ;; after <-! snapshot (o_pid o) (w_mode w) (w_rings w) table1 ;;
     need (same_keys before after) (u "CPU task set changed during measurement")
    (need (negb (task_changed before after)) (u "CPU task identity/counter changed")
    (exit_ <-! o_exit o ;;
     need (exit_ =? 0) (u "worker failed")
    (outcome <-! item result (u "status") ;;
     need (pyeq outcome (JStr (u "ok"))) (u "worker failed")
    (el <-! item result (u "elapsed_ns") ;; elapsed <-! as_int el ;;
     lat <-! item result (u "latency_ns") ;; latencies <-! as_list lat ;;
     done_ <-! item result (u "completed") ;; completed <-! as_int done_ ;;
     need ((0 <? completed) && (completed mod w_batch w =? 0)) (u "invalid exact completion total")
    (let bursts := w_rings w * (duration_ms / 250) in
     need (negb (w_burst w) || ((completed =? w_rings w * w_batch w * (duration_ms / 250))
                                && (Z.of_nat (length latencies) =? bursts)))
       (u "burst completion/sample count differs from scheduled workload")
    (need (negb (o_wall o =? 0) && negb (elapsed =? 0)) (u "float division by zero")
    (_ <-! item ready (u "wake_observed") ;;
     let deltas := task_deltas before after in
     inr (inr (mkMeasured completed (sum_ticks deltas)
       (sum_ticks (List.filter (λ d, str_eqb d.1.2 (sq_name (o_pid o))) deltas))
       (percentile latencies 1 2) (percentile latencies 99 100) (length latencies) deltas)))))))))))).

Definition measure (w : Workload) (duration_ms : Z) (o : Observed) : Record_ :=
  match measure_body w duration_ms o with
  | inl reason => Failed reason
  | inr (inl reason) => Unsupported reason
  | inr (inr m) => Ok_ m
  end.

(** ** bench_sqpoll: the schedule *)

Record Plan := mkPlan {
  p_duration : Z; p_repetitions : Z; p_modes : list Z; p_rings : list Z;
  p_scenarios : list bool; p_batches : list Z }.

(** The checks on the command line. *)
Definition plan_ok (p : Plan) : bool :=
  (250 <=? p_duration p) && (p_duration p <=? 60000) && (p_duration p mod 250 =? 0)
  && (1 <=? p_repetitions p)
  && forallb (λ v, existsb (Z.eqb v) [0; 1000; 10]) (p_modes p)
  && forallb (λ v, existsb (Z.eqb v) [1; 4]) (p_rings p)
  && forallb (λ v, existsb (Z.eqb v) [32; 256]) (p_batches p).

Definition plan_cells (p : Plan) : list (Z * bool * Z) :=
  rings ← p_rings p; scenario ← p_scenarios p; batch ← p_batches p; [(rings, scenario, batch)].

Definition workload (mode : Z) (c : Z * bool * Z) : Workload := mkWorkload mode c.1.1 c.1.2 c.2.

Fixpoint indexed {A} (n : Z) (l : list A) : list (Z * A) :=
  match l with [] => [] | x :: l => (n, x) :: indexed (n + 1) l end.

(** The cells of one repetition: both orders alternate. *)
Definition repetition_order (p : Plan) (repetition : Z) : list (Z * Workload) :=
  let cells := if Z.even repetition then plan_cells p else rev (plan_cells p) in
  ic ← indexed 0 cells;
  let modes := if Z.even (repetition + ic.1) then p_modes p else rev (p_modes p) in
  mode ← modes; [(repetition, workload mode ic.2)].

Definition schedule (p : Plan) : list (Z * Workload) :=
  range_ (p_repetitions p) ≫= repetition_order p.

Definition is_ok (r : Record_) : bool := match r with Ok_ _ => true | _ => false end.
Definition is_failed (r : Record_) : bool := match r with Failed _ => true | _ => false end.

Inductive Status_ := StFailed | StIncomplete | StOk.

Definition report_status (records : list Record_) : Status_ :=
  if existsb is_failed records then StFailed
  else if existsb (λ r, negb (is_ok r)) records then StIncomplete else StOk.

(** [main] after the worker is built: [None] is a usage error.  The medians
    it adds to the report are left out. *)
Definition sqpoll_main (p : Plan) (observe : Z → Workload → Observed)
    : option (list (Z * Workload * Record_) * Status_ * Z) :=
  if negb (plan_ok p) then None
  else
    let records := (λ rw, (rw, measure rw.2 (p_duration p) (observe rw.1 rw.2))) <$> schedule p in
    let status := report_status records.*2 in
    Some (records, status, match status with StOk => 0 | _ => 1 end).
