(* ===== verification/BenchSpec.v ===== *)
(** * What the benchmark drivers guarantee

    The hand-measured section of the report survives every rewrite, the order
    of measurements covers the plan exactly, and a measurement that is accepted
    is accounted for. *)

From S2P Require Import Prelude PyStr PyFloat Json Delivery Bench.

(** ** The hand-measured section *)

Lemma startswith_before a x c n y :
  contains (a :: x) (c :: n) = false → c ∉ n → startswith ((a :: x) ++ (c :: n) ++ y) (c :: n) = false.
Proof.
  intros Hx Hc. apply not_true_is_false. intros (t & E)%startswith_iff.
  apply (not_true_iff_false _) in Hx. apply Hx. apply contains_iff.
  apply app_eq_inv in E as [(k & -> & _)|(k & E' & E)]; [by exists [], k|].
  destruct k as [|d k]; [exists [], []; by rewrite E', !app_nil_r|].
  injection E as <- _. exfalso. apply Hc.
  injection E' as _ ->. rewrite elem_of_app. right. left.
Qed.

(** A needle whose first character does not recur in it is found where it was
    appended. *)
Lemma find_appended x c n y :
  contains x (c :: n) = false → c ∉ n → find (x ++ (c :: n) ++ y) (c :: n) = Some (length x).
Proof.
  intros Hx Hc. induction x as [|a x IH]; [exact (find_here (c :: n) y)|].
  pose proof (startswith_before a x c n y Hx Hc) as Hs.
  assert (Ht : contains x (c :: n) = false).
  { apply not_true_is_false. intros (p & q & ->)%contains_iff.
    apply (not_true_iff_false _) in Hx. apply Hx, contains_iff. by exists (a :: p), q. }
  specialize (IH Ht). cbn [app find] in *. rewrite Hs. cbn [app] in IH. by rewrite IH.
Qed.

Lemma marker_tail : (10 : Z) ∉ u "## FreeBSD".
Proof. apply (bool_decide_unpack ((10 : Z) ∉ u "## FreeBSD")). by vm_compute. Qed.

Lemma find_drop old at_ : find old MARKER = Some at_ →
  ∃ y, drop at_ old = MARKER ++ y ∧ drop (at_ + 1) old = u "## FreeBSD" ++ y.
Proof.
  intros [E Hl]%find_Some. exists (drop (at_ + length MARKER) old).
  assert (Ed : drop at_ old = MARKER ++ drop (at_ + length MARKER) old).
  { rewrite E at 1. rewrite drop_app_length'; [exact eq_refl|]. rewrite length_take. lia. }
  split; [exact Ed|]. rewrite <-drop_drop, Ed. reflexivity.
Qed.

(** One rewrite. *)
Lemma keep_section old text at_ :
  find old MARKER = Some at_ → contains (rstrip text) MARKER = false →
  keep_freebsd_section (Some old) text = rstrip text ++ drop at_ old
  ∧ find (keep_freebsd_section (Some old) text) MARKER = Some (length (rstrip text)).
Proof.
  intros Hf Hn. destruct (find_drop old at_ Hf) as (y & Ed & Ed1).
  assert (Ek : keep_freebsd_section (Some old) text = rstrip text ++ drop at_ old).
  { cbn [keep_freebsd_section]. rewrite Hf, Ed, Ed1. unfold MARKER.
    rewrite <-(app_assoc [10]). exact eq_refl. }
  split; [exact Ek|]. rewrite Ek, Ed. apply (find_appended _ 10 (u "## FreeBSD")); [exact Hn|].
  apply marker_tail.
Qed.

(** The report file after a sequence of runs. *)
Definition reruns (old : pystr) (texts : list pystr) : pystr :=
  foldl (λ file text, keep_freebsd_section (Some file) text) old texts.

(** The FreeBSD section that was measured by hand and added to a report
    file is still there, byte for byte, after any number of later runs whose
    own text does not start such a section, and what precedes it is exactly
    the text of the last run without its trailing white space. *)
Theorem freebsd_section_kept old at_ texts last :
  find old MARKER = Some at_ →
  Forall (λ text, contains (rstrip text) MARKER = false) (texts ++ [last]) →
  reruns old (texts ++ [last]) = rstrip last ++ drop at_ old
  ∧ find (reruns old (texts ++ [last])) MARKER = Some (length (rstrip last)).
Proof.
  intros Hf [Ht Hl]%Forall_app. apply Forall_cons in Hl as [Hl _]. unfold reruns. rewrite foldl_snoc.
  enough (∃ at', find (foldl (λ file text, keep_freebsd_section (Some file) text) old texts) MARKER
                 = Some at'
          ∧ drop at' (foldl (λ file text, keep_freebsd_section (Some file) text) old texts)
            = drop at_ old) as (at' & Hf' & <-) by exact (keep_section _ _ _ Hf' Hl).
  revert old at_ Hf. induction Ht as [|t texts Hc Ht IH]; intros old at_ Hf; cbn [foldl].
  - exists at_. split; [exact Hf|exact eq_refl].
  - destruct (keep_section old t at_ Hf Hc) as [Ek Hk].
    destruct (IH _ _ Hk) as (at' & Hf' & Ed). exists at'. split; [exact Hf'|].
    rewrite Ed, Ek. by rewrite drop_app_length.
Qed.

Definition kept_old : pystr := u "old table" ++ MARKER ++ u " rows".

Lemma freebsd_section_kept_witness :
  find kept_old MARKER = Some 9%nat
  ∧ Forall (λ text, contains (rstrip text) MARKER = false) ([u "run 1"] ++ [u "run 2 "])
  ∧ reruns kept_old ([u "run 1"] ++ [u "run 2 "]) = rstrip (u "run 2 ") ++ drop 9 kept_old.
Proof.
  assert (H1 : find kept_old MARKER = Some 9%nat) by (vm_compute; reflexivity).
  assert (H2 : Forall (λ text, contains (rstrip text) MARKER = false) ([u "run 1"] ++ [u "run 2 "])).
  { constructor; [vm_compute; reflexivity|]. constructor; [vm_compute; reflexivity|constructor]. }
  split; [exact H1|]. split; [exact H2|].
  exact (proj1 (freebsd_section_kept kept_old 9 [u "run 1"] (u "run 2 ") H1 H2)).
Defined.

(** ** The schedule *)

Lemma even_of_nat n : Z.even (Z.of_nat n) = Nat.even n.
Proof.
  induction n as [|n IH]; [done|].
  by rewrite Nat2Z.inj_succ, Z.even_succ, Nat.even_succ, <-Z.negb_even, <-Nat.negb_even, IH.
Qed.

Section Schedule.
Context (p : Plan).

Definition cells_of (r : Z) : list (Z * bool * Z) :=
  if Z.even r then plan_cells p else rev (plan_cells p).

Definition modes_of (r i : Z) : list Z :=
  if Z.even (r + i) then p_modes p else rev (p_modes p).

(** The workloads of one repetition, one block of modes for every cell. *)
Definition block (r : Z) (ic : Z * (Z * bool * Z)) : list Workload :=
  (λ mode, workload mode ic.2) <$> modes_of r ic.1.

Definition blocks (r : Z) : list (list Workload) := block r <$> indexed 0 (cells_of r).

(** The workloads of a plan, in the order of the command line. *)
Definition plan_workloads : list Workload :=
  concat ((λ c, (λ mode, workload mode c) <$> p_modes p) <$> plan_cells p).

Lemma repetition_blocks r : repetition_order p r = (λ w, (r, w)) <$> concat (blocks r).
Proof.
  unfold repetition_order, blocks. fold (cells_of r). generalize (indexed 0 (cells_of r)) as l.
  induction l as [|ic l IH]; [done|].
  rewrite bind_cons, IH, fmap_cons, concat_cons, fmap_app. f_equal.
  unfold block. fold (modes_of r ic.1). generalize (modes_of r ic.1) as ms.
  induction ms as [|m ms IHm]; [done|]. by rewrite bind_cons, IHm.
Qed.

Lemma cells_of_perm r : cells_of r ≡ₚ plan_cells p.
Proof. unfold cells_of. destruct (Z.even r); [done|]. symmetry. apply Permutation_rev. Qed.

Lemma modes_of_perm r i : modes_of r i ≡ₚ p_modes p.
Proof. unfold modes_of. destruct (Z.even _); [done|]. symmetry. apply Permutation_rev. Qed.

Lemma blocks_indexed r n l :
  concat (block r <$> indexed n l) ≡ₚ concat ((λ c, (λ m, workload m c) <$> p_modes p) <$> l).
Proof.
  revert n. induction l as [|c l IH]; intros n; [done|].
  cbn [indexed]. rewrite !fmap_cons, !concat_cons, IH. apply Permutation_app_tail.
  unfold block. cbn [fst snd]. by rewrite modes_of_perm.
Qed.

Lemma blocks_perm r : concat (blocks r) ≡ₚ plan_workloads.
Proof.
  unfold blocks, plan_workloads. rewrite blocks_indexed. by rewrite cells_of_perm.
Qed.

Lemma schedule_perm :
  schedule p ≡ₚ (r ← range_ (p_repetitions p); (λ w, (r, w)) <$> plan_workloads).
Proof.
  unfold schedule. induction (range_ _) as [|r rs IH]; [done|].
  rewrite !bind_cons, IH. apply Permutation_app_tail.
  rewrite repetition_blocks. by rewrite blocks_perm.
Qed.

Lemma elem_of_schedule r w :
  (r, w) ∈ schedule p ↔ r ∈ range_ (p_repetitions p) ∧ w ∈ plan_workloads.
Proof.
  rewrite schedule_perm, list_elem_of_bind. setoid_rewrite list_elem_of_fmap. naive_solver.
Qed.

Lemma length_product {A B} (f : A → list B) k (l : list A) :
  (∀ x, length (f x) = k) → length (l ≫= f) = (length l * k)%nat.
Proof.
  intros Hf. induction l as [|x l IH]; [done|]. rewrite bind_cons, length_app, Hf, IH. simpl. lia.
Qed.

Lemma length_plan_cells :
  length (plan_cells p)
  = (length (p_rings p) * (length (p_scenarios p) * (length (p_batches p) * 1)))%nat.
Proof. unfold plan_cells. by repeat (apply length_product; intros). Qed.

Lemma length_plan_workloads :
  length plan_workloads = (length (plan_cells p) * length (p_modes p))%nat.
Proof.
  unfold plan_workloads. induction (plan_cells p) as [|c l IH]; [done|].
  rewrite fmap_cons, concat_cons, length_app, length_fmap, IH. simpl. lia.
Qed.

Lemma length_schedule :
  length (schedule p) = (Z.to_nat (p_repetitions p)
    * (length (p_rings p) * length (p_scenarios p) * length (p_batches p) * length (p_modes p)))%nat.
Proof.
  rewrite schedule_perm.
  rewrite (length_product _ (length plan_workloads)) by (intros; apply length_fmap).
  rewrite length_plan_workloads, length_plan_cells. unfold range_. rewrite length_fmap, length_seq. lia.
Qed.

(** *** The order of two consecutive repetitions *)

Lemma lookup_indexed {A} n (l : list A) i : indexed n l !! i = (λ x, (n + Z.of_nat i, x)) <$> l !! i.
Proof.
  revert n i. induction l as [|x l IH]; intros n [|i]; cbn [indexed]; try done.
  - simpl. by rewrite Z.add_0_r.
  - rewrite !lookup_cons, IH. destruct (l !! i); [|done]. simpl. do 2 f_equal. lia.
Qed.

Lemma length_indexed {A} n (l : list A) : length (indexed n l) = length l.
Proof. revert n. induction l as [|x l IH]; intros n; simpl; [done|]. by rewrite IH. Qed.

Lemma lookup_rev {A} (l : list A) i :
  (i < length l)%nat → rev l !! i = l !! (length l - S i)%nat.
Proof. intros Hi. rewrite rev_alt. by apply reverse_lookup. Qed.

Lemma length_cells_of r : length (cells_of r) = length (plan_cells p).
Proof. by rewrite cells_of_perm. Qed.

Lemma cells_of_succ r : cells_of (r + 1) = rev (cells_of r).
Proof.
  unfold cells_of. rewrite Z.add_1_r, Z.even_succ, <-Z.negb_even.
  destruct (Z.even r); simpl; [done|]. by rewrite rev_involutive.
Qed.

Lemma modes_of_turn r i n : 0 ≤ i < Z.of_nat n →
  modes_of (r + 1) i =
    if Nat.even n then modes_of r (Z.of_nat n - 1 - i) else rev (modes_of r (Z.of_nat n - 1 - i)).
Proof.
  intros Hi. unfold modes_of.
  replace (r + 1 + i) with (r + (Z.of_nat n - 1 - i) + (2 * (i + 1) - Z.of_nat n)) by lia.
  rewrite (Z.even_add (r + _)), Z.even_sub, Z.even_mul. cbn [Z.even orb].
  rewrite even_of_nat.
  destruct (Nat.even n), (Z.even (r + _)); simpl; try done. by rewrite rev_involutive.
Qed.

Lemma blocks_succ r :
  blocks (r + 1) =
    if Nat.even (length (plan_cells p)) then rev (blocks r) else rev (rev (A:=Workload) <$> blocks r).
Proof.
  apply list_eq. intros i. unfold blocks at 1.
  destruct (decide (i < length (plan_cells p))%nat) as [Hi|Hi].
  - rewrite list_lookup_fmap, lookup_indexed, cells_of_succ, lookup_rev by (by rewrite length_cells_of).
    rewrite length_cells_of. set (j := (length (plan_cells p) - S i)%nat).
    assert (Hj : blocks r !! j = block r <$> ((λ x, (Z.of_nat j, x)) <$> cells_of r !! j)).
    { unfold blocks. by rewrite list_lookup_fmap, lookup_indexed. }
    assert (Hb : ∀ c, block (r + 1) (0 + Z.of_nat i, c) =
      if Nat.even (length (plan_cells p)) then block r (Z.of_nat j, c) else rev (block r (Z.of_nat j, c))).
    { intros c. unfold block. cbn [fst snd].
      rewrite (modes_of_turn r _ (length (plan_cells p))) by lia.
      replace (Z.of_nat _ - 1 - (0 + Z.of_nat i)) with (Z.of_nat j) by lia.
      destruct (Nat.even _); [done|]. apply map_rev. }
    assert (Hl : length (blocks r) = length (plan_cells p)).
    { unfold blocks. by rewrite length_fmap, length_indexed, length_cells_of. }
    destruct (Nat.even _).
    + rewrite lookup_rev, Hl by lia. fold j. rewrite Hj.
      destruct (cells_of r !! j); [|done]. cbn [fmap option_fmap option_map]. by rewrite Hb.
    + rewrite lookup_rev, length_fmap, Hl by (rewrite length_fmap; lia). fold j.
      rewrite list_lookup_fmap, Hj.
      destruct (cells_of r !! j); [|done]. cbn [fmap option_fmap option_map]. by rewrite Hb.
  - rewrite !lookup_ge_None_2; [done| |].
    + unfold blocks. destruct (Nat.even _);
        rewrite length_rev, ?length_fmap, length_indexed, length_cells_of; lia.
    + rewrite length_fmap, length_indexed, length_cells_of. lia.
Qed.

Lemma rev_concat {A} (l : list (list A)) : rev (concat l) = concat (rev (rev (A:=A) <$> l)).
Proof.
  induction l as [|x l IH]; [done|]. rewrite fmap_cons. cbn [concat rev].
  rewrite rev_app_distr, concat_app, IH. cbn [concat]. by rewrite app_nil_r.
Qed.

Lemma snd_repetition r : (repetition_order p r).*2 = concat (blocks r).
Proof. rewrite repetition_blocks, <-list_fmap_compose. apply list_fmap_id. Qed.
End Schedule.

Lemma report_ok records : report_status records = StOk ↔ Forall (λ r, is_ok r = true) records.
Proof.
  unfold report_status. split.
  - destruct (existsb is_failed records); [done|].
    destruct (existsb _ records) eqn:E; [done|]. intros _. apply Forall_forall. intros r Hr.
    apply not_false_is_true. intros Hf. apply (not_true_iff_false _) in E. apply E.
    apply existsb_elem. exists r. by rewrite Hf.
  - intros H. assert (existsb is_failed records = false) as ->.
    { apply not_true_is_false. intros (r & Hr & Hf)%existsb_elem.
      eapply Forall_forall in H; [|exact Hr]. by destruct r. }
    assert (existsb (λ r, negb (is_ok r)) records = false) as ->; [|done].
    apply not_true_is_false. intros (r & Hr & Hf)%existsb_elem.
    eapply Forall_forall in H; [|exact Hr]. by destruct r.
Qed.

Lemma exit_code_ok status : match status with StOk => 0 | _ => 1 end = 0 ↔ status = StOk.
Proof. by destruct status. Qed.

(** A run of the SQPOLL driver measures every combination of repetition,
    workload and mode of the command line exactly once, whatever the order; it
    returns 0 exactly when every one of these measurements was accepted. *)
Theorem sqpoll_schedule_complete p observe records status code :
  sqpoll_main p observe = Some (records, status, code) →
  records.*1 ≡ₚ (r ← range_ (p_repetitions p); (λ w, (r, w)) <$> plan_workloads p)
  ∧ length records = (Z.to_nat (p_repetitions p)
      * (length (p_rings p) * length (p_scenarios p) * length (p_batches p) * length (p_modes p)))%nat
  ∧ (code = 0 ↔ ∀ r w, r ∈ range_ (p_repetitions p) → w ∈ plan_workloads p →
       ∃ m, ((r, w), Ok_ m) ∈ records ∧ measure w (p_duration p) (observe r w) = Ok_ m).
Proof.
  unfold sqpoll_main. destruct (plan_ok p); simpl negb; [|done]. cbv iota zeta.
  set (recs := _ <$> schedule p). intros [= <- <- <-].
  assert (E1 : recs.*1 = schedule p).
  { unfold recs. rewrite <-list_fmap_compose. apply list_fmap_id. }
  assert (Hin : ∀ r w, r ∈ range_ (p_repetitions p) → w ∈ plan_workloads p →
    ((r, w), measure w (p_duration p) (observe r w)) ∈ recs).
  { intros r w Hr Hw. unfold recs. apply list_elem_of_fmap. exists (r, w). split; [done|].
    apply elem_of_schedule. by split. }
  rewrite E1. split; [apply schedule_perm|]. split.
  { unfold recs. rewrite length_fmap. apply length_schedule. }
  rewrite exit_code_ok, report_ok, Forall_forall. split.
  - intros Hok r w Hr Hw. specialize (Hin r w Hr Hw).
    specialize (Hok _ (list_elem_of_fmap_2 snd _ _ Hin)). cbn [snd] in Hok.
    destruct (measure w (p_duration p) (observe r w)) as [m| |]; try done. by exists m.
  - intros H x ([[r w] x'] & -> & Hx)%list_elem_of_fmap.
    unfold recs in Hx. apply list_elem_of_fmap in Hx as ([r' w'] & [= -> -> ->] & Hs).
    apply elem_of_schedule in Hs as [Hr Hw]. destruct (H _ _ Hr Hw) as (m & _ & E). simpl.
    by rewrite E.
Qed.

(** A plan of one ring, one scenario and two modes, whose worker lacks the
    feature it is asked for. *)
Definition small_plan : Plan := mkPlan 250 2 [0; 10] [1] [true] [32].
Definition no_worker (_ : Z) (_ : Workload) : Observed :=
  mkObserved (inl []) (inl []) (inl []) (inl []) (inl []) 0 0.

Lemma sqpoll_schedule_complete_witness :
  ∃ records status code, sqpoll_main small_plan no_worker = Some (records, status, code)
  ∧ length records = 4%nat.
Proof.
  destruct (sqpoll_main small_plan no_worker) as [[[records status] code]|] eqn:E.
  - exists records, status, code. split; [exact eq_refl|].
    exact (proj1 (proj2 (sqpoll_schedule_complete small_plan no_worker records status code E))).
  - exfalso. vm_compute in E. discriminate E.
Defined.

(** Consecutive repetitions of the SQPOLL driver run in opposite orders
    only when the number of cells is odd.  When it is even, as in the default
    plan, the order of the cells is reversed but every cell measures its modes
    in the same order as before. *)
Theorem sqpoll_mode_order p r :
  (repetition_order p r).*2 = concat (blocks p r)
  ∧ (repetition_order p (r + 1)).*2 =
    if Nat.even (length (plan_cells p)) then concat (rev (blocks p r))
    else rev (repetition_order p r).*2.
Proof.
  rewrite !snd_repetition, blocks_succ. split; [done|].
  destruct (Nat.even _); [done|]. by rewrite rev_concat.
Qed.

(** ** An accepted measurement *)

Lemma need_inr {A} ok reason (k : failing A) x : need ok reason k = inr x ↔ ok = true ∧ k = inr x.
Proof. destruct ok; simpl; naive_solver. Qed.

Lemma then_inr {A B} (m : failing A) (k : A → failing B) x :
  (match m with inl e => inl e | inr v => k v end) = inr x ↔ ∃ v, m = inr v ∧ k v = inr x.
Proof. destruct m; naive_solver. Qed.

Lemma snapshot_inr pid mode rings values v :
  snapshot pid mode rings values = inr v →
  v = values ∧ (mode ≠ 0 → Z.of_nat (sq_count pid values) = rings).
Proof.
  unfold snapshot. destruct (mode =? 0) eqn:Em; simpl.
  - intros [= <-]. split; [done|]. apply Z.eqb_eq in Em. done.
  - destruct (Z.of_nat (sq_count pid values) =? rings) eqn:E; simpl; [|done].
    intros [= <-]. apply Z.eqb_eq in E. done.
Qed.

(** What an unchanged task is. *)
Definition advanced (a b : Task) : Prop := t_start a = t_start b ∧ t_ticks a ≤ t_ticks b.

Lemma task_unchanged before after tid a :
  task_changed before after = false → before !! tid = Some a →
  ∃ b, after !! tid = Some b ∧ advanced a b.
Proof.
  unfold task_changed. intros H Ha. apply (not_true_iff_false _) in H.
  destruct (after !! tid) as [b|] eqn:Eb.
  - exists b. split; [done|]. unfold advanced.
    destruct (Z.eqb_spec (t_start a) (t_start b)) as [E1|E1], (Z.ltb_spec (t_ticks b) (t_ticks a)) as [E2|E2];
      try (split; [done|lia]); exfalso; apply H, existsb_elem; exists (tid, a);
      (split; [by apply elem_of_map_to_list|]); cbn [fst snd]; rewrite Eb, orb_true_iff.
    1: right; by apply Z.ltb_lt.
    all: left; apply negb_true_iff; by apply Z.eqb_neq.
  - exfalso. apply H, existsb_elem. exists (tid, a). split; [by apply elem_of_map_to_list|].
    cbn [fst snd]. by rewrite Eb.
Qed.

Lemma deltas_elem before after d :
  d ∈ task_deltas before after ↔
  ∃ a b, before !! d.1.1 = Some a ∧ after !! d.1.1 = Some b ∧ d.1.2 = t_name b
         ∧ d.2 = t_ticks b - t_ticks a.
Proof.
  unfold task_deltas. rewrite list_elem_of_omap. split.
  - intros ([tid a] & Ha%elem_of_map_to_list & Hd). cbn [fst snd] in Hd.
    destruct (after !! tid) as [b|] eqn:Eb; [|done]. injection Hd as <-. simpl. eauto 8.
  - destruct d as [[tid name] n]. cbn [fst snd]. intros (a & b & Ha & Hb & -> & ->).
    exists (tid, a). split; [by apply elem_of_map_to_list|]. cbn [fst snd]. by rewrite Hb.
Qed.

Lemma length_omap_all {A B} (f : A → option B) (l : list A) :
  (∀ x, x ∈ l → is_Some (f x)) → length (omap f l) = length l.
Proof.
  induction l as [|x l IH]; intros H; [done|]. cbn [omap list_omap].
  destruct (H x) as [y ->]; [left|]. simpl. rewrite IH; [done|]. intros z Hz. apply H. by right.
Qed.

Lemma length_deltas before after :
  task_changed before after = false → length (task_deltas before after) = size before.
Proof.
  intros Hc. unfold task_deltas. rewrite length_omap_all; [apply length_map_to_list|].
  intros [tid a] Ha%elem_of_map_to_list.
  destruct (task_unchanged _ _ _ _ Hc Ha) as (b & Hb & _). cbn [fst snd]. rewrite Hb. by eexists.
Qed.

Lemma sum_ticks_filter f l :
  Forall (λ d, 0 ≤ d.2) l → 0 ≤ sum_ticks (List.filter f l) ≤ sum_ticks l.
Proof. induction 1 as [|d l Hd Hl IH]; simpl; [lia|]. destruct (f d); simpl; lia. Qed.

Ltac accept H :=
  repeat match type of H with
  | need _ _ _ = inr _ => let E := fresh "Hok" in apply need_inr in H as [E H]
  | (match ?m with inl _ => _ | inr _ => _ end) = inr _ =>
      let v := fresh "v" in let E := fresh "Hv" in apply then_inr in H as (v & E & H)
  end.

(** What the checks of [measure] establish. *)
Lemma measure_inv w d o m :
  measure w d o = Ok_ m →
  ∃ before after result latencies,
    o_before o = inr before ∧ o_after o = inr after
    ∧ (w_mode w ≠ 0 → Z.of_nat (sq_count (o_pid o) before) = w_rings w
                      ∧ Z.of_nat (sq_count (o_pid o) after) = w_rings w)
    ∧ dom before = dom after ∧ task_changed before after = false
    ∧ o_exit o = inr 0 ∧ o_result o = inr result
    ∧ item result (u "completed") = inr (JInt (m_completed m))
    ∧ 0 < m_completed m ∧ m_completed m mod w_batch w = 0
    ∧ (w_burst w = true → m_completed m = w_rings w * w_batch w * (d / 250)
                          ∧ Z.of_nat (m_samples m) = w_rings w * (d / 250))
    ∧ m = mkMeasured (m_completed m) (sum_ticks (task_deltas before after))
            (sum_ticks (List.filter (λ d, str_eqb d.1.2 (sq_name (o_pid o))) (task_deltas before after)))
            (percentile latencies 1 2) (percentile latencies 99 100) (length latencies)
            (task_deltas before after).
Proof.
  unfold measure. destruct (measure_body w d o) as [|[|m']] eqn:E; try done. intros [= ->].
  unfold measure_body in E. cbv zeta in E.
  apply then_inr in E as (ready & Hr & E). apply then_inr in E as (st & Hst & E).
  destruct (pyeq st (JStr (u "unsupported"))); [accept E; discriminate|].
  accept E. injection E as <-. cbn [m_completed m_samples].
  apply snapshot_inr in Hv2 as [-> Hs1]. apply snapshot_inr in Hv5 as [-> Hs2].
  apply bool_decide_eq_true in Hok2. apply negb_true_iff in Hok3.
  apply Z.eqb_eq in Hok4 as ->. apply andb_true_iff in Hok6 as [H6%Z.ltb_lt H7%Z.eqb_eq].
  destruct v12; try discriminate Hv13. injection Hv13 as ->.
  exists v1, v4, v3, v11.
  split; [exact Hv1|]. split; [exact Hv4|]. split; [intros Hm; split; auto|].
  split; [exact Hok2|]. split; [exact Hok3|]. split; [exact Hv6|]. split; [exact Hv3|].
  split; [exact Hv12|]. split; [exact H6|]. split; [exact H7|]. split; [|reflexivity].
  intros Hb. rewrite Hb in Hok7. apply andb_true_iff in Hok7 as [H8%Z.eqb_eq H9%Z.eqb_eq].
  split; [exact H8|exact H9].
Qed.

(** A measurement the SQPOLL driver accepts is fully accounted for.  The
    same tasks existed before and after, none was replaced or had its counter
    reset, and the reported processor time is the sum of one non-negative
    difference per task, of which the polling workers hold a part; with
    polling on there were exactly as many workers as rings both times.  The
    worker exited cleanly with a positive total of operations in whole
    batches, and in the burst scenario the total and the number of latency
    samples are those of the schedule. *)
Theorem measure_sound w d o m :
  measure w d o = Ok_ m →
  ∃ before after,
    o_before o = inr before ∧ o_after o = inr after
    ∧ (∀ tid a, before !! tid = Some a → ∃ b, after !! tid = Some b ∧ advanced a b)
    ∧ dom before = dom after
    ∧ (∀ x, x ∈ m_tasks m ↔ ∃ a b, before !! x.1.1 = Some a ∧ after !! x.1.1 = Some b
                              ∧ x.1.2 = t_name b ∧ x.2 = t_ticks b - t_ticks a)
    ∧ length (m_tasks m) = size before
    ∧ m_ticks m = sum_ticks (m_tasks m) ∧ 0 ≤ m_sq_ticks m ≤ m_ticks m
    ∧ (w_mode w ≠ 0 → Z.of_nat (sq_count (o_pid o) before) = w_rings w
                      ∧ Z.of_nat (sq_count (o_pid o) after) = w_rings w)
    ∧ o_exit o = inr 0
    ∧ 0 < m_completed m ∧ m_completed m mod w_batch w = 0
    ∧ (w_burst w = true → m_completed m = w_rings w * w_batch w * (d / 250)
                          ∧ Z.of_nat (m_samples m) = w_rings w * (d / 250)).
Proof.
  intros (before & after & result & lat & Hb & Ha & Hsq & Hd & Hc & He & Hr & Hi & Hp & Hm & Hbu & E)
    %measure_inv.
  assert (Et : m_tasks m = task_deltas before after) by (by rewrite E).
  assert (Hn : Forall (λ d, 0 ≤ d.2) (task_deltas before after)).
  { apply Forall_forall. intros x (a & b & H1 & H2 & _ & ->)%deltas_elem.
    destruct (task_unchanged _ _ _ _ Hc H1) as (b' & H3 & _ & Hle).
    rewrite H2 in H3. injection H3 as ->. lia. }
  exists before, after. split; [exact Hb|]. split; [exact Ha|].
  split; [intros tid a; by apply task_unchanged|]. split; [exact Hd|].
  split; [intros x; rewrite Et; apply deltas_elem|].
  split; [rewrite Et; by apply length_deltas|].
  split; [rewrite Et, E; reflexivity|].
  split; [rewrite E; cbn [m_sq_ticks m_ticks]; by apply sum_ticks_filter|]. auto 6.
Qed.

(** A burst measurement with one polling ring. *)
Definition burst_cell : Workload := mkWorkload 10 1 true 32.
Definition seen_before : tasks := {[ 7 := mkTask (u "bench") 4 9; 8 := mkTask (sq_name 7) 1 9 ]}.
Definition seen_after : tasks := {[ 7 := mkTask (u "bench") 6 9; 8 := mkTask (sq_name 7) 3 9 ]}.
Definition seen : Observed :=
  mkObserved
    (inr (JObj [(u "status", JStr (u "ready")); (u "pid", JInt 7); (u "wake_observed", JInt 1)]))
    (inr seen_before)
    (inr (JObj [(u "status", JStr (u "ok")); (u "elapsed_ns", JInt 250000000);
                (u "latency_ns", JList [JInt 900]); (u "completed", JInt 32)]))
    (inr seen_after) (inr 0) 250000000 7.

Lemma measure_sound_witness :
  ∃ m, measure burst_cell 250 seen = Ok_ m ∧ 0 ≤ m_sq_ticks m ≤ m_ticks m.
Proof.
  destruct (measure burst_cell 250 seen) as [m| |] eqn:E.
  - exists m. split; [exact eq_refl|].
    destruct (measure_sound burst_cell 250 seen m E) as (b & a & _ & _ & _ & _ & _ & _ & _ & H & _).
    exact H.
  - exfalso. vm_compute in E. discriminate E.
  - exfalso. vm_compute in E. discriminate E.
Defined.
