(* ===== verification/Phases.v ===== *)
(** * tools/bench_live.py: the driver of the retained phases

    The coroutines of one measured phase as turns on a shared state: the
    windowed senders, the burst and the idle phase, the task that drains the
    phase, and the readers of the persistent clients, which meet at the
    ledger's event.  A turn runs a coroutine from one suspension point to the
    next; which task takes the next turn is left to the event loop.  Then the
    barriers, the metrics poll, the record of a phase, the diagnostic of a
    failure and the matrix of repetitions and modes.  Clock readings, the lines
    of the daemon and what a cell measured are arguments. *)

From S2P Require Import Prelude PyStr PyBytes PyFloat Json Delivery Bench.

(** ** Waiting *)

(** A turn of [phase_wait] in [task]: whether the condition held, and the
    event.  Otherwise the task is back at the loop's test, queued in the event
    unless the wait returned at once. *)
Definition phase_wait (task : Z) (condition : bool) (e : Event) : bool * Event :=
  if condition then (true, e)
  else
    let e := event_clear e in
    if condition then (true, e) else (false, (event_wait task e).2).

(** [phase_checked] once its wait is over: what the reader that failed first
    reported, and the result of the task, if it is done. *)
Definition phase_checked {A} (failure : option pystr) (task : option (failing A)) : failing A :=
  match failure, task with
  | Some e, _ => inl e
  | None, None => inl (u "phase deadline expired")
  | None, Some r => r
  end.

(** ** The state of a phase *)

(** Where [work] is: the burst still to be sent, the senders gathered, the
    drain of [finish], past the drain. *)
Inductive Work := Bursting (todo : list (Z * Z)) | Sending | Draining | Drained.

Record Driver := mkDriver {
  d_ledger : DeliveryLedger;
  d_clients : gmap Z PhaseClient;
  d_sequence : gmap Z Z;          (* the next sequence number of each sender *)
  d_work : Work;
  d_failure : option pystr;       (* the first exception of a reader *)
  d_stopped : list Z }.           (* readers that ended with an exception *)

Definition WINDOW : Z := 64.

(** The task of [work]; the senders are the tasks [0 .. clients - 1]. *)
Definition MAIN (d : Driver) : Z := clients (d_ledger d).

Definition sequence_of (d : Driver) (sender : Z) : Z := from_opt 0 (d_sequence d !! sender).

Definition ready (d : Driver) (task : Z) : bool :=
  negb (existsb (Z.eqb task) (waiters (changed (d_ledger d)))).

Definition set_changed (e : Event) (l : DeliveryLedger) : DeliveryLedger :=
  mkLedger (run_id l) (clients l) (counts l) (next l) (sent l) (received l) (latencies l) e.

Definition set_ledger (l : DeliveryLedger) (d : Driver) : Driver :=
  mkDriver l (d_clients d) (d_sequence d) (d_work d) (d_failure d) (d_stopped d).

Definition set_work (w : Work) (d : Driver) : Driver :=
  mkDriver (d_ledger d) (d_clients d) (d_sequence d) w (d_failure d) (d_stopped d).

Definition privmsg_line (run phase : pystr) (sender sequence : Z) : pybytes :=
  bs "PRIVMSG " ++ utf8_encode CHANNEL ++ bs " :" ++ phase_payload run phase sender sequence.

(** [ledger.authored(...)] and [clients[sender].send(...)]. *)
Definition author_send (now : Z) (phase : pystr) (sender sequence : Z) (d : Driver) : failing Driver :=
  match authored now (d_ledger d) phase sender sequence with
  | inl e => inl e
  | inr l =>
    match d_clients d !! sender with
    | None => inl (u "IndexError")
    | Some c =>
      match send c (privmsg_line (run_id l) phase sender sequence) with
      | inl e => inl e
      | inr c => inr (mkDriver l (<[sender := c]> (d_clients d))
                        (<[sender := sequence + 1]> (d_sequence d)) (d_work d) (d_failure d) (d_stopped d))
      end
    end
  end.

(** A turn of [send_messages(phase, sender, count)] at its next sequence number. *)
Definition sender_turn (now : Z) (phase : pystr) (count sender : Z) (d : Driver) : failing Driver :=
  let sequence := sequence_of d sender in
  if count <=? sequence then inr d
  else
    let l := d_ledger d in
    let '(passed, e) := phase_wait sender (credit l phase sender sequence WINDOW) (changed l) in
    let d := set_ledger (set_changed e l) d in
    if passed then author_send now phase sender sequence d else inr d.

(** The burst: ticks, then senders, then offsets. *)
Definition burst_script (pilot : bool) (senders : Z) : list (Z * Z) :=
  let '(ticks, width) := if pilot then (2, 1) else (40, 8) in
  tick ← range_ ticks; sender ← range_ senders; offset ← range_ width; [(sender, tick * width + offset)].

(** Where [work] starts in a phase. *)
Definition work_start (pilot : bool) (phase : pystr) (senders : Z) : Work :=
  if str_eqb phase (u "idle") then Bursting []
  else if str_eqb phase (u "burst") then Bursting (burst_script pilot senders)
  else Sending.

(** The gathered senders are done. *)
Definition gathered (count : Z) (d : Driver) : bool :=
  forallb (λ sender, count <=? sequence_of d sender) (range_ (clients (d_ledger d))).

(** A turn of [phase_wait(ledger, lambda: ledger.complete(phase))]. *)
Definition drain_turn (phase : pystr) (d : Driver) : Driver :=
  let l := d_ledger d in
  let '(passed, e) := phase_wait (MAIN d) (complete l phase) (changed l) in
  set_work (if passed then Drained else Draining) (set_ledger (set_changed e l) d).

(** A turn of [work]. *)
Definition work_turn (now : Z) (phase : pystr) (count : Z) (d : Driver) : failing Driver :=
  match d_work d with
  | Bursting ((sender, sequence) :: todo) =>
    match author_send now phase sender sequence d with
    | inl e => inl e
    | inr d => inr (set_work (Bursting todo) d)
    end
  | Bursting [] => inr (drain_turn phase d)
  | Sending => if gathered count d then inr (drain_turn phase d) else inr d
  | Draining => inr (drain_turn phase d)
  | Drained => inr d
  end.

(** The reader of client [r] handles one line: an exception stops it, and the
    first one is the failure of the run. *)
Definition reader_turn (now r : Z) (line : pybytes) (d : Driver) : Driver :=
  match d_clients d !! r with
  | None => d
  | Some c =>
    match read_line now c (d_ledger d) line with
    | inl e => mkDriver (d_ledger d) (d_clients d) (d_sequence d) (d_work d)
                 (match d_failure d with Some f => Some f | None => Some e end) (r :: d_stopped d)
    | inr (c, l) => mkDriver l (<[r := c]> (d_clients d)) (d_sequence d) (d_work d)
                      (d_failure d) (d_stopped d)
    end
  end.

(** [work] of a newly registered phase. *)
Definition start_phase (pilot : bool) (phase : pystr) (l : DeliveryLedger) (cs : gmap Z PhaseClient)
    (count : Z) : failing Driver :=
  match add_phase l phase count with
  | inl e => inl e
  | inr l => inr (mkDriver l cs ((λ _, 0) <$> cs) (work_start pilot phase (clients l)) None [])
  end.

(** ** Barriers *)

Definition barrier_marker (run phase : pystr) (index : Z) : pybytes :=
  utf8_encode (run ++ u "-" ++ phase ++ u "-" ++ dec index).

(** [barriers(phase)]: every client starts its barrier, up to its wait. *)
Fixpoint barriers (run phase : pystr) (cs : list PhaseClient) : failing (list PhaseClient) :=
  match cs with
  | [] => inr []
  | c :: cs =>
    c <-! barrier c (barrier_marker run phase (c_index c)) ;;
    cs <-! barriers run phase cs ;; inr (c :: cs)
  end.

(** The gathered barriers are over: every future is resolved. *)
Definition barriers_done (run phase : pystr) (cs : list PhaseClient) : bool :=
  forallb (λ c, negb (is_someb (pending_pongs c !! barrier_marker run phase (c_index c)))) cs.

(** ** Metrics *)

Definition METRICS : list pystr :=
  [u "onyx_messages_in_total"; u "onyx_bytes_in_total"; u "onyx_bytes_out_total";
   u "onyx_connections_active"; u "onyx_errors_total"].

(** The dictionary of one response: [None] when a value is no integer. *)
Fixpoint metric_values (acc : gmap pystr Z) (lines : list pystr) : option (gmap pystr Z) :=
  match lines with
  | [] => Some acc
  | line :: lines =>
    match split_ws line with
    | [name; value] =>
      if negb (startswith line (u "#")) && mem name METRICS
      then v ← int value; metric_values (<[name := v]> acc) lines
      else metric_values acc lines
    | _ => metric_values acc lines
    end
  end.

Definition metrics_fresh (target : Z) (values : gmap pystr Z) : bool :=
  (target <=? from_opt (-1) (values !! u "onyx_messages_in_total"))
  && match values !! u "onyx_connections_active" with Some z => z =? 4 | None => false end.

(** [phase_metrics] on its polls: whether the deadline was still ahead, and the
    text of the response. *)
Fixpoint phase_metrics (target : Z) (polls : list (bool * pystr)) : failing (gmap pystr Z) :=
  match polls with
  | (true, text) :: polls =>
    match metric_values ∅ (splitlines text) with
    | None => inl (u "ValueError")
    | Some values => if metrics_fresh target values then inr values else phase_metrics target polls
    end
  | _ => inl (u "metrics did not reach a fresh four-client snapshot")
  end.

(** ** The record of a phase *)

Record PhaseResult := mkPhaseResult {
  pr_phase : pystr; pr_authored : Z; pr_delivered : Z; pr_expected : Z;
  pr_elapsed : Z; pr_cpu_ticks : Z; pr_sq_ticks : Z; pr_driver_cpu : Z;
  pr_latency : option Z * option Z * option Z;
  pr_tasks : list (Z * pystr * Z); pr_lines_delta : Z; pr_bytes_delta : Z }.

(** What is observed of the daemon around a phase: the tables of its tasks
    before, after and when rediscovered, the two durations, and the metrics. *)
Record Window := mkWindow {
  wi_before : tasks; wi_after : tasks; wi_again : tasks; wi_elapsed : Z; wi_driver : Z;
  wi_metrics : gmap pystr Z; wi_current : gmap pystr Z }.

Definition metric_delta (w : Window) (name : pystr) : failing Z :=
  match wi_current w !! name, wi_metrics w !! name with
  | Some a, Some b => inr (a - b)
  | _, _ => inl (u "KeyError")
  end.

(** The end of a phase whose work is done; the CPU seconds, the rates and the
    cost of a delivery are quotients of these numbers and left out. *)
Definition phase_result (pid mode count : Z) (phase : pystr) (l : DeliveryLedger) (w : Window)
    : failing PhaseResult :=
  before <-! phase_cpu_snapshot pid mode (wi_before w) ;;
  after <-! phase_cpu_snapshot pid mode (wi_after w) ;;
  need (negb (coverage_changed before after)) (u "daemon CPU task coverage changed")
  match phase_verify_cpu_discovery pid mode after (wi_again w) with
  | inl e => inl e
  | inr _ =>
    let deltas := task_deltas before after in
    lines_delta <-! metric_delta w (u "onyx_messages_in_total") ;;
    bytes_delta <-! metric_delta w (u "onyx_bytes_out_total") ;;
    inr (mkPhaseResult phase (4 * count) (from_opt 0 (received l !! phase)) (12 * count)
           (wi_elapsed w) (sum_ticks deltas)
           (sum_ticks (List.filter (λ t, str_eqb t.1.2 (sq_name pid)) deltas)) (wi_driver w)
           (phase_latency_percentiles (from_opt [] (latencies l !! phase)))
           deltas lines_delta bytes_delta)
  end.

(** The checks after the last barriers. *)
Definition final_check (failed exited : bool) (cs : list PhaseClient) : failing unit :=
  if failed || exited then inl (u "late delivery/connection failure")
  else if existsb (λ c, nonempty (framer c) || negb (size (pending_pongs c) =? 0)%nat) cs
  then inl (u "incomplete line or unresolved barrier at final drain")
  else inr tt.

(** ** The diagnostic of a failure *)

Record Progress := mkProgress {
  pg_phase : pystr; pg_checkpoint : pystr; pg_client : Z; pg_completed : list pystr }.

Record Diagnostic := mkDiagnostic {
  dg_progress : Progress; dg_clients : Z; dg_welcomed : Z; dg_joined : Z;
  dg_authored : Z; dg_expected_authored : option Z;
  dg_received : option Z; dg_expected_received : option Z;
  dg_streams : Z; dg_min : option Z; dg_max : option Z;
  dg_barriers : Z; dg_done : Z; dg_signaled : bool }.

Definition count_of {A} (f : A → bool) (l : list A) : Z := Z.of_nat (length (List.filter f l)).

(** The positions of the streams of a phase. *)
Definition stream_positions (l : DeliveryLedger) (active : pystr) : list Z :=
  snd <$> List.filter (λ kv, str_eqb kv.1.1.1 active) (map_to_list (next l)).

(** [min] and [max] of a list, [None] when it is empty. *)
Definition extreme (f : Z → Z → Z) (l : list Z) : option Z :=
  match l with [] => None | x :: l => Some (foldl f x l) end.

Definition failure_diagnostic (p : Progress) (l : DeliveryLedger) (cs : list PhaseClient)
    (readers_done : Z) (failed : bool) : Diagnostic :=
  let active := pg_phase p in
  let total := counts l !! active in
  let positions := stream_positions l active in
  mkDiagnostic p (Z.of_nat (length cs)) (count_of welcome cs) (count_of joined cs)
    (count_of (λ kv, str_eqb kv.1.1.1 active) (map_to_list (sent l)))
    ((λ t, t * clients l) <$> total)
    (received l !! active)
    ((λ t, t * clients l * (clients l - 1)) <$> total)
    (Z.of_nat (length positions)) (extreme Z.min positions) (extreme Z.max positions)
    (foldr (λ c n, Z.of_nat (size (pending_pongs c)) + n) 0 cs) readers_done failed.

(** ** The matrix *)

(** A record of the report: repetition, mode and the phases or the reason. *)
Record CellRecord := mkCellRecord {
  cr_repetition : Z; cr_mode : Z; cr_outcome : failing (list PhaseResult) }.

Definition cell_ok (r : CellRecord) : bool := match cr_outcome r with inl _ => false | inr _ => true end.

Record MatrixArgs := mkMatrixArgs {
  ma_expected : option pystr; ma_json : bool; ma_repetitions : Z; ma_modes : list Z }.

Fixpoint distinct (l : list Z) : bool :=
  match l with [] => true | x :: l => negb (existsb (Z.eqb x) l) && distinct l end.

Definition matrix_args_ok (a : MatrixArgs) : bool :=
  ma_json a && (1 <=? ma_repetitions a) && nonempty (ma_modes a) && distinct (ma_modes a)
  && forallb (λ m, existsb (Z.eqb m) [0; 10; 1000]) (ma_modes a).

(** One cell: [checked] is the verdict of --check-config on the generated
    configuration, [listening] whether the daemon's listener came up. *)
Definition run_phase_cell (base : pystr) (metrics_port mode : Z) (checked : pystr → bool)
    (listening : bool) (measured : failing (list PhaseResult)) : failing (failing (list PhaseResult)) :=
  conf <-! phase_config base mode metrics_port ;;
  need (checked conf) (u "private phase configuration rejected")
    (inr (need listening (u "private listener failed startup") measured)).

Section Matrix.
(** What running the cell of a repetition and mode gives: a failure before the
    daemon starts ends the run; afterwards it is a record. *)
Context (cell : Z → Z → failing (failing (list PhaseResult))).

(** The modes of one repetition, until one fails. *)
Fixpoint run_modes (repetition : Z) (modes : list Z) (records : list CellRecord)
    : failing (list CellRecord) :=
  match modes with
  | [] => inr records
  | mode :: modes =>
    outcome <-! cell repetition mode ;;
    let record := mkCellRecord repetition mode outcome in
    let records := records ++ [record] in
    if cell_ok record then run_modes repetition modes records else inr records
  end.

Definition order_of (modes : list Z) (repetition : Z) : list Z :=
  if repetition mod 2 =? 0 then modes else rev modes.

Fixpoint run_repetitions (modes : list Z) (repetitions : list Z) (records : list CellRecord)
    : failing (list CellRecord) :=
  match repetitions with
  | [] => inr records
  | repetition :: repetitions =>
    records <-! run_modes repetition (order_of modes repetition) records ;;
    if existsb (λ r, negb (cell_ok r)) records then inr records
    else run_repetitions modes repetitions records
  end.

(** [run_phase_matrix] on the digest of the captured binary and whether it and
    the private credentials are unchanged at the end: the records of the
    report and the exit status. *)
Definition run_phase_matrix (a : MatrixArgs) (artifact : pystr) (unchanged : bool)
    : failing (list CellRecord * Z) :=
  need (match ma_expected a with Some e => nonempty e && str_eqb artifact e | None => false end)
    (u "explicit captured artifact SHA-256 mismatch")
  (need (matrix_args_ok a) (u "phase JSON, positive repetitions and valid modes required")
  (records <-! run_repetitions (ma_modes a) (range_ (ma_repetitions a)) [] ;;
   need unchanged (u "captured artifact or private credentials changed")
   (inr (records,
     if (Z.of_nat (length records) =? ma_repetitions a * Z.of_nat (length (ma_modes a)))
        && forallb cell_ok records then 0 else 1)))).
End Matrix.
