(* ===== verification/PhasesSpec.v ===== *)
(** * tools/bench_live.py: properties of the phase driver

    Whatever the daemon sends and however the event loop schedules the tasks,
    no wake-up is lost and no sender runs more than its window ahead of a
    recipient; with a daemon that relays, every schedule drains the phase. *)

From S2P Require Import Prelude PyStr PyBytes PyFloat Json Delivery DeliverySpec Bench Phases.

(** ** Schedules *)

(** Whether [work] can take a turn. *)
Definition work_enabled (count : Z) (d : Driver) : bool :=
  match d_work d with
  | Bursting _ => true
  | Sending => gathered count d
  | Draining => ready d (MAIN d)
  | Drained => false
  end.

Definition sender_enabled (count s : Z) (d : Driver) : Prop :=
  d_work d = Sending ∧ 0 ≤ s < clients (d_ledger d) ∧ ready d s = true ∧ sequence_of d s < count.

(** One turn of a task; readers may receive any line. *)
Inductive turn (phase : pystr) (count : Z) : Driver → Driver → Prop :=
| TurnSender now s d d' :
    sender_enabled count s d → sender_turn now phase count s d = inr d' → turn phase count d d'
| TurnWork now d d' :
    work_enabled count d = true → work_turn now phase count d = inr d' → turn phase count d d'
| TurnReader now r line d :
    0 ≤ r < clients (d_ledger d) → r ∉ d_stopped d → turn phase count d (reader_turn now r line d).

(** ** The invariant *)

Section Invariant.
Context (phase : pystr) (count n : Z) (windowed : bool).

Definition blocked (d : Driver) (t : Z) : Prop :=
  (0 ≤ t < n ∧ d_work d = Sending ∧ sequence_of d t < count
   ∧ credit (d_ledger d) phase t (sequence_of d t) WINDOW = false)
  ∨ (t = n ∧ d_work d = Draining ∧ complete (d_ledger d) phase = false).

Definition work_inv (d : Driver) : Prop :=
  match d_work d with
  | Bursting todo =>
    windowed = false ∧ (∀ x, x ∈ todo → 0 ≤ x.1 < n)
    ∧ ∀ s, 0 ≤ s < n → (List.filter (λ x, x.1 =? s) todo).*2 = seqZ (sequence_of d s) (count - sequence_of d s)
  | Sending => True
  | Draining => ∀ s, 0 ≤ s < n → sequence_of d s = count
  | Drained => complete (d_ledger d) phase = true
  end.

(** What the ledger and the event have, apart from who is where. *)
Record driver_inv (d : Driver) : Prop := mkInv {
  di_n : clients (d_ledger d) = n;
  di_ledger : ledger_inv (d_ledger d);
  di_count : counts (d_ledger d) !! phase = Some count;
  di_index : ∀ r c, d_clients d !! r = Some c → c_index c = r;
  di_sequence : ∀ s, 0 ≤ s < n → 0 ≤ sequence_of d s ≤ count;
  di_sent : ∀ s i, 0 ≤ s < n →
    is_Some (sent (d_ledger d) !! (phase, s, i)) ↔ 0 ≤ i < sequence_of d s;
  di_event : is_set (changed (d_ledger d)) = true → waiters (changed (d_ledger d)) = [];
  di_nodup : NoDup (waiters (changed (d_ledger d)));
  di_blocked : ∀ t, t ∈ waiters (changed (d_ledger d)) → blocked d t;
  di_window : windowed = true → ∀ p, p ∈ pairs n →
    sequence_of d p.1 - position (d_ledger d) phase p ≤ WINDOW;
  di_work : work_inv d }.

(** ** Effects of the turns *)

Lemma send_effect c line c' : send c line = inr c' →
  c_index c' = c_index c ∧ written c' = written c ++ [line ++ CRLF].
Proof. unfold send. destruct (_ || _); [done|]. by intros [= <-]. Qed.

Lemma author_send_effect now s q d d' : author_send now phase s q d = inr d' →
  sent (d_ledger d) !! (phase, s, q) = None
  ∧ ∃ c c', d_clients d !! s = Some c ∧ c_index c' = c_index c
    ∧ written c' = written c ++ [privmsg_line (run_id (d_ledger d)) phase s q ++ CRLF]
    ∧ let l := d_ledger d in
      d' = mkDriver (mkLedger (run_id l) (clients l) (counts l) (next l)
                       (<[(phase, s, q) := now]> (sent l)) (received l) (latencies l) (changed l))
             (<[s := c']> (d_clients d)) (<[s := q + 1]> (d_sequence d)) (d_work d)
             (d_failure d) (d_stopped d).
Proof.
  unfold author_send, authored. destruct (sent (d_ledger d) !! _) eqn:Es; [done|].
  destruct (d_clients d !! s) as [c|] eqn:Ec; [|done].
  destruct (send c _) as [e|c'] eqn:E; [done|]. intros [= <-].
  apply send_effect in E as [Hi Hw]. split; [done|]. by exists c, c'.
Qed.

Lemma read_line_effect now c l line c' l' : read_line now c l line = inr (c', l') →
  c_index c' = c_index c ∧ (l' = l ∨ delivered now l (c_index c) l').
Proof.
  unfold read_line. cbv zeta. destruct (str_eqb _ (bs "PING")).
  - destruct (split_max 1 _ _) as [|? [|token [|? ?]]]; try done.
    destruct (send c _) as [e|c''] eqn:E; [done|]. intros [= <- <-].
    apply send_effect in E as [-> _]. by split; [|left].
  - destruct (_ || _); [done|]. destruct (str_eqb _ (bs "001")); [intros [= <- <-]; by split; [|left]|].
    destruct (_ && _); [intros [= <- <-]; by split; [|left]|].
    destruct (str_eqb _ (bs "PONG")).
    + destruct (pending_pongs c !! _) as [[]|]; try done. intros [= <- <-]. by split; [|left].
    + destruct (receive _ _ _ _) as [e|[b l'']] eqn:E; [done|]. intros [= <- <-].
      split; [done|]. by eapply receive_effect.
Qed.

(** ** Preservation *)

Lemma sequence_of_insert d l cs q s w f st t :
  sequence_of (mkDriver l cs (<[s := q]> (d_sequence d)) w f st) t
  = if decide (t = s) then q else sequence_of d t.
Proof.
  unfold sequence_of. simpl. destruct (decide (t = s)) as [->|Hne];
    [by rewrite lookup_insert_eq|by rewrite lookup_insert_ne].
Qed.

(** Only the event and the place of [work] change. *)
Lemma inv_event d e w :
  driver_inv d → (is_set e = true → waiters e = []) → NoDup (waiters e) →
  let d' := set_work w (set_ledger (set_changed e (d_ledger d)) d) in
  (∀ t, t ∈ waiters e → blocked d' t) → work_inv d' → driver_inv d'.
Proof.
  intros [H1 H2 H3 H4 H5 H6 H7 H8 H9 H10 H11] He Hd d' Hb Hw. constructor; try done.
Qed.

Lemma no_waiters d : driver_inv d → (∀ t, ¬ blocked d t) → waiters (changed (d_ledger d)) = [].
Proof.
  intros Hi Hb. destruct (waiters _) as [|t ts] eqn:E; [done|].
  exfalso. apply (Hb t), Hi. rewrite E. left.
Qed.

(** Authoring and sending the next message of [s]. *)
Lemma inv_author now s d d' w :
  driver_inv d → 0 ≤ s < n → sequence_of d s < count → s ∉ waiters (changed (d_ledger d)) →
  (windowed = true → credit (d_ledger d) phase s (sequence_of d s) WINDOW = true) →
  author_send now phase s (sequence_of d s) d = inr d' →
  (w = d_work d ∨ waiters (changed (d_ledger d)) = []) →
  work_inv (set_work w d') → driver_inv (set_work w d').
Proof.
  intros [H1 H2 H3 H4 H5 H6 H7 H8 H9 H10 H11] Hs Hq Hnw Hcr
    (Hnone & c & c' & Hc & Hix & _ & ->)%author_send_effect Hw Hwork.
  assert (Hseq := λ t, sequence_of_insert d (d_ledger d) (d_clients d) (sequence_of d s + 1) s w
                         (d_failure d) (d_stopped d) t).
  unfold set_work in *. simpl in *. constructor; simpl; try done.
  - eapply (inv_authored now); [exact H2|]. unfold authored. by rewrite Hnone.
  - intros r c0 Hr. destruct (decide (r = s)) as [->|Hne].
    + rewrite lookup_insert_eq in Hr. injection Hr as <-. rewrite Hix. by apply H4.
    + rewrite lookup_insert_ne in Hr by done. by apply H4.
  - intros t Ht. rewrite sequence_of_insert. specialize (H5 t Ht). case_decide; subst; lia.
  - intros t i Ht. rewrite sequence_of_insert. specialize (H6 t i Ht). specialize (H5 t Ht).
    case_decide as Hts; [subst t|].
    + destruct (decide (i = sequence_of d s)) as [->|Hi].
      * rewrite lookup_insert_eq. split; [lia|eauto].
      * rewrite lookup_insert_ne by congruence. rewrite H6. lia.
    + rewrite lookup_insert_ne by congruence. done.
  - intros t Ht. destruct Hw as [->|Hw]; [|rewrite Hw in Ht; by apply elem_of_nil in Ht].
    assert (t ≠ s) by (by intros ->). specialize (H9 t Ht). unfold blocked in *. simpl.
    rewrite sequence_of_insert, decide_False by done. exact H9.
  - intros Hwin p Hp. rewrite sequence_of_insert. specialize (H10 Hwin p Hp).
    change (position (mkLedger _ _ _ _ _ _ _ _) phase p) with (position (d_ledger d) phase p).
    case_decide as Hps; [|done]. specialize (Hcr Hwin). unfold credit in Hcr.
    apply elem_of_pairs in Hp as (_ & Hr & Hne). rewrite forallb_elem in Hcr.
    specialize (Hcr p.2). rewrite elem_of_range, H1 in Hcr. specialize (Hcr Hr).
    apply orb_true_iff in Hcr as [Hcr|Hcr]; bool_hyps; [congruence|].
    unfold position. rewrite Hps in *. lia.
Qed.

Lemma phase_wait_effect task cond e :
  phase_wait task cond e = if cond then (true, e) else (false, mkEvent false (waiters e ++ [task])).
Proof. unfold phase_wait, event_clear, event_wait. by destruct cond. Qed.

Lemma ready_spec d t : ready d t = true ↔ t ∉ waiters (changed (d_ledger d)).
Proof.
  unfold ready. rewrite negb_true_iff, <-not_true_iff_false, existsb_elem.
  split; [|intros H (x & Hx & E); bool_hyps; by subst]. intros H Ht. apply H. exists t.
  split; [done|]. apply Z.eqb_refl.
Qed.

Lemma set_changed_same l : set_changed (changed l) l = l.
Proof. by destruct l. Qed.

Lemma set_ledger_same d : set_ledger (d_ledger d) d = d.
Proof. by destruct d. Qed.

Lemma set_work_same d : set_work (d_work d) d = d.
Proof. by destruct d. Qed.

(** A task that waits joins the queue of the event. *)
Lemma inv_wait d t w :
  let d' := set_work w (set_ledger (set_changed
    (mkEvent false (waiters (changed (d_ledger d)) ++ [t])) (d_ledger d)) d) in
  driver_inv d → ready d t = true → blocked d' t →
  (w = d_work d ∨ waiters (changed (d_ledger d)) = []) → work_inv d' → driver_inv d'.
Proof.
  intros d' Hi Hr%ready_spec Hb Hw Hwork. apply inv_event; [done|done| |..|done].
  - apply NoDup_app. split; [apply Hi|]. split; [|apply NoDup_singleton].
    intros x Hx Ht. apply list_elem_of_singleton in Ht as ->. done.
  - intros x [Hx|Hx]%elem_of_app; [|apply list_elem_of_singleton in Hx as ->; exact Hb].
    destruct Hw as [->|Hw]; [by apply Hi|rewrite Hw in Hx; by apply elem_of_nil in Hx].
Qed.

Lemma sender_turn_cases now s d : sequence_of d s < count →
  sender_turn now phase count s d =
  if credit (d_ledger d) phase s (sequence_of d s) WINDOW
  then author_send now phase s (sequence_of d s) d
  else inr (set_ledger (set_changed (mkEvent false (waiters (changed (d_ledger d)) ++ [s])) (d_ledger d)) d).
Proof.
  intros Hq. unfold sender_turn. rewrite (proj2 (Z.leb_gt _ _) Hq), phase_wait_effect.
  destruct (credit _ _ _ _ _); [|done]. by rewrite set_changed_same, set_ledger_same.
Qed.

Lemma inv_sender now s d d' :
  driver_inv d → sender_enabled count s d → sender_turn now phase count s d = inr d' → driver_inv d'.
Proof.
  intros Hi (Hw & Hs & Hr & Hq). pose proof (di_n _ Hi) as Hn. rewrite Hn in Hs.
  rewrite sender_turn_cases by done.
  destruct (credit _ _ _ _ _) eqn:Ec; intros E.
  - rewrite <-(set_work_same d'). eapply inv_author; try done; [by apply ready_spec|..].
    + left. by apply author_send_effect in E as (_ & c & c' & _ & _ & _ & ->).
    + apply author_send_effect in E as (_ & c & c' & _ & _ & _ & ->). unfold work_inv. simpl. by rewrite Hw.
  - injection E as <-. rewrite <-(set_work_same (set_ledger _ _)). simpl. apply inv_wait; try done.
    + left. split; [done|]. by rewrite Hw.
    + by left.
    + unfold work_inv. simpl. by rewrite Hw.
Qed.

(** [work] reaches the drain once every message is authored. *)
Lemma inv_drain d : driver_inv d → (∀ s, 0 ≤ s < n → sequence_of d s = count) →
  (d_work d = Draining ∨ waiters (changed (d_ledger d)) = []) → ready d (MAIN d) = true →
  driver_inv (drain_turn phase d).
Proof.
  intros Hi Hall Hw Hr. unfold drain_turn, MAIN in *. rewrite phase_wait_effect, (di_n _ Hi) in *.
  destruct (complete (d_ledger d) phase) eqn:Ec.
  - assert (Hnone : waiters (changed (d_ledger d)) = []).
    { destruct Hw as [Hw|Hw]; [|done]. apply (no_waiters d Hi).
      intros t [(_ & Hx & _)|(_ & _ & Hx)]; congruence. }
    apply inv_event; [done|by intros _|apply Hi|..].
    + intros t Ht. rewrite Hnone in Ht. by apply elem_of_nil in Ht.
    + exact Ec.
  - apply inv_wait; try done.
    + by right.
    + destruct Hw as [->|Hw]; [by left|by right].
Qed.

Lemma sequence_filter (s q : Z) (todo : list (Z * Z)) :
  (List.filter (λ x, x.1 =? s) ((s, q) :: todo)).*2 = q :: (List.filter (λ x, x.1 =? s) todo).*2.
Proof. simpl. by rewrite Z.eqb_refl. Qed.

Lemma burst_head s q (todo : list (Z * Z)) d : 0 ≤ sequence_of d s ≤ count →
  (List.filter (λ x, x.1 =? s) ((s, q) :: todo)).*2 = seqZ (sequence_of d s) (count - sequence_of d s) →
  q = sequence_of d s ∧ sequence_of d s < count
  ∧ (List.filter (λ x, x.1 =? s) todo).*2 = seqZ (sequence_of d s + 1) (count - (sequence_of d s + 1)).
Proof.
  intros Hb. rewrite sequence_filter. destruct (decide (sequence_of d s = count)) as [->|Hne].
  - rewrite Z.sub_diag. done.
  - rewrite (seqZ_cons (sequence_of d s)) by lia. intros [= -> ->].
    split; [done|]. split; [lia|]. f_equal; lia.
Qed.

Lemma inv_burst now s q todo d d1 : driver_inv d → d_work d = Bursting ((s, q) :: todo) →
  author_send now phase s q d = inr d1 → driver_inv (set_work (Bursting todo) d1).
Proof.
  intros Hi Hw E. pose proof (di_work _ Hi) as Hwork. unfold work_inv in Hwork. rewrite Hw in Hwork.
  destruct Hwork as (Hwin & Hin & Hall). pose proof (Hin (s, q) ltac:(left)) as Hs. simpl in Hs.
  assert (Hnone : waiters (changed (d_ledger d)) = []).
  { apply (no_waiters d Hi). intros t [(_ & Hx & _)|(_ & Hx & _)]; congruence. }
  destruct (burst_head s q todo d (di_sequence _ Hi s Hs) (Hall s Hs)) as (-> & Hlt & Hrest).
  eapply (inv_author now s d d1); try done.
  - rewrite Hnone. apply not_elem_of_nil.
  - by rewrite Hwin.
  - by right.
  - apply author_send_effect in E as (_ & c & c' & _ & _ & _ & ->). unfold work_inv, set_work. simpl.
    split; [done|]. split; [intros x Hx; apply Hin; by right|]. intros t Ht.
    rewrite sequence_of_insert. case_decide as Hts; [by subst t|].
    specialize (Hall t Ht). simpl in Hall. rewrite (proj2 (Z.eqb_neq s t)) in Hall by congruence. done.
Qed.

Lemma inv_work now d d' :
  driver_inv d → work_enabled count d = true → work_turn now phase count d = inr d' → driver_inv d'.
Proof.
  intros Hi. pose proof (di_work _ Hi) as Hwork. unfold work_enabled, work_turn, work_inv in *.
  assert (Hnone : (∀ t, t ∈ waiters (changed (d_ledger d)) → blocked d t) → (∀ t, ¬ blocked d t) →
    waiters (changed (d_ledger d)) = []) by (intros _; by apply no_waiters).
  specialize (Hnone (di_blocked _ Hi)).
  destruct (d_work d) as [[|[s q] todo]| | |] eqn:Ew; intros He.
  - intros [= <-]. destruct Hwork as (Hwin & _ & Hall).
    assert (waiters (changed (d_ledger d)) = []) as Hn
      by (apply Hnone; intros t [(_ & Hx & _)|(_ & Hx & _)]; congruence).
    apply inv_drain; [done| |by right|apply ready_spec; rewrite Hn; apply not_elem_of_nil].
    intros s Hs. specialize (Hall s Hs). pose proof (di_sequence _ Hi s Hs). simpl in Hall.
    destruct (decide (sequence_of d s = count)); [done|].
    rewrite seqZ_cons in Hall by lia. done.
  - destruct (author_send now phase s q d) as [e|d1] eqn:E; [done|]. intros [= <-].
    by eapply inv_burst.
  - rewrite He. intros [= <-]. unfold gathered in He. rewrite forallb_elem, (di_n _ Hi) in He.
    assert (Hall : ∀ s, 0 ≤ s < n → sequence_of d s = count).
    { intros s Hs. pose proof (di_sequence _ Hi s Hs). specialize (He s (proj2 (elem_of_range n s) Hs)).
      bool_hyps. lia. }
    assert (waiters (changed (d_ledger d)) = []) as Hn.
    { apply Hnone. intros t [(Ht & _ & Hx & _)|(_ & Hx & _)]; [|congruence]. rewrite Hall in Hx by done. lia. }
    apply inv_drain; [done|done|by right|apply ready_spec; rewrite Hn; apply not_elem_of_nil].
  - intros [= <-]. apply inv_drain; try done. by left.
  - done.
Qed.

(** After a delivery nobody waits. *)
Lemma delivered_wakes now d r l' : driver_inv d → delivered now (d_ledger d) r l' →
  waiters (changed l') = [].
Proof.
  intros Hi (ph & s & k & m & stamp & _ & _ & _ & _ & _ & _ & ->). simpl. unfold event_set.
  destruct (is_set _) eqn:E; [by apply (di_event _ Hi)|done].
Qed.

Lemma delivered_position now l r l' ph p : delivered now l r l' →
  position l ph p ≤ position l' ph p.
Proof.
  intros (ph' & s & k & m & stamp & _ & _ & _ & _ & Hk & _ & ->). unfold position. simpl.
  destruct (decide ((ph, p.1, p.2) = (ph', s, r))) as [[= -> -> ->]|Hne].
  - rewrite lookup_insert_eq, Hk. simpl. lia.
  - rewrite lookup_insert_ne by done. lia.
Qed.

Lemma delivered_incomplete now l r : 0 ≤ r < clients l → ledger_inv l → counts l !! phase = Some count →
  complete l phase = true → ∀ l', delivered now l r l' → complete l' phase = true.
Proof.
  intros Hr Hinv Hc Hdone l' (ph & s & k & m & stamp & Hm & Hs & Hne & Hkm & Hk & _ & ->).
  destruct (decide (ph = phase)) as [->|Hph].
  - rewrite (complete_streams l phase count) in Hdone by (done || lia).
    rewrite Hdone in Hk by done. simplify_eq. lia.
  - unfold complete in *. simpl. by rewrite lookup_insert_ne.
Qed.

Lemma inv_reader now r line d : driver_inv d → 0 ≤ r < n → driver_inv (reader_turn now r line d).
Proof.
  intros Hi Hr. unfold reader_turn. destruct (d_clients d !! r) as [c|] eqn:Ec; [|done].
  pose proof Hi as [H1 H2 H3 H4 H5 H6 H7 H8 H9 H10 H11].
  destruct (read_line now c (d_ledger d) line) as [e|[c' l']] eqn:E; [by constructor|].
  apply read_line_effect in E as [Hix [->|Hdel]].
  - constructor; try done. simpl. intros r' c0 Hc0. destruct (decide (r' = r)) as [->|Hne].
    + rewrite lookup_insert_eq in Hc0. injection Hc0 as <-. rewrite Hix. by apply H4.
    + rewrite lookup_insert_ne in Hc0 by done. by apply H4.
  - rewrite (H4 r c Ec) in *. pose proof (delivered_wakes now d r l' Hi Hdel) as Hwake.
    pose proof (inv_delivered now (d_ledger d) r l' ltac:(lia) H2 Hdel) as Hinv'.
    pose proof (λ p, delivered_position now _ r l' phase p Hdel) as Hpos.
    pose proof (delivered_incomplete now _ r ltac:(rewrite H1; exact Hr) H2 H3) as Hcomp.
    assert (Hsame : clients l' = clients (d_ledger d) ∧ counts l' = counts (d_ledger d)
                    ∧ sent l' = sent (d_ledger d)).
    { destruct Hdel as (ph & s & k & m & stamp & _ & _ & _ & _ & _ & _ & ->). done. }
    destruct Hsame as (E1 & E2 & E3). constructor; simpl; try done.
    + by rewrite E1.
    + by rewrite E2.
    + intros r' c0 Hc0. destruct (decide (r' = r)) as [->|Hne].
      * rewrite lookup_insert_eq in Hc0. injection Hc0 as <-. exact Hix.
      * rewrite lookup_insert_ne in Hc0 by done. by apply H4.
    + by rewrite E3.
    + rewrite Hwake. constructor.
    + intros t Ht. rewrite Hwake in Ht. by apply elem_of_nil in Ht.
    + intros Hwin p Hp. specialize (H10 Hwin p Hp). specialize (Hpos p).
      change (sequence_of _ p.1) with (sequence_of d p.1). lia.
    + unfold work_inv in *. simpl. destruct (d_work d); try done. by apply Hcomp.
Qed.

Lemma inv_turn d d' : driver_inv d → turn phase count d d' → driver_inv d'.
Proof.
  intros Hi. destruct 1 as [now s d d' He E|now d d' He E|now r line d Hr _].
  - by eapply inv_sender.
  - by eapply inv_work.
  - apply inv_reader; [done|]. by rewrite <-(di_n _ Hi).
Qed.
End Invariant.

(** ** The start of a phase *)

(** The ledger and the clients as the earlier phases left them, with a newly
    registered phase: nobody waits and no message of the phase is authored. *)
Definition starts (pilot : bool) (phase : pystr) (count n : Z) (d : Driver) : Prop :=
  ∃ l cs, ledger_inv l ∧ clients l = n ∧ waiters (changed l) = []
    ∧ (∀ s i, sent l !! (phase, s, i) = None)
    ∧ (∀ r c, cs !! r = Some c → c_index c = r)
    ∧ 0 ≤ count ∧ (d_work d = Sending ∨ count = phase_count pilot phase)
    ∧ start_phase pilot phase l cs count = inr d.

Lemma filter_bind {A B} (f : B → bool) (g : A → list B) l :
  List.filter f (l ≫= g) = l ≫= (λ x, List.filter f (g x)).
Proof.
  induction l as [|x l IH]; [done|]. by rewrite !bind_cons, List.filter_app, IH.
Qed.

(** The messages of one sender in one tick. *)
Lemma filter_row (s : Z) (g : Z → Z) width l : NoDup l → s ∈ l →
  List.filter (λ x, x.1 =? s) (sender ← l; offset ← width; [(sender, g offset)])
  = offset ← width; [(s, g offset)].
Proof.
  assert (Hrow : ∀ t, List.filter (λ x, x.1 =? s) (offset ← width; [(t, g offset)])
    = if t =? s then (offset ← width; [(t, g offset)]) else []).
  { intros t. rewrite filter_bind. induction width as [|w ws IH]; [by destruct (t =? s)|].
    rewrite !bind_cons, IH. simpl. by destruct (t =? s). }
  assert (Hnone : ∀ l, s ∉ l →
    List.filter (λ x, x.1 =? s) (sender ← l; offset ← width; [(sender, g offset)]) = []).
  { intros l0. induction l0 as [|t l0 IH]; [done|]. intros [Hne Hn]%not_elem_of_cons.
    rewrite bind_cons, List.filter_app, Hrow, IH by done.
    by rewrite (proj2 (Z.eqb_neq t s)) by congruence. }
  induction 1 as [|t l Ht Hl IH]; intros Hs; [by apply elem_of_nil in Hs|].
  rewrite bind_cons, List.filter_app, Hrow. apply elem_of_cons in Hs as [<-|Hs].
  - by rewrite Hnone, Z.eqb_refl, app_nil_r.
  - rewrite IH by done. by rewrite (proj2 (Z.eqb_neq t s)) by (by intros ->).
Qed.

Lemma snd_bind (s : Z) (g : Z → Z) width :
  (offset ← width; [(s, g offset)]).*2 = offset ← width; [g offset].
Proof. induction width as [|w ws IH]; [done|]. rewrite !bind_cons, fmap_app, IH. done. Qed.

Lemma range_NoDup n : NoDup (range_ n).
Proof. unfold range_. apply NoDup_fmap_2; [apply _|apply NoDup_seq]. Qed.

(** The burst authors the messages of each sender in order, exactly once. *)
Lemma burst_script_sender pilot n s : 0 ≤ s < n →
  (List.filter (λ x, x.1 =? s) (burst_script pilot n)).*2 = seqZ 0 (phase_count pilot (u "burst")).
Proof.
  intros Hs%elem_of_range. transitivity (burst_sequence pilot); [|destruct pilot; vm_compute; reflexivity].
  unfold burst_script, burst_sequence. destruct (if pilot then _ else _) as [ticks width].
  rewrite filter_bind. generalize (range_ ticks). intros l. induction l as [|t l IH]; [done|].
  rewrite !bind_cons, fmap_app, IH, (filter_row s (λ o, t * width + o)), snd_bind
    by (done || apply range_NoDup). done.
Qed.

Lemma burst_script_range pilot n x : x ∈ burst_script pilot n → 0 ≤ x.1 < n.
Proof.
  unfold burst_script. destruct (if pilot then _ else _) as [ticks width].
  intros (t & (s & (o & Hx & _)%list_elem_of_bind & Hs)%list_elem_of_bind & _)%list_elem_of_bind.
  apply list_elem_of_singleton in Hx as ->. by apply elem_of_range.
Qed.

Definition is_sending (d : Driver) : bool := match d_work d with Sending => true | _ => false end.

Lemma inv_start pilot phase count n d : starts pilot phase count n d →
  driver_inv phase count n (is_sending d) d.
Proof.
  intros (l & cs & Hinv & Hn & Hw & Hs & Hix & Hc & Hk & E). unfold start_phase in E.
  destruct (add_phase l phase count) as [e|l1] eqn:Ea; [done|]. injection E as <-.
  pose proof (inv_add_phase l phase count l1 Hc Hinv Ea) as Hinv1.
  unfold add_phase in Ea. destruct (counts l !! phase) eqn:Ec; [done|]. injection Ea as <-.
  set (d := mkDriver _ _ _ _ _ _) in *.
  assert (Hq : ∀ s, sequence_of d s = 0).
  { intros s. unfold sequence_of. simpl. rewrite lookup_fmap. by destruct (cs !! s). }
  constructor; try done; simpl.
  - by rewrite lookup_insert_eq.
  - intros s _. rewrite Hq. lia.
  - intros s i _. rewrite Hs, Hq. split; [by intros [? ?]|lia].
  - rewrite Hw. constructor.
  - intros t Ht. rewrite Hw in Ht. by apply elem_of_nil in Ht.
  - intros _ p Hp. rewrite Hq. unfold position. simpl. rewrite fold_lookup. simpl.
    rewrite <-Hn in Hp. rewrite decide_True; [simpl; unfold WINDOW; lia|]. split; [done|]. by destruct p.
  - unfold work_inv, is_sending. cbn [d_work d]. unfold work_start in *.
    destruct (str_eqb phase (u "idle")) eqn:Ei; [|destruct (str_eqb phase (u "burst")) eqn:Eb; [|done]].
    + split; [done|]. split; [intros x Hx; by apply elem_of_nil in Hx|]. intros s _. rewrite Hq.
      destruct Hk as [Hk|Hk]; [done|]. rewrite Hk. unfold phase_count. by rewrite Ei.
    + split; [done|]. split; [rewrite <-Hn; apply burst_script_range|]. intros s Hsn. rewrite Hq, Z.sub_0_r.
      destruct Hk as [Hk|Hk]; [done|]. rewrite Hk. apply str_eqb_eq in Eb as ->. rewrite Hn.
      by apply burst_script_sender.
Qed.

Lemma reach_inv phase count n windowed d0 d : driver_inv phase count n windowed d0 →
  rtc (turn phase count) d0 d → driver_inv phase count n windowed d.
Proof. intros Hi. induction 1 as [|d0 d1 d2 Ht _ IH]; [done|]. apply IH. by eapply inv_turn. Qed.

(** C9: No wake-up is lost and the window holds, under every schedule of the
    tasks and for every line the daemon sends: a suspended sender has no
    credit and a suspended drain is not complete, so each of them is woken by
    the delivery it waits for; in a windowed phase a sender is never more than
    64 messages ahead of any recipient; each sender authors exactly the
    messages before its position; and the phase is drained only when it is
    complete. *)
Theorem phase_waits_sound pilot phase count n d0 d :
  starts pilot phase count n d0 → rtc (turn phase count) d0 d →
  (∀ s, 0 ≤ s < n → ready d s = false →
     sequence_of d s < count ∧ credit (d_ledger d) phase s (sequence_of d s) WINDOW = false)
  ∧ (ready d (MAIN d) = false → d_work d = Draining ∧ complete (d_ledger d) phase = false)
  ∧ (d_work d0 = Sending → ∀ s r, 0 ≤ s < n → 0 ≤ r < n → s ≠ r →
       sequence_of d s - position (d_ledger d) phase (s, r) ≤ 64)
  ∧ (∀ s i, 0 ≤ s < n →
       is_Some (sent (d_ledger d) !! (phase, s, i)) ↔ 0 ≤ i < sequence_of d s)
  ∧ (d_work d = Drained → complete (d_ledger d) phase = true).
Proof.
  intros Hs%inv_start Hr. pose proof (reach_inv _ _ _ _ _ _ Hs Hr) as Hi. clear Hr Hs.
  assert (Hwait : ∀ t, ready d t = false → blocked phase count n d t).
  { intros t Ht. apply (di_blocked _ _ _ _ _ Hi). destruct (decide (t ∈ waiters (changed (d_ledger d))))
      as [Hin|Hout]; [done|]. apply ready_spec in Hout. congruence. }
  split_and!.
  - intros s Hs [(_ & _ & Hx)|(-> & _)]%Hwait; [done|lia].
  - unfold MAIN. rewrite (di_n _ _ _ _ _ Hi). intros [(Hx & _)|(_ & Hx)]%Hwait; [lia|done].
  - intros Hw s r Hs Hr Hne. apply (di_window _ _ _ _ _ Hi ltac:(unfold is_sending; by rewrite Hw) (s, r)).
    by apply elem_of_pairs.
  - apply Hi.
  - intros Hw. pose proof (di_work _ _ _ _ _ Hi) as H. unfold work_inv in H. by rewrite Hw in H.
Qed.

(** Two clients; sender 0 sends 64 messages and is then suspended. *)
Definition two_clients : gmap Z PhaseClient := {[ 0 := new_client 0; 1 := new_client 1 ]}.

Fixpoint sends (k : nat) (d : Driver) : failing Driver :=
  match k with
  | O => inr d
  | S k => match sender_turn 5 (u "warmup") 70 0 d with inl e => inl e | inr d => sends k d end
  end.

Definition blocked_run : failing Driver :=
  match start_phase true (u "warmup") (new_ledger (u "0000") 2) two_clients 70 with
  | inl e => inl e
  | inr d => sends 65 d
  end.

Definition enabled0 (d : Driver) : bool :=
  is_sending d && (0 <? clients (d_ledger d)) && ready d 0 && (sequence_of d 0 <? 70).

(** Whether sender 0 could take each of [k] turns. *)
Fixpoint sends_ok (k : nat) (d : Driver) : bool :=
  match k with
  | O => true
  | S k => enabled0 d
           && match sender_turn 5 (u "warmup") 70 0 d with inl _ => false | inr d => sends_ok k d end
  end.

Lemma sends_rtc k : ∀ d d', sends_ok k d = true → sends k d = inr d' → rtc (turn (u "warmup") 70) d d'.
Proof.
  induction k as [|k IH]; intros d d' Hok E; cbn [sends sends_ok] in *; [by injection E as <-|].
  destruct (sender_turn 5 (u "warmup") 70 0 d) as [e|d1] eqn:E1; [discriminate|].
  apply andb_prop in Hok as [He Hok]. eapply rtc_l; [|by apply (IH d1 d')].
  eapply TurnSender; [|exact E1]. unfold enabled0, is_sending in He. bool_hyps.
  unfold sender_enabled. destruct (d_work d); try discriminate.
  split; [reflexivity|]. split; [lia|]. split; [assumption|lia].
Qed.

Lemma new_ledger_inv run n : ledger_inv (new_ledger run n).
Proof. split; simpl; intros *; by rewrite lookup_empty. Qed.

Lemma two_clients_index r c : two_clients !! r = Some c → c_index c = r.
Proof.
  unfold two_clients. intros [[<- <-]|[_ H]]%lookup_insert_Some; [done|].
  by apply lookup_singleton_Some in H as [<- <-].
Qed.

(** The run of [blocked_run] is a schedule and ends suspended. *)
Definition blocked_ok : bool :=
  match start_phase true (u "warmup") (new_ledger (u "0000") 2) two_clients 70 with
  | inl _ => false
  | inr d0 => is_sending d0 && sends_ok 65 d0
              && match sends 65 d0 with inl _ => false | inr d => negb (ready d 0) end
  end.

Lemma blocked_ok_true : blocked_ok = true.
Proof. vm_compute. reflexivity. Qed.

Lemma blocked_facts : ∃ d0 d,
  start_phase true (u "warmup") (new_ledger (u "0000") 2) two_clients 70 = inr d0
  ∧ sends 65 d0 = inr d ∧ d_work d0 = Sending ∧ sends_ok 65 d0 = true ∧ ready d 0 = false.
Proof.
  pose proof blocked_ok_true as H. unfold blocked_ok in H.
  destruct (start_phase _ _ _ _ _) as [e|d0]; [discriminate|].
  destruct (sends 65 d0) as [e|d] eqn:E; [by rewrite andb_false_r in H|]. bool_hyps.
  exists d0, d. split; [reflexivity|]. split; [exact E|].
  split; [unfold is_sending in *; destruct (d_work d0); done|]. split; assumption.
Qed.

Lemma phase_waits_sound_witness :
  ∃ d, blocked_run = inr d ∧ ready d 0 = false
    ∧ credit (d_ledger d) (u "warmup") 0 (sequence_of d 0) WINDOW = false
    ∧ sequence_of d 0 - position (d_ledger d) (u "warmup") (0, 1) ≤ 64.
Proof.
  destruct blocked_facts as (d0 & d & E0 & E1 & Hw & Hok & Hr). exists d.
  split; [unfold blocked_run; rewrite E0; exact E1|]. split; [exact Hr|].
  destruct (phase_waits_sound true (u "warmup") 70 2 d0 d) as (H1 & _ & H2 & _).
  - exists (new_ledger (u "0000") 2), two_clients. split; [apply new_ledger_inv|].
    split; [reflexivity|]. split; [reflexivity|]. split; [intros; apply lookup_empty|].
    split; [exact two_clients_index|]. split; [lia|]. split; [left; exact Hw|exact E0].
  - exact (sends_rtc 65 d0 d Hok E1).
  - split; [apply (H1 0); [lia|exact Hr]|]. apply (H2 Hw 0 1); lia.
Defined.
