(* ===== verification/PhasesLive.v ===== *)
(** * tools/bench_live.py: every phase drains

    With a daemon that relays each message to the other clients, in the order
    it was sent, every schedule of the tasks and of the deliveries drains the
    phase: no task fails, none waits for ever, and there is no infinite
    schedule. *)

From S2P Require Import Prelude PyStr PyBytes PyFloat Json Delivery DeliverySpec Bench Phases PhasesSpec.

(** ** Inevitability *)

(** Every maximal sequence of steps reaches [P] before it fails or ends. *)
Inductive inevitably {A} (step : A → failing A → Prop) (P : A → Prop) : A → Prop :=
| Now x : P x → inevitably step P x
| Later x : (∃ o, step x o) → (∀ o, step x o → ∃ y, o = inr y ∧ inevitably step P y) →
    inevitably step P x.

(** An invariant, a measure that every step lowers, and progress. *)
Lemma inevitably_measure {A} (step : A → failing A → Prop) (P I : A → Prop) (m : A → Z) :
  (∀ x, I x → 0 ≤ m x) →
  (∀ x o, I x → step x o → ∃ y, o = inr y ∧ I y ∧ m y < m x) →
  (∀ x, I x → P x ∨ ∃ o, step x o) →
  ∀ x, I x → inevitably step P x.
Proof.
  intros Hpos Hstep Hprog x. remember (Z.to_nat (m x)) as k eqn:Hk. revert x Hk.
  induction (lt_wf k) as [k _ IH]. intros x -> Hx.
  destruct (Hprog x Hx) as [HP|Ho]; [by apply Now|]. apply Later; [exact Ho|].
  intros o Hxo. destruct (Hstep x o Hx Hxo) as (y & -> & Hy & Hlt). exists y. split; [done|].
  pose proof (Hpos x Hx). pose proof (Hpos y Hy). apply (IH (Z.to_nat (m y))); [lia|done|done].
Qed.

(** ** A daemon that relays *)

Record Net := mkNet {
  n_driver : Driver;
  n_relayed : gmap (Z * Z) nat }.   (* (sender, recipient): messages relayed *)

Definition relayed (x : gmap (Z * Z) nat) (p : Z * Z) : nat := from_opt O (x !! p).

Section Honest.
Context (phase : pystr) (count : Z).
Context (userhost : Z → pybytes).        (* what follows the nick in a prefix *)
Context (before : Z → list pybytes).     (* what each client wrote before the phase *)

(** [:lb<sender>!user@host] before the line of the sender. *)
Definition relay (s : Z) (line : pybytes) : pybytes :=
  (58 :: bs "lb" ++ dec s ++ 33 :: userhost s) ++ 32 :: line.

Definition after_turn (rel : gmap (Z * Z) nat) (r : failing Driver) : failing Net :=
  match r with inl e => inl e | inr d => inr (mkNet d rel) end.

(** A turn of a task, or the relay of the next line from [s] to [r].  A
    failing reader ends the run. *)
Inductive honest_step : Net → failing Net → Prop :=
| HonestSender now s d rel : sender_enabled count s d →
    honest_step (mkNet d rel) (after_turn rel (sender_turn now phase count s d))
| HonestWork now d rel : work_enabled count d = true →
    honest_step (mkNet d rel) (after_turn rel (work_turn now phase count d))
| HonestRelay now s r c line d rel :
    (s, r) ∈ pairs (clients (d_ledger d)) → d_clients d !! s = Some c →
    written c !! (length (before s) + relayed rel (s, r))%nat = Some (line ++ CRLF) →
    honest_step (mkNet d rel)
      (let d' := reader_turn now r (relay s line) d in
       match d_failure d' with
       | Some e => inl e
       | None => inr (mkNet d' (<[(s, r) := S (relayed rel (s, r))]> rel))
       end).
End Honest.

(** ** Lines on the wire *)

Definition safe_field (s : pystr) : Prop := plain_field s ∧ 13 ∉ s ∧ 10 ∉ s.

Lemma dec_safe z : 0 ≤ z → safe_field (dec z).
Proof. intros Hz. split; [by apply dec_plain|]. split; by apply dec_no_char. Qed.

Lemma relay_honest l userhost phase s q :
  relay userhost s (privmsg_line (run_id l) phase s q) = honest_line l (userhost s) phase s q.
Proof.
  unfold relay, privmsg_line, honest_line.
  assert (E1 : bs "PRIVMSG " = bs "PRIVMSG" ++ [32]) by (vm_compute; reflexivity).
  assert (E2 : utf8_encode CHANNEL = bs "#bench") by (vm_compute; reflexivity).
  assert (E3 : bs " :" = [32; 58]) by (vm_compute; reflexivity).
  rewrite E1, E2, E3, <- !app_assoc. reflexivity.
Qed.

(** The reader takes an honest line to the ledger. *)
Lemma read_honest now c l uh phase s q : 32 ∉ uh → 0 ≤ s →
  read_line now c l (honest_line l uh phase s q) =
  match receive now l (c_index c) (honest_line l uh phase s q) with
  | inl e => inl e
  | inr (_, l) => inr (c, l)
  end.
Proof.
  intros Huh Hs. unfold read_line. cbv zeta.
  set (line := honest_line l uh phase s q).
  assert (E : line = (58 :: bs "lb" ++ dec s ++ 33 :: uh) ++ 32 :: bs "PRIVMSG" ++ 32 ::
    (bs "#bench" ++ 32 :: 58 :: phase_payload (run_id l) phase s q)) by reflexivity.
  assert (Hsp : 32 ∉ 58 :: bs "lb" ++ dec s ++ 33 :: uh).
  { apply not_elem_of_cons. split; [done|]. intros [H|[H|H]%elem_of_app]%elem_of_app.
    - revert H. apply in_literal. vm_compute. reflexivity.
    - revert H. apply dec_no_char; [lia|done].
    - by apply elem_of_cons in H as [H|H]. }
  assert (E32 : bs " " = [32]) by (vm_compute; reflexivity).
  assert (H1 : split_max 1 (bs " ") line = [58 :: bs "lb" ++ dec s ++ 33 :: uh;
    bs "PRIVMSG" ++ 32 :: (bs "#bench" ++ 32 :: 58 :: phase_payload (run_id l) phase s q)]).
  { rewrite E, E32, split_max_word by exact Hsp. unfold split_max. by rewrite split_go_zero. }
  assert (H2 : ∃ rest, split (bs " ") line = (58 :: bs "lb" ++ dec s ++ 33 :: uh) :: bs "PRIVMSG" :: rest).
  { rewrite E, E32, split_word by exact Hsp.
    rewrite split_word by (apply in_literal; vm_compute; reflexivity). by eexists. }
  destruct H2 as [rest H2]. rewrite H1, H2. cbn [hd_error from_opt].
  assert (Hping : str_eqb (bupper (58 :: bs "lb" ++ dec s ++ 33 :: uh)) (bs "PING") = false).
  { generalize (bs "lb" ++ dec s ++ 33 :: uh). intros x. vm_compute. reflexivity. }
  assert (Hcol : startswith line (bs ":") = true) by exact (proj2 (honest_head l uh phase s q)).
  rewrite Hping. unfold command_of. rewrite Hcol.
  cbn [length Nat.ltb Nat.leb andb lookup list_lookup from_opt].
  assert (Hb : bupper (bs "PRIVMSG") = bs "PRIVMSG") by (vm_compute; reflexivity). rewrite Hb.
  assert (C1 : str_eqb (bs "PRIVMSG") (bs "ERROR") = false) by (vm_compute; reflexivity).
  assert (C2 : is_numeric (bs "PRIVMSG") = false) by (vm_compute; reflexivity).
  assert (C3 : str_eqb (bs "PRIVMSG") (bs "001") = false) by (vm_compute; reflexivity).
  assert (C4 : str_eqb (bs "PRIVMSG") (bs "366") = false) by (vm_compute; reflexivity).
  assert (C5 : str_eqb (bs "PRIVMSG") (bs "PONG") = false) by (vm_compute; reflexivity).
  rewrite C1, C2, C3, C4, C5. reflexivity.
Qed.

Lemma existsb_absent c (x : pybytes) : c ∉ x → existsb (Z.eqb c) x = false.
Proof.
  intros H. apply not_true_is_false. intros (y & Hy & E)%existsb_elem. bool_hyps. by subst.
Qed.

(** The identity at the head of a payload. *)
Definition identity_text (run phase : pystr) (s q : Z) : pystr :=
  u "onyxbench:" ++ run ++ u ":" ++ phase ++ u ":" ++ dec s ++ u ":" ++ dec q ++ u ":".

Lemma identity_no c run phase s q : c = 13 ∨ c = 10 → safe_field run → safe_field phase →
  0 ≤ s → 0 ≤ q → c ∉ identity_text run phase s q.
Proof.
  intros Hc (_ & Hr1 & Hr2) (_ & Hp1 & Hp2) Hs Hq.
  destruct (dec_safe s Hs) as (_ & Hs1 & Hs2), (dec_safe q Hq) as (_ & Hq1 & Hq2).
  assert (L1 : c ∉ u "onyxbench:") by (destruct Hc as [->| ->]; apply in_literal; vm_compute; reflexivity).
  assert (L2 : c ∉ u ":") by (destruct Hc as [->| ->]; apply in_literal; vm_compute; reflexivity).
  unfold identity_text. rewrite !not_elem_of_app. destruct Hc as [->| ->]; tauto.
Qed.

Lemma payload_identity run phase s q : safe_field run → safe_field phase → 0 ≤ s → 0 ≤ q →
  phase_payload run phase s q = ljust_x 128 (identity_text run phase s q).
Proof.
  intros [[Hr _] _] [[Hp _] _] Hs Hq. unfold phase_payload, identity_text. rewrite utf8_encode_ascii; [done|].
  assert (L1 : Forall ascii (u "onyxbench:")) by (vm_compute; repeat constructor; discriminate).
  assert (L2 : Forall ascii (u ":")) by (vm_compute; repeat constructor; discriminate).
  pose proof (proj1 (dec_plain s Hs)). pose proof (proj1 (dec_plain q Hq)).
  rewrite !Forall_app. tauto.
Qed.

Lemma identity_length run phase s q : (length run + length phase ≤ 400)%nat →
  0 ≤ s < 10 ^ 18 → 0 ≤ q < 10 ^ 18 → (length (identity_text run phase s q) ≤ 450)%nat.
Proof.
  intros Hl Hs Hq. pose proof (dec_length s 18 Hs ltac:(lia)). pose proof (dec_length q 18 Hq ltac:(lia)).
  unfold identity_text. rewrite !length_app.
  assert (length (u "onyxbench:") = 10%nat) as -> by (vm_compute; reflexivity).
  assert (length (u ":") = 1%nat) as -> by (vm_compute; reflexivity). lia.
Qed.

(** A benchmark message is a valid outgoing line. *)
Lemma privmsg_sends c run phase s q : safe_field run → safe_field phase →
  (length run + length phase ≤ 400)%nat → 0 ≤ s < 10 ^ 18 → 0 ≤ q < 10 ^ 18 →
  ∃ c', send c (privmsg_line run phase s q) = inr c'.
Proof.
  intros Hr Hp Hl Hs Hq. unfold send, privmsg_line.
  rewrite payload_identity by (done || lia).
  pose proof (identity_length run phase s q Hl Hs Hq) as Hlen.
  pose proof (λ c Hc, identity_no c run phase s q Hc Hr Hp (proj1 Hs) (proj1 Hq)) as Hno.
  revert Hlen Hno. generalize (identity_text run phase s q). intros x Hlen Hno.
  assert (L : ∀ c, c = 13 ∨ c = 10 → c ∉ bs "PRIVMSG " ++ utf8_encode CHANNEL ++ bs " :" ++ ljust_x 128 x).
  { intros c0 Hc. specialize (Hno c0 Hc). unfold ljust_x. rewrite !not_elem_of_app.
    assert (K : c0 ∉ bs "PRIVMSG " ∧ c0 ∉ utf8_encode CHANNEL ∧ c0 ∉ bs " :").
    { destruct Hc as [->| ->]; (split; [|split]); apply in_literal; vm_compute; reflexivity. }
    destruct K as (K1 & K2 & K3). split; [exact K1|]. split; [exact K2|]. split; [exact K3|].
    split; [exact Hno|]. intros [-> _]%elem_of_replicate. destruct Hc; discriminate. }
  rewrite (existsb_absent 13), (existsb_absent 10) by (apply L; tauto).
  assert (Hsmall : (510 <? Z.of_nat (length (bs "PRIVMSG " ++ utf8_encode CHANNEL ++ bs " :" ++ ljust_x 128 x))) = false).
  { apply Z.ltb_ge. unfold ljust_x. rewrite !length_app, length_replicate.
    assert (length (bs "PRIVMSG ") = 8%nat) as -> by (vm_compute; reflexivity).
    assert (length (utf8_encode CHANNEL) = 6%nat) as -> by (vm_compute; reflexivity).
    assert (length (bs " :") = 2%nat) as -> by (vm_compute; reflexivity). lia. }
  rewrite Hsmall. by eexists.
Qed.

(** ** The run with a relaying daemon *)

Section Run.
Context (phase run : pystr) (count n : Z) (windowed : bool).
Context (userhost : Z → pybytes) (before : Z → list pybytes).
Context (Hn : 0 ≤ n ≤ 10 ^ 18) (Hcount : 0 ≤ count ≤ 10 ^ 18).
Context (Hrun : safe_field run) (Hphase : safe_field phase)
        (Hlen : (length run + length phase ≤ 400)%nat).
Context (Hhost : ∀ s, 32 ∉ userhost s).

#[local] Notation driver_inv := (driver_inv phase count n windowed).
#[local] Notation step := (honest_step phase count userhost before).

(** The lines a sender wrote in the phase. *)
Definition wrote (s q : Z) : list pybytes :=
  (λ i, privmsg_line run phase s (Z.of_nat i) ++ CRLF) <$> seq 0 (Z.to_nat q).

Record honest_inv (x : Net) : Prop := mkHonest {
  hi_driver : driver_inv (n_driver x);
  hi_run : run_id (d_ledger (n_driver x)) = run;
  hi_ok : d_failure (n_driver x) = None;
  hi_wrote : ∀ s, 0 ≤ s < n → ∃ c, d_clients (n_driver x) !! s = Some c
    ∧ written c = before s ++ wrote s (sequence_of (n_driver x) s);
  hi_relayed : ∀ p, p ∈ pairs n →
    next (d_ledger (n_driver x)) !! (phase, p.1, p.2) = Some (Z.of_nat (relayed (n_relayed x) p))
    ∧ Z.of_nat (relayed (n_relayed x) p) ≤ sequence_of (n_driver x) p.1 }.

(** *** The measure *)

Definition unsent (d : Driver) : Z := sum_Z ((λ s, count - sequence_of d s) <$> range_ n).
Definition unrelayed (rel : gmap (Z * Z) nat) : Z :=
  sum_Z ((λ p, count - Z.of_nat (relayed rel p)) <$> pairs n).
Definition awake (d : Driver) : Z := n + 1 - Z.of_nat (length (waiters (changed (d_ledger d)))).
Definition rank (w : Work) : Z := match w with Bursting _ | Sending => 2 | Draining => 1 | Drained => 0 end.

(** A delivery may wake all the tasks, so it counts for more than all of them. *)
Definition left_over (x : Net) : Z :=
  unsent (n_driver x) + (n + 2) * unrelayed (n_relayed x) + awake (n_driver x)
  + rank (d_work (n_driver x)).

Lemma sum_nonneg {A} (f : A → Z) l : (∀ x, x ∈ l → 0 ≤ f x) → 0 ≤ sum_Z (f <$> l).
Proof.
  induction l as [|x l IH]; intros H; [done|]. rewrite fmap_cons. unfold sum_Z in *. simpl.
  pose proof (H x ltac:(left)). specialize (IH ltac:(intros; apply H; by right)). lia.
Qed.

Lemma awake_nonneg d : driver_inv d → 0 ≤ awake d ≤ n + 1.
Proof.
  intros Hi. unfold awake. split; [|lia].
  assert (Hsub : waiters (changed (d_ledger d)) ⊆+ range_ (n + 1)).
  { apply NoDup_submseteq; [apply Hi|]. intros t Ht%(di_blocked _ _ _ _ _ Hi).
    apply elem_of_range. destruct Ht as [(Ht & _)|(-> & _)]; lia. }
  apply submseteq_length in Hsub. revert Hsub. unfold range_. rewrite length_fmap, length_seq. lia.
Qed.

Lemma left_over_nonneg x : honest_inv x → 0 ≤ left_over x.
Proof.
  intros [Hi _ _ _ Hrel]. unfold left_over.
  assert (0 ≤ unsent (n_driver x)).
  { apply sum_nonneg. intros s Hs%elem_of_range. pose proof (di_sequence _ _ _ _ _ Hi s Hs). lia. }
  assert (0 ≤ unrelayed (n_relayed x)).
  { apply sum_nonneg. intros p Hp. destruct (Hrel p Hp) as [_ Hle].
    apply elem_of_pairs in Hp as (Hs & _). pose proof (di_sequence _ _ _ _ _ Hi p.1 Hs). lia. }
  pose proof (awake_nonneg _ Hi). assert (0 ≤ rank (d_work (n_driver x))) by (by destruct (d_work _)).
  nia.
Qed.

(** *** Steps *)

Lemma author_succeeds now d rel s : honest_inv (mkNet d rel) → 0 ≤ s < n → sequence_of d s < count →
  ∃ d', author_send now phase s (sequence_of d s) d = inr d'.
Proof.
  intros [Hi Hr _ Hw _] Hs Hq. simpl in *. unfold author_send, authored.
  pose proof (di_sequence _ _ _ _ _ Hi s Hs) as Hb.
  destruct (sent (d_ledger d) !! (phase, s, sequence_of d s)) as [t|] eqn:Es.
  { exfalso. apply mk_is_Some in Es. apply (di_sent _ _ _ _ _ Hi s) in Es; lia. }
  destruct (Hw s Hs) as (c & Hc & _). rewrite Hc. simpl. rewrite Hr.
  destruct (privmsg_sends c run phase s (sequence_of d s)) as [c' Hc']; [done|done|done|lia|lia|].
  rewrite Hc'. by eexists.
Qed.

Lemma wrote_snoc s q : 0 ≤ q → wrote s (q + 1) = wrote s q ++ [privmsg_line run phase s q ++ CRLF].
Proof.
  intros Hq. unfold wrote. rewrite Z2Nat.inj_add by lia. change (Z.to_nat 1) with 1%nat.
  rewrite seq_app, fmap_app. cbn [seq fmap list_fmap Nat.add]. by rewrite Z2Nat.id.
Qed.

(** Authoring a message keeps the invariant and lowers the measure. *)
Lemma author_honest now d rel s d' w : honest_inv (mkNet d rel) → 0 ≤ s < n →
  author_send now phase s (sequence_of d s) d = inr d' → driver_inv (set_work w d') →
  rank w ≤ rank (d_work d) →
  honest_inv (mkNet (set_work w d') rel) ∧ left_over (mkNet (set_work w d') rel) < left_over (mkNet d rel).
Proof.
  intros [Hi Hr Hok Hw Hrel] Hs (_ & c & c' & Hc & _ & Hwr & ->)%author_send_effect Hi' Hrank.
  simpl in *. pose proof (di_sequence _ _ _ _ _ Hi s Hs) as Hb. split.
  - constructor; simpl; try done.
    + intros t Ht. unfold set_work. simpl. rewrite sequence_of_insert. destruct (decide (t = s)) as [->|Hne].
      * rewrite lookup_insert_eq. exists c'. split; [done|]. destruct (Hw s Hs) as (c0 & Hc0 & E).
        rewrite Hwr, wrote_snoc, app_assoc, <-E, Hr by lia. do 3 f_equal. congruence.
      * rewrite lookup_insert_ne by done. by apply Hw.
    + intros p Hp. destruct (Hrel p Hp) as [H1 H2]. split; [done|]. unfold set_work. simpl.
      rewrite sequence_of_insert. case_decide as E; [rewrite E in H2; lia|done].
  - unfold left_over, set_work. simpl.
    assert (E : unsent (mkDriver (mkLedger (run_id (d_ledger d)) (clients (d_ledger d)) (counts (d_ledger d))
      (next (d_ledger d)) (<[(phase, s, sequence_of d s) := now]> (sent (d_ledger d))) (received (d_ledger d))
      (latencies (d_ledger d)) (changed (d_ledger d))) (<[s := c']> (d_clients d))
      (<[s := sequence_of d s + 1]> (d_sequence d)) w (d_failure d) (d_stopped d)) = unsent d + -1).
    { unfold unsent. apply (sum_update _ _ _ s); [apply range_NoDup|by apply elem_of_range|..].
      - rewrite sequence_of_insert, decide_True by done. lia.
      - intros t Ht. by rewrite sequence_of_insert, decide_False. }
    rewrite E. unfold awake. simpl. lia.
Qed.

(** A task that waits: nothing but the event and the place of [work] changes. *)
Lemma wait_honest d rel t w :
  let d' := set_work w (set_ledger (set_changed
    (mkEvent false (waiters (changed (d_ledger d)) ++ [t])) (d_ledger d)) d) in
  honest_inv (mkNet d rel) → driver_inv d' → rank w ≤ rank (d_work d) →
  honest_inv (mkNet d' rel) ∧ left_over (mkNet d' rel) < left_over (mkNet d rel).
Proof.
  intros d' [Hi Hr Hok Hw Hrel] Hi' Hrank. split; [by constructor|].
  unfold left_over. simpl. change (unsent d') with (unsent d). unfold awake. simpl.
  rewrite length_app. simpl. lia.
Qed.

Lemma sender_honest now d rel s : honest_inv (mkNet d rel) → sender_enabled count s d →
  ∃ d', sender_turn now phase count s d = inr d' ∧ honest_inv (mkNet d' rel)
    ∧ left_over (mkNet d' rel) < left_over (mkNet d rel).
Proof.
  intros Hx He. pose proof (hi_driver _ Hx) as Hi. simpl in Hi.
  pose proof He as (Hw & Hs & Hr & Hq). rewrite (di_n _ _ _ _ _ Hi) in Hs.
  pose proof (λ d', inv_sender phase count n windowed now s d d' Hi He) as Hinv.
  rewrite sender_turn_cases in * by done. destruct (credit _ _ _ _ _).
  - destruct (author_succeeds now d rel s Hx Hs Hq) as [d' Hd']. exists d'. split; [done|].
    specialize (Hinv d' Hd'). rewrite <-(set_work_same d').
    eapply author_honest; try done; [by rewrite set_work_same|].
    by apply author_send_effect in Hd' as (_ & c & c' & _ & _ & _ & ->).
  - eexists. split; [done|]. specialize (Hinv _ eq_refl).
    rewrite <-(set_work_same (set_ledger _ _)) in Hinv |- *. simpl in *.
    apply wait_honest; [done|done|lia].
Qed.

Lemma drain_cases d : drain_turn phase d =
  if complete (d_ledger d) phase then set_work Drained d
  else set_work Draining (set_ledger (set_changed
    (mkEvent false (waiters (changed (d_ledger d)) ++ [MAIN d])) (d_ledger d)) d).
Proof.
  unfold drain_turn. rewrite phase_wait_effect. destruct (complete _ _); [|done].
  by rewrite set_changed_same, set_ledger_same.
Qed.

Lemma drain_honest d rel : honest_inv (mkNet d rel) → driver_inv (drain_turn phase d) →
  d_work d ≠ Drained →
  honest_inv (mkNet (drain_turn phase d) rel)
  ∧ left_over (mkNet (drain_turn phase d) rel) < left_over (mkNet d rel).
Proof.
  intros Hx. rewrite drain_cases. destruct (complete _ _); intros Hi' Hne.
  - destruct Hx as [Hi Hr Hok Hw Hrel]. split; [by constructor|]. unfold left_over. simpl.
    change (unsent (set_work Drained d)) with (unsent d). change (awake (set_work Drained d)) with (awake d).
    destruct (d_work d); simpl; try lia. done.
  - apply wait_honest; [done|done|]. destruct (d_work d); simpl; lia || done.
Qed.

Lemma work_honest now d rel : honest_inv (mkNet d rel) → work_enabled count d = true →
  ∃ d', work_turn now phase count d = inr d' ∧ honest_inv (mkNet d' rel)
    ∧ left_over (mkNet d' rel) < left_over (mkNet d rel).
Proof.
  intros Hx He. pose proof (hi_driver _ Hx) as Hi. simpl in Hi.
  pose proof (λ d', inv_work phase count n windowed now d d' Hi He) as Hinv.
  pose proof (di_work _ _ _ _ _ Hi) as Hwork.
  unfold work_enabled, work_turn, work_inv in *.
  assert (Hdrain : d_work d ≠ Drained → driver_inv (drain_turn phase d) →
    ∃ d', inr (drain_turn phase d) = inr (A:=pystr) d' ∧ honest_inv (mkNet d' rel)
      ∧ left_over (mkNet d' rel) < left_over (mkNet d rel)).
  { intros Hne Hd. exists (drain_turn phase d). split; [done|]. by apply drain_honest. }
  destruct (d_work d) as [[|[s q] todo]| | |] eqn:Ew.
  - apply Hdrain; [done|]. by apply Hinv.
  - destruct Hwork as (_ & Hin & Hall). pose proof (Hin (s, q) ltac:(left)) as Hs. simpl in Hs.
    destruct (burst_head count s q todo d (di_sequence _ _ _ _ _ Hi s Hs) (Hall s Hs)) as (-> & Hq & _).
    destruct (author_succeeds now d rel s Hx Hs Hq) as [d' Hd']. rewrite Hd' in *.
    exists (set_work (Bursting todo) d'). split; [done|]. eapply author_honest; try done.
    + by apply Hinv.
    + by rewrite Ew.
  - rewrite He in *. apply Hdrain; [done|]. by apply Hinv.
  - apply Hdrain; [done|]. by apply Hinv.
  - done.
Qed.

(** The line relayed next is the message the recipient expects next. *)
Lemma next_line s q k c line : written c = before s ++ wrote s q →
  written c !! (length (before s) + k)%nat = Some (line ++ CRLF) →
  line = privmsg_line run phase s (Z.of_nat k) ∧ Z.of_nat k < q.
Proof.
  intros ->. rewrite lookup_app_r by lia. replace (_ + k - _)%nat with k by lia.
  unfold wrote. intros (i & Hi & Hl)%list_lookup_fmap_Some.
  apply lookup_seq in Hl as [-> Hl]. apply app_inv_tail in Hi as ->. split; [done|lia].
Qed.

Lemma relayed_insert rel p k p' :
  relayed (<[p := k]> rel) p' = if decide (p' = p) then k else relayed rel p'.
Proof.
  unfold relayed. case_decide as H; [subst; by rewrite lookup_insert_eq|by rewrite lookup_insert_ne].
Qed.

Lemma unrelayed_succ rel p : p ∈ pairs n →
  unrelayed (<[p := S (relayed rel p)]> rel) = unrelayed rel + -1.
Proof.
  intros Hp. unfold unrelayed. apply (sum_update _ _ _ p); [apply pairs_NoDup|done|..].
  - rewrite relayed_insert, decide_True by done. lia.
  - intros y Hy. by rewrite relayed_insert, decide_False.
Qed.

(** Relaying the next message: it is accepted and lowers the measure. *)
Lemma relay_accepted now s r d rel : honest_inv (mkNet d rel) → (s, r) ∈ pairs n →
  Z.of_nat (relayed rel (s, r)) < sequence_of d s →
  let d' := reader_turn now r (relay userhost s (privmsg_line run phase s (Z.of_nat (relayed rel (s, r))))) d in
  d_failure d' = None ∧ d_work d' = d_work d ∧ d_sequence d' = d_sequence d
  ∧ run_id (d_ledger d') = run ∧ d_clients d' = d_clients d
  ∧ waiters (changed (d_ledger d')) = []
  ∧ next (d_ledger d') = <[(phase, s, r) := Z.of_nat (relayed rel (s, r)) + 1]> (next (d_ledger d)).
Proof.
  intros [Hi Hr Hok Hw Hrel] Hp Hlt. simpl in *. pose proof Hp as (Hs & Hrn & Hne)%elem_of_pairs. simpl in *.
  pose proof (di_sequence _ _ _ _ _ Hi s Hs) as Hb.
  destruct (Hrel _ Hp) as [Hnext _]. simpl in Hnext. set (k := Z.of_nat (relayed rel (s, r))) in *.
  destruct (proj2 (di_sent _ _ _ _ _ Hi s k Hs) ltac:(lia)) as [stamp Hst].
  destruct (Hw r Hrn) as (c & Hc & _). pose proof (di_index _ _ _ _ _ Hi r c Hc) as Hix.
  unfold reader_turn. rewrite Hc. rewrite <-Hr. rewrite relay_honest, read_honest by (done || lia).
  destruct (honest_delivery now (d_ledger d) (userhost s) phase s r k count stamp) as (l' & E & Hnx & _);
    [rewrite Hr; apply Hrun|apply Hphase|done|by rewrite (di_n _ _ _ _ _ Hi)|done|lia
    |by apply (di_count _ _ _ _ _ Hi)|done|done|].
  rewrite Hix, E. simpl. pose proof E as E'. apply receive_effect in E' as [->|Hdel].
  { exfalso. rewrite Hnx in Hnext. rewrite lookup_insert_eq in Hnext. injection Hnext. lia. }
  split_and!; try done.
  - destruct Hdel as (? & ? & ? & ? & ? & _ & _ & _ & _ & _ & _ & ->). done.
  - by rewrite insert_id.
  - by eapply delivered_wakes.
Qed.

Lemma relay_honest_step now s r c line d rel : honest_inv (mkNet d rel) →
  (s, r) ∈ pairs (clients (d_ledger d)) → d_clients d !! s = Some c →
  written c !! (length (before s) + relayed rel (s, r))%nat = Some (line ++ CRLF) →
  let d' := reader_turn now r (relay userhost s line) d in
  let rel' := <[(s, r) := S (relayed rel (s, r))]> rel in
  d_failure d' = None ∧ honest_inv (mkNet d' rel') ∧ left_over (mkNet d' rel') < left_over (mkNet d rel).
Proof.
  intros Hx Hp Hc Hl. pose proof Hx as [Hi Hr Hok Hw Hrel]. simpl in *. rewrite (di_n _ _ _ _ _ Hi) in Hp.
  pose proof Hp as (Hs & Hrn & Hne)%elem_of_pairs. simpl in *.
  destruct (Hw s Hs) as (c0 & Hc0 & Hwr). assert (c0 = c) as -> by congruence.
  destruct (next_line s _ _ c line Hwr Hl) as [-> Hlt].
  destruct (relay_accepted now s r d rel Hx Hp Hlt) as (F1 & F2 & F3 & F4 & F5 & F6 & F7).
  pose proof (inv_reader phase count n windowed now r
    (relay userhost s (privmsg_line run phase s (Z.of_nat (relayed rel (s, r))))) d Hi Hrn) as Hi'.
  revert F1 F2 F3 F4 F5 F6 F7 Hi'. generalize (reader_turn now r
    (relay userhost s (privmsg_line run phase s (Z.of_nat (relayed rel (s, r))))) d).
  intros d' F1 F2 F3 F4 F5 F6 F7 Hi'.
  assert (Hseq : ∀ t, sequence_of d' t = sequence_of d t) by (intros t; unfold sequence_of; by rewrite F3).
  split; [done|]. split.
  - constructor; simpl; try done.
    + intros t Ht. rewrite F5, Hseq. by apply Hw.
    + intros p Hp'. rewrite F7, Hseq. destruct (Hrel p Hp') as [H1 H2].
      destruct (decide (p = (s, r))) as [->|Hpne].
      * rewrite relayed_insert, decide_True by done. simpl in *. rewrite lookup_insert_eq.
        split; [f_equal; lia|lia].
      * rewrite relayed_insert, decide_False by done. rewrite lookup_insert_ne by (destruct p; simpl in *; congruence). done.
  - unfold left_over. simpl. rewrite F2, unrelayed_succ by done.
    assert (unsent d' = unsent d) as -> by (unfold unsent; apply sum_ext; intros t _; by rewrite Hseq).
    pose proof (awake_nonneg d Hi). assert (awake d' = n + 1) as -> by (unfold awake; rewrite F6; simpl; lia).
    lia.
Qed.

Lemma honest_step_good x o : honest_inv x → step x o →
  ∃ y, o = inr y ∧ honest_inv y ∧ left_over y < left_over x.
Proof.
  intros Hx. destruct 1 as [now s d rel He|now d rel He|now s r c line d rel Hp Hc Hl].
  - destruct (sender_honest now d rel s Hx He) as (d' & -> & H). by exists (mkNet d' rel).
  - destruct (work_honest now d rel Hx He) as (d' & -> & H). by exists (mkNet d' rel).
  - destruct (relay_honest_step now s r c line d rel Hx Hp Hc Hl) as (Hf & H).
    cbv zeta. rewrite Hf. by eexists.
Qed.

(** *** Progress *)

Lemma relay_possible d rel s r : honest_inv (mkNet d rel) → (s, r) ∈ pairs n →
  Z.of_nat (relayed rel (s, r)) < sequence_of d s → ∃ o, step (mkNet d rel) o.
Proof.
  intros [Hi Hr Hok Hw Hrel] Hp Hlt. simpl in *. pose proof Hp as (Hs & _)%elem_of_pairs.
  destruct (Hw s Hs) as (c & Hc & Hwr). eexists.
  eapply (HonestRelay phase count userhost before 0 s r c (privmsg_line run phase s (Z.of_nat (relayed rel (s, r)))));
    [by rewrite (di_n _ _ _ _ _ Hi)|done|].
  rewrite Hwr, lookup_app_r by lia. replace (_ + _ - _)%nat with (relayed rel (s, r)) by lia.
  unfold wrote. rewrite list_lookup_fmap, lookup_seq_lt by lia. done.
Qed.

(** All relayed: a sender has credit, and after the last message the phase is
    complete. *)
Lemma all_relayed d rel : honest_inv (mkNet d rel) →
  (∀ p, p ∈ pairs n → Z.of_nat (relayed rel p) = sequence_of d p.1) →
  (∀ s, 0 ≤ s < n → credit (d_ledger d) phase s (sequence_of d s) WINDOW = true)
  ∧ ((∀ s, 0 ≤ s < n → sequence_of d s = count) → complete (d_ledger d) phase = true).
Proof.
  intros [Hi Hr Hok Hw Hrel] Hall. simpl in *. split.
  - intros s Hs. unfold credit. apply forallb_elem. intros r Hrr%elem_of_range.
    rewrite (di_n _ _ _ _ _ Hi) in Hrr. destruct (Z.eqb_spec r s) as [->|Hne]; [done|].
    assert (Hp : (s, r) ∈ pairs n) by (by apply elem_of_pairs).
    destruct (Hrel _ Hp) as [Hnx _]. simpl in Hnx. rewrite Hnx, (Hall _ Hp). simpl.
    apply Z.ltb_lt. unfold WINDOW. lia.
  - intros Hc. apply (complete_streams _ _ count);
      [rewrite (di_n _ _ _ _ _ Hi); lia|apply Hi|by apply (di_count _ _ _ _ _ Hi)|].
    rewrite (di_n _ _ _ _ _ Hi). intros s r Hs Hrr Hne.
    assert (Hp : (s, r) ∈ pairs n) by (by apply elem_of_pairs).
    destruct (Hrel _ Hp) as [Hnx _]. simpl in Hnx. by rewrite Hnx, (Hall _ Hp), Hc.
Qed.

Lemma pending_relay d rel : honest_inv (mkNet d rel) →
  (∃ o, step (mkNet d rel) o) ∨ ∀ p, p ∈ pairs n → Z.of_nat (relayed rel p) = sequence_of d p.1.
Proof.
  intros Hx. destruct (decide (Forall (λ p, Z.of_nat (relayed rel p) = sequence_of d p.1) (pairs n))) as [H|H].
  - right. by apply Forall_forall.
  - left. apply not_Forall_Exists in H; [|intros p; apply _]. apply Exists_exists in H as ([s r] & Hp & Hne).
    destruct (hi_relayed _ Hx _ Hp) as [_ Hle]. simpl in *. apply (relay_possible d rel s r Hx Hp). lia.
Qed.

(** Until the phase is drained, some task or the daemon can take a step. *)
Lemma honest_progress x : honest_inv x → d_work (n_driver x) = Drained ∨ ∃ o, step x o.
Proof.
  destruct x as [d rel]. intros Hx. destruct (pending_relay d rel Hx) as [Ho|Hall]; [by right|].
  pose proof (hi_driver _ Hx) as Hi. simpl in *.
  destruct (all_relayed d rel Hx Hall) as [Hcredit Hdone].
  assert (Hwork : work_enabled count d = true → ∃ o, step (mkNet d rel) o)
    by (intros He; eexists; by apply (HonestWork _ _ _ _ 0)).
  pose proof (di_work _ _ _ _ _ Hi) as Hwi. unfold work_enabled, work_inv in *.
  assert (Hready : ∀ t, ready d t = false → blocked phase count n d t).
  { intros t Ht. apply (di_blocked _ _ _ _ _ Hi). destruct (decide (t ∈ waiters (changed (d_ledger d))));
      [done|]. assert (ready d t = true) by (by apply ready_spec). congruence. }
  destruct (d_work d) eqn:Ew; [right; by apply Hwork| | |by left]; right.
  - destruct (gathered count d) eqn:Eg; [by apply Hwork|].
    apply not_true_iff_false in Eg. unfold gathered in Eg. rewrite forallb_elem in Eg.
    destruct (decide (Forall (λ s, count ≤ sequence_of d s) (range_ n))) as [H|H].
    + exfalso. apply Eg. rewrite (di_n _ _ _ _ _ Hi). intros s Hs. rewrite Forall_forall in H.
      apply Z.leb_le. by apply H.
    + apply not_Forall_Exists in H; [|intros s; apply _]. apply Exists_exists in H as (s & Hs%elem_of_range & Hq).
      cbn in Hq. apply Z.nle_gt in Hq.
      eexists. apply (HonestSender _ _ _ _ 0 s). split; [done|]. split; [by rewrite (di_n _ _ _ _ _ Hi)|].
      split; [|done]. apply not_false_iff_true. intros [(_ & _ & _ & Hb)|(-> & _)]%Hready; [|lia].
      rewrite Hcredit in Hb by done. done.
  - apply Hwork. apply not_false_iff_true. unfold MAIN. rewrite (di_n _ _ _ _ _ Hi).
    intros [(Ht & _)|(_ & _ & Hb)]%Hready; [lia|]. rewrite Hdone in Hb by done. done.
Qed.

End Run.

(** ** The theorem *)

(** The clients of the phase: one for each index, with what it wrote so far. *)
Definition connected (n : Z) (before : Z → list pybytes) (d : Driver) : Prop :=
  ∀ s, 0 ≤ s < n → ∃ c, d_clients d !! s = Some c ∧ written c = before s.

Lemma honest_start pilot phase run count n before d :
  starts pilot phase count n d → run_id (d_ledger d) = run → connected n before d →
  honest_inv phase run count n (is_sending d) before (mkNet d ∅).
Proof.
  intros Hst Hr Hc. pose proof (inv_start _ _ _ _ _ Hst) as Hi.
  destruct Hst as (l & cs & Hinv & Hn & Hw & Hs & Hix & Hcn & Hk & E). unfold start_phase in E.
  destruct (add_phase l phase count) as [e|l1] eqn:Ea; [done|]. injection E as <-.
  unfold add_phase in Ea. destruct (counts l !! phase) eqn:Ec; [done|]. injection Ea as <-.
  set (d := mkDriver _ _ _ _ _ _) in *.
  assert (Hq : ∀ s, sequence_of d s = 0).
  { intros s. unfold sequence_of. simpl. rewrite lookup_fmap. by destruct (cs !! s). }
  constructor; try done; cbn [n_driver n_relayed].
  - intros s Hss. destruct (Hc s Hss) as (c & Hcl & Hwr). exists c. split; [exact Hcl|].
    rewrite Hq. unfold wrote. simpl. by rewrite app_nil_r.
  - intros p Hp. rewrite Hq. unfold relayed. rewrite lookup_empty. split; [|simpl; lia].
    simpl. rewrite fold_lookup. simpl. rewrite <-Hn in Hp. rewrite decide_True; [done|].
    split; [done|]. by destruct p.
Qed.

(** C2: Every phase drains.  When the daemon relays each message to the other
    clients in the order it was sent, every schedule of the tasks and of the
    relayed lines, without any fairness, reaches the end of the drain: no
    sender and no reader fails, no task waits for ever, and the schedule is
    finite; and then every message has reached every other client. *)
Theorem phase_drains pilot phase count n userhost before d :
  starts pilot phase count n d → connected n before d →
  0 ≤ n ≤ 10 ^ 18 → count ≤ 10 ^ 18 →
  safe_field (run_id (d_ledger d)) → safe_field phase →
  (length (run_id (d_ledger d)) + length phase ≤ 400)%nat → (∀ s, 32 ∉ userhost s) →
  inevitably (honest_step phase count userhost before)
    (λ x, d_work (n_driver x) = Drained ∧ d_failure (n_driver x) = None
          ∧ received (d_ledger (n_driver x)) !! phase = Some (count * n * (n - 1)))
    (mkNet d ∅).
Proof.
  intros Hst Hc Hn Hcount Hrun Hph Hlen Hhost.
  assert (Hcnt : 0 ≤ count) by (destruct Hst as (? & ? & _ & _ & _ & _ & _ & H & _); exact H).
  pose proof (honest_start _ _ _ _ _ _ _ Hst eq_refl Hc) as Hi.
  revert Hi. generalize (mkNet d ∅). apply inevitably_measure with
    (I := honest_inv phase (run_id (d_ledger d)) count n (is_sending d) before)
    (m := left_over count n).
  - intros x. by apply left_over_nonneg.
  - intros x o. by apply honest_step_good.
  - intros x Hx. destruct (honest_progress phase (run_id (d_ledger d)) count n (is_sending d) userhost before Hn
      ltac:(lia) x Hx) as [Hd|Ho]; [|by right]. left. split; [done|]. split; [apply Hx|].
    pose proof (hi_driver _ _ _ _ _ _ _ Hx) as Hdi. pose proof (di_work _ _ _ _ _ Hdi) as Hw.
    unfold work_inv in Hw. rewrite Hd in Hw. unfold complete in Hw.
    pose proof (di_count _ _ _ _ _ Hdi) as Hcn.
    destruct (proj1 (di_ledger _ _ _ _ _ Hdi) phase count Hcn) as (_ & Hrec & _).
    rewrite Hrec, Hcn, (di_n _ _ _ _ _ Hdi) in *. simpl in Hw. apply Z.eqb_eq in Hw. by rewrite Hw.
Qed.

Lemma phase_drains_witness :
  ∃ d, start_phase false (u "burst") (new_ledger (u "0000") 2) two_clients 320 = inr d
    ∧ inevitably (honest_step (u "burst") 320 (λ _, bs "u@h") (λ _, []))
        (λ x, d_work (n_driver x) = Drained ∧ d_failure (n_driver x) = None
              ∧ received (d_ledger (n_driver x)) !! u "burst" = Some 640) (mkNet d ∅).
Proof.
  assert (E : ∃ l, add_phase (new_ledger (u "0000") 2) (u "burst") 320 = inr l ∧ run_id l = u "0000").
  { unfold add_phase. simpl. eexists. split; reflexivity. }
  destruct E as (l & E & Hrun). eexists. split; [unfold start_phase; rewrite E; reflexivity|].
  change 640 with (320 * 2 * (2 - 1)).
  apply (phase_drains false (u "burst") 320 2); cbn [d_ledger]; rewrite ?Hrun.
  - exists (new_ledger (u "0000") 2), two_clients. split; [apply new_ledger_inv|].
    split; [reflexivity|]. split; [reflexivity|]. split; [intros; apply lookup_empty|].
    split; [exact two_clients_index|]. split; [lia|]. split; [right; vm_compute; reflexivity|].
    unfold start_phase. rewrite E. reflexivity.
  - intros s Hs. cbn [d_clients]. assert (s = 0 ∨ s = 1) as [-> | ->] by lia; eexists;
      (split; [vm_compute; reflexivity|reflexivity]).
  - lia.
  - lia.
  - split; [split; [vm_compute; repeat constructor; discriminate|]|split];
      apply in_literal; vm_compute; reflexivity.
  - split; [split; [vm_compute; repeat constructor; discriminate|]|split];
      apply in_literal; vm_compute; reflexivity.
  - vm_compute. repeat constructor.
  - intros _. apply in_literal. vm_compute. reflexivity.
Defined.
