(* ===== verification/PhasesReport.v ===== *)
(** * tools/bench_live.py: barriers, records, diagnostics and the matrix

    What the driver of the retained phases reports: a barrier is resolved by
    the answer of the daemon, an accepted phase is accounted for, a diagnostic
    states the true progress, and the matrix passes exactly when every cell
    was measured. *)

From S2P Require Import Prelude PyStr PyBytes PyFloat Json Delivery DeliverySpec Bench BenchSpec Phases PhasesSpec.

(** ** From one phase to the next *)

Lemma start_phase_fresh pilot phase l cs count : counts l !! phase = None →
  ∃ d, start_phase pilot phase l cs count = inr d.
Proof. intros H. unfold start_phase, add_phase. rewrite H. by eexists. Qed.

(** The state a drained phase leaves is a state the next phase starts from:
    nobody is left waiting, and the ledger has every message accounted for. *)
Lemma phase_handover pilot phase count n d0 d pilot' phase' cs :
  starts pilot phase count n d0 → rtc (turn phase count) d0 d → d_work d = Drained →
  counts (d_ledger d) !! phase' = None → (∀ s i, sent (d_ledger d) !! (phase', s, i) = None) →
  (∀ r c, cs !! r = Some c → c_index c = r) →
  ∃ d', start_phase pilot' phase' (d_ledger d) cs (phase_count pilot' phase') = inr d'
    ∧ starts pilot' phase' (phase_count pilot' phase') n d'.
Proof.
  intros Hs%inv_start Hr Hd Hc Hsent Hix. pose proof (reach_inv _ _ _ _ _ _ Hs Hr) as Hi.
  destruct (start_phase_fresh pilot' phase' (d_ledger d) cs (phase_count pilot' phase') Hc) as [d' E].
  exists d'. split; [done|]. exists (d_ledger d), cs.
  split; [apply Hi|]. split; [apply (di_n _ _ _ _ _ Hi)|]. split.
  - apply (no_waiters _ _ _ _ d Hi). intros t [(_ & H & _)|(_ & H & _)]; congruence.
  - split; [done|]. split; [done|]. split; [|split; [by right|done]].
    unfold phase_count. repeat case_match; lia.
Qed.

(** ** Barriers *)

(** The answer of a daemon to a barrier. *)
Definition pong_line (server marker : pybytes) : pybytes :=
  (58 :: server) ++ 32 :: bs "PONG" ++ 32 :: server ++ 32 :: 58 :: marker.

Lemma rfind_no_space b : 32 ∉ b → rfind b [32; 58] = None.
Proof.
  induction b as [|x b IH]; [done|]. intros [Hx Hb]%not_elem_of_cons. cbn [rfind]. rewrite (IH Hb).
  cbn [startswith]. by rewrite (proj2 (Z.eqb_neq 32 x)).
Qed.

Lemma after_last_marker x marker : 32 ∉ marker → after_last_colon (x ++ 32 :: 58 :: marker) = marker.
Proof.
  intros Hm. unfold after_last_colon. assert (bs " :" = [32; 58]) as -> by (vm_compute; reflexivity).
  assert (E : rfind (x ++ 32 :: 58 :: marker) [32; 58] = Some (length x)).
  { induction x as [|y x IH]; [|cbn [app rfind length]; by rewrite IH]. cbn [app length].
    pose proof (rfind_no_space (58 :: marker) ltac:(apply not_elem_of_cons; done)) as H.
    cbn [rfind] in *. rewrite H. reflexivity. }
  rewrite E, drop_app_ge by lia. replace (length x + 2 - length x)%nat with 2%nat by lia. reflexivity.
Qed.

(** Reading the answer takes exactly its marker off the pending ones. *)
Lemma read_pong now c l server marker : 32 ∉ server → 32 ∉ marker →
  read_line now c l (pong_line server marker)
  = match pending_pongs c !! marker with
    | Some false => inr (set_pongs (delete marker (pending_pongs c)) c, l)
    | _ => inl (u "unexpected or duplicated PONG barrier")
    end.
Proof.
  intros Hs Hm. unfold read_line. cbv zeta. set (line := pong_line server marker).
  assert (E : line = (58 :: server) ++ 32 :: bs "PONG" ++ 32 :: (server ++ 32 :: 58 :: marker)) by reflexivity.
  assert (Hsp : 32 ∉ 58 :: server) by (by apply not_elem_of_cons).
  assert (E32 : bs " " = [32]) by (vm_compute; reflexivity).
  assert (H1 : split_max 1 (bs " ") line
    = [58 :: server; bs "PONG" ++ 32 :: (server ++ 32 :: 58 :: marker)]).
  { rewrite E, E32, split_max_word by exact Hsp. unfold split_max. by rewrite split_go_zero. }
  assert (H2 : ∃ rest, split (bs " ") line = (58 :: server) :: bs "PONG" :: rest).
  { rewrite E, E32, split_word by exact Hsp.
    rewrite split_word by (apply in_literal; vm_compute; reflexivity). by eexists. }
  assert (H3 : after_last_colon line = marker).
  { unfold line, pong_line. rewrite app_comm_cons, app_assoc, app_comm_cons, app_assoc.
    by apply after_last_marker. }
  assert (H4 : startswith line (bs ":") = true) by (unfold line, pong_line; generalize (server ++ 32 :: 58 :: marker);
    intros z; vm_compute; reflexivity).
  destruct H2 as [rest H2]. rewrite H1, H2, H3. cbn [hd_error from_opt].
  assert (Hping : str_eqb (bupper (58 :: server)) (bs "PING") = false) by (vm_compute; reflexivity).
  rewrite Hping. unfold command_of. rewrite H4.
  cbn [length Nat.ltb Nat.leb andb lookup list_lookup from_opt].
  assert (Hb : bupper (bs "PONG") = bs "PONG") by (vm_compute; reflexivity). rewrite Hb.
  assert (C1 : str_eqb (bs "PONG") (bs "ERROR") = false) by (vm_compute; reflexivity).
  assert (C2 : is_numeric (bs "PONG") = false) by (vm_compute; reflexivity).
  assert (C3 : str_eqb (bs "PONG") (bs "001") = false) by (vm_compute; reflexivity).
  assert (C4 : str_eqb (bs "PONG") (bs "366") = false) by (vm_compute; reflexivity).
  assert (C5 : str_eqb (bs "PONG") (bs "PONG") = true) by (vm_compute; reflexivity).
  rewrite C1, C2, C3, C4, C5. reflexivity.
Qed.

Lemma send_pongs c line c' : send c line = inr c' → pending_pongs c' = pending_pongs c.
Proof. unfold send. destruct (_ || _); [done|]. by intros [= <-]. Qed.

(** A barrier is over exactly when its answer arrives: it is pending once it
    is sent, its answer resolves it and leaves the other barriers as they
    were, and a second answer is refused. *)
Theorem barrier_resolves now c l server marker c' :
  32 ∉ server → 32 ∉ marker → barrier c marker = inr c' →
  pending_pongs c' !! marker = Some false
  ∧ ∃ c'', read_line now c' l (pong_line server marker) = inr (c'', l)
    ∧ pending_pongs c'' = pending_pongs c
    ∧ read_line now c'' l (pong_line server marker) = inl (u "unexpected or duplicated PONG barrier").
Proof.
  intros Hs Hm. unfold barrier. destruct (pending_pongs c !! marker) eqn:Ep; [done|].
  intros E%send_pongs. simpl in E. assert (Hp : pending_pongs c' !! marker = Some false)
    by (by rewrite E, lookup_insert_eq).
  split; [done|]. rewrite read_pong, Hp by done. eexists. split; [reflexivity|].
  rewrite read_pong by done. simpl. rewrite E, delete_insert_id by done. split; [done|].
  by rewrite Ep.
Qed.

(** ** Metrics *)

(** The metrics a phase is judged by are those of the first response with four
    active connections that covers every line sent, before the deadline. *)
Lemma phase_metrics_fresh target polls values :
  phase_metrics target polls = inr values →
  ∃ i text, polls !! i = Some (true, text) ∧ metric_values ∅ (splitlines text) = Some values
    ∧ metrics_fresh target values = true
    ∧ ∀ j p, (j < i)%nat → polls !! j = Some p →
        ∃ v, metric_values ∅ (splitlines p.2) = Some v ∧ metrics_fresh target v = false.
Proof.
  induction polls as [|[[] text] polls IH]; cbn [phase_metrics]; try done.
  destruct (metric_values ∅ (splitlines text)) as [v|] eqn:Ev; [|done].
  destruct (metrics_fresh target v) eqn:Ef.
  - intros [= <-]. exists O, text. split; [done|]. split; [done|]. split; [done|]. intros j p Hj. lia.
  - intros (i & t & H1 & H2 & H3 & H4)%IH. exists (S i), t.
    split; [done|]. split; [done|]. split; [done|]. intros [|j] p Hj Hp.
    + injection Hp as <-. by exists v.
    + apply (H4 j p); [lia|done].
Qed.

(** ** The record of a phase *)

Lemma coverage_unchanged before after tid a :
  coverage_changed before after = false → before !! tid = Some a →
  ∃ b, after !! tid = Some b ∧ t_start a = t_start b ∧ t_name a = t_name b ∧ t_ticks a ≤ t_ticks b.
Proof.
  unfold coverage_changed. intros [_ H]%orb_false_elim Ha. apply (not_true_iff_false _) in H.
  destruct (after !! tid) as [b|] eqn:Eb.
  - exists b. split; [done|].
    assert (Hb : negb (t_start a =? t_start b) || negb (str_eqb (t_name a) (t_name b))
                 || (t_ticks b <? t_ticks a) = false).
    { apply not_true_is_false. intros Hx. apply H, existsb_elem. exists (tid, a).
      split; [by apply elem_of_map_to_list|]. cbn [fst snd]. by rewrite Eb. }
    bool_hyps. split; [done|]. split; [by apply str_eqb_eq|done].
  - exfalso. apply H, existsb_elem. exists (tid, a). split; [by apply elem_of_map_to_list|].
    cbn [fst snd]. by rewrite Eb.
Qed.

Lemma phase_snapshot_inr pid mode values v : phase_cpu_snapshot pid mode values = inr v →
  v = values
  ∧ (∀ tid t, values !! tid = Some t → startswith (t_name t) (u "iou-sqp-") = true →
       t_name t = sq_name pid ∧ mode ≠ 0).
Proof.
  unfold phase_cpu_snapshot. destruct (snapshot pid mode 1 values) as [e|v0] eqn:E; [done|].
  apply snapshot_inr in E as [-> _]. destruct (_ || _) eqn:Eo; [done|]. intros [= <-].
  apply orb_false_elim in Eo as [E1 E2]. split; [done|]. intros tid t Ht Hsw.
  assert (Hin : (tid, t) ∈ List.filter (λ kv, startswith (t_name kv.2) (u "iou-sqp-")) (map_to_list values)).
  { apply list_elem_of_In, filter_In. split; [by apply list_elem_of_In, elem_of_map_to_list|done]. }
  split.
  - apply str_eqb_eq, not_false_iff_true. intros Hf. apply not_true_iff_false in E2. apply E2, existsb_elem.
    exists (tid, t). split; [done|]. cbn [snd]. by rewrite Hf.
  - intros ->. change (0 =? 0) with true in E1. cbv iota in E1. apply negb_false_iff, Nat.eqb_eq in E1.
    destruct (List.filter _ (map_to_list values)); [by apply elem_of_nil in Hin|done].
Qed.

(** A phase the driver reports is fully accounted for.  Every message of
    the four senders reached the three other clients; the reported processor
    time is the sum of one non-negative difference for each task of the
    daemon, none of which appeared, vanished, was replaced or renamed, and a
    later rediscovery found the same tasks; and a polling worker was seen only
    when polling was on. *)
Theorem phase_record_sound pid mode count phase l w r :
  phase_result pid mode count phase l w = inr r →
  clients l = 4 → counts l !! phase = Some count → complete l phase = true →
  pr_delivered r = pr_expected r ∧ pr_expected r = 3 * pr_authored r
  ∧ dom (wi_before w) = dom (wi_after w)
  ∧ (∀ tid a, wi_before w !! tid = Some a →
       (∃ b, wi_after w !! tid = Some b ∧ t_start a = t_start b ∧ t_name a = t_name b
          ∧ t_ticks a ≤ t_ticks b ∧ (tid, t_name b, t_ticks b - t_ticks a) ∈ pr_tasks r)
       ∧ (startswith (t_name a) (u "iou-sqp-") = true → mode ≠ 0))
  ∧ dom (wi_again w) = dom (wi_after w)
  ∧ pr_cpu_ticks r = sum_ticks (pr_tasks r)
  ∧ length (pr_tasks r) = size (wi_before w)
  ∧ 0 ≤ pr_sq_ticks r ≤ pr_cpu_ticks r.
Proof.
  intros E H4 Hc Hdone. unfold phase_result in E. accept E. injection E as <-.
  apply phase_snapshot_inr in Hv as [-> Hsq]. apply phase_snapshot_inr in Hv0 as [-> _].
  apply negb_true_iff in Hok. pose proof (λ tid a, coverage_unchanged _ _ tid a Hok) as Hcov.
  assert (Hdom : dom (wi_before w) = dom (wi_after w)).
  { unfold coverage_changed, same_keys in Hok. apply orb_false_elim in Hok as [Hk _]. by bool_hyps. }
  assert (Hagain : dom (wi_again w) = dom (wi_after w)).
  { unfold phase_verify_cpu_discovery in Hv1. apply then_inr in Hv1 as (fresh & Hf & Hv1).
    apply phase_snapshot_inr in Hf as [-> _]. destruct (_ || _) eqn:Eo; [discriminate|].
    apply orb_false_elim in Eo as [Hk _]. unfold same_keys in Hk. by bool_hyps. }
  assert (Hpos : Forall (λ d, 0 ≤ d.2) (task_deltas (wi_before w) (wi_after w))).
  { apply Forall_forall. intros d (a & b & Ha & Hb & _ & ->)%deltas_elem.
    destruct (Hcov _ _ Ha) as (b' & Hb' & _ & _ & Ht). assert (b' = b) as -> by congruence. lia. }
  cbn [pr_delivered pr_expected pr_authored pr_tasks pr_cpu_ticks pr_sq_ticks].
  unfold complete in Hdone. rewrite Hc, H4 in Hdone. apply Z.eqb_eq in Hdone. cbn [from_opt] in Hdone.
  split; [lia|]. split; [lia|]. split; [exact Hdom|]. split; [|split; [exact Hagain|split; [done|split]]].
  - intros tid a Ha. split; [|intros Hs; by apply (Hsq tid a Ha Hs)].
    destruct (Hcov tid a Ha) as (b & Hb & H1 & H2 & H3). exists b. split; [done|]. split; [done|].
    split; [done|]. split; [done|]. apply deltas_elem. by exists a, b.
  - unfold task_deltas. rewrite length_omap_all; [apply length_map_to_list|].
    intros [tid a] Ha%elem_of_map_to_list. destruct (Hcov tid a Ha) as (b & Hb & _). cbn [fst snd].
    rewrite Hb. by eexists.
  - by apply sum_ticks_filter.
Qed.

(** ** The diagnostic *)

Lemma extreme_min l x : x ∈ l → ∃ m, extreme Z.min l = Some m ∧ m ≤ x ∧ m ∈ l.
Proof.
  destruct l as [|y l]; [by intros ?%elem_of_nil|]. intros Hx. eexists. split; [done|].
  assert (H : ∀ l y, (∀ x, x ∈ y :: l → foldl Z.min y l ≤ x) ∧ foldl Z.min y l ∈ y :: l).
  { clear. induction l as [|z l IH]; intros y; simpl.
    - split; [intros x [->|H]%elem_of_cons; [lia|by apply elem_of_nil in H]|left].
    - destruct (IH (Z.min y z)) as [H1 H2]. split.
      + intros x [->|[->|Hx]%elem_of_cons]%elem_of_cons; [| |apply H1; by right];
          (transitivity (Z.min y z); [apply H1; left|lia]).
      + apply elem_of_cons in H2 as [H2|H2]; [|by do 2 right]. rewrite H2.
        destruct (Z.min_spec y z) as [[_ ->]|[_ ->]]; [left|right; left]. }
  split; apply H. done.
Qed.

Lemma extreme_max l x : x ∈ l → ∃ m, extreme Z.max l = Some m ∧ x ≤ m ∧ m ∈ l.
Proof.
  destruct l as [|y l]; [by intros ?%elem_of_nil|]. intros Hx. eexists. split; [done|].
  assert (H : ∀ l y, (∀ x, x ∈ y :: l → x ≤ foldl Z.max y l) ∧ foldl Z.max y l ∈ y :: l).
  { clear. induction l as [|z l IH]; intros y; simpl.
    - split; [intros x [->|H]%elem_of_cons; [lia|by apply elem_of_nil in H]|left].
    - destruct (IH (Z.max y z)) as [H1 H2]. split.
      + intros x [->|[->|Hx]%elem_of_cons]%elem_of_cons; [| |apply H1; by right];
          (transitivity (Z.max y z); [lia|apply H1; left]).
      + apply elem_of_cons in H2 as [H2|H2]; [|by do 2 right]. rewrite H2.
        destruct (Z.max_spec y z) as [[_ ->]|[_ ->]]; [right; left|left]. }
  split; apply H. done.
Qed.

Lemma stream_positions_elem l active k :
  k ∈ stream_positions l active ↔ ∃ s r, next l !! (active, s, r) = Some k.
Proof.
  unfold stream_positions. rewrite list_elem_of_fmap. split.
  - intros ([[[ph s] r] k'] & -> & Hin). apply list_elem_of_In, filter_In in Hin as [Hin Hf].
    apply list_elem_of_In, elem_of_map_to_list in Hin. cbn [fst snd] in *. apply str_eqb_eq in Hf as ->.
    by exists s, r.
  - intros (s & r & H). exists (active, s, r, k). split; [done|]. apply list_elem_of_In, filter_In.
    split; [by apply list_elem_of_In, elem_of_map_to_list|]. apply str_eqb_refl.
Qed.

(** The diagnostic of a failure in a registered phase states its true
    progress: the least and the greatest position of its streams are those of
    some stream and bound all of them, none is past the number of messages,
    and what was received is what the streams hold. *)
Theorem diagnostic_true p l cs readers failed total :
  ledger_inv l → 2 ≤ clients l → counts l !! pg_phase p = Some total →
  let g := failure_diagnostic p l cs readers failed in
  ∃ least most, dg_min g = Some least ∧ dg_max g = Some most
    ∧ 0 ≤ least ≤ most ∧ most ≤ total
    ∧ (∀ s r k, next l !! (pg_phase p, s, r) = Some k → least ≤ k ≤ most)
    ∧ (∃ s r, next l !! (pg_phase p, s, r) = Some least)
    ∧ (∃ s r, next l !! (pg_phase p, s, r) = Some most)
    ∧ dg_expected_received g = Some (total * clients l * (clients l - 1))
    ∧ dg_received g = Some (sum_Z (position l (pg_phase p) <$> pairs (clients l))).
Proof.
  intros [Hph Hdom] Hn Hc g. destruct (Hph _ _ Hc) as (_ & Hrec & Hpos & _).
  assert (Hbound : ∀ s r k, next l !! (pg_phase p, s, r) = Some k → 0 ≤ k ≤ total).
  { intros s r k Hk. destruct (Hdom _ _ _ _ Hk) as [_ Hp]. destruct (Hpos _ Hp) as (k' & Hk' & Hb & _).
    simpl in Hk'. rewrite Hk in Hk'. injection Hk' as <-. exact Hb. }
  destruct (Hpos (0, 1)) as (k0 & Hk0 & _); [apply elem_of_pairs; simpl; lia|]. simpl in Hk0.
  assert (Hin : k0 ∈ stream_positions l (pg_phase p)) by (apply stream_positions_elem; eauto).
  destruct (extreme_min _ _ Hin) as (least & Hl & _ & Hle%stream_positions_elem).
  destruct (extreme_max _ _ Hin) as (most & Hm & _ & Hme%stream_positions_elem).
  assert (Hall : ∀ s r k, next l !! (pg_phase p, s, r) = Some k → least ≤ k ≤ most).
  { intros s r k Hk. assert (Hk' : k ∈ stream_positions l (pg_phase p)) by (apply stream_positions_elem; eauto).
    destruct (extreme_min _ _ Hk') as (a & Ha & ? & _). destruct (extreme_max _ _ Hk') as (b & Hb & ? & _).
    assert (a = least) as -> by congruence. assert (b = most) as -> by congruence. done. }
  exists least, most. split; [exact Hl|]. split; [exact Hm|].
  destruct Hle as (s1 & r1 & Hle), Hme as (s2 & r2 & Hme).
  pose proof (Hbound _ _ _ Hle). pose proof (Hbound _ _ _ Hme). pose proof (Hall _ _ _ Hle).
  split; [lia|]. split; [lia|]. split; [done|]. split; [by exists s1, r1|]. split; [by exists s2, r2|].
  split; [simpl; by rewrite Hc|]. exact Hrec.
Qed.

(** ** The matrix *)

Section MatrixSpec.
Context (cell : Z → Z → failing (failing (list PhaseResult))).

Definition key (r : CellRecord) : Z * Z := (cr_repetition r, cr_mode r).

(** The records are those of a prefix of the plan, in its order; each holds
    what its cell gave, and only the last may be a failure. *)
Definition prefix_run (plan : list (Z * Z)) (records : list CellRecord) : Prop :=
  (∃ rest, plan = (key <$> records) ++ rest
           ∧ (forallb cell_ok records = true → rest = []))
  ∧ Forall (λ r, cell (cr_repetition r) (cr_mode r) = inr (cr_outcome r)) records
  ∧ forallb cell_ok (removelast records) = true.

Lemma prefix_nil : prefix_run [] [].
Proof. split; [by exists []|]. by split. Qed.

(** A run whose records are all good continues with another. *)
Lemma prefix_app p1 p2 r1 r2 : prefix_run p1 r1 → forallb cell_ok r1 = true → prefix_run p2 r2 →
  prefix_run (p1 ++ p2) (r1 ++ r2).
Proof.
  intros [(rest1 & H1 & Hr1) [F1 L1]] Hok [(rest2 & -> & Hr2) [F2 L2]].
  rewrite (Hr1 Hok), app_nil_r in H1. subst p1. split; [|split].
  - exists rest2. rewrite fmap_app, <-app_assoc. split; [done|]. by rewrite forallb_app, Hok.
  - by apply Forall_app.
  - destruct r2 as [|x r2]; [by rewrite app_nil_r|]. rewrite removelast_app by done.
    by rewrite forallb_app, Hok.
Qed.

(** A run that ended with a failure stays the prefix of a longer plan. *)
Lemma prefix_stop p1 p2 r1 : prefix_run p1 r1 → forallb cell_ok r1 = false →
  prefix_run (p1 ++ p2) r1.
Proof.
  intros [(rest1 & -> & _) [F1 L1]] Hok. split; [|by split].
  exists (rest1 ++ p2). rewrite app_assoc. split; [done|]. congruence.
Qed.

Lemma forallb_false {A} (f : A → bool) l : existsb (λ x, negb (f x)) l = negb (forallb f l).
Proof. induction l as [|x l IH]; [done|]. simpl. rewrite IH. by destruct (f x). Qed.

Lemma run_modes_prefix r modes : ∀ acc plan out,
  prefix_run plan acc → forallb cell_ok acc = true →
  run_modes cell r modes acc = inr out → prefix_run (plan ++ ((λ m, (r, m)) <$> modes)) out.
Proof.
  induction modes as [|m modes IH]; intros acc plan out Hp Hok; cbn [run_modes].
  - intros [= <-]. by rewrite app_nil_r.
  - intros (outcome & Hcell & E)%then_inr. cbv zeta in E. set (rec := mkCellRecord r m outcome) in *.
    assert (H1 : cell_ok rec = true → prefix_run (plan ++ [(r, m)]) (acc ++ [rec])).
    { intros _. apply prefix_app; [done|done|]. split; [by exists []|]. split; [by constructor|done]. }
    assert (Hcons : plan ++ ((λ m, (r, m)) <$> m :: modes)
                    = (plan ++ [(r, m)]) ++ ((λ m, (r, m)) <$> modes)) by (by rewrite <-app_assoc).
    rewrite Hcons. destruct (cell_ok rec) eqn:Er.
    + apply (IH (acc ++ [rec])); [by apply H1| |done]. rewrite forallb_app, Hok. simpl. by rewrite Er.
    + injection E as <-. apply prefix_stop.
      * apply prefix_app; [done|done|]. split; [by exists []|]. split; [by constructor|done].
      * rewrite forallb_app, Hok. simpl. by rewrite Er.
Qed.

(** The plan: repetitions, with the modes in alternating order. *)
Definition plan_of (modes repetitions : list Z) : list (Z * Z) :=
  r ← repetitions; (λ m, (r, m)) <$> order_of modes r.

Lemma run_repetitions_prefix modes reps : ∀ acc plan out,
  prefix_run plan acc → forallb cell_ok acc = true →
  run_repetitions cell modes reps acc = inr out → prefix_run (plan ++ plan_of modes reps) out.
Proof.
  induction reps as [|r reps IH]; intros acc plan out Hp Hok; cbn [run_repetitions].
  - intros [= <-]. by rewrite app_nil_r.
  - intros (recs & Hm & E)%then_inr.
    pose proof (run_modes_prefix r (order_of modes r) acc plan recs Hp Hok Hm) as H1.
    unfold plan_of. rewrite bind_cons. fold (plan_of modes reps). rewrite app_assoc.
    rewrite forallb_false in E. destruct (forallb cell_ok recs) eqn:Er.
    + by apply (IH recs).
    + injection E as <-. by apply prefix_stop.
Qed.

Lemma length_plan modes reps :
  Z.of_nat (length (plan_of modes reps)) = Z.of_nat (length reps) * Z.of_nat (length modes).
Proof.
  induction reps as [|r reps IH]; [done|]. unfold plan_of. rewrite bind_cons, length_app, length_fmap.
  fold (plan_of modes reps). rewrite Nat2Z.inj_add, IH.
  assert (length (order_of modes r) = length modes) as ->; [|simpl; lia].
  unfold order_of. destruct (_ =? 0); [done|apply length_rev].
Qed.
End MatrixSpec.

(** The retained-phase matrix reports what it measured.  The records are
    those of the cells run, in the planned order (repetitions, with the modes
    reversed in every second one), each with the outcome of its cell; a
    failure ends the run at once.  The exit status is zero exactly when every
    planned cell was measured and none failed; and a run that returns at all
    was given the digest of the captured binary and unchanged inputs. *)
Theorem phase_matrix_reports cell a artifact unchanged records code :
  run_phase_matrix cell a artifact unchanged = inr (records, code) →
  let plan := plan_of (ma_modes a) (range_ (ma_repetitions a)) in
  (∃ rest, plan = (key <$> records) ++ rest)
  ∧ Forall (λ r, cell (cr_repetition r) (cr_mode r) = inr (cr_outcome r)) records
  ∧ forallb cell_ok (removelast records) = true
  ∧ (code = 0 ↔ key <$> records = plan ∧ forallb cell_ok records = true)
  ∧ ma_expected a = Some artifact ∧ unchanged = true.
Proof.
  intros E plan. unfold run_phase_matrix in E. accept E. injection E as <- <-.
  destruct (run_repetitions_prefix cell _ _ [] [] v (prefix_nil cell) eq_refl Hv)
    as [(rest & Hplan & Hrest) [HF HL]]. change ([] ++ ?x) with x in Hplan. fold plan in Hplan.
  split; [by exists rest|]. split; [done|]. split; [done|]. split.
  - assert (Hlen : Z.of_nat (length plan) = ma_repetitions a * Z.of_nat (length (ma_modes a))).
    { unfold plan. rewrite length_plan. unfold range_. rewrite length_fmap, length_seq.
      unfold matrix_args_ok in Hok0. bool_hyps. lia. }
    rewrite <-Hlen. destruct (forallb cell_ok v) eqn:Eok.
    + rewrite Hrest, app_nil_r in Hplan by done. rewrite Hplan, length_fmap, Z.eqb_refl. done.
    + rewrite andb_false_r. split; [done|by intros [_ ?]].
  - destruct (ma_expected a) as [e|]; [|discriminate]. apply andb_prop in Hok as [_ ->%str_eqb_eq]. done.
Qed.

(** Two repetitions of two modes; the third cell fails. *)
Definition third_fails (r m : Z) : failing (failing (list PhaseResult)) :=
  inr (if (r =? 1) && (m =? 10) then inl (u "phase deadline expired") else inr []).

Lemma phase_matrix_reports_witness :
  ∃ records, run_phase_matrix third_fails (mkMatrixArgs (Some (u "ab")) true 2 [0; 10]) (u "ab") true
             = inr (records, 1)
    ∧ key <$> records = [(0, 0); (0, 10); (1, 10)]
    ∧ forallb cell_ok (removelast records) = true.
Proof.
  eexists. assert (E : run_phase_matrix third_fails (mkMatrixArgs (Some (u "ab")) true 2 [0; 10]) (u "ab") true
    = inr ([mkCellRecord 0 0 (inr []); mkCellRecord 0 10 (inr []);
            mkCellRecord 1 10 (inl (u "phase deadline expired"))], 1)) by (vm_compute; reflexivity).
  split; [exact E|]. split; [reflexivity|].
  apply (phase_matrix_reports third_fails _ _ _ _ _ E).
Defined.

(** A pilot burst of four clients with one task of the daemon. *)
Definition quiet_window : Window :=
  let before : tasks := {[ 7 := mkTask (u "onyx") 4 9 ]} in
  let after : tasks := {[ 7 := mkTask (u "onyx") 6 9 ]} in
  let m : gmap pystr Z := {[ u "onyx_messages_in_total" := 3; u "onyx_bytes_out_total" := 5 ]} in
  mkWindow before after after 1000 10 m m.

Definition drained_ledger : DeliveryLedger :=
  mkLedger (u "0000") 4 {[ u "burst" := 2 ]} ∅ ∅ {[ u "burst" := 24 ]} {[ u "burst" := [] ]} new_event.

Lemma phase_record_sound_witness :
  ∃ r, phase_result 7 0 2 (u "burst") drained_ledger quiet_window = inr r
    ∧ pr_delivered r = pr_expected r ∧ pr_expected r = 3 * pr_authored r.
Proof.
  destruct (phase_result 7 0 2 (u "burst") drained_ledger quiet_window) as [e|r] eqn:E;
    [vm_compute in E; discriminate|].
  exists r. split; [reflexivity|].
  destruct (phase_record_sound 7 0 2 (u "burst") drained_ledger quiet_window r E) as (H1 & H2 & _);
    [reflexivity|vm_compute; reflexivity|vm_compute; reflexivity|].
  exact (conj H1 H2).
Defined.
