(* ===== verification/Alpine.v ===== *)
(** * tools/alpine_package/driver.py: the package test in an Alpine guest

    The driver boots a disposable guest, reads its serial console, captures
    private service logs, checks the diagnostics against them and decides
    whether the package test passed.  The file system, the guest's output and
    the process results are arguments; SHA-256 is the parameter [sha256]. *)

From S2P Require Import Prelude PyStr Regex Base64.

(** ** Constants *)

Definition ISO_PIN : pystr := u "cdc1bc0efc64d8d611bf3733f54868172a545888dfd726f518bf279bcb0ff1af".
Definition MAX_SIZE : Z := 512 * 1024 * 1024.

Definition RUNTIME_CODES : list pystr := split_ws (u "outside_workspace private_directory shared_directory invalid_regular_file invalid_file_owner input_pin origin_pin origin_binding service_diagnostic_bound service_transfer_invalid service_transfer_truncated service_transfer_missing prerequisites output_exists input_copy unexpected_output output_bound output_changed output_digest").

Definition FAILS : list pystr := split_ws (u "cleanup_daemon cleanup_syslog runtime_guard runtime_guard_setup boot_socket_type boot_syslog_status boot_syslog_identity boot_socket_owner boot_syslog_stop boot_syslog_retirement boot_stale_identity boot_socket_binding boot_stale_remove syslog_ready prereq openssl_prereq keygen account build build_limit build_input build_output install signature_trusted signature_wrong_key signature_unsigned_setup signature_unsigned signature_tamper_setup signature_tampered signature_mutation system_layout snapshot preflight new_identity upgrade preservation daemon identity_load service_setup service_start service_stop custody missing_identity_start unrelated_maintenance guest_mount_or_script identity_capture profile_source profile_refusal helix_client helix_exec helix_socket helix_carry").

(** The exceptions [main] distinguishes. *)
Inductive exn :=
| RuntimeError (code : pystr)
| OSError (errno : option Z)
| TimeoutExpired
| CalledProcessError (returncode : option Z)
| SubprocessError
| FormatError.                        (* ValueError, IndexError, KeyError, UnicodeError *)

Abbreviation may A := (exn + A)%type.

Notation "x <-# m ;; k" := (match m with inl e => inl e | inr x => k end)
  (at level 100, m at next level, k at level 200, right associativity).

Definition check (ok : bool) (code : pystr) : may unit :=
  if ok then inr tt else inl (RuntimeError code).

(** ** Files *)

Record Stat := mkStat {
  st_reg : bool; st_dir : bool; st_nlink : Z; st_size : Z; st_uid : Z; st_mode : Z;
  st_dev : Z; st_ino : Z }.

Definition regular (info : Stat) (owner : option Z) (bound : Z) : may Stat :=
  if negb (st_reg info) || negb (st_nlink info =? 1) || (st_size info <=? 0) || (bound <? st_size info)
  then inl (RuntimeError (u "invalid_regular_file"))
  else match owner with
       | Some uid => if negb (st_uid info =? uid) then inl (RuntimeError (u "invalid_file_owner"))
                     else inr info
       | None => inr info
       end.

(** Paths are absolute, as lists of components. *)
Abbreviation path := (list (list Z)) (only parsing).
Definition WORKSPACE : path := [u "home"; u "kain"; u "onyx-server"].

Definition is_relative_to (p q : path) : bool := bool_decide (take (length q) p = q).

(** What the system answers: a value or the number of an [OSError]. *)
Abbreviation sys A := (option Z + A)%type.

Definition os {A} (v : sys A) : may A := match v with inl errno => inl (OSError errno) | inr a => inr a end.

(** The resolution of a path, the outcome of [mkdir] (whether the directory
    was created; it may exist already) and the status of a path afterwards. *)
Record Fs := mkFs {
  resolve : path → sys path;
  mkdir : path → sys bool;
  lstat : path → sys Stat;
  geteuid : Z }.

Definition private_directory (fs : Fs) (p : path) : may path :=
  parent <-# os (resolve fs (removelast p)) ;;
  _ <-# check (is_relative_to parent WORKSPACE && bool_decide (parent = removelast p))
          (u "outside_workspace") ;;
  _ <-# os (mkdir fs p) ;;
  info <-# os (lstat fs p) ;;
  _ <-# check (st_dir info && (st_uid info =? geteuid fs) && (Z.land (st_mode info) 63 =? 0))
          (u "private_directory") ;;
  resolved <-# os (resolve fs p) ;;
  _ <-# check (is_relative_to resolved WORKSPACE) (u "outside_workspace") ;;
  inr resolved.

(** ** Frames and diagnostics *)

#[local] Open Scope re_scope.

(** A group of alternative words. *)
Definition words (n : nat) (s : pybytes) : re := RGroup n (alts (lit <$> split_ws s)).
Definition digits (n : nat) (hi : nat) : re := RGroup n (rep 1 hi (RChr d09)).
Definition sp : re := lit [32].
Definition cr : re := opt (lit [13]).
Definition b64_class (c : Z) : bool := az c || AZ c || d09 c || (c =? 43) || (c =? 47) || (c =? 61).

Definition MODES : pybytes := bs "file inline env ref".
Definition PHASES : pybytes := bs "runtime_denied initial missing_before missing_after postupgrade mode_file mode_inline mode_env mode_ref cleanup".

Definition BANNER : pybytes := bs "onyx-server: strict service identity source: existing_keyfile".

Definition classify_identity (data : pybytes) : pystr :=
  if contains data (bs "node identity generated + persisted to ") then u "generated"
  else if (length (List.filter (str_eqb BANNER) (bsplitlines data)) =? 1)%nat
  then u "strict_validated" else u "other".

(** The repetition bound 87384 of the payload is tested on the group. *)
Definition FRAME_BOUND : Z := 87384.

Definition SERVICE_FRAME : re :=
  RAssert at_bol @@ lit (bs "ONYX_PRIVATE_SERVICE ") @@ words 1 (PHASES ++ bs " identity")
  @@ sp @@ words 2 (bs "start status stop probe")
  @@ sp @@ RGroup 3 (star (RChr b64_class)) @@ cr @@ RAssert at_dollar.

Definition PROFILE_FRAME : re :=
  RAssert at_bol @@ lit (bs "ONYX_PRIVATE_PROFILE ") @@ words 1 MODES
  @@ sp @@ RGroup 2 (star (RChr b64_class)) @@ cr @@ RAssert at_dollar.

#[local] Close Scope re_scope.

Definition frame (r : re) (payload : nat) (line : pybytes) : option mst :=
  match rfullmatch r line with
  | Some m => if Z.of_nat (length (group_ payload m)) <=? FRAME_BOUND then Some m else None
  | None => None
  end.

(** ** Captures *)

Record Capture := mkCapture {
  c_phase : pybytes; c_operation : pybytes; c_bytes : Z; c_sha256 : pystr;
  c_identity : option pystr }.
Record Profile := mkProfile { p_mode : pybytes; p_bytes : Z; p_sha256 : pystr }.

(** The private directory: the names of the files created in it and their
    content. *)
Abbreviation files := (gmap (list Z) (list Z)) (only parsing).

(** Exclusive creation of a file. *)
Definition create (fs : files) (name : pystr) (data : pybytes) : may files :=
  match fs !! name with
  | Some _ => inl (OSError (Some 17))
  | None => inr (<[name := data]> fs)
  end.

Definition c_name (c : Capture) : pybytes * pybytes := (c_phase c, c_operation c).
Definition INVALID : pystr := u "service_transfer_invalid".
Definition BOUND : pystr := u "service_diagnostic_bound".
Definition MISSING : pystr := u "service_transfer_missing".

Definition PROBE : pybytes * pybytes := (bs "identity", bs "probe").

(** The decoded payload of a frame. *)
Definition payload (encoded : pybytes) : may pybytes :=
  match b64decode encoded with
  | None => inl (RuntimeError INVALID)
  | Some data =>
    if (65536 <? Z.of_nat (length data)) || negb (str_eqb (b64encode data) encoded)
    then inl (RuntimeError INVALID) else inr data
  end.

Definition service_file (phase operation : pybytes) : pystr := phase ++ u "." ++ operation ++ u ".log".
Definition profile_file (mode : pybytes) : pystr := u "profile-" ++ mode ++ u ".log".

Section Driver.
Context (sha256 : pybytes → pystr).

Definition capture_service (line : pybytes) (st : files * list Capture) : may (files * list Capture) :=
  let '(fs, captures) := st in
  match frame SERVICE_FRAME 3 line with
  | None => inl (RuntimeError INVALID)
  | Some m =>
    let phase := group_ 1 m in
    let operation := group_ 2 m in
    _ <-# check (Bool.eqb (str_eqb phase (bs "identity")) (str_eqb operation (bs "probe"))) INVALID ;;
    _ <-# check (negb (bool_decide ((phase, operation) ∈ c_name <$> captures))
                 && (length captures <? 32)%nat) INVALID ;;
    data <-# payload (group_ 3 m) ;;
    fs' <-# create fs (service_file phase operation) data ;;
    inr (fs', captures ++ [mkCapture phase operation (Z.of_nat (length data)) (sha256 data)
      (if str_eqb phase (bs "identity") then Some (classify_identity data) else None)])
  end.

Definition capture_profile (line : pybytes) (st : files * list Profile) : may (files * list Profile) :=
  let '(fs, captures) := st in
  match frame PROFILE_FRAME 2 line with
  | None => inl (RuntimeError INVALID)
  | Some m =>
    let mode := group_ 1 m in
    _ <-# check (negb (bool_decide (mode ∈ p_mode <$> captures)) && (length captures <? 4)%nat) INVALID ;;
    data <-# payload (group_ 2 m) ;;
    fs' <-# create fs (profile_file mode) data ;;
    inr (fs', captures ++ [mkProfile mode (Z.of_nat (length data)) (sha256 data)])
  end.

End Driver.

(** ** Reading the diagnostics *)

Definition lines_with (prefix buffer : pybytes) : list pybytes :=
  List.filter (λ line, startswith line prefix) (bsplitlines buffer).

Definition int_of_group (m : mst) (n : nat) : Z := from_opt 0 (bint (group_ n m)).

Record Helix := mkHelix {
  h_mode : pybytes; h_pid : Z; h_start : Z; h_client : Z; h_server : Z; h_device : Z; h_inode : Z;
  h_carry : Z }.

#[local] Open Scope re_scope.

Definition HELIX : re :=
  lit (bs "ONYX_HELIX ") @@ words 1 MODES @@ sp @@ digits 2 10 @@ sp @@ digits 3 20 @@ sp
  @@ digits 4 20 @@ sp @@ digits 5 20 @@ sp @@ digits 6 20 @@ lit (bs ":") @@ digits 7 20
  @@ lit (bs " strict ") @@ RGroup 8 (RChr (one_of (bs "01"))) @@ lit (bs " same") @@ cr.

#[local] Close Scope re_scope.

Definition helix_row (line : pybytes) : may Helix :=
  match rfullmatch HELIX line with
  | None => inl (RuntimeError BOUND)
  | Some m =>
    inr (mkHelix (group_ 1 m) (int_of_group m 2) (int_of_group m 3) (int_of_group m 4)
           (int_of_group m 5) (int_of_group m 6) (int_of_group m 7) (int_of_group m 8))
  end.

Definition helix_ok (h : Helix) : bool :=
  (1 <? h_pid h) && (0 <? h_start h) && (0 <? h_client h) && (0 <? h_server h)
  && (0 <? h_device h) && (0 <? h_inode h) && negb (h_client h =? h_server h)
  && (h_carry h =? (if str_eqb (h_mode h) (bs "env") then 1 else 0)).

Fixpoint helix_rows (rows : list Helix) (lines : list pybytes) : may (list Helix) :=
  match lines with
  | [] => inr rows
  | line :: lines =>
    h <-# helix_row line ;;
    _ <-# check (negb (bool_decide (h_mode h ∈ h_mode <$> rows)) && helix_ok h) BOUND ;;
    helix_rows (rows ++ [h]) lines
  end.

Definition parse_helix_observations (buffer : pybytes) : may (list Helix) :=
  rows <-# helix_rows [] (lines_with (bs "ONYX_HELIX") buffer) ;;
  _ <-# check (length rows =? 4)%nat MISSING ;;
  inr rows.

#[local] Open Scope re_scope.

Definition SOCKET : re :=
  lit (bs "ONYX_DIAG socket ") @@ words 1 MODES @@ sp
  @@ words 2 (bs "client_multiple client_absent server_multiple server_absent table_unreadable") @@ sp
  @@ RGroup 3 (lit (bs "unknown") </> rep 1 3 (RChr d09)) @@ sp
  @@ RGroup 4 (lit (bs "unknown") </> rep 1 3 (RChr d09)) @@ sp
  @@ digits 5 3 @@ sp @@ digits 6 3 @@ lit (bs " initial") @@ cr.

Definition APK : re :=
  lit (bs "ONYX_DIAG apkphase ") @@ words 1 (bs "old new") @@ sp
  @@ words 2 (bs "source copy capability") @@ sp
  @@ words 3 (bs "invalid_file setup copy_failed chmod_failed hash_mismatch command_failed oversized missing_token read_error")
  @@ sp @@ digits 4 3 @@ cr.

Definition PROFILE : re :=
  lit (bs "ONYX_PROFILE ") @@ words 1 MODES @@ lit (bs " strict socket exe carry pass") @@ cr.

Definition SERVICE_DIAG : re :=
  lit (bs "ONYX_DIAG service ") @@ words 1 PHASES @@ sp @@ words 2 (bs "start status stop") @@ sp
  @@ digits 3 3 @@ sp @@ digits 4 3 @@ sp @@ digits 5 3 @@ sp @@ digits 6 3 @@ sp
  @@ words 7 (bs "started stopped stopping starting inactive crashed unknown") @@ sp
  @@ words 8 (bs "present absent") @@ sp
  @@ words 9 (bs "other truncated permission runtime_preflight identity_guard config dependency supervisor already").

Definition CUSTODY_DIAG : re :=
  lit (bs "ONYX_DIAG custody ") @@ words 1 PHASES @@ sp @@ words 2 (bs "start status stop") @@ sp
  @@ words 3 (bs "present absent unknown") @@ sp @@ words 4 (bs "valid absent invalid unknown") @@ sp
  @@ words 5 (bs "valid absent invalid unknown").

#[local] Close Scope re_scope.

Record Socket := mkSocket {
  s_mode : pybytes; s_stage : pybytes; s_tcp4 : option Z; s_tcp6 : option Z;
  s_client_fd : Z; s_server_fd : Z }.

Definition unknown_or_int (v : pybytes) : option Z :=
  if str_eqb v (bs "unknown") then None else Some (from_opt 0 (bint v)).

Definition parse_socket_diagnostic (buffer : pybytes) : may (option Socket) :=
  match lines_with (bs "ONYX_DIAG socket") buffer with
  | [] => inr None
  | [line] =>
    match rfullmatch SOCKET line with
    | None => inl (RuntimeError BOUND)
    | Some m => inr (Some (mkSocket (group_ 1 m) (group_ 2 m) (unknown_or_int (group_ 3 m))
        (unknown_or_int (group_ 4 m)) (int_of_group m 5) (int_of_group m 6)))
    end
  | _ => inl (RuntimeError BOUND)
  end.

Record ApkPhase := mkApkPhase { a_stage : pybytes; a_phase : pybytes; a_class : pybytes; a_exit : Z }.

Definition apk_allowed (phase : pybytes) : list pybytes :=
  if str_eqb phase (bs "source") then split_ws (bs "invalid_file hash_mismatch")
  else if str_eqb phase (bs "copy") then split_ws (bs "setup copy_failed chmod_failed hash_mismatch")
  else split_ws (bs "command_failed oversized missing_token read_error").

Definition in_1_255 (z : Z) : bool := (1 <=? z) && (z <=? 255).

Definition parse_apk_phase (buffer : pybytes) : may (option ApkPhase) :=
  match lines_with (bs "ONYX_DIAG apkphase") buffer with
  | [] => inr None
  | [line] =>
    match rfullmatch APK line with
    | None => inl (RuntimeError BOUND)
    | Some m =>
      if negb (in_1_255 (int_of_group m 4)) then inl (RuntimeError BOUND)
      else if negb (mem (group_ 3 m) (apk_allowed (group_ 2 m))) then inl (RuntimeError BOUND)
      else inr (Some (mkApkPhase (group_ 1 m) (group_ 2 m) (group_ 3 m) (int_of_group m 4)))
    end
  | _ => inl (RuntimeError BOUND)
  end.

Abbreviation set_of l := (list_to_set l : gset (list Z)) (only parsing).

Fixpoint profile_modes (lines : list pybytes) : may (list pybytes) :=
  match lines with
  | [] => inr []
  | line :: lines =>
    match rfullmatch PROFILE line with
    | None => inl (RuntimeError BOUND)
    | Some m => rest <-# profile_modes lines ;; inr (group_ 1 m :: rest)
    end
  end.

Definition all_modes : list pybytes := split_ws MODES.

Definition refusals : list pybytes :=
  [bs "ONYX_REFUSAL key ChangedNodeIdentity retained socket pong";
   bs "ONYX_REFUSAL realm ChangedNodeRealm retained socket pong";
   bs "ONYX_REFUSAL env ChangedBootEnvironment retained socket pong"].

Definition profiles_complete (buffer : pybytes) (captures : list Profile) : may unit :=
  modes <-# profile_modes (lines_with (bs "ONYX_PROFILE") buffer) ;;
  _ <-# check ((length modes =? 4)%nat && bool_decide (set_of modes = set_of all_modes)
               && bool_decide (set_of (p_mode <$> captures) = set_of modes)) MISSING ;;
  let found := lines_with (bs "ONYX_REFUSAL") buffer in
  check ((length found =? 3)%nat
         && bool_decide (set_of (rstrip_by (Z.eqb 13) <$> found) = set_of refusals)) MISSING.

Record ServiceRow := mkServiceRow {
  w_phase : pybytes; w_operation : pybytes; w_rc : Z; w_root_rc : Z; w_runtime_rc : Z; w_config_rc : Z;
  w_state : pybytes; w_failed : pybytes; w_reason : pybytes }.
Record CustodyRow := mkCustodyRow {
  k_phase : pybytes; k_operation : pybytes; k_helper : pybytes; k_supervisor : pybytes; k_child : pybytes }.

(** [parse_diagnostics] for one of its two patterns: [row] reads the groups of
    a line and [name] is the pair that must not repeat. *)
Section Diagnostics.
Context {R : Type} (pattern : re) (row : mst → may R) (name : R → pybytes * pybytes).

Definition names_of (m : mst) : pybytes * pybytes := (group_ 1 m, group_ 2 m).

Fixpoint diagnostic_rows (rows : list R) (lines : list pybytes) : may (list R) :=
  match lines with
  | [] => inr rows
  | line :: lines =>
    match rfullmatch pattern line with
    | None => inl (RuntimeError BOUND)
    | Some m =>
      _ <-# check (length rows <? 40)%nat BOUND ;;
      _ <-# check (negb (bool_decide (names_of m ∈ name <$> rows))) BOUND ;;
      r <-# row m ;;
      diagnostic_rows (rows ++ [r]) lines
    end
  end.
End Diagnostics.

Definition service_row (m : mst) : may ServiceRow :=
  _ <-# check (forallb (λ n, int_of_group m n <=? 255) [3; 4; 5; 6]%nat) BOUND ;;
  inr (mkServiceRow (group_ 1 m) (group_ 2 m) (int_of_group m 3) (int_of_group m 4)
         (int_of_group m 5) (int_of_group m 6) (group_ 7 m) (group_ 8 m) (group_ 9 m)).

Definition custody_row (m : mst) : may CustodyRow :=
  inr (mkCustodyRow (group_ 1 m) (group_ 2 m) (group_ 3 m) (group_ 4 m) (group_ 5 m)).

Definition w_name (r : ServiceRow) : pybytes * pybytes := (w_phase r, w_operation r).
Definition k_name (r : CustodyRow) : pybytes * pybytes := (k_phase r, k_operation r).

Definition parse_service (buffer : pybytes) : may (list ServiceRow) :=
  diagnostic_rows SERVICE_DIAG service_row w_name [] (lines_with (bs "ONYX_DIAG service") buffer).
Definition parse_custody (buffer : pybytes) : may (list CustodyRow) :=
  diagnostic_rows CUSTODY_DIAG custody_row k_name [] (lines_with (bs "ONYX_DIAG custody") buffer).

Abbreviation pairs_of l := (list_to_set l : gset (list Z * list Z)) (only parsing).

Definition validate_correspondence (rows : list ServiceRow) (custody : list CustodyRow)
    (captures : list Capture) : may unit :=
  _ <-# check (negb (existsb (λ r, str_eqb (w_reason r) (bs "truncated")) rows))
          (u "service_transfer_truncated") ;;
  let pairs := pairs_of (w_name <$> rows) in
  check (bool_decide (pairs = pairs_of (c_name <$> captures) ∖ {[ PROBE ]})
         && bool_decide (pairs = pairs_of (k_name <$> custody))) MISSING.

(** ** The report *)

Record Identity := mkIdentity { i_exit : Z; i_source : pybytes; i_daemon : pybytes; i_window : pybytes }.
Record Build := mkBuild {
  b_stage : pybytes; b_exit : Z; b_apk_exit : option Z; b_option : pybytes; b_log : pybytes }.

(** The dictionary [result]; the counts derived from its lists are left out. *)
Record Result := mkResult {
  r_result : pystr;
  r_stage : pystr;
  r_failure : option pystr;
  r_services : list Capture;
  r_profiles : list Profile;
  r_rows : list ServiceRow;
  r_custody : list CustodyRow;
  r_identity : option Identity;
  r_socket : option Socket;
  r_install : option (Z * pybytes);
  r_apk : option ApkPhase;
  r_build : option Build;
  r_helix : list Helix;
  r_artifacts : option (list pystr);
  r_cleanup_ok : option bool;
  r_cleanup_error : option (pystr * option Z);
  r_error : option (pystr * option pystr * option Z) }.

Definition set_result (v : pystr) (r : Result) : Result :=
  mkResult v (r_stage r) (r_failure r) (r_services r) (r_profiles r) (r_rows r) (r_custody r) (r_identity r) (r_socket r) (r_install r) (r_apk r) (r_build r) (r_helix r) (r_artifacts r) (r_cleanup_ok r) (r_cleanup_error r) (r_error r).
Definition set_stage (v : pystr) (r : Result) : Result :=
  mkResult (r_result r) v (r_failure r) (r_services r) (r_profiles r) (r_rows r) (r_custody r) (r_identity r) (r_socket r) (r_install r) (r_apk r) (r_build r) (r_helix r) (r_artifacts r) (r_cleanup_ok r) (r_cleanup_error r) (r_error r).
Definition set_failure (v : option pystr) (r : Result) : Result :=
  mkResult (r_result r) (r_stage r) v (r_services r) (r_profiles r) (r_rows r) (r_custody r) (r_identity r) (r_socket r) (r_install r) (r_apk r) (r_build r) (r_helix r) (r_artifacts r) (r_cleanup_ok r) (r_cleanup_error r) (r_error r).
Definition set_services (v : list Capture) (r : Result) : Result :=
  mkResult (r_result r) (r_stage r) (r_failure r) v (r_profiles r) (r_rows r) (r_custody r) (r_identity r) (r_socket r) (r_install r) (r_apk r) (r_build r) (r_helix r) (r_artifacts r) (r_cleanup_ok r) (r_cleanup_error r) (r_error r).
Definition set_profiles (v : list Profile) (r : Result) : Result :=
  mkResult (r_result r) (r_stage r) (r_failure r) (r_services r) v (r_rows r) (r_custody r) (r_identity r) (r_socket r) (r_install r) (r_apk r) (r_build r) (r_helix r) (r_artifacts r) (r_cleanup_ok r) (r_cleanup_error r) (r_error r).
Definition set_rows (rows : list ServiceRow) (custody : list CustodyRow) (r : Result) : Result :=
  mkResult (r_result r) (r_stage r) (r_failure r) (r_services r) (r_profiles r) rows custody (r_identity r) (r_socket r) (r_install r) (r_apk r) (r_build r) (r_helix r) (r_artifacts r) (r_cleanup_ok r) (r_cleanup_error r) (r_error r).
Definition set_identity (v : Identity) (r : Result) : Result :=
  mkResult (r_result r) (r_stage r) (r_failure r) (r_services r) (r_profiles r) (r_rows r) (r_custody r) (Some v) (r_socket r) (r_install r) (r_apk r) (r_build r) (r_helix r) (r_artifacts r) (r_cleanup_ok r) (r_cleanup_error r) (r_error r).
Definition set_socket (v : option Socket) (r : Result) : Result :=
  mkResult (r_result r) (r_stage r) (r_failure r) (r_services r) (r_profiles r) (r_rows r) (r_custody r) (r_identity r) v (r_install r) (r_apk r) (r_build r) (r_helix r) (r_artifacts r) (r_cleanup_ok r) (r_cleanup_error r) (r_error r).
Definition set_install (v : Z * pybytes) (r : Result) : Result :=
  mkResult (r_result r) (r_stage r) (r_failure r) (r_services r) (r_profiles r) (r_rows r) (r_custody r) (r_identity r) (r_socket r) (Some v) (r_apk r) (r_build r) (r_helix r) (r_artifacts r) (r_cleanup_ok r) (r_cleanup_error r) (r_error r).
Definition set_apk (v : option ApkPhase) (r : Result) : Result :=
  mkResult (r_result r) (r_stage r) (r_failure r) (r_services r) (r_profiles r) (r_rows r) (r_custody r) (r_identity r) (r_socket r) (r_install r) v (r_build r) (r_helix r) (r_artifacts r) (r_cleanup_ok r) (r_cleanup_error r) (r_error r).
Definition set_build (v : Build) (r : Result) : Result :=
  mkResult (r_result r) (r_stage r) (r_failure r) (r_services r) (r_profiles r) (r_rows r) (r_custody r) (r_identity r) (r_socket r) (r_install r) (r_apk r) (Some v) (r_helix r) (r_artifacts r) (r_cleanup_ok r) (r_cleanup_error r) (r_error r).
Definition set_helix (v : list Helix) (r : Result) : Result :=
  mkResult (r_result r) (r_stage r) (r_failure r) (r_services r) (r_profiles r) (r_rows r) (r_custody r) (r_identity r) (r_socket r) (r_install r) (r_apk r) (r_build r) v (r_artifacts r) (r_cleanup_ok r) (r_cleanup_error r) (r_error r).
Definition set_artifacts (v : list pystr) (r : Result) : Result :=
  mkResult (r_result r) (r_stage r) (r_failure r) (r_services r) (r_profiles r) (r_rows r) (r_custody r) (r_identity r) (r_socket r) (r_install r) (r_apk r) (r_build r) (r_helix r) (Some v) (r_cleanup_ok r) (r_cleanup_error r) (r_error r).
Definition set_cleanup_ok (v : bool) (r : Result) : Result :=
  mkResult (r_result r) (r_stage r) (r_failure r) (r_services r) (r_profiles r) (r_rows r) (r_custody r) (r_identity r) (r_socket r) (r_install r) (r_apk r) (r_build r) (r_helix r) (r_artifacts r) (Some v) (r_cleanup_error r) (r_error r).
Definition set_cleanup_error (v : pystr * option Z) (r : Result) : Result :=
  mkResult (r_result r) (r_stage r) (r_failure r) (r_services r) (r_profiles r) (r_rows r) (r_custody r) (r_identity r) (r_socket r) (r_install r) (r_apk r) (r_build r) (r_helix r) (r_artifacts r) (Some false) (Some v) (r_error r).
Definition set_error (v : pystr * option pystr * option Z) (r : Result) : Result :=
  mkResult (r_result r) (r_stage r) (r_failure r) (r_services r) (r_profiles r) (r_rows r) (r_custody r) (r_identity r) (r_socket r) (r_install r) (r_apk r) (r_build r) (r_helix r) (r_artifacts r) (r_cleanup_ok r) (r_cleanup_error r) (Some v).

(** Computations that update the report and may raise. *)
Definition M (A : Type) : Type := Result → Result * may A.
Definition ret {A} (a : A) : M A := λ r, (r, inr a).
Definition lift {A} (m : may A) : M A := λ r, (r, m).
Definition upd (f : Result → Result) : M unit := λ r, (f r, inr tt).
Definition bind {A B} (m : M A) (k : A → M B) : M B := λ r,
  match m r with
  | (r', inl e) => (r', inl e)
  | (r', inr a) => k a r'
  end.
Declare Scope alpine_scope.
Delimit Scope alpine_scope with alpine.
Notation "x <- m ;; k" := (bind m (λ x, k))
  (at level 100, m at next level, k at level 200, right associativity) : alpine_scope.
Notation "m ;;; k" := (bind m (λ _, k))
  (at level 100, k at level 200, right associativity) : alpine_scope.
#[local] Open Scope alpine_scope.

Definition mark (stage : pystr) : M unit := upd (set_stage stage).

(** ** The serial console *)

(** The local variables of the loop; [fed] is what was written to the guest. *)
Record Guest := mkGuest {
  stage : Z;
  buffer : pybytes;
  pending : pybytes;
  artifact_hashes : option (list pystr);
  captures : list Capture;
  profiles : list Profile;
  private : files;
  fed : list pybytes }.

Definition login : pybytes := bs "root" ++ [10].
Definition guest_command : pybytes :=
  bs "mkdir -p /fixture /output; mount -t 9p -o trans=virtio,version=9p2000.L,ro fixture /fixture && mount -t 9p -o trans=virtio,version=9p2000.L output /output && sh /fixture/guest.sh || echo ONYX_RESULT FAIL guest_mount_or_script"
  ++ [10].

Definition keep (b : pybytes) : pybytes := last_n (Z.to_nat 65536) b.

(** A chunk before the guest script runs; writing to the guest succeeds. *)
Definition boot (g : Guest) (chunk : pybytes) : M Guest :=
  let b := keep (buffer g ++ chunk) in
  let g' b n cmds := mkGuest n b (pending g) (artifact_hashes g) (captures g) (profiles g) (private g) (fed g ++ cmds) in
  if (stage g =? 0) && contains b (bs "login:")
  then mark (u "guest_login") ;;; ret (g' [] 1 [login])
  else if (stage g =? 1) && (contains b (bs "~ #") || contains b (bs ":~# "))
  then mark (u "guest_run") ;;; ret (g' [] 2 [guest_command])
  else ret (g' b (stage g) []).

Section Serial.
Context (sha256 : pybytes → pystr).

Definition LINE_BOUND : nat := Z.to_nat 87500.

(** One complete line. *)
Definition on_line (g : Guest) (line : pybytes) : M Guest :=
  lift (check (length line <=? LINE_BOUND)%nat INVALID) ;;;
  if startswith line (bs "ONYX_PRIVATE_PROFILE") then
    st <- lift (capture_profile sha256 line (private g, profiles g)) ;;
    upd (set_profiles st.2) ;;;
    ret (mkGuest (stage g) (buffer g) (pending g) (artifact_hashes g) (captures g) st.2 st.1 (fed g))
  else if startswith line (bs "ONYX_PRIVATE_SERVICE") then
    st <- lift (capture_service sha256 line (private g, captures g)) ;;
    upd (set_services st.2) ;;;
    ret (mkGuest (stage g) (buffer g) (pending g) (artifact_hashes g) st.2 (profiles g) st.1 (fed g))
  else
    ret (mkGuest (stage g) (keep (buffer g ++ line ++ [10])) (pending g) (artifact_hashes g)
           (captures g) (profiles g) (private g) (fed g)).

(** The lines of the serial input that are complete; the rest stays pending. *)
Fixpoint on_lines (g : Guest) (lines : list pybytes) : M Guest :=
  match lines with
  | [] => ret g
  | [rest] => ret (mkGuest (stage g) (buffer g) rest (artifact_hashes g) (captures g) (profiles g) (private g) (fed g))
  | line :: lines => g' <- on_line g line ;; on_lines g' lines
  end.

Definition receive (g : Guest) (chunk : pybytes) : M Guest :=
  g' <- on_lines g (split [10] (pending g ++ chunk)) ;;
  lift (check (length (pending g') <=? LINE_BOUND)%nat INVALID) ;;;
  ret g'.

End Serial.

(** ** The verdict on the guest *)

#[local] Open Scope re_scope.

Definition bol : re := RAssert at_bol </> lit [10].
Definition eol : re := cr @@ lit [10].
Definition hex_class (c : Z) : bool := d09 c || range 97 102 c.

Definition IDENTITY : re :=
  lit (bs "ONYX_DIAG identity ") @@ digits 1 3 @@ sp
  @@ words 2 (bs "loaded strict_validated generated other read_error") @@ sp
  @@ words 3 (bs "present absent") @@ sp @@ words 4 (bs "within outside unknown").

Definition ARTIFACT : re :=
  bol @@ lit (bs "ONYX_ARTIFACT ") @@ RGroup 1 (times 64 (RChr hex_class)) @@ sp
  @@ RGroup 2 (times 64 (RChr hex_class)) @@ sp @@ RGroup 3 (times 64 (RChr hex_class)) @@ eol.

Definition FAIL_ : re :=
  bol @@ lit (bs "ONYX_RESULT FAIL ") @@ RGroup 1 (rep 1 40 (RChr (λ c, az c || (c =? 95)))) @@ eol.
Definition PASS_ : re := bol @@ lit (bs "ONYX_RESULT PASS package") @@ eol.

Definition INSTALL : re :=
  bol @@ lit (bs "ONYX_DIAG install ") @@ digits 1 3 @@ sp
  @@ words 2 (bs "other non_repository trust option missing permission truncated") @@ eol.

Definition BUILD : re :=
  bol @@ lit (bs "ONYX_DIAG build ") @@ words 1 (bs "old new") @@ sp @@ digits 2 3 @@ sp
  @@ RGroup 3 (lit (bs "none") </> rep 1 3 (RChr d09)) @@ sp
  @@ words 4 (bs "reported not_reported unknown") @@ sp
  @@ words 5 (bs "complete truncated unknown") @@ eol.

#[local] Close Scope re_scope.

Definition findall (r : re) (s : pybytes) : list mst := snd <$> rfinditer r s.

Definition identity_diagnostic (b : pybytes) : M unit :=
  match lines_with (bs "ONYX_DIAG identity") b with
  | [] => ret tt
  | [line] =>
    match rfullmatch IDENTITY line with
    | None => lift (inl (RuntimeError BOUND))
    | Some m =>
      lift (check (int_of_group m 1 <=? 255) BOUND) ;;;
      upd (set_identity (mkIdentity (int_of_group m 1) (group_ 2 m) (group_ 3 m) (group_ 4 m)))
    end
  | _ => lift (inl (RuntimeError BOUND))
  end.

(** The hashes of the artifacts, kept from the first buffer with exactly one
    such line. *)
Definition see_artifacts (g : Guest) : M (option (list pystr)) :=
  match findall ARTIFACT (buffer g), artifact_hashes g with
  | [m], None => mark (u "guest_artifacts") ;;; ret (Some [group_ 1 m; group_ 2 m; group_ 3 m])
  | _, hashes => ret hashes
  end.

Definition install_diagnostic (b : pybytes) : M unit :=
  match findall INSTALL b with
  | [m] => if in_1_255 (int_of_group m 1) then upd (set_install (int_of_group m 1, group_ 2 m)) else ret tt
  | _ => ret tt
  end.

Definition build_diagnostic (b : pybytes) : M unit :=
  match findall BUILD b with
  | [m] =>
    let none := str_eqb (group_ 3 m) (bs "none") in
    if in_1_255 (int_of_group m 2) && (none || in_1_255 (int_of_group m 3))
    then upd (set_build (mkBuild (group_ 1 m) (int_of_group m 2)
           (if none then None else Some (int_of_group m 3)) (group_ 4 m) (group_ 5 m)))
    else ret tt
  | _ => ret tt
  end.

Definition on_failure (b : pybytes) (code : pybytes) : M unit :=
  upd (set_result (u "guest_failure")) ;;;
  upd (set_failure (Some (if mem code FAILS then code else u "unknown"))) ;;;
  (if str_eqb code (bs "helix_socket")
   then s <- lift (parse_socket_diagnostic b) ;; upd (set_socket s) else ret tt) ;;;
  (if str_eqb code (bs "install") then install_diagnostic b else ret tt) ;;;
  (if str_eqb code (bs "build")
   then a <- lift (parse_apk_phase b) ;; upd (set_apk a) ;;; build_diagnostic b else ret tt).

(** [captures.get(("identity","probe"), {}).get("identity_source")]. *)
Definition identity_source (cs : list Capture) : option pystr :=
  match List.filter (λ c, bool_decide (c_name c = PROBE)) cs with
  | c :: _ => c_identity c
  | [] => None
  end.

Definition on_pass (g : Guest) : M unit :=
  lift (profiles_complete (buffer g) (profiles g)) ;;;
  rows <- lift (parse_helix_observations (buffer g)) ;;
  upd (set_helix rows) ;;;
  lift (check (bool_decide (identity_source (captures g) = Some (u "strict_validated"))) INVALID) ;;;
  upd (set_result (if is_someb (artifact_hashes g) then u "pass" else u "invalid_artifact_receipt")).

(** What follows the reception of a chunk; the flag is [break]. *)
Definition judge (g : Guest) : M (Guest * bool) :=
  rows <- lift (parse_service (buffer g)) ;;
  custody <- lift (parse_custody (buffer g)) ;;
  upd (set_rows rows custody) ;;;
  identity_diagnostic (buffer g) ;;;
  hashes <- see_artifacts g ;;
  let g := mkGuest (stage g) (buffer g) (pending g) hashes (captures g) (profiles g) (private g) (fed g) in
  let failure := rsearch FAIL_ (buffer g) in
  let passed := rsearch PASS_ (buffer g) in
  (if is_someb failure || is_someb passed
   then lift (validate_correspondence rows custody (captures g)) else ret tt) ;;;
  match failure with
  | Some (_, _, m) => on_failure (buffer g) (group_ 1 m) ;;; ret (g, true)
  | None => if is_someb passed then on_pass g ;;; ret (g, true) else ret (g, false)
  end.

(** ** The loop *)

Record Entry := mkEntry { e_name : pystr; e_stat : Stat }.
Definition OUTPUTS : list pystr := [u "old.apk"; u "new.apk"; u "fixture.pub"].
Definition size_bound (name : pystr) : Z := if str_eqb name (u "fixture.pub") then 8192 else MAX_SIZE.

Definition entry_ok (euid : Z) (e : Entry) : may unit :=
  _ <-# check (mem (e_name e) OUTPUTS) (u "unexpected_output") ;;
  check (st_reg (e_stat e) && (st_uid (e_stat e) =? euid) && (st_nlink (e_stat e) =? 1)
         && (st_size (e_stat e) <=? size_bound (e_name e))) (u "output_bound").

Fixpoint entries_ok (euid : Z) (l : list Entry) : may unit :=
  match l with [] => inr tt | e :: l => _ <-# entry_ok euid e ;; entries_ok euid l end.

(** One turn of the loop: the output directory, and the chunk that was read,
    if the console was readable. *)
Record Turn := mkTurn { t_entries : list Entry; t_chunk : option pybytes }.

Section Loop.
Context (sha256 : pybytes → pystr) (euid : Z).

Definition turn (t : Turn) (g : Guest) : M (Guest * bool) :=
  lift (entries_ok euid (t_entries t)) ;;;
  match t_chunk t with
  | None => ret (g, false)
  | Some [] => ret (g, true)
  | Some chunk =>
    if negb (stage g =? 2) then g' <- boot g chunk ;; ret (g', false)
    else g' <- receive sha256 g chunk ;; judge g'
  end.

(** The turns before the deadline and before the guest ends. *)
Fixpoint loop (ts : list Turn) (g : Guest) : M Guest :=
  match ts with
  | [] => ret g
  | t :: ts => x <- turn t g ;; if x.2 then ret x.1 else loop ts x.1
  end.

End Loop.

Definition guest0 : Guest := mkGuest 0 [] [] None [] [] ∅ [].

(** ** Cleanup and recovery *)

(** What the cleanup of the guest met: the [OSError] that stopped it, whether
    the process was reaped and its group gone, and the errors of closing the
    two streams. *)
Record Cleanup := mkCleanup {
  cl_oserror : option (option Z); cl_reaped : bool; cl_gone : bool; cl_close : list (option (option Z)) }.

Definition safe_errno (e : option Z) : option Z :=
  match e with Some n => if (0 <=? n) && (n <=? 4095) then Some n else None | None => None end.

Definition close_stream (r : Result) (e : option (option Z)) : Result :=
  match e with Some errno => set_cleanup_error (u "stream_close", safe_errno errno) r | None => r end.

Definition cleanup (c : Cleanup) (r : Result) : Result :=
  let r := match cl_oserror c with
           | None => set_cleanup_ok (cl_reaped c && cl_gone c) r
           | Some errno => set_cleanup_error (u "os_error", safe_errno errno) r
           end in
  foldl close_stream r (cl_close c).

(** The files created in the output directory, by device and inode. *)
Abbreviation outdir := (gmap (list Z) (Z * Z)) (only parsing).

(** The answers to the two calls of [unlink_created]: [None] is success, an
    error is an [OSError]; FileNotFoundError is errno 2, the only one caught. *)
Record Removal := mkRemoval { u_lstat : option (option Z); u_unlink : option (option Z) }.

Definition not_found (d : outdir) (name : pystr) (errno : option Z) : outdir * may unit :=
  if bool_decide (errno = Some 2) then (delete name d, inr tt) else (d, inl (OSError errno)).

Definition unlink_created (d : outdir) (name : pystr) (identity : Z * Z) (a : Removal)
    : outdir * may unit :=
  match u_lstat a with
  | Some errno => not_found d name errno
  | None =>
    if bool_decide (d !! name = Some identity) then
      match u_unlink a with
      | Some errno => not_found d name errno
      | None => (delete name d, inr tt)
      end
    else (d, inr tt)
  end.

(** What [recover] meets with one artifact: the status of the source, the
    opening of it and its status once open; the creation of the target (the
    identity of the new file) and the [fstat] that tells the identity; the
    wrapping of the two descriptors, the copy (the digest of the bytes), the
    digests of both files afterwards; in the [except] clause, an error of
    closing the descriptors, and the removal of the target. *)
Record Recovery := mkRecovery {
  v_before : sys Stat; v_read : sys unit; v_opened : sys Stat; v_create : sys (Z * Z);
  v_fstat : sys unit; v_wrap : sys unit; v_copied : may pystr;
  v_source : sys pystr; v_target : sys pystr;
  v_close : option (option Z); v_removal : Removal }.

Definition same_file (a b : Stat) : bool :=
  (st_dev a =? st_dev b) && (st_ino a =? st_ino b) && (st_size a =? st_size b).

(** The removal of the target and the exception that is raised afterwards. *)
Definition abandon (d : outdir) (name : pystr) (identity : Z * Z) (a : Removal) (e : exn)
    : outdir * may (Z * Z) :=
  match unlink_created d name identity a with
  | (d, inl e') => (d, inl e')
  | (d, inr _) => (d, inl e)
  end.

(** While [recover] owns descriptors, its handler closes them first. *)
Definition closing (v : Recovery) (e : exn) : exn :=
  match v_close v with Some errno => OSError errno | None => e end.

Definition verify_copy (expected : pystr) (v : Recovery) : may unit :=
  copied <-# v_copied v ;;
  _ <-# check (str_eqb copied expected) (u "output_digest") ;;
  s <-# os (v_source v) ;;
  _ <-# check (str_eqb s expected) (u "output_digest") ;;
  t <-# os (v_target v) ;;
  check (str_eqb t expected) (u "output_digest").

Definition recover (euid : Z) (d : outdir) (name expected : pystr) (v : Recovery)
    : outdir * may (Z * Z) :=
  match (info <-# os (v_before v) ;; before <-# regular info (Some euid) (size_bound name) ;;
         _ <-# os (v_read v) ;; inr before) with
  | inl e => (d, inl e)
  | inr before =>
    match (opened <-# os (v_opened v) ;;
           _ <-# check (same_file opened before) (u "output_changed") ;;
           match d !! name with Some _ => inl (OSError (Some 17)) | None => os (v_create v) end) with
    | inl e => (d, inl (closing v e))
    | inr identity =>
      let d := <[name := identity]> d in
      match os (v_fstat v) with
      | inl e => (d, inl (closing v e))
      | inr _ =>
        match os (v_wrap v) with
        | inl e =>
          match v_close v with
          | Some errno => (d, inl (OSError errno))
          | None => abandon d name identity (v_removal v) e
          end
        | inr _ =>
          match verify_copy expected v with
          | inl e => abandon d name identity (v_removal v) e
          | inr _ => (d, inr identity)
          end
        end
      end
    end
  end.

(** The artifacts in order; a failure removes those recovered before, unless
    one of the removals raises. *)
Fixpoint unlink_all (d : outdir) (l : list (pystr * (Z * Z) * Removal)) : outdir * may unit :=
  match l with
  | [] => (d, inr tt)
  | (name, identity, a) :: l =>
    match unlink_created d name identity a with
    | (d, inl e) => (d, inl e)
    | (d, inr _) => unlink_all d l
    end
  end.

Fixpoint recover_all (euid : Z) (d : outdir) (recovered : list (pystr * (Z * Z) * Removal))
    (l : list (pystr * pystr * Recovery)) : outdir * may unit :=
  match l with
  | [] => (d, inr tt)
  | (name, expected, v) :: l =>
    match recover euid d name expected v with
    | (d', inl e) =>
      match unlink_all d' recovered with
      | (d', inl e') => (d', inl e')
      | (d', inr _) => (d', inl e)
      end
    | (d', inr identity) => recover_all euid d' (recovered ++ [(name, identity, v_removal v)]) l
    end
  end.

(** ** The run *)

Record Args := mkArgs {
  repo_root : path; binary : path; expected_binary_sha256 : pystr; iso : path;
  work_dir : path; output_dir : path }.

(** What the machine answers in the course of a run. *)
Record Env := mkEnv {
  e_fs : Fs;
  e_candidate : path;                       (* the repository of the driver *)
  e_out : outdir;                           (* the output directory at the start *)
  e_digest : path → sys pystr;              (* digests during validation *)
  e_tools : bool;                           (* qemu, xorriso and /dev/kvm *)
  e_copies : pystr → pystr * pystr;         (* digests of source and copy *)
  e_extract : may unit;
  e_launch : may unit;
  e_turns : list Turn;
  e_cleanup : Cleanup;
  e_after : pystr → pystr * pystr;          (* the same digests at the end *)
  e_iso_after : pystr;
  e_expected_after : pystr;                 (* the text of expected.sha256 *)
  e_recoveries : pystr → Recovery }.

Definition sub (p : path) (s : pystr) : path := p ++ split (u "/") s.

Definition sources (a : Args) (root candidate : path) : list (pystr * path) :=
  [(u "onyx-server", binary a);
   (u "packaging/alpine/onyx-server.openrc", sub candidate (u "packaging/alpine/onyx-server.openrc"));
   (u "etc/openrc/onyx-server.confd", sub root (u "etc/openrc/onyx-server.confd"));
   (u "make-apk.sh", sub candidate (u "packaging/alpine/make-apk.sh"));
   (u "identity-guard", sub candidate (u "packaging/alpine/identity-guard"));
   (u "packaging/alpine/guarded-start", sub candidate (u "packaging/alpine/guarded-start"));
   (u "packaging/alpine/runtime-preflight", sub candidate (u "packaging/alpine/runtime-preflight"));
   (u "upgrade.sh", sub candidate (u "packaging/alpine/upgrade.sh"));
   (u "guest.sh", sub candidate (u "tools/alpine_package/guest.sh"))].

Definition stat_regular (fs : Fs) (p : path) (owner : option Z) : may Stat :=
  info <-# os (lstat fs p) ;; regular info owner MAX_SIZE.

Fixpoint all_regular (fs : Fs) (l : list path) : may unit :=
  match l with
  | [] => inr tt
  | p :: l => _ <-# stat_regular fs p (Some (geteuid fs)) ;; all_regular fs l
  end.

Fixpoint digests (dg : path → sys pystr) (l : list path) : may (list pystr) :=
  match l with
  | [] => inr []
  | p :: l => h <-# os (dg p) ;; hs <-# digests dg l ;; inr (h :: hs)
  end.

(** Both digests of every input are its pin. *)
Definition pinned (pins : list (pystr * pystr)) (seen : pystr → pystr * pystr) : bool :=
  forallb (λ np, str_eqb (seen np.1).1 np.2 && str_eqb (seen np.1).2 np.2) pins.

(** The part of [run] before the guest starts; the pins of the inputs. *)
Definition prepare (a : Args) (e : Env) : M (list (pystr * pystr)) :=
  let fs := e_fs e in
  mark (u "validate_paths") ;;;
  root <- lift (os (resolve fs (repo_root a))) ;;
  lift (check (is_relative_to root WORKSPACE) (u "outside_workspace")) ;;;
  work <- lift (private_directory fs (work_dir a)) ;;
  out <- lift (private_directory fs (output_dir a)) ;;
  lift (check (negb (bool_decide (work = out))) (u "shared_directory")) ;;;
  lift (check (forallb (λ name, negb (is_someb (e_out e !! name))) OUTPUTS) (u "output_exists")) ;;;
  lift (stat_regular fs (iso a) None) ;;;
  lift (stat_regular fs (binary a) (Some (geteuid fs))) ;;;
  mark (u "validate_binary_iso") ;;;
  h <- lift (os (e_digest e (binary a))) ;;
  lift (check (str_eqb h (expected_binary_sha256 a)) (u "input_pin")) ;;;
  i <- lift (os (e_digest e (iso a))) ;;
  lift (check (str_eqb i ISO_PIN) (u "input_pin")) ;;;
  lift (check (e_tools e) (u "prerequisites")) ;;;
  mark (u "validate_inputs") ;;;
  let paths := sources a root (e_candidate e) in
  lift (all_regular fs paths.*2) ;;;
  hs <- lift (digests (e_digest e) paths.*2) ;;
  let pins := zip paths.*1 hs in
  let capture_dir := work ++ [u "service-logs"] in
  created <- lift (os (mkdir fs capture_dir)) ;;
  lift (if created : bool then inr tt else inl (OSError (Some 17))) ;;;
  lift (private_directory fs capture_dir) ;;;
  upd (set_result (u "guest_timeout")) ;;;
  mark (u "stage_inputs") ;;;
  lift (check (pinned pins (e_copies e)) (u "input_copy")) ;;;
  mark (u "extract_kernel") ;;;
  lift (e_extract e) ;;;
  mark (u "launch_qemu") ;;;
  lift (e_launch e) ;;;
  mark (u "guest_boot") ;;;
  ret pins.

(** [finally]: the cleanup runs whether or not the loop raised. *)
Definition guarded {A} (c : Cleanup) (m : M A) : M A := λ r,
  let '(r', out) := m r in (cleanup c r', out).

Definition ok_flag (r : Result) : bool := from_opt false (r_cleanup_ok r).

Section Run.
Context (sha256 : pybytes → pystr).

Definition inputs_unchanged (a : Args) (e : Env) (pins : list (pystr * pystr)) : bool :=
  pinned pins (e_after e) && str_eqb (e_iso_after e) ISO_PIN
  && str_eqb (e_expected_after e) (expected_binary_sha256 a ++ [10]).

(** The end of [run]: the output directory and the outcome. *)
Definition finish (a : Args) (e : Env) (pins : list (pystr * pystr)) (g : Guest) (r : Result)
    : outdir * (Result * may unit) :=
  let r := set_stage (u "verify_inputs") r in
  let r := if inputs_unchanged a e pins then r else set_result (u "input_changed") r in
  let r := if ok_flag r then r else set_result (u "cleanup_failed") r in
  match artifact_hashes g with
  | Some hashes =>
    if ok_flag r then
      let r := set_stage (u "recover_artifacts") r in
      match recover_all (geteuid (e_fs e)) (e_out e) [] ((λ x, (x, e_recoveries e x.1)) <$> zip OUTPUTS hashes) with
      | (d, inl err) => (d, (r, inl err))
      | (d, inr _) => (d, (set_stage (u "complete") (set_artifacts hashes r), inr tt))
      end
    else (e_out e, (set_stage (u "complete") r, inr tt))
  | None => (e_out e, (set_stage (u "complete") r, inr tt))
  end.

Definition run (a : Args) (e : Env) (r : Result) : outdir * (Result * may unit) :=
  match prepare a e r with
  | (r, inl err) => (e_out e, (r, inl err))
  | (r, inr pins) =>
    match guarded (e_cleanup e) (loop sha256 (geteuid (e_fs e)) (e_turns e) guest0) r with
    | (r, inl err) => (e_out e, (r, inl err))
    | (r, inr g) => finish a e pins g r
    end
  end.

Definition result0 : Result :=
  mkResult (u "driver_failure") (u "parse") None [] [] [] [] None None None None None [] None None None None.

Definition DRIVER_FAILURE : pystr := u "driver_failure".

(** The [except] clauses of [main]. *)
Definition classify (e : exn) (r : Result) : Result :=
  let r := set_result DRIVER_FAILURE r in
  match e with
  | OSError errno => set_error (u "os_error", None, safe_errno errno) r
  | TimeoutExpired => set_error (u "subprocess_timeout", None, None) r
  | CalledProcessError rc =>
    set_error (u "subprocess_exit",
      match rc with Some n => if (-255 <=? n) && (n <=? 255) then Some (dec n) else None | None => None end,
      None) r
  | SubprocessError => set_error (u "subprocess_error", None, None) r
  | FormatError => set_error (u "origin_format", None, None) r
  | RuntimeError code =>
    set_error (u "runtime_error", Some (if mem code RUNTIME_CODES then code else u "unknown"), None) r
  end.

(** [main] after the command line: the exit status, the report and the output
    directory. *)
Definition main (a : Args) (e : Env) : Z * Result * outdir :=
  let '(d, (r, out)) := run a e result0 in
  let r := match out with inl err => classify err r | inr _ => r end in
  (if str_eqb (r_result r) (u "pass") then 0 else 1, r, d).

End Run.
