(* ===== verification/AlpineSpec.v ===== *)
(** * What a passed package test guarantees

    Exit status zero of the Alpine driver means that the guest was cleaned up,
    that no input changed, and that the serial console delivered every piece
    of evidence exactly once.  The output directory holds all artifacts or
    none, but for a file the driver could not identify or remove. *)

From S2P Require Import Prelude PyStr Regex Base64 Alpine.

(** ** Computations that succeed *)

Lemma bind_inr {A B} (m : M A) (k : A → M B) r r' b :
  bind m k r = (r', inr b) ↔ ∃ r1 a, m r = (r1, inr a) ∧ k a r1 = (r', inr b).
Proof.
  unfold bind. destruct (m r) as [r1 [e|a]]; split.
  - intros [=].
  - intros (? & ? & [=] & _).
  - intros H. eauto.
  - intros (? & ? & [= <- <-] & H). exact H.
Qed.

Lemma lift_inr {A} (m : may A) r r' a : lift m r = (r', inr a) ↔ r' = r ∧ m = inr a.
Proof. unfold lift. split; [by intros [= -> ->] | by intros [-> ->]]. Qed.

Lemma upd_inr f r r' x : upd f r = (r', inr x) ↔ r' = f r.
Proof. unfold upd. destruct x. split; [by intros [= ->] | by intros ->]. Qed.

Lemma ret_inr {A} (a b : A) r r' : ret a r = (r', inr b) ↔ r' = r ∧ b = a.
Proof. unfold ret. split; [by intros [= -> ->] | by intros [-> ->]]. Qed.

Lemma check_inr ok code x : check ok code = inr x ↔ ok = true.
Proof. unfold check. destruct ok, x; naive_solver. Qed.

Lemma seq_inr {A B} (m : may A) (k : A → may B) b :
  (match m with inl e => inl e | inr x => k x end) = inr b ↔ ∃ x, m = inr x ∧ k x = inr b.
Proof. destruct m; naive_solver. Qed.

Ltac is_var_eq H := match type of H with ?x = _ => is_var x end.

(** Take apart a hypothesis that a computation succeeded. *)
Ltac run_inv H :=
  repeat match type of H with
  | bind _ _ _ = (_, inr _) =>
      let r := fresh "r" in let a := fresh "x" in let E := fresh "E" in
      apply bind_inr in H as (r & a & E & H); run_inv E
  | lift _ _ = (_, inr _) => apply lift_inr in H as [-> H]
  | upd _ _ = (_, inr _) => apply upd_inr in H as ->
  | mark _ _ = (_, inr _) => apply upd_inr in H as ->
  | ret _ _ = (_, inr _) => apply ret_inr in H as [-> H]; try (is_var_eq H; subst)
  | check _ _ = inr _ => apply check_inr in H
  | (match ?m with inl _ => _ | inr _ => _ end) = inr _ =>
      let a := fresh "x" in let E := fresh "E" in apply seq_inr in H as (a & E & H); run_inv E
  end.

(** ** Captures *)

(** The private directory holds what the capture describes. *)
Definition captured (sha256 : pybytes → pystr) (fs : gmap pystr pybytes) (c : Capture) : Prop :=
  ∃ data, fs !! service_file (c_phase c) (c_operation c) = Some data
    ∧ c_bytes c = Z.of_nat (length data) ∧ c_bytes c ≤ 65536 ∧ c_sha256 c = sha256 data
    ∧ c_identity c = (if str_eqb (c_phase c) (bs "identity") then Some (classify_identity data) else None).

Definition profiled (sha256 : pybytes → pystr) (fs : gmap pystr pybytes) (p : Profile) : Prop :=
  ∃ data, fs !! profile_file (p_mode p) = Some data
    ∧ p_bytes p = Z.of_nat (length data) ∧ p_bytes p ≤ 65536 ∧ p_sha256 p = sha256 data.

Lemma payload_inr encoded data : payload encoded = inr data →
  b64decode encoded = Some data ∧ b64encode data = encoded ∧ Z.of_nat (length data) ≤ 65536.
Proof.
  unfold payload. destruct (b64decode encoded) as [d|]; [|done].
  destruct (65536 <? Z.of_nat (length d)) eqn:E1; [done|]. simpl.
  destruct (str_eqb (b64encode d) encoded) eqn:E2; [|done]. simpl. intros [= <-].
  apply str_eqb_eq in E2. apply Z.ltb_ge in E1. done.
Qed.

Lemma create_inr fs name data fs' : create fs name data = inr fs' →
  fs !! name = None ∧ fs' = <[name := data]> fs.
Proof. unfold create. destruct (fs !! name); [done|]. by intros [= <-]. Qed.

Section Captures.
Context (sha256 : pybytes → pystr).

Lemma capture_service_inr line fs cs fs' cs' :
  capture_service sha256 line (fs, cs) = inr (fs', cs') →
  ∃ c name data, cs' = cs ++ [c] ∧ c_name c ∉ c_name <$> cs ∧ fs !! name = None
    ∧ fs' = <[name := data]> fs ∧ captured sha256 fs' c.
Proof.
  unfold capture_service. destruct (frame SERVICE_FRAME 3 line) as [m|]; [|discriminate].
  intros H. run_inv H. injection H as <- <-.
  apply andb_true_iff in E0 as [E0 _]. apply negb_true_iff, bool_decide_eq_false in E0.
  apply payload_inr in E1 as (_ & _ & Hl). apply create_inr in E2 as [Hn ->].
  eexists _, _, _. split; [reflexivity|]. split; [exact E0|]. split; [exact Hn|].
  split; [reflexivity|]. exists x1. cbn [c_phase c_operation c_bytes c_sha256 c_identity].
  split; [apply lookup_insert_eq|]. split; [reflexivity|]. split; [exact Hl|]. split; reflexivity.
Qed.

Lemma capture_profile_inr line fs ps fs' ps' :
  capture_profile sha256 line (fs, ps) = inr (fs', ps') →
  ∃ p name data, ps' = ps ++ [p] ∧ p_mode p ∉ p_mode <$> ps ∧ fs !! name = None
    ∧ fs' = <[name := data]> fs ∧ profiled sha256 fs' p.
Proof.
  unfold capture_profile. destruct (frame PROFILE_FRAME 2 line) as [m|]; [|discriminate].
  intros H. run_inv H. injection H as <- <-.
  apply andb_true_iff in E as [E _]. apply negb_true_iff, bool_decide_eq_false in E.
  apply payload_inr in E0 as (_ & _ & Hl). apply create_inr in E1 as [Hn ->].
  eexists _, _, _. split; [reflexivity|]. split; [exact E|]. split; [exact Hn|].
  split; [reflexivity|]. exists x0. cbn [p_mode p_bytes p_sha256].
  split; [apply lookup_insert_eq|]. split; [reflexivity|]. split; [exact Hl|]. reflexivity.
Qed.

(** The captures of the loop: no two have the same name, every one is on disk,
    and the report lists them. *)
Record evidence_inv (g : Guest) (r : Result) : Prop := mkEvidenceInv {
  inv_services : r_services r = captures g;
  inv_profiles : r_profiles r = profiles g;
  inv_names : NoDup (c_name <$> captures g);
  inv_modes : NoDup (p_mode <$> profiles g);
  inv_captured : Forall (captured sha256 (private g)) (captures g);
  inv_profiled : Forall (profiled sha256 (private g)) (profiles g) }.

Lemma NoDup_snoc {A} (l : list A) x : x ∉ l → NoDup l → NoDup (l ++ [x]).
Proof.
  intros Hx Hl. apply NoDup_app. split; [exact Hl|]. split; [|apply NoDup_singleton].
  intros y Hy ->%list_elem_of_singleton. done.
Qed.

Lemma captured_mono fs name data c : fs !! name = None →
  captured sha256 fs c → captured sha256 (<[name := data]> fs) c.
Proof.
  intros Hn (d & Hd & H). exists d. split; [|exact H].
  rewrite lookup_insert_ne; [exact Hd|]. intros ->. by rewrite Hd in Hn.
Qed.

Lemma profiled_mono fs name data p : fs !! name = None →
  profiled sha256 fs p → profiled sha256 (<[name := data]> fs) p.
Proof.
  intros Hn (d & Hd & H). exists d. split; [|exact H].
  rewrite lookup_insert_ne; [exact Hd|]. intros ->. by rewrite Hd in Hn.
Qed.

Lemma inv_on_line g line r r' g' :
  on_line sha256 g line r = (r', inr g') → evidence_inv g r → evidence_inv g' r'.
Proof.
  unfold on_line. intros H [Hs Hp Hn Hm Hc Hf]. apply bind_inr in H as (r1 & [] & E & H). run_inv E.
  destruct (startswith line (bs "ONYX_PRIVATE_PROFILE")).
  { run_inv H. destruct x as [fs ps]. cbn [fst snd].
    apply capture_profile_inr in E0 as (p & name & data & -> & Hfresh & Hnone & -> & Hok).
    constructor; cbn; [exact Hs|reflexivity|exact Hn| | |].
    - rewrite fmap_app. by apply NoDup_snoc.
    - eapply Forall_impl; [exact Hc|]. intros c. by apply captured_mono.
    - apply Forall_app. split; [|by constructor]. eapply Forall_impl; [exact Hf|].
      intros q. by apply profiled_mono. }
  destruct (startswith line (bs "ONYX_PRIVATE_SERVICE")).
  { run_inv H. destruct x as [fs cs]. cbn [fst snd].
    apply capture_service_inr in E0 as (c & name & data & -> & Hfresh & Hnone & -> & Hok).
    constructor; cbn; [reflexivity|exact Hp| |exact Hm| |].
    - rewrite fmap_app. by apply NoDup_snoc.
    - apply Forall_app. split; [|by constructor]. eapply Forall_impl; [exact Hc|].
      intros q. by apply captured_mono.
    - eapply Forall_impl; [exact Hf|]. intros q. by apply profiled_mono. }
  run_inv H. by constructor.
Qed.

Lemma inv_on_lines lines g r r' g' :
  on_lines sha256 g lines r = (r', inr g') → evidence_inv g r → evidence_inv g' r'.
Proof.
  revert g r. induction lines as [|line [|next lines] IH]; intros g r.
  - intros H Hi. cbn [on_lines] in H. run_inv H. exact Hi.
  - intros H Hi. cbn [on_lines] in H. run_inv H. by destruct Hi.
  - cbn [on_lines]. intros H Hi. apply bind_inr in H as (r1 & g1 & E & H).
    eapply IH; [exact H|]. by eapply inv_on_line.
Qed.

Lemma inv_console chunk g r r' g' :
  receive sha256 g chunk r = (r', inr g') → evidence_inv g r → evidence_inv g' r'.
Proof.
  unfold receive. intros H Hi. apply bind_inr in H as (r1 & g1 & E & H). run_inv H.
  by eapply inv_on_lines.
Qed.
End Captures.

(** ** The report *)

(** Computations that leave a part of the report alone. *)
Definition keeps {T A} (f : Result → T) (m : M A) : Prop := ∀ r, f (m r).1 = f r.

Section Keeps.
Context {T : Type} (f : Result → T).

Lemma keeps_bind {A B} (m : M A) (k : A → M B) :
  keeps f m → (∀ a, keeps f (k a)) → keeps f (bind m k).
Proof.
  intros Hm Hk r. unfold bind. specialize (Hm r). destruct (m r) as [r1 [e|a]]; [exact Hm|].
  rewrite Hk. exact Hm.
Qed.
Lemma keeps_ret {A} (a : A) : keeps f (ret a).
Proof. by intros r. Qed.
Lemma keeps_lift {A} (m : may A) : keeps f (lift m).
Proof. by intros r. Qed.
Lemma keeps_upd g : (∀ r, f (g r) = f r) → keeps f (upd g).
Proof. intros H r. apply H. Qed.

Lemma keeps_inr {A} (m : M A) r r' x : keeps f m → m r = (r', x) → f r' = f r.
Proof. intros H E. specialize (H r). by rewrite E in H. Qed.
End Keeps.

Create HintDb alpine.
#[export] Hint Resolve keeps_ret keeps_lift : alpine.

Ltac keeps_auto :=
  repeat match goal with
  | |- keeps _ (bind _ _) => apply keeps_bind; [|intros ?]
  | |- keeps _ (upd _) => apply keeps_upd; intros ?; reflexivity
  | |- keeps _ (mark _) => apply keeps_upd; intros ?; reflexivity
  | |- keeps _ (match ?x with _ => _ end) => destruct x
  | |- keeps _ _ => solve [auto 1 with alpine]
  end.

Definition captures_of (r : Result) : list Capture * list Profile := (r_services r, r_profiles r).
Definition rows_of (r : Result) : pystr * list ServiceRow * list CustodyRow := (r_result r, r_rows r, r_custody r).

Lemma keeps_identity b : keeps captures_of (identity_diagnostic b) ∧ keeps rows_of (identity_diagnostic b).
Proof. unfold identity_diagnostic. split; keeps_auto. Qed.
Lemma keeps_artifacts g : keeps captures_of (see_artifacts g) ∧ keeps rows_of (see_artifacts g).
Proof. unfold see_artifacts. split; keeps_auto. Qed.
Lemma keeps_failure b code : keeps captures_of (on_failure b code).
Proof. unfold on_failure, install_diagnostic, build_diagnostic. keeps_auto. Qed.
Lemma keeps_pass g : keeps captures_of (on_pass g).
Proof. unfold on_pass. keeps_auto. Qed.
#[export] Hint Extern 1 (keeps captures_of _) =>
  first [apply keeps_identity | apply keeps_artifacts | apply keeps_failure | apply keeps_pass] : alpine.

Lemma keeps_judge g : keeps captures_of (judge g).
Proof. unfold judge. cbv zeta. keeps_auto. Qed.

(** The verdict of a failed guest is never a pass. *)
Lemma failure_result b code r r' : on_failure b code r = (r', inr tt) → r_result r' = u "guest_failure".
Proof.
  unfold on_failure. intros H. apply bind_inr in H as (r1 & [] & E & H). run_inv E.
  apply (keeps_inr r_result) in H; [exact H|].
  unfold install_diagnostic, build_diagnostic. keeps_auto.
Qed.

(** ** A pass *)

(** The evidence that a guest that passed has delivered. *)
Record passed (g : Guest) (r : Result) : Prop := mkPassed {
  pa_line : is_Some (rsearch PASS_ (buffer g)) ∧ rsearch FAIL_ (buffer g) = None;
  pa_rows : parse_service (buffer g) = inr (r_rows r);
  pa_custody : parse_custody (buffer g) = inr (r_custody r);
  pa_match : validate_correspondence (r_rows r) (r_custody r) (captures g) = inr tt;
  pa_profiles : profiles_complete (buffer g) (profiles g) = inr tt;
  pa_helix : parse_helix_observations (buffer g) = inr (r_helix r);
  pa_identity : identity_source (captures g) = Some (u "strict_validated");
  pa_hashes : is_Some (artifact_hashes g) }.

Definition three (g : Guest) : Prop :=
  ∀ hs, artifact_hashes g = Some hs → ∃ h1 h2 h3, hs = [h1; h2; h3].

Lemma artifacts_three g r r' hs : see_artifacts g r = (r', inr hs) → three g →
  ∀ l, hs = Some l → ∃ h1 h2 h3, l = [h1; h2; h3].
Proof.
  unfold see_artifacts. intros H Ht l ->.
  destruct (findall ARTIFACT (buffer g)) as [|m [|]], (artifact_hashes g) as [l'|] eqn:E;
    cbn in H; injection H as _ H; try discriminate H; first [injection H as <- | subst];
    eauto.
Qed.

Lemma failure_not_pass : u "guest_failure" = u "pass" → False.
Proof. intros H. vm_compute in H. discriminate H. Qed.
Lemma receipt_not_pass : u "invalid_artifact_receipt" = u "pass" → False.
Proof. intros H. vm_compute in H. discriminate H. Qed.
Lemma timeout_not_pass : u "guest_timeout" = u "pass" → False.
Proof. intros H. vm_compute in H. discriminate H. Qed.

Lemma on_pass_inr g r r' : on_pass g r = (r', inr tt) →
  profiles_complete (buffer g) (profiles g) = inr tt
  ∧ parse_helix_observations (buffer g) = inr (r_helix r')
  ∧ identity_source (captures g) = Some (u "strict_validated")
  ∧ r_rows r' = r_rows r ∧ r_custody r' = r_custody r
  ∧ r_result r' = if is_someb (artifact_hashes g) then u "pass" else u "invalid_artifact_receipt".
Proof.
  unfold on_pass. intros H.
  apply bind_inr in H as (r1 & [] & E1 & H). run_inv E1.
  apply bind_inr in H as (r2 & rows & E2 & H). run_inv E2.
  apply bind_inr in H as (r3 & [] & E3 & H). run_inv E3.
  apply bind_inr in H as (r4 & [] & E4 & H). run_inv E4. run_inv H.
  apply bool_decide_eq_true in E4.
  split; [exact E1|]. split; [exact E2|]. split; [exact E4|]. split; [reflexivity|].
  split; reflexivity.
Qed.

Lemma judge_inr g r r' g' stop : judge g r = (r', inr (g', stop)) → three g →
  captures g' = captures g ∧ profiles g' = profiles g ∧ private g' = private g ∧ three g'
  ∧ (stop = false → r_result r' = r_result r)
  ∧ (stop = true → r_result r' = u "pass" → passed g' r').
Proof.
  unfold judge. cbv zeta. intros H Ht.
  apply bind_inr in H as (r1 & rows & E1 & H). run_inv E1.
  apply bind_inr in H as (r2 & custody & E2 & H). run_inv E2.
  apply bind_inr in H as (r3 & [] & E3 & H). run_inv E3.
  apply bind_inr in H as (r4 & [] & E4 & H). apply (keeps_inr rows_of) in E4; [|apply keeps_identity].
  apply bind_inr in H as (r5 & hs & E5 & H).
  pose proof (artifacts_three _ _ _ _ E5 Ht) as H3.
  apply (keeps_inr rows_of) in E5; [|apply keeps_artifacts]. rewrite E4 in E5. clear E4.
  cbn [buffer stage pending artifact_hashes captures profiles private fed] in H.
  apply bind_inr in H as (r6 & [] & E6 & H).
  set (g1 := mkGuest _ _ _ _ _ _ _ _) in H.
  assert (Hg : captures g1 = captures g ∧ profiles g1 = profiles g ∧ private g1 = private g ∧ three g1)
    by (split; [reflexivity|split; [reflexivity|split; [reflexivity|exact H3]]]).
  injection E5 as R1 R2 R3.
  destruct (rsearch FAIL_ (buffer g)) as [[[i w] m]|] eqn:Ef.
  { cbn [is_someb orb] in E6. run_inv E6. apply bind_inr in H as (r7 & [] & E7 & H).
    apply failure_result in E7. apply ret_inr in H as [-> [= -> ->]].
    destruct Hg as (? & ? & ? & ?). repeat (split; [assumption|]). split; [discriminate|].
    intros _ Hp. rewrite E7 in Hp. by apply failure_not_pass in Hp. }
  destruct (rsearch PASS_ (buffer g)) as [x|] eqn:Ep; cbn [is_someb orb] in E6, H; run_inv E6.
  - apply bind_inr in H as (r7 & [] & E7 & H). apply ret_inr in H as [-> [= -> ->]].
    destruct Hg as (? & ? & ? & ?). repeat (split; [assumption|]). split; [discriminate|].
    intros _ Hp. apply on_pass_inr in E7 as (Q1 & Q2 & Q3 & Q4 & Q5 & Q6).
    destruct (artifact_hashes g1) as [l|] eqn:Eh.
    + constructor; rewrite ?Q4, ?Q5, ?R2, ?R3; try assumption.
      * split; [exists x; exact Ep|exact Ef].
      * by eexists.
    + rewrite Q6 in Hp. by apply receipt_not_pass in Hp.
  - apply ret_inr in H as [-> [= -> ->]]. destruct Hg as (? & ? & ? & ?).
    repeat (split; [assumption|]). split; [intros _; exact R1|discriminate].
Qed.

Section Loop.
Context (sha256 : pybytes → pystr) (euid : Z).

Lemma receive_quiet g chunk r r' g' : receive sha256 g chunk r = (r', inr g') →
  artifact_hashes g' = artifact_hashes g ∧ r_result r' = r_result r.
Proof.
  assert (Hline : ∀ g line r r' g', on_line sha256 g line r = (r', inr g') →
    artifact_hashes g' = artifact_hashes g ∧ r_result r' = r_result r).
  { clear. intros g line r r' g'. unfold on_line. intros H.
    apply bind_inr in H as (r1 & [] & E & H). run_inv E.
    destruct (startswith line _); [run_inv H; done|]. destruct (startswith line _); run_inv H; done. }
  assert (Hlines : ∀ lines g r r' g', on_lines sha256 g lines r = (r', inr g') →
    artifact_hashes g' = artifact_hashes g ∧ r_result r' = r_result r).
  { clear -Hline. intros lines. induction lines as [|line [|next lines] IH]; intros g r r' g' H.
    - cbn [on_lines] in H. by run_inv H.
    - cbn [on_lines] in H. by run_inv H.
    - cbn [on_lines] in H. apply bind_inr in H as (r1 & g1 & E & H).
      apply IH in H as [-> ->]. by apply Hline in E. }
  unfold receive. intros H. apply bind_inr in H as (r1 & g1 & E & H). run_inv H. by apply Hlines in E.
Qed.

Lemma boot_quiet g chunk r r' g' : boot g chunk r = (r', inr g') →
  artifact_hashes g' = artifact_hashes g ∧ captures g' = captures g ∧ profiles g' = profiles g
  ∧ private g' = private g ∧ r_result r' = r_result r ∧ captures_of r' = captures_of r.
Proof.
  unfold boot. cbv zeta. intros H.
  destruct (_ && contains _ (bs "login:")); [run_inv H; repeat split; reflexivity|].
  destruct (_ && (_ || _)); run_inv H; repeat split; reflexivity.
Qed.

Lemma inv_judge g r r' g' stop : judge g r = (r', inr (g', stop)) →
  captures g' = captures g → profiles g' = profiles g → private g' = private g →
  evidence_inv sha256 g r → evidence_inv sha256 g' r'.
Proof.
  intros H Ec Ep Ef [Hs Hp Hn Hm Hc Hf]. apply (keeps_inr captures_of) in H; [|apply keeps_judge].
  injection H as R1 R2. constructor; rewrite ?R1, ?R2, ?Ec, ?Ep, ?Ef; assumption.
Qed.

Lemma turn_inr t g r r' g' stop : turn sha256 euid t g r = (r', inr (g', stop)) →
  evidence_inv sha256 g r → three g → r_result r = u "guest_timeout" →
  evidence_inv sha256 g' r' ∧ three g'
  ∧ (stop = false → r_result r' = u "guest_timeout")
  ∧ (stop = true → r_result r' = u "pass" → passed g' r').
Proof.
  unfold turn. intros H Hi Ht Hr. apply bind_inr in H as (r1 & [] & E & H). run_inv E.
  destruct (t_chunk t) as [[|c chunk]|].
  - apply ret_inr in H as [-> [= -> ->]]. split; [exact Hi|]. split; [exact Ht|].
    split; [discriminate|]. intros _ Hp. rewrite Hr in Hp. by apply timeout_not_pass in Hp.
  - destruct (negb (stage g =? 2)).
    + apply bind_inr in H as (r2 & g2 & E2 & H). apply ret_inr in H as [-> [= -> ->]].
      apply boot_quiet in E2 as (Ea & Ec & Ep & Ef & Er & Ek). injection Ek as R1 R2.
      split; [destruct Hi; constructor; rewrite ?R1, ?R2, ?Ec, ?Ep, ?Ef; assumption|].
      split; [unfold three; by rewrite Ea|]. split; [intros _; by rewrite Er|discriminate].
    + apply bind_inr in H as (r2 & g2 & E2 & H).
      pose proof (inv_console sha256 _ _ _ _ _ E2 Hi) as Hi2.
      apply receive_quiet in E2 as [Ea Er].
      assert (Ht2 : three g2) by (unfold three; by rewrite Ea).
      pose proof (judge_inr _ _ _ _ _ H Ht2) as (Ec & Ep & Ef & Ht' & Hno & Hyes).
      split; [by eapply inv_judge|]. split; [exact Ht'|].
      split; [intros Hs; by rewrite (Hno Hs), Er|exact Hyes].
  - apply ret_inr in H as [-> [= -> ->]]. split; [exact Hi|]. split; [exact Ht|].
    split; [by intros _|discriminate].
Qed.

Lemma loop_inr ts g r r' g' : loop sha256 euid ts g r = (r', inr g') →
  evidence_inv sha256 g r → three g → r_result r = u "guest_timeout" →
  evidence_inv sha256 g' r' ∧ three g' ∧ (r_result r' = u "pass" → passed g' r').
Proof.
  revert g r. induction ts as [|t ts IH]; intros g r H Hi Ht Hr; cbn [loop] in H.
  - apply ret_inr in H as [-> ->]. split; [exact Hi|]. split; [exact Ht|].
    intros Hp. rewrite Hr in Hp. by apply timeout_not_pass in Hp.
  - apply bind_inr in H as (r1 & [g1 stop] & E & H).
    apply turn_inr in E as (Hi1 & Ht1 & Hno & Hyes); [|assumption..]. cbn [fst snd] in H.
    destruct stop.
    + apply ret_inr in H as [-> ->]. auto.
    + eapply IH; eauto.
Qed.
End Loop.

(** ** Cleanup *)

Definition evidence_of (r : Result) :=
  (r_result r, r_services r, r_profiles r, r_rows r, r_custody r, r_helix r).

Lemma close_streams l r :
  evidence_of (foldl close_stream r l) = evidence_of r
  ∧ (r_cleanup_ok (foldl close_stream r l) = Some true →
     r_cleanup_ok r = Some true ∧ Forall (λ x, x = None) l).
Proof.
  revert r. induction l as [|[e|] l IH]; intros r; cbn [foldl].
  - auto.
  - destruct (IH (close_stream r (Some e))) as [E H]. split; [exact E|].
    intros Hok. apply H in Hok as [Hok _]. discriminate Hok.
  - destruct (IH (close_stream r None)) as [E H]. split; [exact E|].
    intros Hok. apply H in Hok as [Hok Hl]. auto.
Qed.

(** The guest is gone and nothing failed on the way. *)
Definition clean (c : Cleanup) : Prop :=
  cl_oserror c = None ∧ cl_reaped c = true ∧ cl_gone c = true ∧ Forall (λ x, x = None) (cl_close c).

Lemma cleanup_spec c r :
  evidence_of (cleanup c r) = evidence_of r ∧ (ok_flag (cleanup c r) = true → clean c).
Proof.
  unfold cleanup, clean. destruct (cl_oserror c) as [e|].
  - destruct (close_streams (cl_close c) (set_cleanup_error (u "os_error", safe_errno e) r)) as [E H].
    split; [exact E|]. unfold ok_flag. destruct (r_cleanup_ok _) as [[]|]; try done.
    intros _. by destruct (H eq_refl) as [[=] _].
  - destruct (close_streams (cl_close c) (set_cleanup_ok (cl_reaped c && cl_gone c) r)) as [E H].
    split; [exact E|]. unfold ok_flag. destruct (r_cleanup_ok _) as [[]|]; try done.
    intros _. destruct (H eq_refl) as [[= Hb] Hl]. apply andb_true_iff in Hb as [-> ->]. done.
Qed.

(** ** Recovery *)

(** A removal that raised anything but FileNotFoundError. *)
Definition stays (a : Removal) : Prop :=
  (∃ errno, u_lstat a = Some errno ∧ errno ≠ Some 2) ∨ (∃ errno, u_unlink a = Some errno ∧ errno ≠ Some 2).

(** What keeps the target of an artifact from being removed: its identity could
    not be read after it was created, a descriptor could not be closed when it
    could not be wrapped, or the removal raised. *)
Definition fault (v : Recovery) : Prop :=
  (∃ errno, v_fstat v = inl errno)
  ∨ (is_Some (v_close v) ∧ ∃ errno, v_wrap v = inl errno)
  ∨ stays (v_removal v).

Lemma unlink_created_spec (d : gmap pystr (Z * Z)) name i a : d !! name = Some i →
  unlink_created d name i a = (delete name d, inr tt)
  ∨ (stays a ∧ ∃ err, unlink_created d name i a = (d, inl err)).
Proof.
  intros Hd. unfold unlink_created, not_found, stays.
  destruct (u_lstat a) as [x|]; [case_bool_decide; eauto 8|].
  rewrite bool_decide_eq_true_2 by done. destruct (u_unlink a) as [x|]; [case_bool_decide; eauto 8|auto].
Qed.

Lemma abandon_spec (d : gmap pystr (Z * Z)) name i a err d' out : d !! name = None →
  abandon (<[name := i]> d) name i a err = (d', out) →
  (∃ e, out = inl e) ∧ (d' = d ∨ (stays a ∧ d' = <[name := i]> d)).
Proof.
  intros Hd. unfold abandon.
  destruct (unlink_created_spec (<[name := i]> d) name i a) as [->|(Hs & e & ->)];
    [apply lookup_insert_eq|..]; intros [= <- <-]; [|by eauto].
  split; [by eauto|]. left. by apply delete_insert_id.
Qed.

(** All three digests of a recovered artifact. *)
Definition verified (expected : pystr) (v : Recovery) : Prop :=
  v_copied v = inr expected ∧ v_source v = inr expected ∧ v_target v = inr expected.

Lemma os_inr {A} (v : option Z + A) x : os v = inr x → v = inr x.
Proof. unfold os. destruct v; [done|]. by intros [= ->]. Qed.

Lemma os_inl {A} (v : option Z + A) err : os v = inl err → ∃ errno, v = inl errno.
Proof. unfold os. destruct v; [by eauto|discriminate]. Qed.

Lemma verify_copy_inr expected v x : verify_copy expected v = inr x → verified expected v.
Proof.
  unfold verify_copy, verified. intros H. run_inv H.
  repeat match goal with H : os _ = inr _ |- _ => apply os_inr in H end.
  repeat match goal with H : str_eqb _ _ = true |- _ => apply str_eqb_eq in H; subst end. done.
Qed.

Lemma recover_spec euid d name expected v d' out : recover euid d name expected v = (d', out) →
  match out with
  | inl _ => d' = d ∨ (d !! name = None ∧ fault v ∧ ∃ i, d' = <[name := i]> d)
  | inr i => d !! name = None ∧ d' = <[name := i]> d ∧ verified expected v
  end.
Proof.
  unfold recover, fault.
  destruct (match os (v_before v) with inl e => inl e | inr x => _ end) as [e|before];
    [by intros [= <- <-]; left|].
  destruct (match os (v_opened v) with inl e => inl e | inr x => _ end) as [e|i] eqn:E;
    [by intros [= <- <-]; left|].
  assert (Hn : d !! name = None) by (run_inv E; by destruct (d !! name)). cbv zeta.
  destruct (os (v_fstat v)) as [e|] eqn:Ef; [apply os_inl in Ef as [x Ex]; intros [= <- <-]; eauto 10|].
  destruct (os (v_wrap v)) as [e|] eqn:Ew; [apply os_inl in Ew as [x Ex]|].
  - destruct (v_close v) as [errno|]; [intros [= <- <-]; right; eauto 10|].
    intros [(e' & ->) [->|[Hs ->]]]%abandon_spec; [by left|right; eauto 10|done].
  - destruct (verify_copy expected v) as [e|] eqn:Ev.
    + intros [(e' & ->) [->|[Hs ->]]]%abandon_spec; [by left|right; eauto 10|done].
    + apply verify_copy_inr in Ev. by intros [= <- <-].
Qed.

(** The artifacts recovered so far: their names, the removal that would meet
    them, and nothing else changed in the directory. *)
Record recovered_inv (d0 d : gmap pystr (Z * Z)) (recovered : list (pystr * (Z * Z) * Removal))
    (seen : list (pystr * pystr * Recovery)) : Prop := mkRecoveredInv {
  ri_items : Forall2 (λ r x, r.1.1 = x.1.1 ∧ r.2 = v_removal x.2) recovered seen;
  ri_there : Forall (λ r, d !! r.1.1 = Some r.1.2 ∧ d0 !! r.1.1 = None) recovered;
  ri_names : NoDup recovered.*1.*1;
  ri_rest : ∀ n, n ∉ recovered.*1.*1 → d !! n = d0 !! n }.

Lemma recovered_snoc d0 d recovered seen name expected i v :
  recovered_inv d0 d recovered seen → d !! name = None →
  recovered_inv d0 (<[name := i]> d) (recovered ++ [(name, i, v_removal v)]) (seen ++ [(name, expected, v)]).
Proof.
  intros [H1 H2 H3 H4] Hn.
  assert (Hnot : name ∉ recovered.*1.*1).
  { intros (y & -> & (r & -> & Hr)%list_elem_of_fmap)%list_elem_of_fmap.
    rewrite Forall_forall in H2. destruct (H2 _ Hr) as [Hs _]. by rewrite Hs in Hn. }
  split.
  - apply Forall2_app; [exact H1|]. by constructor.
  - apply Forall_app. split; [|constructor; [|constructor]].
    + apply Forall_forall. intros r Hr. rewrite Forall_forall in H2. destruct (H2 r Hr) as [Hs H0].
      rewrite lookup_insert_ne; [done|]. intros ->. by rewrite Hs in Hn.
    + cbn [fst snd]. rewrite lookup_insert_eq, <-(H4 name) by done. done.
  - rewrite !fmap_app. apply NoDup_snoc; done.
  - intros n. rewrite !fmap_app. intros [Ha Hb]%not_elem_of_app. rewrite lookup_insert_ne; [by apply H4|].
    intros ->. apply Hb. by apply list_elem_of_singleton.
Qed.

(** After the removals, a file that is still there was met by a removal that
    raised, or follows one that did. *)
Lemma unlink_all_spec l d d' out : unlink_all d l = (d', out) →
  NoDup l.*1.*1 → Forall (λ r, d !! r.1.1 = Some r.1.2) l →
  (∀ n, n ∉ l.*1.*1 → d' !! n = d !! n)
  ∧ ∀ k r, l !! k = Some r → d' !! r.1.1 = None ∨ ∃ j r', (j ≤ k)%nat ∧ l !! j = Some r' ∧ stays r'.2.
Proof.
  revert d. induction l as [|[[n i] a] l IH]; intros d; cbn [unlink_all]; [by intros [= <- <-]|].
  intros H [Hn Hd]%NoDup_cons [Hi Hl]%Forall_cons. cbn [fst snd] in Hn, Hi.
  destruct (unlink_created_spec d n i a Hi) as [E|(Hs & e & E)]; rewrite E in H.
  - apply IH in H as [H1 H2]; [|done|].
    + split.
      * intros m. cbn [fmap list_fmap fst]. intros [Hm Hml]%not_elem_of_cons.
        rewrite H1 by done. by apply lookup_delete_ne.
      * intros [|k] r; cbn [lookup list_lookup].
        { intros [= <-]. left. cbn [fst]. rewrite H1 by done. apply lookup_delete_eq. }
        intros Hr. destruct (H2 k r Hr) as [?|(j & r' & Hj & Hr' & Hs)]; [by left|right].
        exists (S j), r'. split; [lia|]. done.
    + apply Forall_forall. intros r Hr. rewrite Forall_forall in Hl. rewrite lookup_delete_ne; [by apply Hl|].
      intros ->. apply Hn. apply list_elem_of_fmap. exists r.1. split; [done|]. by apply list_elem_of_fmap_2.
  - injection H as <- <-. split; [done|]. intros k r _. right. exists 0%nat, (n, i, a).
    split; [lia|]. done.
Qed.

(** What a failed recovery leaves: a file that was not there before is an
    artifact, and it or one before it met a fault. *)
Definition leftovers (d0 d : gmap pystr (Z * Z)) (l : list (pystr * pystr * Recovery)) : Prop :=
  ∀ n, d !! n ≠ d0 !! n →
    d0 !! n = None ∧ ∃ k j x y, l !! k = Some x ∧ x.1.1 = n ∧ (j ≤ k)%nat ∧ l !! j = Some y ∧ fault y.2.

Lemma removed_leftovers d0 d recovered seen name expected v l d1 d' out :
  recovered_inv d0 d recovered seen →
  d1 = d ∨ (d !! name = None ∧ fault v ∧ ∃ i, d1 = <[name := i]> d) →
  unlink_all d1 recovered = (d', out) →
  leftovers d0 d' (seen ++ (name, expected, v) :: l).
Proof.
  intros [H1 H2 H3 H4] Hd1 Hu n Hne.
  assert (Hname : d !! name = None → name ∉ recovered.*1.*1).
  { intros Hn (y & -> & (r & -> & Hr)%list_elem_of_fmap)%list_elem_of_fmap.
    rewrite Forall_forall in H2. destruct (H2 _ Hr) as [Hs _]. by rewrite Hs in Hn. }
  assert (Hsame : ∀ m, m ∈ recovered.*1.*1 → d1 !! m = d !! m).
  { intros m Hm. destruct Hd1 as [->|(Hn & _ & i & ->)]; [done|]. apply lookup_insert_ne.
    intros ->. by apply Hname. }
  apply unlink_all_spec in Hu as [Hr1 Hr2]; [|done|].
  2: { apply Forall_forall. intros r Hr. rewrite Hsame by (by apply list_elem_of_fmap_2, list_elem_of_fmap_2).
       rewrite Forall_forall in H2. by apply H2. }
  destruct (decide (n ∈ recovered.*1.*1)) as [Hin|Hout].
  - apply list_elem_of_fmap in Hin as (y & -> & (r & -> & Hr)%list_elem_of_fmap).
    rewrite Forall_forall in H2. destruct (H2 _ Hr) as [_ H0]. split; [done|].
    apply list_elem_of_lookup in Hr as [k Hk].
    destruct (Hr2 k r Hk) as [Hnone|(j & r' & Hj & Hr' & Hs)]; [by rewrite Hnone, H0 in Hne|].
    destruct (Forall2_lookup_l _ _ _ _ _ H1 Hk) as (x & Hx & [Ex _]).
    destruct (Forall2_lookup_l _ _ _ _ _ H1 Hr') as (z & Hz & [_ Ez]).
    exists k, j, x, z. split; [by apply lookup_app_l_Some|]. split; [done|]. split; [done|].
    split; [by apply lookup_app_l_Some|]. right. right. by rewrite <-Ez.
  - rewrite Hr1, <-H4 in Hne by done. rewrite <-H4 by done.
    destruct Hd1 as [->|(Hn & Hf & i & ->)]; [done|].
    destruct (decide (n = name)) as [->|Hnn]; [|by rewrite lookup_insert_ne in Hne].
    split; [done|]. exists (length seen), (length seen), (name, expected, v), (name, expected, v).
    rewrite list_lookup_middle by done. done.
Qed.

Lemma recover_all_spec euid d0 l d recovered seen d' out :
  recovered_inv d0 d recovered seen → recover_all euid d recovered l = (d', out) →
  match out with
  | inl _ => leftovers d0 d' (seen ++ l)
  | inr _ => Forall (λ x, verified x.1.2 x.2 ∧ is_Some (d' !! x.1.1)) l
             ∧ ∀ n i, d !! n = Some i → d' !! n = Some i
  end.
Proof.
  revert d recovered seen. induction l as [|[[name expected] v] l IH]; intros d recovered seen Ha;
    cbn [recover_all]; [intros [= <- <-]; split; [constructor|auto]|].
  destruct (recover euid d name expected v) as [d1 [e|i]] eqn:E; apply recover_spec in E.
  - destruct (unlink_all d1 recovered) as [d2 o] eqn:Eu.
    assert (leftovers d0 d2 (seen ++ (name, expected, v) :: l)) by (by eapply removed_leftovers).
    by destruct o; intros [= <- <-].
  - destruct E as (Hn & -> & Hv). intros H.
    specialize (IH _ _ _ (recovered_snoc _ _ _ _ _ expected i v Ha Hn) H).
    destruct out as [e|]; [by rewrite <-app_assoc in IH|]. destruct IH as [Hl Hk].
    assert (Hni : d' !! name = Some i) by apply Hk, lookup_insert_eq.
    split.
    + constructor; [|exact Hl]. split; [exact Hv|]. cbn [fst snd]. rewrite Hni. by eexists.
    + intros n j Hj. apply Hk. rewrite lookup_insert_ne; [done|]. intros ->. by rewrite Hj in Hn.
Qed.

(** ** What the evidence means *)

Lemma all_modes_NoDup : NoDup all_modes.
Proof. apply (bool_decide_unpack (NoDup all_modes)). by vm_compute. Qed.

Lemma all_modes_length : length all_modes = 4%nat.
Proof. by vm_compute. Qed.

Lemma profiles_meaning b ps : profiles_complete b ps = inr tt → NoDup (p_mode <$> ps) →
  p_mode <$> ps ≡ₚ all_modes.
Proof.
  unfold profiles_complete. intros H Hn. run_inv H.
  apply andb_true_iff in E0 as [E0 Hc]. apply andb_true_iff in E0 as [_ Ha].
  apply bool_decide_eq_true in Hc, Ha. rewrite Ha in Hc.
  apply NoDup_Permutation; [exact Hn|apply all_modes_NoDup|]. intros y.
  rewrite <-!(elem_of_list_to_set (C := gset pystr)). by rewrite Hc.
Qed.

Lemma helix_row_mode line h : helix_row line = inr h → h_mode h ∈ all_modes.
Proof.
  unfold helix_row. destruct (rfullmatch HELIX line) as [m|] eqn:E; [|discriminate].
  intros [= <-]. cbn [h_mode]. eapply group_words; [|exact E].
  apply (bool_decide_unpack _). by vm_compute.
Qed.

Lemma helix_rows_inr lines rows rows' : helix_rows rows lines = inr rows' →
  NoDup (h_mode <$> rows) → Forall (λ h, helix_ok h = true ∧ h_mode h ∈ all_modes) rows →
  NoDup (h_mode <$> rows') ∧ Forall (λ h, helix_ok h = true ∧ h_mode h ∈ all_modes) rows'.
Proof.
  revert rows. induction lines as [|line lines IH]; intros rows; cbn [helix_rows].
  - by intros [= <-].
  - intros H Hn Hf. run_inv H. apply helix_row_mode in E.
    apply andb_true_iff in E0 as [E0 Hok]. apply negb_true_iff, bool_decide_eq_false in E0.
    eapply IH; [exact H| |].
    + rewrite fmap_app. by apply NoDup_snoc.
    + apply Forall_app. split; [exact Hf|]. by constructor.
Qed.

Lemma helix_meaning b rows : parse_helix_observations b = inr rows →
  h_mode <$> rows ≡ₚ all_modes ∧ Forall (λ h, helix_ok h = true) rows.
Proof.
  unfold parse_helix_observations. intros H. run_inv H. injection H as <-.
  apply Nat.eqb_eq in E0. apply helix_rows_inr in E as [Hn Hf]; [|constructor..].
  split; [|eapply Forall_impl; [exact Hf|]; by intros h [? _]].
  apply submseteq_length_Permutation.
  - apply NoDup_submseteq; [exact Hn|]. intros y (h & -> & Hh)%list_elem_of_fmap.
    by eapply Forall_forall in Hf as [_ ?]; [|exact Hh].
  - by rewrite length_fmap, E0, all_modes_length.
Qed.

Lemma correspondence_meaning rows custody cs : validate_correspondence rows custody cs = inr tt →
  Forall (λ w, w_reason w ≠ bs "truncated") rows
  ∧ (∀ n, n ∈ w_name <$> rows ↔ n ∈ c_name <$> cs ∧ n ≠ PROBE)
  ∧ (∀ n, n ∈ k_name <$> custody ↔ n ∈ w_name <$> rows).
Proof.
  unfold validate_correspondence. intros H. run_inv H.
  apply andb_true_iff in H as [H1 H2]. apply bool_decide_eq_true in H1, H2.
  split; [|split].
  - apply Forall_forall. intros w Hw Ht. apply negb_true_iff, (not_true_iff_false _) in E. apply E.
    apply existsb_elem. exists w. split; [exact Hw|]. by apply str_eqb_eq.
  - intros n. rewrite <-(elem_of_list_to_set (C := gset (pystr * pystr)) n (w_name <$> rows)), H1.
    rewrite elem_of_difference, elem_of_list_to_set, elem_of_singleton. done.
  - intros n. rewrite <-!(elem_of_list_to_set (C := gset (pystr * pystr)) n).
    rewrite <-H2, H1. done.
Qed.

(** The diagnostics name no operation twice. *)
Lemma diagnostic_rows_names {R} pattern (row : mst → may R) name lines rows rows' :
  (∀ m x, row m = inr x → name x = names_of m) →
  diagnostic_rows pattern row name rows lines = inr rows' → NoDup (name <$> rows) → NoDup (name <$> rows').
Proof.
  intros Hrow. revert rows. induction lines as [|line lines IH]; intros rows; cbn [diagnostic_rows];
    [by intros [= <-]|].
  destruct (rfullmatch pattern line) as [m|]; [|discriminate]. intros H Hn. run_inv H.
  apply IH in H; [exact H|]. rewrite fmap_app. apply NoDup_snoc; [|exact Hn].
  apply negb_true_iff, bool_decide_eq_false in E0. erewrite Hrow; eauto.
Qed.

Lemma parse_service_names b rows : parse_service b = inr rows → NoDup (w_name <$> rows).
Proof.
  intros H. eapply diagnostic_rows_names; [|exact H|constructor].
  intros m x Hm. unfold service_row in Hm. run_inv Hm. by injection Hm as <-.
Qed.

Lemma parse_custody_names b rows : parse_custody b = inr rows → NoDup (k_name <$> rows).
Proof.
  intros H. eapply diagnostic_rows_names; [|exact H|constructor].
  intros m x Hm. unfold custody_row in Hm. by injection Hm as <-.
Qed.

Lemma identity_meaning sha256 fs cs : identity_source cs = Some (u "strict_validated") →
  Forall (captured sha256 fs) cs →
  ∃ data, fs !! service_file (bs "identity") (bs "probe") = Some data
    ∧ classify_identity data = u "strict_validated".
Proof.
  unfold identity_source. destruct (List.filter _ cs) as [|c l] eqn:E; [discriminate|].
  assert (Hc : In c (List.filter (λ c, bool_decide (c_name c = PROBE)) cs)) by (rewrite E; by left).
  apply filter_In in Hc as [Hin Hp]. apply bool_decide_eq_true in Hp. apply list_elem_of_In in Hin.
  intros Hs Hf. eapply Forall_forall in Hf; [|exact Hin]. destruct Hf as (data & Hd & _ & _ & _ & Hi).
  injection Hp as Ep Eo. rewrite Ep, Eo in Hd. exists data. split; [exact Hd|].
  rewrite Hs, Ep, str_eqb_refl in Hi. by injection Hi.
Qed.

(** ** The run *)

Lemma prepare_inr a e r r' pins : prepare a e r = (r', inr pins) →
  r_result r' = u "guest_timeout" ∧ captures_of r' = captures_of r
  ∧ e_digest e (binary a) = inr (expected_binary_sha256 a) ∧ e_digest e (iso a) = inr ISO_PIN
  ∧ pinned pins (e_copies e) = true
  ∧ ∃ root hs, resolve (e_fs e) (repo_root a) = inr root
               ∧ digests (e_digest e) (sources a root (e_candidate e)).*2 = inr hs
               ∧ pins = zip (sources a root (e_candidate e)).*1 hs.
Proof.
  intros H.
  assert (Hk : captures_of r' = captures_of r).
  { eapply keeps_inr; [|exact H]. unfold prepare. cbv zeta. keeps_auto. }
  unfold prepare in H. cbv zeta in H. run_inv H.
  apply os_inr in E, E7, E9. apply str_eqb_eq in E8 as ->, E10 as ->.
  split; [reflexivity|]. split; [exact Hk|]. split; [exact E7|]. split; [exact E9|].
  split; [exact E17|]. exists x0, x16. split; [exact E|]. split; [exact E13|reflexivity].
Qed.

(** Every input has one digest, when it is pinned and when it is compared. *)
Lemma pins_meaning dg (l : list (pystr * list pystr)) hs seen :
  digests dg l.*2 = inr hs → pinned (zip l.*1 hs) seen = true →
  Forall (λ np, ∃ h, dg np.2 = inr h ∧ seen np.1 = (h, h)) l.
Proof.
  revert hs. induction l as [|[n p] l IH]; intros hs; [constructor|].
  rewrite !fmap_cons. cbn [digests fst snd]. intros H Hp. run_inv H. injection H as <-.
  apply os_inr in E. cbn [zip zip_with pinned forallb fst snd] in Hp.
  apply andb_true_iff in Hp as [Hp Hl]. apply andb_true_iff in Hp as [H1%str_eqb_eq H2%str_eqb_eq].
  constructor; [|by eapply IH]. exists x. split; [exact E|]. cbn [fst].
  destruct (seen n) as [s1 s2]. cbn [fst snd] in *. by subst.
Qed.

Lemma same_digests dg s1 s2 (l : list (pystr * list pystr)) :
  Forall (λ np, ∃ h : pystr, dg np.2 = inr h ∧ s1 np.1 = (h, h)) l →
  Forall (λ np, ∃ h, dg np.2 = inr h ∧ s2 np.1 = (h, h)) l →
  Forall (λ np, ∃ h, dg np.2 = inr (A := option Z) h ∧ s1 np.1 = (h, h) ∧ s2 np.1 = (h, h)) l.
Proof.
  intros F1 F2. apply Forall_forall. intros np Hnp.
  eapply Forall_forall in F1 as (h & E1 & E2); [|exact Hnp].
  eapply Forall_forall in F2 as (h' & E3 & E4); [|exact Hnp].
  rewrite E1 in E3. injection E3 as <-. eauto.
Qed.

Lemma classify_not_pass err r : r_result (classify err r) = u "pass" → False.
Proof.
  assert (E : r_result (classify err r) = DRIVER_FAILURE) by (by destruct err).
  rewrite E. intros H. vm_compute in H. discriminate H.
Qed.

Lemma changed_not_pass : u "input_changed" = u "pass" → False.
Proof. intros H. vm_compute in H. discriminate H. Qed.
Lemma cleanup_not_pass : u "cleanup_failed" = u "pass" → False.
Proof. intros H. vm_compute in H. discriminate H. Qed.

(** The artifacts are in the output directory and have the announced digests. *)
Definition delivered (e : Env) (d : gmap pystr (Z * Z)) (hashes : list pystr) : Prop :=
  Forall (λ nh, verified nh.2 (e_recoveries e nh.1) ∧ is_Some (d !! nh.1)) (zip OUTPUTS hashes).

(** The files of the output directory at the end that were not there at the
    start: artifacts, and each of them, or one before it, met a fault. *)
Definition left_behind (e : Env) (d : gmap pystr (Z * Z)) : Prop :=
  ∀ n, d !! n ≠ e_out e !! n →
    e_out e !! n = None
    ∧ ∃ k j x, OUTPUTS !! k = Some n ∧ (j ≤ k)%nat ∧ OUTPUTS !! j = Some x ∧ fault (e_recoveries e x).

Lemma left_nothing e : left_behind e (e_out e).
Proof. by intros n. Qed.

(** The two ways a run ends for the output directory. *)
Definition disposed (e : Env) (d : gmap pystr (Z * Z)) (artifacts : option (list pystr)) : Prop :=
  match artifacts with
  | Some hashes => delivered e d hashes ∧ ∀ n i, e_out e !! n = Some i → d !! n = Some i
  | None => left_behind e d
  end.

Lemma outputs_lookup e (hashes : list pystr) k x :
  ((λ x, (x, e_recoveries e x.1)) <$> zip OUTPUTS hashes) !! k = Some x →
  OUTPUTS !! k = Some x.1.1 ∧ x.2 = e_recoveries e x.1.1.
Proof.
  rewrite list_lookup_fmap. intros ([n h] & Hy & ->)%fmap_Some.
  apply lookup_zip_Some in Hy as [H1 H2]. done.
Qed.

Lemma leftovers_left e (hashes : list pystr) d :
  leftovers (e_out e) d ((λ x, (x, e_recoveries e x.1)) <$> zip OUTPUTS hashes) → left_behind e d.
Proof.
  intros H n Hn. destruct (H n Hn) as (H0 & k & j & x & y & Hx & <- & Hj & Hy & Hf).
  apply outputs_lookup in Hx as [Hx _], Hy as [Hy Ey]. split; [done|].
  exists k, j, y.1.1. rewrite <-Ey. done.
Qed.

Lemma finish_spec a e pins g r d r' out : finish a e pins g r = (d, (r', out)) →
  (r_artifacts r = None → disposed e d (r_artifacts r'))
  ∧ (out = inr tt → r_result r' = u "pass" →
     inputs_unchanged a e pins = true ∧ ok_flag r = true ∧ evidence_of r' = evidence_of r
     ∧ ∀ hashes, artifact_hashes g = Some hashes → r_artifacts r' = Some hashes ∧ delivered e d hashes).
Proof.
  unfold finish. set (r1 := set_stage (u "verify_inputs") r).
  set (r2 := if inputs_unchanged a e pins then r1 else set_result (u "input_changed") r1).
  set (r3 := if ok_flag r2 then r2 else set_result (u "cleanup_failed") r2). cbv zeta.
  assert (Hf : ok_flag r3 = ok_flag r).
  { unfold r3, r2. destruct (ok_flag _), (inputs_unchanged a e pins); reflexivity. }
  assert (Ha3 : r_artifacts r3 = r_artifacts r).
  { unfold r3, r2. destruct (ok_flag _), (inputs_unchanged a e pins); reflexivity. }
  assert (Hp : r_result r3 = u "pass" →
    inputs_unchanged a e pins = true ∧ ok_flag r = true ∧ evidence_of r3 = evidence_of r).
  { unfold r3, r2. destruct (inputs_unchanged a e pins), (ok_flag _) eqn:E; intros H.
    - split; [reflexivity|]. split; reflexivity.
    - destruct (cleanup_not_pass H).
    - destruct (changed_not_pass H).
    - destruct (cleanup_not_pass H). }
  destruct (artifact_hashes g) as [hashes|].
  2: { intros [= <- <- <-].
       split; [intros Hn; change (disposed e (e_out e) (r_artifacts r3)); rewrite Ha3, Hn; apply left_nothing|].
       intros _ H. destruct (Hp H) as (H1 & H2 & H3).
       split; [exact H1|]. split; [exact H2|]. split; [exact H3|]. intros hashes. discriminate. }
  rewrite Hf. destruct (ok_flag r) eqn:Eo.
  2: { intros [= <- <- <-].
       split; [intros Hn; change (disposed e (e_out e) (r_artifacts r3)); rewrite Ha3, Hn; apply left_nothing|].
       intros _ H. destruct (Hp H) as (_ & [=] & _). }
  destruct (recover_all _ _ _ _) as [d1 [err|x]] eqn:E;
    apply (recover_all_spec _ (e_out e) _ _ _ []) in E;
      [|by split; [constructor|constructor|constructor|]| |by split; [constructor|constructor|constructor|]].
  - intros [= <- <- <-]. split; [|discriminate]. intros Hn.
    change (disposed e d1 (r_artifacts r3)). rewrite Ha3, Hn. exact (leftovers_left _ _ _ E).
  - destruct E as [Hall Hkeep]. intros [= <- <- <-].
    assert (Hd : delivered e d1 hashes).
    { unfold delivered. apply Forall_fmap in Hall. eapply Forall_impl; [exact Hall|]. by intros nh. }
    split; [intros _; split; [exact Hd|exact Hkeep]|].
    intros _ H. destruct (Hp H) as (H1 & H2 & H3). split; [exact H1|]. split; [exact H2|].
    split; [exact H3|]. intros h [= <-]. split; [reflexivity|exact Hd].
Qed.

Section Main.
Context (sha256 : pybytes → pystr) (a : Args) (e : Env).

Lemma keeps_receive g chunk : keeps r_artifacts (receive sha256 g chunk).
Proof.
  assert (Hline : ∀ g line, keeps r_artifacts (on_line sha256 g line))
    by (intros g' line; unfold on_line; keeps_auto).
  assert (Hlines : ∀ lines g, keeps r_artifacts (on_lines sha256 g lines)).
  { intros lines. induction lines as [|line [|next lines] IH]; intros g'; [cbn [on_lines]; keeps_auto..|].
    change (keeps r_artifacts (bind (on_line sha256 g' line) (λ g', on_lines sha256 g' (next :: lines)))).
    apply keeps_bind; [apply Hline|exact IH]. }
  unfold receive. apply keeps_bind; [apply Hlines|intros ?; keeps_auto].
Qed.

(** Nothing before the recovery reports artifacts. *)
Lemma keeps_loop ts g : keeps r_artifacts (loop sha256 (geteuid (e_fs e)) ts g).
Proof.
  revert g. induction ts as [|t ts IH]; intros g; cbn [loop]; keeps_auto.
  unfold turn. keeps_auto.
  - unfold boot. cbv zeta. keeps_auto.
  - apply keeps_receive.
  - unfold judge, identity_diagnostic, see_artifacts, on_failure, install_diagnostic, build_diagnostic,
      on_pass. cbv zeta. keeps_auto.
Qed.

Lemma cleanup_artifacts c r : r_artifacts (cleanup c r) = r_artifacts r.
Proof.
  unfold cleanup. assert (H : ∀ l r, r_artifacts (foldl close_stream r l) = r_artifacts r).
  { induction l as [|[x|] l IH]; intros r'; cbn [foldl]; [done|by rewrite IH..]. }
  rewrite H. by destruct (cl_oserror c).
Qed.

Lemma run_spec r d r' out : captures_of r = ([], []) → r_artifacts r = None →
  run sha256 a e r = (d, (r', out)) →
  disposed e d (r_artifacts r')
  ∧ (out = inr tt → r_result r' = u "pass" →
     ∃ pins g r0 r1,
       prepare a e r = (r0, inr pins)
       ∧ loop sha256 (geteuid (e_fs e)) (e_turns e) guest0 r0 = (r1, inr g)
       ∧ passed g r1 ∧ evidence_inv sha256 g r1 ∧ evidence_of r' = evidence_of r1
       ∧ clean (e_cleanup e) ∧ inputs_unchanged a e pins = true
       ∧ ∃ hashes, r_artifacts r' = Some hashes ∧ delivered e d hashes).
Proof.
  intros Hr Ha. unfold run. destruct (prepare a e r) as [r0 o] eqn:Ep.
  assert (Ha0 : r_artifacts r0 = None).
  { apply (keeps_inr r_artifacts) in Ep as ->; [exact Ha|]. unfold prepare. cbv zeta. keeps_auto. }
  destruct o as [err|pins].
  { intros [= <- <- <-]. rewrite Ha0. split; [apply left_nothing|discriminate]. }
  unfold guarded. destruct (loop _ _ _ _ r0) as [r1 o] eqn:El; cbv zeta beta.
  assert (Ha1 : r_artifacts (cleanup (e_cleanup e) r1) = None).
  { rewrite cleanup_artifacts. apply (keeps_inr r_artifacts) in El as ->; [exact Ha0|apply keeps_loop]. }
  destruct o as [err|g].
  { intros [= <- <- <-]. rewrite Ha1. split; [apply left_nothing|discriminate]. }
  destruct (cleanup_spec (e_cleanup e) r1) as [Ev Hc]. intros [Hd Hf]%finish_spec.
  apply prepare_inr in Ep as Hp. destruct Hp as (Hres & Hcap & _). rewrite Hr in Hcap.
  injection Hcap as Hs0 Hp0.
  pose proof El as El'. apply loop_inr in El' as (Hinv & Ht & Hpass);
    [|constructor; first [exact Hs0|exact Hp0|constructor]|intros hs; discriminate|exact Hres].
  split.
  - exact (Hd Ha1).
  - intros Ho Hpr. destruct (Hf Ho Hpr) as (Hi & Hok & Hev & Hdel).
    assert (Hev' : evidence_of r' = evidence_of r1) by (rewrite Hev; exact Ev).
    assert (H1 : r_result r1 = u "pass") by (injection Hev' as R _ _ _ _ _; rewrite <-R; exact Hpr).
    specialize (Hpass H1). destruct (pa_hashes _ _ Hpass) as [hashes Eh].
    exists pins, g, r0, r1. split; [reflexivity|]. split; [exact El|]. split; [exact Hpass|].
    split; [exact Hinv|]. split; [exact Hev'|]. split; [exact (Hc Hok)|]. split; [exact Hi|].
    exists hashes. exact (Hdel hashes Eh).
Qed.
End Main.

(** C36: The output directory of the Alpine driver.  Files that were in it are
    never lost.  The report names artifacts only when all of them are in the
    directory, each with the digest the guest announced in the copy, the source
    and the target.  Otherwise the directory is as it was at the start, except
    for artifacts that could not be removed: for such a file, or for an
    artifact before it, the identity of the new file could not be read, a
    descriptor could not be closed after it could not be wrapped, or its
    removal raised an error other than FileNotFoundError.  So without such an
    error the directory is all or nothing, whatever else fails.  Interrupts of
    the driver itself are not modelled. *)
Theorem alpine_all_or_nothing sha256 a e :
  let '(code, r, d) := main sha256 a e in
  (∀ n i, e_out e !! n = Some i → d !! n = Some i)
  ∧ match r_artifacts r with
    | Some hashes => delivered e d hashes
    | None => left_behind e d
    end.
Proof.
  unfold main. destruct (run sha256 a e result0) as [d [r out]] eqn:E.
  apply run_spec in E as [Hd _]; [|reflexivity..].
  assert (Hr : r_artifacts match out with inl err => classify err r | inr _ => r end = r_artifacts r)
    by (destruct out as [[]|]; reflexivity).
  rewrite Hr. destruct (r_artifacts r) as [hashes|]; [by destruct Hd|].
  split; [|exact Hd]. intros n i Hn. destruct (decide (d !! n = e_out e !! n)) as [->|Hne]; [done|].
  destruct (Hd n Hne) as [H0 _]. congruence.
Qed.

(** C12: Exit status 0 of the Alpine driver is evidence.  The guest was
    cleaned up; the binary and the image had their expected digests, and every
    input, found under the resolved repository root or the driver's own
    repository, had the same digest when pinned, when copied and at the end.  Every
    mode has exactly one profile capture and one live-upgrade observation, and
    the observations are sane.  The service diagnostics, the custody
    diagnostics and the captured logs name the same operations, none twice and
    none truncated; every captured log is on disk with its size and digest,
    and the identity probe shows the strict identity source.  The artifacts
    were recovered and verified. *)
Theorem alpine_pass_evidence sha256 a e r d :
  main sha256 a e = (0, r, d) →
  clean (e_cleanup e)
  ∧ e_digest e (binary a) = inr (expected_binary_sha256 a)
  ∧ e_digest e (iso a) = inr ISO_PIN ∧ e_iso_after e = ISO_PIN
  ∧ (∃ root, resolve (e_fs e) (repo_root a) = inr root
       ∧ Forall (λ np, ∃ h, e_digest e np.2 = inr h ∧ e_copies e np.1 = (h, h) ∧ e_after e np.1 = (h, h))
               (sources a root (e_candidate e)))
  ∧ p_mode <$> r_profiles r ≡ₚ all_modes
  ∧ h_mode <$> r_helix r ≡ₚ all_modes ∧ Forall (λ h, helix_ok h = true) (r_helix r)
  ∧ NoDup (c_name <$> r_services r) ∧ NoDup (w_name <$> r_rows r) ∧ NoDup (k_name <$> r_custody r)
  ∧ Forall (λ w, w_reason w ≠ bs "truncated") (r_rows r)
  ∧ (∀ n, n ∈ w_name <$> r_rows r ↔ n ∈ c_name <$> r_services r ∧ n ≠ PROBE)
  ∧ (∀ n, n ∈ k_name <$> r_custody r ↔ n ∈ w_name <$> r_rows r)
  ∧ (∃ g r0 r1 data, loop sha256 (geteuid (e_fs e)) (e_turns e) guest0 r0 = (r1, inr g)
       ∧ Forall (captured sha256 (private g)) (r_services r)
       ∧ Forall (profiled sha256 (private g)) (r_profiles r)
       ∧ private g !! service_file (bs "identity") (bs "probe") = Some data
       ∧ classify_identity data = u "strict_validated")
  ∧ ∃ hashes, r_artifacts r = Some hashes ∧ delivered e d hashes.
Proof.
  unfold main. destruct (run sha256 a e result0) as [d' [r' out]] eqn:E.
  intros H. assert (Hp : r_result match out with inl err => classify err r' | inr _ => r' end = u "pass").
  { injection H as H _ _. destruct (str_eqb _ (u "pass")) eqn:Es; [by apply str_eqb_eq|discriminate H]. }
  injection H as _ Hr ->. destruct out as [err|[]]; [destruct (classify_not_pass _ _ Hp)|]. subst r'.
  apply run_spec in E as [_ Hs]; [|reflexivity..].
  destruct (Hs eq_refl Hp) as (pins & g & r0 & r1 & Ep & El & Hpa & Hi & Hev & Hc & Hin & Hdel).
  apply prepare_inr in Ep as (_ & _ & Hb & Hiso & Hcp & root & hs & Hroot & Hdg & ->).
  apply andb_true_iff in Hin as [Hin _]. apply andb_true_iff in Hin as [Haf Hia%str_eqb_eq].
  destruct Hpa as [_ Hrw Hcu Hm Hpr Hh Hid _], Hi as [Hse Hpf Hnd Hnm Hca Hpc].
  injection Hev as _ E1 E2 E3 E4 E5. rewrite E1, E2, E3, E4, E5, Hse, Hpf.
  apply parse_service_names in Hrw. apply parse_custody_names in Hcu.
  apply correspondence_meaning in Hm as (Htr & Hn1 & Hn2).
  apply helix_meaning in Hh as [Hh1 Hh2].
  destruct (identity_meaning _ _ _ Hid Hca) as (data & Hd1 & Hd2).
  pose proof (pins_meaning _ _ _ _ Hdg Hcp) as F1. pose proof (pins_meaning _ _ _ _ Hdg Haf) as F2.
  split; [exact Hc|]. split; [exact Hb|]. split; [exact Hiso|]. split; [exact Hia|].
  split; [exists root; split; [exact Hroot|by apply same_digests]|]. split; [by eapply profiles_meaning|].
  split; [exact Hh1|]. split; [exact Hh2|]. split; [exact Hnd|].
  split; [exact Hrw|]. split; [exact Hcu|]. split; [exact Htr|].
  split; [exact Hn1|]. split; [exact Hn2|]. split; [|exact Hdel].
  exists g, r0, r1, data. split; [exact El|]. split; [exact Hca|]. split; [exact Hpc|].
  split; [exact Hd1|exact Hd2].
Qed.

(** ** A run that passes *)

Definition hex64 : pystr := replicate 64 97.
Definition line0 (s : pybytes) : pybytes := s ++ [10].

Definition console : pybytes :=
  line0 (bs "ONYX_PRIVATE_SERVICE identity probe " ++ b64encode BANNER)
  ++ (all_modes ≫= λ m, line0 (bs "ONYX_PRIVATE_PROFILE " ++ m ++ bs " " ++ b64encode m))
  ++ (all_modes ≫= λ m, line0 (bs "ONYX_PROFILE " ++ m ++ bs " strict socket exe carry pass"))
  ++ (all_modes ≫= λ m, line0 (bs "ONYX_HELIX " ++ m ++ bs " 7 1 2 3 4:5 strict "
        ++ (if str_eqb m (bs "env") then bs "1" else bs "0") ++ bs " same"))
  ++ (refusals ≫= line0)
  ++ line0 (bs "ONYX_ARTIFACT " ++ hex64 ++ bs " " ++ hex64 ++ bs " " ++ hex64)
  ++ line0 (bs "ONYX_RESULT PASS package").

Definition stat0 : Stat := mkStat true true 1 10 1000 448 1 1.
Definition fs0 : Fs := mkFs (λ p, inr p) (λ _, inr true) (λ _, inr stat0) 1000.
Definition args0 : Args :=
  mkArgs WORKSPACE (WORKSPACE ++ [u "bin"]) hex64 (WORKSPACE ++ [u "iso"])
    (WORKSPACE ++ [u "work"]) (WORKSPACE ++ [u "out"]).
Definition recovery0 : Recovery := 
  mkRecovery (inr stat0) (inr tt) (inr stat0) (inr (1, 2)) (inr tt) (inr tt) (inr hex64)
    (inr hex64) (inr hex64) None (mkRemoval None None).
Definition env0 : Env :=
  mkEnv fs0 WORKSPACE ∅
    (λ p, inr (if bool_decide (p = iso args0) then ISO_PIN else hex64)) true (λ _, (hex64, hex64))
    (inr tt) (inr tt)
    [mkTurn [] (Some (bs "login:")); mkTurn [] None; mkTurn [] (Some (bs "~ #")); mkTurn [] (Some console)]
    (mkCleanup None true true [None; None]) (λ _, (hex64, hex64)) ISO_PIN (hex64 ++ [10])
    (λ _, recovery0).

Lemma alpine_pass_evidence_witness :
  ∃ r d, main id args0 env0 = (0, r, d) ∧ p_mode <$> r_profiles r ≡ₚ all_modes.
Proof.
  destruct (main id args0 env0) as [[code r] d] eqn:E.
  assert (Hc : (main id args0 env0).1.1 = 0) by (vm_compute; reflexivity).
  rewrite E in Hc. cbn [fst] in Hc. subst code.
  exists r, d. split; [exact eq_refl|].
  destruct (alpine_pass_evidence id args0 env0 r d E) as (_ & _ & _ & _ & _ & H & _). exact H.
Defined.

Definition artifact_line (c : Z) : pybytes :=
  line0 (bs "ONYX_ARTIFACT " ++ replicate 64 c ++ bs " " ++ replicate 64 c ++ bs " " ++ replicate 64 c).

(** Two different artifact receipts are found when a line stands between them,
    but only the first when they are adjacent, since the pattern consumes the
    line break on both sides: the second receipt goes unnoticed. *)
Lemma adjacent_receipts :
  length (findall ARTIFACT (artifact_line 97 ++ line0 (bs "x") ++ artifact_line 98)) = 2%nat
  ∧ (group_ 1 <$> findall ARTIFACT (artifact_line 97 ++ artifact_line 98)) = [replicate 64 97].
Proof. split; vm_compute; reflexivity. Qed.

(** When the identity of a target cannot be read after it was created, the
    clean-up does not know the file: it is left behind, empty. *)
Lemma fstat_leaves_target :
  let v := mkRecovery (inr stat0) (inr tt) (inr stat0) (inr (1, 2)) (inl (Some 5)) (inr tt) (inr hex64)
             (inr hex64) (inr hex64) None (mkRemoval None None) in
  recover 1000 ∅ (u "old.apk") hex64 v = (<[u "old.apk" := (1, 2)]> ∅, inl (OSError (Some 5))).
Proof. vm_compute. reflexivity. Qed.
