(* ===== verification/Der.v ===== *)
(** * tools/windows_ocsp_live_smoke.py: DER and the OCSP fixture

    The encoder and the parser of DER elements, the certificate fields the
    fixture reads, the OCSP request and response it builds, and the check of
    the responder.  SHA-1, the instants and the issuer's signature are
    arguments. *)

From S2P Require Import Prelude PyStr PyBytes Base64.

(** ** Elements *)

Definition bit_length (z : Z) : Z := if z =? 0 then 0 else Z.log2 z + 1.

Definition der (tag : Z) (body : pybytes) : pybytes :=
  let length_ :=
    if len body <? 128 then [len body]
    else
      let encoded := to_be (Z.to_nat ((bit_length (len body) + 7) / 8)) (len body) in
      Z.lor 128 (len encoded) :: encoded in
  [tag] ++ length_ ++ body.

Definition sequence (parts : list pybytes) : pybytes := der 48 (concat parts).

Record element := mkElement { el_tag : Z; el_value : pybytes; el_raw : pybytes; el_end : nat }.

(** [tlv(data, offset)]; [None] is a [ValueError]. *)
Definition tlv (data : pybytes) (offset : nat) : option element :=
  let start := offset in
  if (length data <? offset + 2)%nat then None
  else
    let tag := nth offset data 0 in
    let count := nth (offset + 1) data 0 in
    let offset := (offset + 2)%nat in
    let size := Z.to_nat (Z.land count 127) in
    let finish count offset :=
      let end_ := (offset + count)%nat in
      if (length data <? end_)%nat then None
      else Some (mkElement tag (slice data offset end_) (slice data start end_) end_) in
    if Z.land count 128 =? 0 then finish (Z.to_nat count) offset
    else if (size =? 0)%nat || (4 <? size)%nat || (length data <? offset + size)%nat then None
    else finish (Z.to_nat (from_be (slice data offset (offset + size)))) (offset + size)%nat.

(** The loop of [children], a turn per unit of fuel: [None] when it has not
    ended, [Some None] when an element is malformed. *)
Fixpoint children_loop (fuel : nat) (body : pybytes) (offset : nat) (result : list element)
    : option (option (list element)) :=
  match fuel with
  | O => None
  | S fuel =>
    if (offset <? length body)%nat then
      match tlv body offset with
      | None => Some None
      | Some part => children_loop fuel body (el_end part) (result ++ [part])
      end
    else Some (Some result)
  end.

(** Every element takes two bytes at least. *)
Definition children_fuel (body : pybytes) : nat := S (length body / 2).

Definition children (body : pybytes) : option (list element) :=
  match children_loop (children_fuel body) body 0 [] with Some r => r | None => None end.

(** ** Certificates *)

Record fields := mkFields { serial : pybytes; issuer : pybytes; subject : pybytes; key : pybytes }.

Definition cert_fields (encoded : pybytes) : option fields :=
  cert ← tlv encoded 0;
  if negb (el_tag cert =? 48) || negb (el_end cert =? length encoded)%nat then None
  else
    parts ← children (el_value cert);
    tbs ← parts !! 0%nat;
    fs ← children (el_value tbs);
    first ← fs !! 0%nat;
    let base := if el_tag first =? 160 then 1%nat else 0%nat in
    serial_ ← fs !! base;
    issuer_ ← fs !! (base + 2)%nat;
    subject_ ← fs !! (base + 4)%nat;
    info ← fs !! (base + 5)%nat;
    spki ← children (el_value info);
    bits ← spki !! 1%nat;
    if negb (el_tag bits =? 3) || negb (bool_decide (take 1 (el_value bits) = [0])) then None
    else Some (mkFields (el_value serial_) (el_raw issuer_) (el_raw subject_) (drop 1 (el_value bits))).

Section Ocsp.
Context (sha1 : pybytes → pybytes).

Definition sha1_algorithm : pybytes := sequence [der 6 [43; 14; 3; 2; 26]; der 5 []].

Definition cert_id (name key_ serial_ : pybytes) : pybytes :=
  sequence [sha1_algorithm; der 4 (sha1 name); der 4 (sha1 key_); der 2 serial_].

(** The identifier, the issuer's name and the request; [None] when a
    certificate is malformed or the names differ. *)
Definition ocsp_material (leaf_der issuer_der : pybytes) : option (pybytes * pybytes * pybytes) :=
  leaf ← cert_fields leaf_der;
  iss ← cert_fields issuer_der;
  if negb (bool_decide (issuer leaf = subject iss)) then None
  else
    let id_ := cert_id (subject iss) (key iss) (serial leaf) in
    Some (id_, subject iss, sequence [sequence [sequence [id_]]]).

End Ocsp.

(** [make_response]: the times of the response as [GeneralizedTime] texts, and
    the signature the fixture returns for the part to be signed. *)
Definition generalized (text : pybytes) : pybytes := der 24 text.

Definition response_tbs (id_ name before now after : pybytes) : pybytes :=
  let single := sequence [id_; der 128 []; generalized before; der 160 (generalized after)] in
  sequence [der 161 name; generalized now; sequence [single]].

Definition make_response (id_ name before now after : pybytes) (sign : pybytes → pybytes)
    : option pybytes :=
  let tbs := response_tbs id_ name before now after in
  let signature := sign tbs in
  if negb (bool_decide (take 1 signature = [48])) then None
  else
    let ecdsa_sha256 := sequence [der 6 [42; 134; 72; 206; 61; 4; 3; 2]] in
    let basic := sequence [tbs; ecdsa_sha256; der 3 ([0] ++ signature)] in
    let response_bytes := sequence [der 6 [43; 6; 1; 5; 5; 7; 48; 1; 1]; der 4 basic] in
    Some (sequence [der 10 [0]; der 160 response_bytes]).

(** ** The responder *)

Record request := mkRequest {
  rq_path : pystr; rq_length : option pystr; rq_type : option pystr; rq_body : pybytes }.

Inductive reply := Accepted (status : Z) (response : pybytes) | Rejected (reason : pystr).

(** [do_POST] up to the gate: [released] is whether it opened in time.  The
    reason of a mismatch is given without the two bodies. *)
Definition do_POST (expected_request response : pybytes) (r : request) (released : bool) : reply :=
  match int (from_opt (u "-1") (rq_length r)) with
  | None => Rejected (u "ValueError")
  | Some n =>
    if negb (str_eqb (rq_path r) (u "/ocsp")) || negb ((0 <=? n) && (n <=? 4096))
    then Rejected (u "unexpected OCSP endpoint or body length")
    else if negb (bool_decide (take (Z.to_nat n) (rq_body r) = expected_request))
    then Rejected (u "OCSP CertID mismatch")
    else if negb (bool_decide (rq_type r = Some (u "application/ocsp-request")))
    then Rejected (u "OCSP request has the wrong content type")
    else if negb released then Rejected (u "negative-control response gate was not released")
    else Accepted 200 response
  end.
