(* ===== verification/DerSpec.v ===== *)
(** * Properties of the DER codec and of the OCSP fixture

    An encoded element is parsed back wherever it stands, the loop over the
    children of a value ends and partitions it, and the request built from two
    certificates identifies the leaf by the issuer's name and key. *)

From S2P Require Import Prelude PyStr PyBytes Base64 Der.

(** ** Lengths *)

Lemma byte_count L : 128 ≤ L < 2 ^ 32 →
  1 ≤ (bit_length L + 7) / 8 ≤ 4 ∧ L < 256 ^ ((bit_length L + 7) / 8).
Proof.
  intros HL. unfold bit_length. rewrite (proj2 (Z.eqb_neq L 0)) by lia.
  assert (H1 : 7 ≤ Z.log2 L < 32).
  { split; [apply Z.log2_le_pow2; lia|]. apply Z.log2_lt_pow2; lia. }
  pose proof (Z.log2_spec L ltac:(lia)) as [_ Hs].
  set (k := (Z.log2 L + 1 + 7) / 8) in *. assert (Hk : 8 * k ≤ Z.log2 L + 8 < 8 * k + 8).
  { unfold k. pose proof (Z.div_mod (Z.log2 L + 1 + 7) 8). pose proof (Z.mod_pos_bound (Z.log2 L + 1 + 7) 8). lia. }
  split; [lia|]. replace 256 with (2 ^ 8) by done. rewrite <-Z.pow_mul_r by lia.
  eapply Z.lt_le_trans; [exact Hs|]. apply Z.pow_le_mono_r; lia.
Qed.

(** ** Elements *)

Lemma nth_two {A} (pre : list A) x y post d :
  nth (length pre) (pre ++ x :: y :: post) d = x ∧ nth (length pre + 1) (pre ++ x :: y :: post) d = y.
Proof.
  split; [apply nth_middle|].
  replace (pre ++ x :: y :: post) with ((pre ++ [x]) ++ y :: post) by by rewrite <-app_assoc.
  replace (length pre + 1)%nat with (length (pre ++ [x])) by (rewrite length_app; simpl; lia).
  apply nth_middle.
Qed.

(** ** Elements *)

Definition small (body : pybytes) : Prop := len body < 2 ^ 32.

Lemma land_128_small n : 0 ≤ n < 128 → Z.land n 128 = 0.
Proof.
  intros H. assert (Hall : forallb (λ k, Z.land (Z.of_nat k) 128 =? 0) (seq 0 128) = true)
    by (vm_compute; reflexivity).
  rewrite <-(Z2Nat.id n) by lia. apply Z.eqb_eq. rewrite forallb_forall in Hall. apply Hall.
  apply in_seq. lia.
Qed.

Lemma lor_128 n : 0 ≤ n < 128 → Z.land (Z.lor 128 n) 128 = 128 ∧ Z.land (Z.lor 128 n) 127 = n.
Proof.
  intros H. rewrite !Z.land_lor_distr_l, (land_128_small n H). split; [reflexivity|].
  change 127 with (Z.ones 7). rewrite (Z.land_ones n) by lia. by rewrite Z.mod_small.
Qed.

(** What is left of [tlv] once the length is known. *)
Definition value_at (data : pybytes) (start : nat) (tag : Z) (offset count : nat) : option element :=
  let end_ := (offset + count)%nat in
  if (length data <? end_)%nat then None
  else Some (mkElement tag (slice data offset end_) (slice data start end_) end_).

Lemma tlv_eq data offset : tlv data offset =
  if (length data <? offset + 2)%nat then None
  else
    let tag := nth offset data 0 in
    let count := nth (offset + 1) data 0 in
    let size := Z.to_nat (Z.land count 127) in
    if Z.land count 128 =? 0 then value_at data offset tag (offset + 2) (Z.to_nat count)
    else if (size =? 0)%nat || (4 <? size)%nat || (length data <? offset + 2 + size)%nat then None
    else value_at data offset tag (offset + 2 + size)
           (Z.to_nat (from_be (slice data (offset + 2) (offset + 2 + size)))).
Proof. reflexivity. Qed.

Lemma value_at_app pre head body post tag :
  value_at (pre ++ (head ++ body) ++ post) (length pre) tag (length pre + length head) (length body)
  = Some (mkElement tag body (head ++ body) (length pre + length (head ++ body))).
Proof.
  unfold value_at. destruct (Nat.ltb_spec (length (pre ++ (head ++ body) ++ post))
    (length pre + length head + length body)) as [Hl|_]; [rewrite !length_app in Hl; lia|].
  f_equal. f_equal.
  - replace (pre ++ (head ++ body) ++ post) with ((pre ++ head) ++ body ++ post) by by rewrite <-!app_assoc.
    apply slice_app; rewrite length_app; lia.
  - apply slice_app; rewrite ?length_app; lia.
  - rewrite length_app. lia.
Qed.

(** The header of an element, then its value. *)
Lemma tlv_head pre tag count head body post :
  (if Z.land count 128 =? 0 then head = [] ∧ Z.to_nat count = length body
   else Z.to_nat (Z.land count 127) = length head ∧ (1 ≤ length head ≤ 4)%nat
        ∧ from_be head = len body) →
  tlv (pre ++ (tag :: count :: head ++ body) ++ post) (length pre)
  = Some (mkElement tag body (tag :: count :: head ++ body)
            (length pre + length (tag :: count :: head ++ body))).
Proof.
  intros Hc. pose proof (value_at_app pre (tag :: count :: head) body post tag) as Hv.
  rewrite tlv_eq. cbv zeta. set (data := pre ++ _) in *.
  assert (Hlen : (length pre + 2 + length head + length body ≤ length data)%nat).
  { unfold data. rewrite !length_app. simpl. rewrite ?length_app. lia. }
  destruct (Nat.ltb_spec (length data) (length pre + 2)) as [Hx|_]; [lia|].
  destruct (nth_two pre tag count ((head ++ body) ++ post) 0) as [N0 N1].
  change (pre ++ tag :: count :: (head ++ body) ++ post) with data in N0, N1. rewrite N0, N1.
  change (pre ++ ((tag :: count :: head) ++ body) ++ post) with data in Hv.
  destruct (Z.land count 128 =? 0).
  - destruct Hc as [-> Hn]. rewrite Hn. exact Hv.
  - destruct Hc as (Hs & Hh & Hf). rewrite Hs.
    destruct (Nat.eqb_spec (length head) 0) as [|_]; [lia|].
    destruct (Nat.ltb_spec 4 (length head)) as [|_]; [lia|].
    destruct (Nat.ltb_spec (length data) (length pre + 2 + length head)) as [|_]; [lia|].
    cbn [orb].
    assert (Hsl : slice data (length pre + 2) (length pre + 2 + length head) = head).
    { assert (Hd : data = (pre ++ [tag; count]) ++ head ++ (body ++ post)).
      { unfold data. rewrite <-!app_assoc. reflexivity. }
      rewrite Hd. apply slice_app; rewrite length_app; simpl; lia. }
    rewrite Hsl, Hf. unfold len. rewrite Nat2Z.id.
    replace (length pre + 2 + length head)%nat with (length pre + length (tag :: count :: head))%nat
      by (simpl; lia).
    exact Hv.
Qed.

(** An element is read back where it was written. *)
Lemma tlv_der pre tag body post : small body →
  tlv (pre ++ der tag body ++ post) (length pre)
  = Some (mkElement tag body (der tag body) (length pre + length (der tag body))).
Proof.
  intros Hs. unfold small in Hs. unfold der. destruct (Z.ltb_spec (len body) 128) as [Hl|Hl].
  - apply (tlv_head pre tag (len body) [] body post). unfold len in *.
    rewrite land_128_small by lia. cbn [Z.eqb]. split; [done|apply Nat2Z.id].
  - set (enc := to_be _ _). pose proof (byte_count (len body) ltac:(lia)) as [Hk Hlt].
    assert (Hn : length enc = Z.to_nat ((bit_length (len body) + 7) / 8)) by apply to_be_length.
    assert (He : 0 ≤ len enc < 128) by (unfold len at 1 2; lia).
    destruct (lor_128 (len enc) He) as [L1 L2].
    apply (tlv_head pre tag (Z.lor 128 (len enc)) enc body post). rewrite L1, L2. cbn [Z.eqb].
    split; [apply Nat2Z.id|]. split; [lia|]. apply from_be_to_be. rewrite Z2Nat.id by lia.
    unfold len at 1. lia.
Qed.

(** ** The loop *)

Lemma value_at_Some data start tag offset count e : value_at data start tag offset count = Some e →
  el_end e = (offset + count)%nat ∧ (el_end e ≤ length data)%nat ∧ el_raw e = slice data start (el_end e).
Proof.
  unfold value_at. destruct (Nat.ltb_spec (length data) (offset + count)); [done|].
  intros [= <-]. simpl. auto.
Qed.

Lemma tlv_progress data offset e : tlv data offset = Some e →
  (offset + 2 ≤ el_end e ≤ length data)%nat ∧ el_raw e = slice data offset (el_end e).
Proof.
  rewrite tlv_eq. destruct (Nat.ltb_spec (length data) (offset + 2)); [done|]. cbv zeta.
  destruct (Z.land _ 128 =? 0).
  - intros (He & Hl & Hr)%value_at_Some. split; [lia|exact Hr].
  - destruct (_ || _ || _); [done|]. intros (He & Hl & Hr)%value_at_Some. split; [lia|exact Hr].
Qed.

Lemma children_loop_ends fuel body offset result :
  (length body - offset < 2 * fuel)%nat → is_Some (children_loop fuel body offset result).
Proof.
  revert offset result. induction fuel as [|fuel IH]; intros offset result Hf; [lia|].
  cbn [children_loop]. destruct (Nat.ltb_spec offset (length body)); [|done].
  destruct (tlv body offset) as [e|] eqn:E; [|done]. apply tlv_progress in E as [E _].
  apply IH. lia.
Qed.

Lemma children_loop_more fuel fuel' body offset result r : (fuel ≤ fuel')%nat →
  children_loop fuel body offset result = Some r → children_loop fuel' body offset result = Some r.
Proof.
  revert fuel' offset result. induction fuel as [|fuel IH]; intros [|fuel'] offset result Hf; try done; [lia|].
  cbn [children_loop]. destruct (offset <? length body)%nat; [|done].
  destruct (tlv body offset); [|done]. apply IH. lia.
Qed.

Lemma children_loop_partition fuel body offset result parts :
  children_loop fuel body offset result = Some (Some parts) → (offset ≤ length body)%nat →
  concat (el_raw <$> result) = slice body 0 offset → (2 * length result ≤ offset)%nat →
  concat (el_raw <$> parts) = body ∧ (2 * length parts ≤ length body)%nat.
Proof.
  revert offset result. induction fuel as [|fuel IH]; intros offset result; [done|].
  cbn [children_loop]. destruct (Nat.ltb_spec offset (length body)) as [Hlt|Hge].
  - destruct (tlv body offset) as [e|] eqn:E; [|done]. apply tlv_progress in E as [E Hr].
    intros H Ho Hc Hl. eapply IH; [exact H|lia| |].
    + rewrite fmap_app, concat_app, Hc. cbn. rewrite app_nil_r, Hr. apply slice_join. lia.
    + rewrite length_app. simpl. lia.
  - intros [= <-] Ho Hc Hl. split; [|lia]. rewrite Hc. unfold slice. rewrite drop_0.
    apply take_ge. lia.
Qed.

Lemma children_fuel_enough body : (length body - 0 < 2 * children_fuel body)%nat.
Proof.
  unfold children_fuel. pose proof (Nat.div_mod (length body) 2).
  pose proof (Nat.mod_upper_bound (length body) 2). lia.
Qed.

(** C40: The loop over the children of a DER value ends on every input, after at
    most half as many turns as the value has bytes (every element takes two
    bytes at least), and any larger budget gives the same result; when it
    succeeds, the elements found are consecutive and make up the whole
    value. *)
Theorem children_terminates body fuel :
  (children_fuel body ≤ fuel)%nat →
  children_loop fuel body 0 [] = Some (children body)
  ∧ (∀ parts, children body = Some parts →
       concat (el_raw <$> parts) = body ∧ (2 * length parts ≤ length body)%nat).
Proof.
  intros Hf. unfold children.
  destruct (children_loop_ends (children_fuel body) body 0 [] (children_fuel_enough body)) as [r E].
  rewrite E. split; [by eapply children_loop_more|]. intros parts ->.
  eapply children_loop_partition; [exact E|lia|done|simpl; lia].
Qed.

Lemma children_terminates_witness :
  children_loop 3 [5; 0; 4; 1] 0 [] = Some (children [5; 0; 4; 1]).
Proof. apply (children_terminates [5; 0; 4; 1] 3). vm_compute. lia. Defined.

(** ** Round trips *)

Abbreviation part := (Z * list Z)%type (only parsing).
Definition encode (p : part) : pybytes := der p.1 p.2.
Definition view (e : element) : Z * pybytes * pybytes := (el_tag e, el_value e, el_raw e).

Lemma children_loop_parts (parts : list part) : ∀ pre result fuel,
  Forall (λ p, small p.2) parts → (length parts < fuel)%nat →
  ∃ es, children_loop fuel (pre ++ concat (encode <$> parts)) (length pre) result
        = Some (Some (result ++ es)) ∧ view <$> es = (λ p, (p.1, p.2, encode p)) <$> parts.
Proof.
  induction parts as [|p parts IH]; intros pre result [|fuel] Hs Hf; try (simpl in Hf; lia).
  - exists []. cbn [children_loop fmap list_fmap concat]. rewrite !app_nil_r.
    by rewrite Nat.ltb_irrefl.
  - apply Forall_cons in Hs as [Hp Hs]. rewrite fmap_cons, concat_cons. cbn [children_loop].
    assert (Hd : (2 ≤ length (encode p))%nat).
    { unfold encode, der. destruct (_ <? _); simpl; lia. }
    destruct (Nat.ltb_spec (length pre) (length (pre ++ encode p ++ concat (encode <$> parts)))) as [_|Hx];
      [|rewrite !length_app in Hx; lia].
    unfold encode at 1 3. rewrite tlv_der by done. fold (encode p). cbn [el_end].
    destruct (IH (pre ++ encode p) (result ++ [mkElement p.1 p.2 (encode p) (length pre + length (encode p))])
      fuel Hs ltac:(simpl in Hf; lia)) as (es & E & V).
    rewrite length_app, <-app_assoc in E. exists (mkElement p.1 p.2 (encode p) (length pre + length (encode p)) :: es).
    split; [|by rewrite fmap_cons, V].
    rewrite E. by rewrite <-app_assoc.
Qed.

Lemma children_encode (parts : list part) : Forall (λ p, small p.2) parts →
  ∃ es, children (concat (encode <$> parts)) = Some es ∧ view <$> es = (λ p, (p.1, p.2, encode p)) <$> parts.
Proof.
  intros Hs.
  destruct (children_loop_parts parts [] [] (S (length parts)) Hs ltac:(lia)) as (es & E & V).
  exists es. split; [|exact V]. unfold children.
  destruct (children_loop_ends _ _ 0 [] (children_fuel_enough (concat (encode <$> parts)))) as [r Er].
  rewrite Er. cbn [app length] in E.
  destruct (Nat.le_ge_cases (children_fuel (concat (encode <$> parts))) (S (length parts))) as [H|H].
  - apply (children_loop_more _ _ _ _ _ _ H) in Er. rewrite E in Er. by injection Er as <-.
  - apply (children_loop_more _ _ _ _ _ _ H) in E. rewrite E in Er. by injection Er as <-.
Qed.

Lemma view_lookup (es : list element) (parts : list part) i p :
  view <$> es = (λ p, (p.1, p.2, encode p)) <$> parts → parts !! i = Some p →
  ∃ n, es !! i = Some (mkElement p.1 p.2 (encode p) n).
Proof.
  intros H Hp. assert (Hi : (view <$> es) !! i = Some (p.1, p.2, encode p))
    by (rewrite H, list_lookup_fmap, Hp; done).
  rewrite list_lookup_fmap in Hi. destruct (es !! i) as [[t v r n]|]; [|done].
  injection Hi as -> -> ->. by exists n.
Qed.

Lemma encode_longer p : (length p.2 ≤ length (encode p))%nat.
Proof. unfold encode, der. rewrite !length_app. lia. Qed.

Lemma small_parts (parts : list part) : small (concat (encode <$> parts)) → Forall (λ p, small p.2) parts.
Proof.
  unfold small, len. induction parts as [|p parts IH]; intros H; [constructor|].
  rewrite fmap_cons, concat_cons, length_app in H. pose proof (encode_longer p).
  constructor; [lia|]. apply IH. lia.
Qed.

(** *** Certificates *)

(** The fields of a certificate, as far as the fixture looks. *)
Record cert := mkCert {
  k_version : option pybytes; k_serial : pybytes; k_algorithm : part; k_issuer : part;
  k_validity : part; k_subject : part; k_key_algorithm : part; k_key : pybytes;
  k_extensions : list part; k_rest : list part }.

Definition value_of (parts : list part) : pybytes := concat (encode <$> parts).

Definition key_parts (c : cert) : list part := [k_key_algorithm c; (3, 0 :: k_key c)].
Definition tbs_parts (c : cert) : list part :=
  match k_version c with Some v => [(160, v)] | None => [] end
  ++ [(2, k_serial c); k_algorithm c; k_issuer c; k_validity c; k_subject c; (48, value_of (key_parts c))]
  ++ k_extensions c.
Definition cert_parts (c : cert) : list part := (48, value_of (tbs_parts c)) :: k_rest c.
Definition encode_cert (c : cert) : pybytes := sequence (encode <$> cert_parts c).

Lemma tlv_whole tag body : small body →
  tlv (der tag body) 0 = Some (mkElement tag body (der tag body) (length (der tag body))).
Proof. intros H. pose proof (tlv_der [] tag body [] H) as E. cbn [app length] in E. by rewrite app_nil_r in E. Qed.

Lemma tbs_lookup c i p :
  (match k_version c with Some v => [(160, v)] | None => [] end
   ++ [(2, k_serial c); k_algorithm c; k_issuer c; k_validity c; k_subject c; (48, value_of (key_parts c))]) !! i
  = Some p → tbs_parts c !! i = Some p.
Proof. intros H. unfold tbs_parts. rewrite app_assoc. by apply lookup_app_l_Some. Qed.

(** The fields of an encoded certificate are read back. *)
Lemma cert_fields_encode c : small (value_of (cert_parts c)) →
  cert_fields (encode_cert c)
  = Some (mkFields (k_serial c) (encode (k_issuer c)) (encode (k_subject c)) (k_key c)).
Proof.
  intros Hs. pose proof (small_parts _ Hs) as Hp. unfold cert_fields, encode_cert, sequence.
  rewrite tlv_whole by done. cbn [mbind option_bind el_tag el_end el_value].
  rewrite Z.eqb_refl, Nat.eqb_refl. cbn [negb orb].
  destruct (children_encode _ Hp) as (es & Ee & Ve). rewrite Ee.
  destruct (view_lookup es _ 0 _ Ve eq_refl) as [n0 E0]. cbn [mbind option_bind]. rewrite E0.
  cbn [mbind option_bind el_value fst snd].
  apply Forall_cons in Hp as [Ht _]. pose proof (small_parts _ Ht) as Htp. cbn [snd] in Ht.
  destruct (children_encode _ Htp) as (fs & Ef & Vf). unfold value_of at 1. rewrite Ef.
  cbn [mbind option_bind].
  assert (Hk : Forall (λ p : part, small p.2) (key_parts c)).
  { apply small_parts. rewrite Forall_forall in Htp. apply (Htp (48, value_of (key_parts c))).
    unfold tbs_parts. rewrite !elem_of_app. right. left. do 5 right. left. }
  destruct (children_encode _ Hk) as (ks & Ek & Vk).
  destruct (view_lookup ks _ 1 _ Vk eq_refl) as [n1 E1].
  assert (L : ∀ i p, (match k_version c with Some v => [(160, v)] | None => [] end
   ++ [(2, k_serial c); k_algorithm c; k_issuer c; k_validity c; k_subject c; (48, value_of (key_parts c))]) !! i
    = Some p → ∃ n, fs !! i = Some (mkElement p.1 p.2 (encode p) n)).
  { intros i p H. by apply (view_lookup fs _ i _ Vf), tbs_lookup. }
  destruct (k_version c) as [v|].
  - destruct (L 0%nat _ eq_refl) as [m0 ->], (L 1%nat _ eq_refl) as [m1 F1], (L 3%nat _ eq_refl) as [m3 F3],
      (L 5%nat _ eq_refl) as [m5 F5], (L 6%nat _ eq_refl) as [m6 F6].
    cbn [mbind option_bind el_tag fst snd Z.eqb Pos.eqb Nat.add]. rewrite F1, F3, F5, F6.
    cbn [mbind option_bind el_value fst snd]. unfold value_of. rewrite Ek.
    cbn [mbind option_bind]. rewrite E1. cbn. reflexivity.
  - destruct (L 0%nat _ eq_refl) as [m0 F0], (L 2%nat _ eq_refl) as [m2 F2],
      (L 4%nat _ eq_refl) as [m4 F4], (L 5%nat _ eq_refl) as [m5 F5]. rewrite F0.
    cbn [mbind option_bind el_tag fst snd Z.eqb Pos.eqb Nat.add]. rewrite F0, F2, F4, F5.
    cbn [mbind option_bind el_value fst snd]. unfold value_of. rewrite Ek.
    cbn [mbind option_bind]. rewrite E1. cbn. reflexivity.
Qed.

(** *** The request *)

Definition tagged (es : list element) : list (Z * pybytes) := (λ e, (el_tag e, el_value e)) <$> es.

(** The parts of the identifier inside a request, outermost first. *)
Definition read_id (request : pybytes) : option (list (Z * pybytes)) :=
  e0 ← tlv request 0; e1 ← tlv (el_value e0) 0; e2 ← tlv (el_value e1) 0; e3 ← tlv (el_value e2) 0;
  tagged <$> children (el_value e3).

Lemma der_short tag body : len body < 128 → der tag body = tag :: len body :: body.
Proof. intros H. unfold der. by rewrite (proj2 (Z.ltb_lt _ _) H). Qed.

Lemma der_length tag body : len body < 128 → length (der tag body) = (2 + length body)%nat.
Proof. intros H. by rewrite der_short. Qed.

Lemma read_wrapped body : len body < 100 →
  read_id (sequence [sequence [sequence [der 48 body]]])
  = tagged <$> children body.
Proof.
  intros H. unfold read_id, sequence. cbn [concat]. rewrite !app_nil_r.
  assert (Hn : ∀ b, len b < 110 → len (der 48 b) = len b + 2).
  { intros b Hb. rewrite der_short by lia. unfold len. simpl. lia. }
  assert (S0 : small body) by (unfold small; lia).
  assert (S1 : small (der 48 body)) by (unfold small; rewrite Hn; lia).
  assert (S2 : small (der 48 (der 48 body))) by (unfold small; rewrite Hn; rewrite ?Hn; lia).
  assert (S3 : small (der 48 (der 48 (der 48 body)))) by (unfold small; rewrite Hn; rewrite ?Hn; rewrite ?Hn; lia).
  rewrite tlv_whole by done. cbn [mbind option_bind el_value].
  rewrite tlv_whole by done. cbn [mbind option_bind el_value].
  rewrite tlv_whole by done. cbn [mbind option_bind el_value].
  rewrite tlv_whole by done. reflexivity.
Qed.

Lemma do_POST_accepts expected response r :
  do_POST expected response r true = Accepted 200 response ↔
  ∃ n, int (from_opt (u "-1") (rq_length r)) = Some n ∧ rq_path r = u "/ocsp" ∧ 0 ≤ n ≤ 4096
       ∧ take (Z.to_nat n) (rq_body r) = expected ∧ rq_type r = Some (u "application/ocsp-request").
Proof.
  unfold do_POST. destruct (int _) as [n|]; [|split; [discriminate|intros (n & E & _); discriminate E]].
  destruct (str_eqb (rq_path r) (u "/ocsp")) eqn:Ep; cbn [negb orb].
  2: { split; [discriminate|]. intros (m & _ & E & _). apply str_eqb_eq in E. rewrite E in Ep. discriminate Ep. }
  apply str_eqb_eq in Ep.
  destruct ((0 <=? n) && (n <=? 4096)) eqn:En; cbn [negb].
  2: { split; [discriminate|]. intros (m & [= <-] & _ & Hn & _).
       apply andb_false_iff in En as [En|En]; apply Z.leb_gt in En; lia. }
  apply andb_true_iff in En as [E1%Z.leb_le E2%Z.leb_le].
  destruct (bool_decide (take _ _ = _)) eqn:Eb; cbn [negb].
  2: { split; [discriminate|]. intros (m & [= <-] & _ & _ & Hb & _). apply bool_decide_eq_false in Eb. done. }
  destruct (bool_decide (rq_type r = _)) eqn:Et; cbn [negb].
  2: { split; [discriminate|]. intros (m & _ & _ & _ & _ & Ht). apply bool_decide_eq_false in Et. contradiction. }
  apply bool_decide_eq_true in Eb, Et. split; [|done]. intros _. exists n.
  split; [reflexivity|]. split; [exact Ep|]. split; [lia|]. split; [exact Eb|exact Et].
Qed.

(** C39: The OCSP fixture asks for the right certificate.  From two encoded
    certificates, the leaf naming the issuer's subject as its issuer, it
    builds a request that parses back to the algorithm, the digests of the
    issuer's name and key and the leaf's serial number, which has at most 20
    bytes; while its response gate is open, the responder answers with the
    prepared response exactly to a request with that body at its endpoint,
    with the right type and a length within its limit.  SHA-1 is a parameter
    with digests of 20 bytes. *)
Theorem ocsp_request_identifies sha1 leaf iss response :
  (∀ x, length (sha1 x) = 20%nat) → (length (k_serial leaf) ≤ 20)%nat →
  small (value_of (cert_parts leaf)) → small (value_of (cert_parts iss)) →
  encode (k_issuer leaf) = encode (k_subject iss) →
  ∃ id_ request, ocsp_material sha1 (encode_cert leaf) (encode_cert iss)
      = Some (id_, encode (k_subject iss), request)
    ∧ read_id request = Some [(48, concat [der 6 [43; 14; 3; 2; 26]; der 5 []]);
                              (4, sha1 (encode (k_subject iss))); (4, sha1 (k_key iss)); (2, k_serial leaf)]
    ∧ ∀ r, do_POST request response r true = Accepted 200 response ↔
        ∃ n, int (from_opt (u "-1") (rq_length r)) = Some n ∧ rq_path r = u "/ocsp" ∧ 0 ≤ n ≤ 4096
             ∧ take (Z.to_nat n) (rq_body r) = request ∧ rq_type r = Some (u "application/ocsp-request").
Proof.
  intros Hsha Hser Hl Hi Hname. unfold ocsp_material.
  rewrite (cert_fields_encode _ Hl), (cert_fields_encode _ Hi). cbn [mbind option_bind issuer subject key serial].
  rewrite bool_decide_eq_true_2 by exact Hname. cbn [negb].
  eexists _, _. split; [reflexivity|]. split; [|intros r; apply do_POST_accepts].
  set (parts := [(48, concat [der 6 [43; 14; 3; 2; 26]; der 5 []]);
                 (4, sha1 (encode (k_subject iss))); (4, sha1 (k_key iss)); (2, k_serial leaf)] : list part).
  change (cert_id _ _ _ _) with (der 48 (concat (encode <$> parts))).
  assert (Hsmall : Forall (λ p : part, small p.2) parts).
  { unfold parts, small, len. repeat constructor; cbn [snd]; rewrite ?Hsha; lia. }
  assert (Hlen : len (concat (encode <$> parts)) < 100).
  { unfold parts, encode. assert (Ha : length (concat [der 6 [43; 14; 3; 2; 26]; der 5 []]) = 9%nat)
      by (vm_compute; reflexivity).
    revert Ha. generalize (concat [der 6 [43; 14; 3; 2; 26]; der 5 []]). intros alg Ha. unfold len.
    cbn [fmap list_fmap concat fst snd]. rewrite app_nil_r, !length_app.
    rewrite (der_length 48), (der_length 2), !(der_length 4); unfold len; rewrite ?Hsha, ?Ha; lia. }
  rewrite read_wrapped by exact Hlen. destruct (children_encode parts Hsmall) as (es & -> & V).
  cbn [fmap option_fmap option_map]. f_equal. unfold tagged.
  transitivity ((λ x : Z * pybytes * pybytes, x.1) <$> (view <$> es)).
  - rewrite <-list_fmap_compose. reflexivity.
  - rewrite V. reflexivity.
Qed.

Definition toy_sha1 (x : pybytes) : pybytes := replicate 20 (Z.of_nat (length x) mod 256).
Definition leaf0 : cert :=
  mkCert (Some (der 2 [2])) [7; 9] (48, []) (48, [1; 1]) (48, []) (48, [2]) (48, []) [5; 6] [] [(48, [])].
Definition issuer0 : cert :=
  mkCert None [1] (48, []) (48, [1; 1]) (48, []) (48, [1; 1]) (48, []) [3; 4] [(163, [])] [(48, [])].

Lemma ocsp_request_identifies_witness :
  ∃ id_ request, ocsp_material toy_sha1 (encode_cert leaf0) (encode_cert issuer0)
      = Some (id_, encode (k_subject issuer0), request)
    ∧ read_id request = Some [(48, concat [der 6 [43; 14; 3; 2; 26]; der 5 []]);
         (4, toy_sha1 (encode (k_subject issuer0))); (4, toy_sha1 (k_key issuer0)); (2, k_serial leaf0)].
Proof.
  destruct (ocsp_request_identifies toy_sha1 leaf0 issuer0 [] (λ x, length_replicate 20 _))
    as (id_ & request & H1 & H2 & _).
  - simpl. lia.
  - vm_compute. reflexivity.
  - vm_compute. reflexivity.
  - reflexivity.
  - exists id_, request. split; [exact H1|exact H2].
Defined.
