(* ===== verification/KernelProbe.v ===== *)
(** * tools/kernel_probe_startup_smoke.py: startup faults of the kernel probe

    The system-call trace of a daemon whose probe of io_uring was made to fail
    is read line by line; the campaign demands that nothing was submitted after
    the probe and that every ring and listener was closed.  The trace, the
    output files and the exit status of the daemon are arguments. *)

From S2P Require Import Prelude PyStr Regex.

(** ** Trace rows *)

Record row := mkRow { w_pid : pystr; w_op : pystr; w_args : pystr; w_line : pystr }.

#[local] Open Scope re_scope.

Definition space : re := RChr isspace.
Definition digit : re := RChr is_digit.

Definition CALL : re :=
  RAssert at_bol @@ star space @@ opt (RGroup 1 (plus digit) @@ plus space)
  @@ RGroup 2 (alts (lit <$> split_ws (u "io_uring_register io_uring_setup io_uring_enter close accept accept4 socket bind listen")))
  @@ lit (u "(") @@ RGroup 3 (star (RChr dot)) @@ RAssert at_dollar.

Definition RESUMED : re := lit (u "<... ") @@ star (RChr dot) @@ lit (u " resumed>").
Definition RETURNED : re :=
  lit (u "=") @@ star space @@ RGroup 1 (plus digit) @@ star space @@ RAssert at_dollar.
Definition ZERO : re := lit (u "=") @@ star space @@ lit (u "0") @@ star space @@ RAssert at_dollar.
Definition FIRST : re := RGroup 1 (plus digit).
Definition PORT : re :=
  lit (u "sin") @@ opt (lit (u "6")) @@ lit (u "_port=htons(") @@ RGroup 1 (plus digit) @@ lit (u ")").

#[local] Close Scope re_scope.

Definition row_of (line : pystr) : option row :=
  m ← rmatch CALL line;
  Some (mkRow (match group 1 m with Some ((_ :: _) as p) => p | _ => u "main" end)
              (group_ 2 m) (group_ 3 m) line).

Definition MAX_LOG : Z := 4 * 1024 * 1024.

(** [trace_rows] on the size and text of the trace, if the file exists; [None]
    is a failed demand. *)
Definition trace_rows (file : option (Z * pystr)) (strict : bool) : option (list row) :=
  match file with
  | None => None
  | Some (size, text) =>
    if negb (size <? MAX_LOG) then None
    else if strict && (contains text (u "<unfinished ...>") || is_someb (rsearch RESUMED text)) then None
    else Some (omap row_of (splitlines text))
  end.

(** ** Probe positions *)

Definition PROBE : pystr := u "IORING_REGISTER_PROBE".

(** The registrations of every process, in the order of first appearance. *)
Fixpoint add_entry (pid : pystr) (args : pystr) (l : list (pystr * list pystr)) : list (pystr * list pystr) :=
  match l with
  | [] => [(pid, [args])]
  | (p, es) :: l => if str_eqb p pid then (p, es ++ [args]) :: l else (p, es) :: add_entry pid args l
  end.

Definition by_pid (rows : list row) : list (pystr * list pystr) :=
  foldl (λ acc r, if str_eqb (w_op r) (u "io_uring_register") then add_entry (w_pid r) (w_args r) acc else acc)
    [] rows.

Fixpoint ordinals (i : Z) (entries : list pystr) : list Z :=
  match entries with
  | [] => []
  | args :: entries => (if contains args PROBE then [i] else []) ++ ordinals (i + 1) entries
  end.

Definition probe_positions (rows : list row) : option (list Z) :=
  match List.filter nonempty (ordinals 1 <$> (by_pid rows).*2) with
  | [matches] => Some matches
  | _ => None
  end.

(** ** The probe tables *)

Definition set_byte (i : nat) (v : Z) (data : list Z) : list Z := <[i := v]> data.
(** [struct.pack_into("<H", data, i, v)]. *)
Definition pack_H (i : nat) (v : Z) (data : list Z) : list Z :=
  <[(i + 1)%nat := v / 256 mod 256]> (<[i := v mod 256]> data).

Definition full_table : list Z :=
  foldl (λ data i, pack_H (16 + i * 8 + 2) 1 (set_byte (16 + i * 8) (Z.of_nat i) data))
    (set_byte 1 28 (set_byte 0 27 (replicate (16 + 28 * 8) 0))) (seq 0 28).

Inductive kind := malformed | incomplete | missing_send.

Definition probe_table (k : kind) : list Z :=
  match k with
  | malformed => set_byte 1 0 full_table
  | incomplete => set_byte 1 27 full_table
  | missing_send => pack_H (16 + 26 * 8 + 2) 0 full_table
  end.

(** ** Cleanup *)

Abbreviation key := (list Z * list Z)%type (only parsing).

Record Custody := mkCustody {
  rings : gmap key bool;             (* open rings, and whether they were probed *)
  sockets : gmap key (option Z);     (* open sockets, and the port they were bound to *)
  listener_ports : gset Z;
  probe_count : Z }.

Section Cleanup.
Context (expected_ports : list Z).

Definition expected (p : Z) : bool := existsb (Z.eqb p) expected_ports.

(** One row of the loop; [None] is a failure. *)
Definition custody_row (c : Custody) (r : row) : option Custody :=
  let returned := snd <$> rsearch RETURNED (w_line r) in
  let op := w_op r in
  match returned, str_eqb op (u "io_uring_setup"), str_eqb op (u "socket") with
  | Some m, true, _ =>
    let k := (w_pid r, group_ 1 m) in
    match rings c !! k with
    | Some _ => None
    | None => Some (mkCustody (<[k := false]> (rings c)) (sockets c) (listener_ports c) (probe_count c))
    end
  | Some m, _, true =>
    let k := (w_pid r, group_ 1 m) in
    match sockets c !! k with
    | Some _ => None
    | None => Some (mkCustody (rings c) (<[k := None]> (sockets c)) (listener_ports c) (probe_count c))
    end
  | _, _, _ =>
    match rmatch FIRST (w_args r) with
    | None => Some c
    | Some m =>
      let k := (w_pid r, group_ 1 m) in
      if str_eqb op (u "io_uring_register") && contains (w_args r) PROBE then
        match rings c !! k with
        | Some false =>
          Some (mkCustody (<[k := true]> (rings c)) (sockets c) (listener_ports c) (probe_count c + 1))
        | _ => None
        end
      else if str_eqb op (u "io_uring_enter") && bool_decide (rings c !! k = Some true) then None
      else if str_eqb op (u "accept") || str_eqb op (u "accept4") then None
      else if str_eqb op (u "bind") && is_someb (sockets c !! k) && is_someb (rsearch ZERO (w_line r)) then
        match rsearch PORT (w_args r) with
        | Some (_, _, pm) =>
          let port := from_opt 0 (int (group_ 1 pm)) in
          if expected port
          then Some (mkCustody (rings c) (<[k := Some port]> (sockets c)) ({[ port ]} ∪ listener_ports c) (probe_count c))
          else Some c
        | None => Some c
        end
      else if str_eqb op (u "close") && is_someb (rsearch ZERO (w_line r)) then
        Some (mkCustody (delete k (rings c)) (delete k (sockets c)) (listener_ports c) (probe_count c))
      else Some c
    end
  end.

Fixpoint custody_rows (c : Custody) (rows : list row) : option Custody :=
  match rows with
  | [] => Some c
  | r :: rows => match custody_row c r with Some c => custody_rows c rows | None => None end
  end.

Definition bound (c : Custody) : bool :=
  existsb (λ kv, is_someb kv.2) (map_to_list (sockets c)).

(** Whether the demands hold. *)
Definition prove_cleanup_and_no_submission (rows : list row) (minimum_rings : Z) : bool :=
  match custody_rows (mkCustody ∅ ∅ ∅ 0) rows with
  | None => false
  | Some c =>
    (minimum_rings <=? probe_count c) && bool_decide (rings c = ∅)
    && bool_decide (listener_ports c = list_to_set expected_ports) && negb (bound c)
  end.

(** [fault]: the exit status of the daemon, the sizes of its outputs, what it
    wrote to the error stream, the trace and whether the ports can be bound. *)
Record Fault := mkFault {
  f_status : Z; f_out : Z; f_err : Z; f_diagnostic : pybytes; f_trace : option (Z * pystr);
  f_bind : bool }.

Definition index_of (r : row) (rows : list row) : option nat :=
  fst <$> list_find (λ x, str_eqb (w_line x) (w_line r) = true) rows.

Definition fault (label_later : bool) (diagnostic : pybytes) (ordinal : Z) (f : Fault) : bool :=
  negb (f_status f =? 0) && (f_out f <? MAX_LOG) && (f_err f <? MAX_LOG)
  && contains (f_diagnostic f) diagnostic
  && match trace_rows (f_trace f) true with
     | None => false
     | Some rows =>
       let regs := List.filter (λ r, str_eqb (w_op r) (u "io_uring_register")) rows in
       match List.filter (λ r, contains (w_line r) (u "INJECTED")) regs with
       | [r] =>
         contains (w_args r) PROBE
         && match index_of r (List.filter (λ x, str_eqb (w_pid x) (w_pid r)) regs) with
            | Some i => Z.of_nat i + 1 =? ordinal
            | None => false
            end
         && prove_cleanup_and_no_submission rows (if label_later then 2 else 1)
         && f_bind f
       | _ => false
       end
     end.
End Cleanup.
