(* ===== verification/KernelProbeSpec.v ===== *)
(** * What an accepted kernel-probe trace shows

    The rows of a trace are events on descriptors.  The contract is stated on
    the whole sequence of events, through what happened since the last close of
    a descriptor; the dictionaries of [prove_cleanup_and_no_submission] refine
    it. *)

From S2P Require Import Prelude PyStr Regex KernelProbe.

(** ** Events *)

Inductive event :=
  | ESetup (k : key) | ESocket (k : key) | EProbe (k : key) | EEnter (k : key) | EAccept
  | EBind (k : key) (port : Z) | EClose (k : key) | EOther.

#[global] Instance event_eq_dec : EqDecision event.
Proof. solve_decision. Defined.

(** The event a row reports, whatever happened before it and whatever is
    expected.  A key is the number strace prints in front of the row, which
    under -f is the thread's, and the descriptor. *)
Definition event_of (r : row) : event :=
  let op := w_op r in
  match snd <$> rsearch RETURNED (w_line r), str_eqb op (u "io_uring_setup"), str_eqb op (u "socket") with
  | Some m, true, _ => ESetup (w_pid r, group_ 1 m)
  | Some m, _, true => ESocket (w_pid r, group_ 1 m)
  | _, _, _ =>
    match rmatch FIRST (w_args r) with
    | None => EOther
    | Some m =>
      let k := (w_pid r, group_ 1 m) in
      if str_eqb op (u "io_uring_register") && contains (w_args r) PROBE then EProbe k
      else if str_eqb op (u "io_uring_enter") then EEnter k
      else if str_eqb op (u "accept") || str_eqb op (u "accept4") then EAccept
      else if str_eqb op (u "bind") && is_someb (rsearch ZERO (w_line r)) then
        match rsearch PORT (w_args r) with
        | Some (_, _, pm) =>
          EBind k (from_opt 0 (int (group_ 1 pm)))
        | None => EOther
        end
      else if str_eqb op (u "close") && is_someb (rsearch ZERO (w_line r)) then EClose k
      else EOther
    end
  end.

(** ** The contract *)

Section Spec.
Context (expected_ports : list Z).

(** [s] happened and [k] has not been closed since. *)
Definition since (s : event) (k : key) (tr : list event) : Prop :=
  ∃ a b, tr = a ++ s :: b ∧ EClose k ∉ b.

Definition ring_open (tr : list event) (k : key) : Prop := since (ESetup k) k tr.
Definition ring_probed (tr : list event) (k : key) : Prop := since (EProbe k) k tr.
Definition socket_open (tr : list event) (k : key) : Prop := since (ESocket k) k tr.
(** An open socket of the trace was bound to [port], and is still open. *)
Definition listening (tr : list event) (k : key) (port : Z) : Prop :=
  ∃ a b, tr = a ++ EBind k port :: b ∧ socket_open a k ∧ EClose k ∉ b.
(** Some open socket of the trace was once bound to [port]. *)
Definition listened (tr : list event) (port : Z) : Prop :=
  ∃ a b k, tr = a ++ EBind k port :: b ∧ socket_open a k.

(** What may follow the trace [tr]. *)
Definition allowed (tr : list event) (e : event) : Prop :=
  match e with
  | ESetup k => ¬ ring_open tr k
  | ESocket k => ¬ socket_open tr k
  | EProbe k => ring_open tr k ∧ ¬ ring_probed tr k
  | EEnter k => ¬ ring_probed tr k
  | EAccept => False
  | EBind _ _ | EClose _ | EOther => True
  end.

Definition legal (tr : list event) : Prop := ∀ a e b, tr = a ++ e :: b → allowed a e.

Definition is_probe (e : event) : bool := match e with EProbe _ => true | _ => false end.
Definition probes (tr : list event) : Z := Z.of_nat (length (List.filter is_probe tr)).

(** Every event was allowed, enough rings were probed, every ring was closed,
    every expected port was listened on, and no listener on an expected port is
    left.  Listeners on other ports are not looked at. *)
Definition clean (tr : list event) (minimum_rings : Z) : Prop :=
  legal tr ∧ minimum_rings ≤ probes tr ∧ (∀ k, ¬ ring_open tr k)
  ∧ ∀ p, p ∈ expected_ports → listened tr p ∧ ∀ k, ¬ listening tr k p.

(** ** Traces grow at the end *)

Lemma snoc_split {A} (tr a b : list A) x e :
  tr ++ [e] = a ++ x :: b ↔ (a = tr ∧ x = e ∧ b = []) ∨ ∃ b', b = b' ++ [e] ∧ tr = a ++ x :: b'.
Proof.
  split.
  - destruct b as [|y b _] using rev_ind; intros H.
    + apply app_inj_tail in H as [-> ->]. by left.
    + rewrite app_comm_cons, app_assoc in H. apply app_inj_tail in H as [-> ->]. right. by exists b.
  - intros [(-> & -> & ->)|(b' & -> & ->)]; [done|]. by rewrite <-app_assoc.
Qed.

Lemma legal_snoc tr e : legal (tr ++ [e]) ↔ legal tr ∧ allowed tr e.
Proof.
  split.
  - intros H. split; [|by apply (H tr e [])].
    intros a x b ->. apply (H a x (b ++ [e])). by rewrite <-app_assoc.
  - intros [H1 H2] a x b [(-> & -> & ->)|(b' & -> & Hb)]%snoc_split; [done|]. by apply (H1 a x b').
Qed.

Lemma since_snoc s k tr e : s ≠ EClose k →
  since s k (tr ++ [e]) ↔ e = s ∨ (e ≠ EClose k ∧ since s k tr).
Proof.
  intros Hs. split.
  - intros (a & b & [(-> & -> & ->)|(b' & -> & Hb)]%snoc_split & Hc); [by left|].
    right. rewrite elem_of_app, list_elem_of_singleton in Hc. split; [naive_solver|].
    exists a, b'. naive_solver.
  - intros [->|[He (a & b & -> & Hc)]]; [exists tr, []; split; [done|apply not_elem_of_nil]|].
    exists a, (b ++ [e]). rewrite <-app_assoc. split; [done|].
    rewrite elem_of_app, list_elem_of_singleton. naive_solver.
Qed.

Lemma since_nil s k : ¬ since s k [].
Proof. intros (a & b & H & _). destruct a; discriminate H. Qed.

Lemma listening_snoc tr e k p :
  listening (tr ++ [e]) k p ↔ (e = EBind k p ∧ socket_open tr k) ∨ (e ≠ EClose k ∧ listening tr k p).
Proof.
  split.
  - intros (a & b & [(-> & <- & ->)|(b' & -> & Hb)]%snoc_split & Ho & Hc); [by left|].
    right. rewrite elem_of_app, list_elem_of_singleton in Hc. split; [naive_solver|].
    exists a, b'. naive_solver.
  - intros [[-> Ho]|[He (a & b & -> & Ho & Hc)]].
    { exists tr, []. split_and!; [done|done|apply not_elem_of_nil]. }
    exists a, (b ++ [e]). rewrite <-app_assoc. split_and!; [done|done|].
    rewrite elem_of_app, list_elem_of_singleton. naive_solver.
Qed.

Lemma listened_snoc tr e p :
  listened (tr ++ [e]) p ↔ (∃ k, e = EBind k p ∧ socket_open tr k) ∨ listened tr p.
Proof.
  split.
  - intros (a & b & k & [(-> & <- & ->)|(b' & -> & Hb)]%snoc_split & Ho); [left; by exists k|].
    right. exists a, b', k. naive_solver.
  - intros [(k & -> & Ho)|(a & b & k & -> & Ho)].
    + exists tr, [], k. naive_solver.
    + exists a, (b ++ [e]), k. by rewrite <-app_assoc.
Qed.

Lemma probes_snoc tr e : probes (tr ++ [e]) = probes tr + (if is_probe e then 1 else 0).
Proof.
  unfold probes. rewrite List.filter_app, length_app. simpl. destruct (is_probe e); simpl; lia.
Qed.

(** ** The dictionaries *)

(** The step of the loop, on the event of the row. *)
Definition custody_step (c : Custody) (e : event) : option Custody :=
  match e with
  | ESetup k => match rings c !! k with
    | Some _ => None
    | None => Some (mkCustody (<[k := false]> (rings c)) (sockets c) (listener_ports c) (probe_count c)) end
  | ESocket k => match sockets c !! k with
    | Some _ => None
    | None => Some (mkCustody (rings c) (<[k := None]> (sockets c)) (listener_ports c) (probe_count c)) end
  | EProbe k => match rings c !! k with
    | Some false => Some (mkCustody (<[k := true]> (rings c)) (sockets c) (listener_ports c) (probe_count c + 1))
    | _ => None end
  | EEnter k => if bool_decide (rings c !! k = Some true) then None else Some c
  | EAccept => None
  | EBind k p =>
    if is_someb (sockets c !! k) && expected expected_ports p
    then Some (mkCustody (rings c) (<[k := Some p]> (sockets c)) ({[ p ]} ∪ listener_ports c) (probe_count c))
    else Some c
  | EClose k => Some (mkCustody (delete k (rings c)) (delete k (sockets c)) (listener_ports c) (probe_count c))
  | EOther => Some c
  end.

Lemma custody_row_step c r : custody_row expected_ports c r = custody_step c (event_of r).
Proof.
  unfold custody_row, event_of.
  destruct (snd <$> rsearch RETURNED (w_line r)) as [m|];
    destruct (str_eqb (w_op r) (u "io_uring_setup")) eqn:E1;
    destruct (str_eqb (w_op r) (u "socket")) eqn:E2; try reflexivity;
    (destruct (rmatch FIRST (w_args r)) as [m'|]; [|reflexivity]);
    (destruct (str_eqb (w_op r) (u "io_uring_register") && contains (w_args r) PROBE); [reflexivity|]);
    (destruct (str_eqb (w_op r) (u "io_uring_enter")) eqn:E3;
      [apply str_eqb_eq in E3; rewrite E3; clear; cbn [andb custody_step]; case_bool_decide; reflexivity|];
     cbn [andb];
     destruct (_ || _); [reflexivity|];
     destruct (str_eqb (w_op r) (u "bind")) eqn:E4; cbn [andb];
     [|destruct (_ && _); reflexivity]).
  all: apply str_eqb_eq in E4; rewrite E4; change (str_eqb (u "bind") (u "close")) with false; cbn [andb].
  all: destruct (is_someb (rsearch ZERO (w_line r))); rewrite ?andb_true_r, ?andb_false_r; [|reflexivity].
  all: destruct (rsearch PORT (w_args r)) as [[[? ?] pm]|]; [|destruct (is_someb _); reflexivity].
  all: cbn [custody_step]; destruct (is_someb _); cbn [andb]; [|reflexivity]; destruct (expected _ _); reflexivity.
Qed.
(** The dictionaries represent the trace. *)
Record holds (tr : list event) (c : Custody) : Prop := {
  h_ring k : is_Some (rings c !! k) ↔ ring_open tr k;
  h_probed k : rings c !! k = Some true ↔ ring_probed tr k;
  h_socket k : is_Some (sockets c !! k) ↔ socket_open tr k;
  h_bound k : (∃ p, sockets c !! k = Some (Some p)) ↔ ∃ p, p ∈ expected_ports ∧ listening tr k p;
  h_ports p : p ∈ listener_ports c ↔ p ∈ expected_ports ∧ listened tr p;
  h_count : probe_count c = probes tr }.

Lemma holds_nil : holds [] (mkCustody ∅ ∅ ∅ 0).
Proof.
  split; simpl; intros; unfold ring_open, ring_probed, socket_open;
    rewrite ?lookup_empty, ?elem_of_empty.
  - split; [by intros []%is_Some_None|by intros []%since_nil].
  - split; [done|by intros []%since_nil].
  - split; [by intros []%is_Some_None|by intros []%since_nil].
  - split; [by intros [? H]|]. intros (? & _ & a & b & H & _). by destruct a.
  - split; [done|]. intros (_ & a & b & ? & H & _). by destruct a.
  - done.
Qed.

Lemma expected_iff p : expected expected_ports p = true ↔ p ∈ expected_ports.
Proof.
  unfold expected. rewrite existsb_exists, list_elem_of_In. split; [|intros H; exists p; by rewrite Z.eqb_refl].
  by intros (x & Hx & ->%Z.eqb_eq).
Qed.

(** One more event, clause by clause of [holds]. *)
Lemma ring_open_snoc tr e k : ring_open (tr ++ [e]) k ↔ e = ESetup k ∨ (e ≠ EClose k ∧ ring_open tr k).
Proof. by apply since_snoc. Qed.
Lemma ring_probed_snoc tr e k : ring_probed (tr ++ [e]) k ↔ e = EProbe k ∨ (e ≠ EClose k ∧ ring_probed tr k).
Proof. by apply since_snoc. Qed.
Lemma socket_open_snoc tr e k : socket_open (tr ++ [e]) k ↔ e = ESocket k ∨ (e ≠ EClose k ∧ socket_open tr k).
Proof. by apply since_snoc. Qed.

Ltac after_event Hr Hp Hs Hb Hl :=
  split; simpl;
  [intros k'; rewrite ring_open_snoc, <-Hr
  |intros k'; rewrite ring_probed_snoc, <-Hp
  |intros k'; rewrite socket_open_snoc, <-Hs
  |intros k'; setoid_rewrite listening_snoc; specialize (Hb k'); setoid_rewrite <-Hs
  |intros p'; rewrite listened_snoc; specialize (Hl p'); setoid_rewrite <-Hs; rewrite ?elem_of_union, ?elem_of_singleton
  |rewrite probes_snoc; simpl; lia];
  clear Hr Hp Hs; unfold is_Some in *;
  try match goal with |- context [<[?k := _]> _ !! ?k'] =>
        destruct (decide (k = k')) as [->|?];
          [rewrite ?lookup_insert_eq in *|rewrite ?lookup_insert_ne in * by done]
      | |- context [delete ?k _ !! ?k'] =>
        destruct (decide (k = k')) as [->|?];
          [rewrite ?lookup_delete_eq in *|rewrite ?lookup_delete_ne in * by done]
      end; try naive_solver.

Lemma holds_step tr c e :
  holds tr c →
  match custody_step c e with
  | Some c' => allowed tr e ∧ holds (tr ++ [e]) c'
  | None => ¬ allowed tr e
  end.
Proof.
  intros [Hr Hp Hs Hb Hl Hc]. destruct e as [k|k|k|k| |k p|k|]; cbn [custody_step allowed].
  - destruct (rings c !! k) as [b|] eqn:E.
    + rewrite <-Hr, E. intros []. by eexists.
    + split; [rewrite <-Hr, E; by intros []%is_Some_None|]. after_event Hr Hp Hs Hb Hl.
  - destruct (sockets c !! k) as [b|] eqn:E.
    + rewrite <-Hs, E. intros []. by eexists.
    + split; [rewrite <-Hs, E; by intros []%is_Some_None|]. after_event Hr Hp Hs Hb Hl.
  - destruct (rings c !! k) as [[]|] eqn:E.
    + rewrite <-Hp. naive_solver.
    + split; [rewrite <-Hr, <-Hp, E; split; [by eexists|done]|]. after_event Hr Hp Hs Hb Hl.
    + rewrite <-Hr, E. by intros [[]%is_Some_None _].
  - case_bool_decide as E; rewrite <-Hp; [naive_solver|]. split; [done|]. after_event Hr Hp Hs Hb Hl.
  - by intros [].
  - pose proof (expected_iff p) as Hx.
    destruct (sockets c !! k) as [b|] eqn:E, (expected expected_ports p); simpl;
      (split; [done|]); after_event Hr Hp Hs Hb Hl.
  - split; [done|]. after_event Hr Hp Hs Hb Hl.
  - split; [done|]. after_event Hr Hp Hs Hb Hl.
Qed.
Lemma custody_rows_snoc c rows r :
  custody_rows expected_ports c (rows ++ [r])
  = c' ← custody_rows expected_ports c rows; custody_row expected_ports c' r.
Proof.
  revert c. induction rows as [|x rows IH]; intros c; cbn [app custody_rows mbind option_bind].
  - by destruct (custody_row _ c r).
  - by destruct (custody_row _ c x).
Qed.

Lemma custody_rows_holds rows :
  let tr := event_of <$> rows in
  match custody_rows expected_ports (mkCustody ∅ ∅ ∅ 0) rows with
  | Some c => legal tr ∧ holds tr c
  | None => ¬ legal tr
  end.
Proof.
  induction rows as [|r rows IH] using rev_ind; cbn zeta in *.
  { cbn [custody_rows]. split; [|apply holds_nil]. intros a e b H. destruct a; discriminate H. }
  rewrite custody_rows_snoc, fmap_app. cbn [fmap list_fmap].
  destruct (custody_rows _ _ rows) as [c|]; cbn [mbind option_bind]; [|rewrite legal_snoc; tauto].
  rewrite custody_row_step. destruct IH as [HL HI]. pose proof (holds_step _ _ (event_of r) HI) as Hstep.
  destruct (custody_step c (event_of r)); rewrite legal_snoc; tauto.
Qed.

Lemma bound_iff c : bound c = true ↔ ∃ k p, sockets c !! k = Some (Some p).
Proof.
  unfold bound. rewrite existsb_exists. split.
  - intros ([k [p|]] & Hin & H); [|discriminate]. exists k, p.
    by apply elem_of_map_to_list, list_elem_of_In.
  - intros (k & p & H). exists (k, Some p). split; [|done].
    by apply list_elem_of_In, elem_of_map_to_list.
Qed.

Lemma holds_no_rings tr c : holds tr c → (rings c = ∅ ↔ ∀ k, ¬ ring_open tr k).
Proof.
  intros H. split.
  - intros E k. rewrite <-(h_ring _ _ H k), E, lookup_empty. by intros []%is_Some_None.
  - intros E. apply map_empty. intros k. apply eq_None_not_Some. by rewrite (h_ring _ _ H k).
Qed.

Lemma holds_ports tr c : holds tr c →
  (listener_ports c = list_to_set expected_ports ↔ ∀ p, p ∈ expected_ports → listened tr p).
Proof.
  intros H. rewrite set_eq. setoid_rewrite elem_of_list_to_set. setoid_rewrite (h_ports _ _ H). naive_solver.
Qed.

Lemma holds_not_bound tr c : holds tr c →
  (bound c = false ↔ ∀ p, p ∈ expected_ports → ∀ k, ¬ listening tr k p).
Proof.
  intros H. rewrite <-not_true_iff_false, bound_iff. pose proof (h_bound _ _ H) as Hb. split.
  - intros Hn p Hp k Hl. apply Hn. destruct (proj2 (Hb k)) as [q Hq]; [by exists p|]. by exists k, q.
  - intros Hn (k & p & Hk). destruct (proj1 (Hb k)) as (q & Hq & Hl); [by exists p|]. by apply (Hn q Hq k).
Qed.

(** C20: [prove_cleanup_and_no_submission] accepts a trace exactly when its
    sequence of events, each attributed to the number strace prints (the
    thread) and the descriptor, is clean: no ring or socket is created on a
    descriptor that is still open, a ring is probed once and only while it is
    open, no call of the thread that set it up enters a probed ring before it is
    closed, nothing is accepted, at least [minimum_rings] probes were made,
    every ring was closed, and every expected port was listened on by a socket
    of the trace and is not listened on any more.  Ports that are not expected
    are ignored, and another thread's submission is not seen ([stray_listener],
    [other_thread_submits]). *)
Theorem cleanup_refines rows minimum_rings :
  prove_cleanup_and_no_submission expected_ports rows minimum_rings = true
  ↔ clean (event_of <$> rows) minimum_rings.
Proof.
  pose proof (custody_rows_holds rows) as H. cbn zeta in H.
  unfold prove_cleanup_and_no_submission, clean.
  destruct (custody_rows _ _ rows) as [c|]; [destruct H as [HL HI]|naive_solver].
  rewrite !andb_true_iff, !bool_decide_eq_true, Z.leb_le, negb_true_iff.
  rewrite (holds_no_rings _ _ HI), (holds_ports _ _ HI), (holds_not_bound _ _ HI), (h_count _ _ HI).
  naive_solver.
Qed.

End Spec.

(** ** Threads *)

(** Rows of a trace with two threads: the second one enters the ring the first
    one probed. *)
Definition two_threads : list row := omap row_of [
  u "11 io_uring_setup(8, {}) = 5";
  u "11 socket(AF_INET, SOCK_STREAM, 0) = 6";
  u "11 bind(6, {sa_family=AF_INET, sin_port=htons(7001)}, 16) = 0";
  u "11 io_uring_register(5, IORING_REGISTER_PROBE, 0x7f, 256) = -1 EINVAL";
  u "12 io_uring_enter(5, 1, 0, 0, NULL, 8) = 1";
  u "11 close(6) = 0";
  u "11 close(5) = 0"].

(** The traced process is multi-threaded and the keys of the dictionaries carry
    the thread: a submission to a probed ring by another thread is accepted. *)
Lemma other_thread_submits :
  prove_cleanup_and_no_submission [7001] two_threads 1 = true
  ∧ EEnter (u "12", u "5") ∈ (event_of <$> two_threads).
Proof.
  split; [vm_compute; reflexivity|]. apply (list_elem_of_lookup_2 _ 4). vm_compute. reflexivity.
Qed.

(** Rows of a trace in which a socket listens on a port that is not expected
    and is never closed. *)
Definition stray_rows : list row := omap row_of [
  u "11 io_uring_setup(8, {}) = 5";
  u "11 socket(AF_INET, SOCK_STREAM, 0) = 6";
  u "11 bind(6, {sa_family=AF_INET, sin_port=htons(7001)}, 16) = 0";
  u "11 socket(AF_INET, SOCK_STREAM, 0) = 7";
  u "11 bind(7, {sa_family=AF_INET, sin_port=htons(9999)}, 16) = 0";
  u "11 io_uring_register(5, IORING_REGISTER_PROBE, 0x7f, 256) = -1 EINVAL";
  u "11 close(6) = 0";
  u "11 close(5) = 0"].

Lemma stray_listener :
  prove_cleanup_and_no_submission [7001] stray_rows 1 = true
  ∧ EBind (u "11", u "7") 9999 ∈ (event_of <$> stray_rows)
  ∧ EClose (u "11", u "7") ∉ (event_of <$> stray_rows).
Proof.
  split; [vm_compute; reflexivity|].
  split; [apply (list_elem_of_lookup_2 _ 4); vm_compute; reflexivity|].
  apply (bool_decide_unpack _). vm_compute. exact I.
Qed.
