(* ===== verification/SmokeClients.v ===== *)
(** * Clients of the process-level smoke tests

    The line client and the WebSocket client of
    tools/windows_full_daemon_smoke.py, the barrier of tools/runtime_smoke.py
    and the frame routines of tools/upgrade_smoke.py.

    A client runs against what the network does: the chunks successive reads
    return, an empty one when the peer has closed, and how many looks at the
    clock still find time left.  Every such look that finds none raises
    [TimeoutError], and so does a read on which nothing more arrives.  Writes
    succeed. *)

From S2P Require Import Prelude PyStr PyBytes.

(** ** Clients *)

Inductive exc := TimeoutErr | EOFErr | ConnectionErr | AssertionErr | UnicodeErr.

Record Client := mkClient {
  ticks : nat;               (* looks at the clock that find time left *)
  net : list pybytes;        (* what the reads return *)
  pending : pybytes;
  lines : list pystr;        (* decoded lines of a WebSocket client *)
  sent : list pybytes }.     (* what was written, in order *)

Definition act (A : Type) : Type := Client → (exc + A) * Client.

Definition ret {A} (x : A) : act A := λ w, (inr x, w).
Definition raise {A} (e : exc) : act A := λ w, (inl e, w).
Definition seq_ {A B} (m : act A) (k : A → act B) : act B :=
  λ w, match m w with
       | (inl e, w) => (inl e, w)
       | (inr x, w) => k x w
       end.

Declare Scope act_scope.
Delimit Scope act_scope with act.
Notation "x <-~ m ;; k" := (seq_ m (λ x, k%act))
  (at level 100, m at next level, right associativity) : act_scope.
Notation "m ;;~ k" := (seq_ m (λ _, k%act))
  (at level 100, right associativity) : act_scope.
Open Scope act_scope.

Definition set_pending (p : pybytes) (w : Client) : Client :=
  mkClient (ticks w) (net w) p (lines w) (sent w).
Definition set_lines (l : list pystr) (w : Client) : Client :=
  mkClient (ticks w) (net w) (pending w) l (sent w).

(** A look at the clock: [budget], or the condition of a loop whose [else]
    raises [TimeoutError]. *)
Definition in_time : act unit := λ w,
  match ticks w with
  | O => (inl TimeoutErr, w)
  | S n => (inr (), mkClient n (net w) (pending w) (lines w) (sent w))
  end.

Definition recv : act pybytes := λ w,
  match net w with
  | [] => (inl TimeoutErr, w)
  | [] :: _ => (inr [], w)
  | chunk :: rest => (inr chunk, mkClient (ticks w) rest (pending w) (lines w) (sent w))
  end.

Definition sendall (data : pybytes) : act unit := λ w,
  (inr (), mkClient (ticks w) (net w) (pending w) (lines w) (sent w ++ [data])).

Definition get {A} (f : Client → A) : act A := λ w, (inr (f w), w).
Definition put (f : Client → Client) : act unit := λ w, (inr (), f w).

(** One pass of a reading loop: look at the clock, read, and append to what is
    pending; [eof] answers the end of the stream. *)
Definition more {A} (eof : act A) (again : act A) : act A :=
  in_time ;;~ chunk <-~ recv ;;
  match chunk with
  | [] => eof
  | _ => put (λ w, set_pending (pending w ++ chunk) w) ;;~ again
  end.

(** Every pass of a reading loop uses up a look at the clock. *)
Definition with_ticks {A} (f : nat → act A) : act A := λ w, f (S (ticks w)) w.

(** ** Lines *)

Module Irc.

Definition CR : Z := 13.
Definition LF : Z := 10.

Definition send (line : pystr) : act unit :=
  in_time ;;~ sendall (utf8_encode (line ++ [CR; LF])).

(** [raw, self.pending = self.pending.split(b"\n", 1)], decoded. *)
Definition take_line : act pystr :=
  p <-~ get pending ;;
  let '(raw, _, rest) := partition [LF] p in
  put (set_pending rest) ;;~ ret (utf8_decode (rstrip_by (Z.eqb CR) raw)).

Fixpoint line_loop (fuel : nat) : act pystr :=
  match fuel with
  | O => raise TimeoutErr
  | S fuel =>
    p <-~ get pending ;;
    if contains p [LF] then take_line
    else more (raise ConnectionErr) (line_loop fuel)
  end.

Definition line : act pystr := in_time ;;~ with_ticks line_loop.

Fixpoint until_loop (line : act pystr) (fuel : nat) (marker : pystr) (forbidden : option pystr) : act pystr :=
  match fuel with
  | O => raise TimeoutErr
  | S fuel =>
    in_time ;;~ l <-~ line ;;
    if match forbidden with Some f => contains l f | None => false end then raise AssertionErr
    else if contains l marker then ret l
    else until_loop line fuel marker forbidden
  end.

Definition until (marker : pystr) (forbidden : option pystr) : act pystr :=
  in_time ;;~ with_ticks (λ fuel, until_loop line fuel marker forbidden).

Definition register (nick : pystr) : act unit :=
  send (u "NICK " ++ nick) ;;~
  send (u "USER " ++ nick ++ u " 0 * :" ++ nick) ;;~
  until (u " 001 ") None ;;~
  send (u "VERSION") ;;~
  until (u " 351 ") None ;;~ ret ().

Definition ping (token : pystr) (forbidden : option pystr) : act unit :=
  send (u "PING :" ++ token) ;;~
  pong <-~ until (u ":" ++ token) forbidden ;;
  if contains pong (u " PONG ") then ret () else raise AssertionErr.

Definition status_symbols : pystr := u "~&*!.@%+".

(** The nicknames of one line of a NAMES reply. *)
Definition roster_of (l : pystr) : list pystr :=
  let last := match rfind l (u " :") with Some i => drop (i + 2) l | None => l end in
  (λ nick, lower (lstrip_by (λ c, existsb (Z.eqb c) status_symbols) nick)) <$> split_ws last.

Fixpoint names_loop (fuel : nat) (channel : pystr) (roster : gset (list Z)) : act (gset (list Z)) :=
  match fuel with
  | O => raise TimeoutErr
  | S fuel =>
    in_time ;;~ l <-~ line ;;
    let roster := if contains l (u " 353 ") && contains l channel
                  then roster ∪ list_to_set (roster_of l) else roster in
    if contains l (u " 366 ") && contains l channel then ret roster
    else names_loop fuel channel roster
  end.

Definition names (channel : pystr) : act (gset (list Z)) :=
  send (u "NAMES " ++ channel) ;;~ in_time ;;~ with_ticks (λ fuel, names_loop fuel channel ∅).

Fixpoint quit_loop (fuel : nat) : act unit :=
  match fuel with
  | O => raise TimeoutErr
  | S fuel =>
    in_time ;;~ in_time ;;~ chunk <-~ recv ;;
    match chunk with [] => ret () | _ => quit_loop fuel end
  end.

Definition quit : act unit :=
  send (u "QUIT :smoke complete") ;;~ in_time ;;~ with_ticks quit_loop.
End Irc.

(** The client of tools/runtime_smoke.py bounds every wait by the time that is
    left instead of asking for a budget first, and takes an empty [forbidden]
    for none. *)
Module Runtime.
Definition send (line : pystr) : act unit := sendall (utf8_encode (line ++ [Irc.CR; Irc.LF])).
Definition line : act pystr := with_ticks Irc.line_loop.

Definition until (marker : pystr) (forbidden : pystr) : act pystr :=
  with_ticks (λ fuel, Irc.until_loop line fuel marker
                        (if nonempty forbidden then Some forbidden else None)).

Definition barrier_without (forbidden token : pystr) : act pystr :=
  send (u "PING :" ++ token) ;;~
  pong <-~ until (u ":" ++ token) forbidden ;;
  if negb (contains pong (u " PONG ")) then raise AssertionErr
  else p <-~ get pending ;;
       if contains p (utf8_encode forbidden) then raise AssertionErr else ret pong.

Fixpoint eof_loop (fuel : nat) (buf : pybytes) : act pystr :=
  match fuel with
  | O => raise TimeoutErr
  | S fuel =>
    in_time ;;~ in_time ;;~ chunk <-~ recv ;;
    match chunk with [] => ret (utf8_decode buf) | _ => eof_loop fuel (buf ++ chunk) end
  end.

Definition recv_to_eof : act pystr := with_ticks (λ fuel, eof_loop fuel []).
End Runtime.

(** ** WebSocket frames *)

Module Ws.
Section Ws.
(** The masks [os.urandom(4)] gives, by the number of messages written. *)
Context (urandom : nat → pybytes).

Definition KEY : pystr := u "dGhlIHNhbXBsZSBub25jZQ==".
Definition ACCEPT : pystr := u "s3pPLMBiTxaQ9kYGzzhZRbK+xOo=".
Definition MAX_FRAME : Z := 1024 * 1024.

Fixpoint read_loop (fuel : nat) (count : nat) : act (option pybytes) :=
  match fuel with
  | O => raise TimeoutErr
  | S fuel =>
    p <-~ get pending ;;
    if (count <=? length p)%nat then put (set_pending (drop count p)) ;;~ ret (Some (take count p))
    else more (p <-~ get pending ;; if nonempty p then raise EOFErr else ret None) (read_loop fuel count)
  end.

Definition read_exact (count : nat) : act (option pybytes) := with_ticks (λ fuel, read_loop fuel count).

Definition CRLF : pybytes := [13; 10].
Definition BLANK : pybytes := CRLF ++ CRLF.

Definition upgrade_request (port : Z) : pystr :=
  u "GET /irc HTTP/1.1" ++ CRLF ++ u "Host: localhost:" ++ dec port ++ CRLF ++ u "Upgrade: websocket" ++ CRLF
  ++ u "Connection: Upgrade" ++ CRLF ++ u "Sec-WebSocket-Version: 13" ++ CRLF
  ++ u "Sec-WebSocket-Key: " ++ KEY ++ CRLF ++ u "Sec-WebSocket-Protocol: text.ircv3.net" ++ BLANK.

(** The header lines, a later one over an earlier one; [None] on a line
    without a colon. *)
Fixpoint headers (ls : list pystr) (acc : gmap (list Z) (list Z)) : option (gmap (list Z) (list Z)) :=
  match ls with
  | [] => Some acc
  | l :: ls =>
    let '(key, separator, value) := partition (u ":") l in
    if nonempty separator then headers ls (<[lower key := strip value]> acc) else None
  end.

Definition check_head (head : pybytes) : act unit :=
  match decode_ascii head with
  | None => raise UnicodeErr
  | Some text =>
    match split CRLF text with
    | status :: rest =>
      if negb (str_eqb status (u "HTTP/1.1 101 Switching Protocols")) then raise AssertionErr
      else match headers rest ∅ with
      | None => raise AssertionErr
      | Some h =>
        if negb (bool_decide (h !! u "sec-websocket-accept" = Some ACCEPT)) then raise AssertionErr
        else if negb (bool_decide (h !! u "sec-websocket-protocol" = Some (u "text.ircv3.net")))
        then raise AssertionErr
        else ret ()
      end
    | [] => raise AssertionErr
    end
  end.

Fixpoint head_loop (fuel : nat) : act pybytes :=
  match fuel with
  | O => raise TimeoutErr
  | S fuel =>
    p <-~ get pending ;;
    if contains p BLANK then
      let '(head, _, rest) := partition BLANK p in put (set_pending rest) ;;~ ret head
    else if (8192 <? length p)%nat then raise AssertionErr
    else more (raise ConnectionErr) (head_loop fuel)
  end.

Definition upgrade (port : Z) : act unit :=
  in_time ;;~ sendall (upgrade_request port) ;;~ in_time ;;~
  head <-~ with_ticks head_loop ;; check_head head.

(** [bytes(byte ^ mask[index % 4] ...)]. *)
Definition masked (mask payload : pybytes) : pybytes :=
  imap (λ index byte, Z.lxor byte (nth (index mod 4) mask 0)) payload.

Definition send_frame (opcode : Z) (payload : pybytes) : act unit :=
  if (126 <=? length payload)%nat then raise AssertionErr
  else
    mask <-~ get (λ w, urandom (length (sent w))) ;;
    let frame := [Z.lor 128 opcode; Z.lor 128 (len payload)] ++ mask ++ masked mask payload in
    in_time ;;~ sendall frame.

Definition send (line : pystr) : act unit := send_frame 1 (utf8_encode line).

Definition opcode_in (opcode : Z) (l : list Z) : bool := existsb (Z.eqb opcode) l.

(** An extended length of [size] bytes. *)
Definition extended (size : nat) : act Z :=
  raw <-~ read_exact size ;;
  match raw with None => raise EOFErr | Some raw => ret (from_be raw) end.

Definition frame_length (second : Z) : act Z :=
  let length := Z.land second 127 in
  if length =? 126 then extended 2
  else if length =? 127 then extended 8
  else ret length.

Definition read_frame : act (option (Z * pybytes)) :=
  in_time ;;~
  head <-~ read_exact 2 ;;
  match head with
  | Some [first; second] =>
    if negb (Z.land first 112 =? 0) || negb (Z.land second 128 =? 0) then raise AssertionErr
    else
      let opcode := Z.land first 15 in
      if opcode_in opcode [1; 8; 9; 10] && (Z.land first 128 =? 0) then raise AssertionErr
      else
        length <-~ frame_length second ;;
        if MAX_FRAME <? length then raise AssertionErr
        else
          payload <-~ read_exact (Z.to_nat length) ;;
          match payload with
          | None => raise EOFErr
          | Some payload => ret (Some (opcode, payload))
          end
  | _ => ret None
  end.

(** [self.lines.extend(payload.decode("utf-8").splitlines())]. *)
Definition extend_lines (payload : pybytes) : act unit :=
  match utf8_strict payload with
  | None => raise UnicodeErr
  | Some text => put (λ w, set_lines (lines w ++ splitlines text) w)
  end.

(** The queued lines up to the first that has the marker. *)
Fixpoint pop_lines (marker : pystr) (ls : list pystr) : option pystr * list pystr :=
  match ls with
  | [] => (None, [])
  | l :: ls => if contains l marker then (Some l, ls) else pop_lines marker ls
  end.

Fixpoint until_loop (fuel : nat) (marker : pystr) : act pystr :=
  match fuel with
  | O => raise TimeoutErr
  | S fuel =>
    in_time ;;~
    ls <-~ get lines ;;
    let '(found, rest) := pop_lines marker ls in
    put (set_lines rest) ;;~
    match found with
    | Some l => ret l
    | None =>
      frame <-~ read_frame ;;
      match frame with
      | None => raise ConnectionErr
      | Some (opcode, payload) =>
        (if opcode =? 1 then extend_lines payload
         else if opcode =? 9 then send_frame 10 payload
         else if opcode =? 8 then raise ConnectionErr
         else if negb (opcode =? 10) then raise AssertionErr
         else ret ()) ;;~ until_loop fuel marker
      end
    end
  end.

Definition until (marker : pystr) : act pystr :=
  in_time ;;~ with_ticks (λ fuel, until_loop fuel marker).

Definition register (nick : pystr) : act unit :=
  send (u "NICK " ++ nick) ;;~
  send (u "USER " ++ nick ++ u " 0 * :" ++ nick) ;;~
  until (u " 001 ") ;;~
  send (u "VERSION") ;;~
  until (u " 351 ") ;;~ ret ().

Definition ping (token : pystr) : act unit :=
  send (u "PING :" ++ token) ;;~
  pong <-~ until (u ":" ++ token) ;;
  if contains pong (u " PONG ") then ret () else raise AssertionErr.

Fixpoint pong_loop (fuel : nat) : act unit :=
  match fuel with
  | O => raise TimeoutErr
  | S fuel =>
    in_time ;;~
    frame <-~ read_frame ;;
    match frame with
    | None => raise ConnectionErr
    | Some (opcode, payload) =>
      if opcode =? 10 then if str_eqb payload (bs "ws-live") then ret () else raise AssertionErr
      else
        (if opcode =? 1 then extend_lines payload
         else if opcode =? 9 then send_frame 10 payload
         else raise AssertionErr) ;;~ pong_loop fuel
    end
  end.

Definition control_ping : act unit :=
  send_frame 9 (bs "ws-live") ;;~ in_time ;;~ with_ticks pong_loop.

Fixpoint quit_loop (fuel : nat) : act unit :=
  match fuel with
  | O => raise TimeoutErr
  | S fuel =>
    in_time ;;~
    frame <-~ read_frame ;;
    match frame with
    | None => ret ()
    | Some (opcode, payload) =>
      (if opcode =? 8 then send_frame 8 payload
       else if opcode =? 9 then send_frame 10 payload
       else ret ()) ;;~ quit_loop fuel
    end
  end.

Definition quit : act unit :=
  send (u "QUIT :smoke complete") ;;~ in_time ;;~ with_ticks quit_loop.
End Ws.
End Ws.

(** ** Frames of the upgrade smoke test *)

Module Upgrade.

(** [None] is the [OverflowError] of a payload of 65536 bytes or more. *)
Definition ws_frame (mask payload : pybytes) : option pybytes :=
  let n := len payload in
  let body := mask ++ Ws.masked mask payload in
  if n <? 126 then Some ([129; Z.lor 128 n] ++ body)
  else if n <? 65536 then Some ([129; Z.lor 128 126] ++ to_be 2 n ++ body)
  else None.

(** The payload length and offset of the frame at the start of a buffer of two
    bytes or more; [None] when its length has not arrived. *)
Definition extent (buf : pybytes) : option (Z * nat) :=
  let n := Z.land (nth 1 buf 0) 127 in
  if n =? 126 then if (length buf <? 4)%nat then None else Some (from_be (slice buf 2 4), 4%nat)
  else if n =? 127 then if (length buf <? 10)%nat then None else Some (from_be (slice buf 2 10), 10%nat)
  else Some (n, 2%nat).

(** The inner loop: the whole frames of the buffer are taken off it. *)
Fixpoint drain (fuel : nat) (buf text : pybytes) : pybytes * pybytes :=
  match fuel with
  | O => (buf, text)
  | S fuel =>
    if (length buf <? 2)%nat then (buf, text)
    else match extent buf with
    | None => (buf, text)
    | Some (n, off) =>
      if len buf <? Z.of_nat off + n then (buf, text)
      else
        let stop := (off + Z.to_nat n)%nat in
        let opcode := Z.land (nth 0 buf 0) 15 in
        let text := if (opcode =? 1) || (opcode =? 2) then text ++ slice buf off stop ++ [10] else text in
        drain fuel (drop stop buf) text
    end
  end.

Definition drain_all (buf text : pybytes) : pybytes * pybytes := drain (S (length buf)) buf text.

Fixpoint recv_text_loop (needle : pybytes) (ticks : nat) (net : list pybytes) (buf text : pybytes) : pybytes :=
  match ticks with
  | O => text
  | S ticks =>
    if contains text needle then text
    else match net with
    | [] | [] :: _ => text
    | chunk :: net =>
      let '(buf, text) := drain_all (buf ++ chunk) text in recv_text_loop needle ticks net buf text
    end
  end.

Definition ws_recv_text (needle : pybytes) (ticks : nat) (net : list pybytes) : pystr :=
  utf8_decode (recv_text_loop needle ticks net [] []).

Fixpoint recv_until_loop (needle : pybytes) (ticks : nat) (net : list pybytes) (buf : pybytes) : pybytes :=
  match ticks, net with
  | O, _ | _, [] | _, [] :: _ => buf
  | S ticks, chunk :: net =>
    let buf := buf ++ chunk in
    if contains buf needle then buf else recv_until_loop needle ticks net buf
  end.

Definition recv_until (needle : pybytes) (ticks : nat) (net : list pybytes) : pystr :=
  utf8_decode (recv_until_loop needle ticks net []).
End Upgrade.
