(* ===== verification/SmokeClientsSpec.v ===== *)
(** * Properties of the smoke-test clients

    What a client reads does not depend on how the network cuts the stream; a
    WebSocket client finds the first line with its marker and answers every
    ping before it; the frames it writes are masked as RFC 6455 demands; the
    barrier's answer vouches for every line before it. *)

From S2P Require Import Prelude PyStr PyBytes SmokeClients.

(** ** Streams *)

(** The peer has written [s] and keeps the connection open; the chunks still
    arrive with [k] looks at the clock to spare. *)
Record ready (k : nat) (s : pybytes) (w : Client) : Prop := {
  r_chunks : Forall (λ c, c ≠ []) (net w);
  r_stream : pending w ++ concat (net w) = s;
  r_time : (length (net w) + k ≤ ticks w)%nat }.

(** [m] gives [x] on a client that can read [s], and leaves [s'] to be read;
    what it queued and what it wrote are those of the client. *)
Definition reads {A} (m : act A) (k k' : nat) (s s' : pybytes) (x : A) : Prop :=
  ∀ w, ready k s w → ∃ w', m w = (inr x, w') ∧ ready k' s' w' ∧ lines w' = lines w ∧ sent w' = sent w.

Lemma reads_seq {A B} (m : act A) (f : A → act B) k k' k'' s s' s'' x y :
  reads m k k' s s' x → reads (f x) k' k'' s' s'' y → reads (seq_ m f) k k'' s s'' y.
Proof.
  intros Hm Hf w Hw. destruct (Hm w Hw) as (w' & E & Hw' & HL & HS).
  destruct (Hf w' Hw') as (w'' & E' & Hw'' & HL' & HS'). exists w''. unfold seq_. rewrite E.
  split_and!; [done|done|congruence|congruence].
Qed.

Lemma reads_ret {A} (x : A) k s : reads (ret x) k k s s x.
Proof. intros w Hw. by exists w. Qed.

Lemma reads_in_time k s : reads in_time (S k) k s s ().
Proof.
  intros w [H1 H2 H3]. unfold in_time. destruct (ticks w) as [|t] eqn:E; [lia|].
  eexists. split; [done|]. split; [|done]. split; simpl; [done|done|lia].
Qed.

#[export] Hint Resolve reads_ret reads_in_time : core.

(** A reading loop that succeeds on what is pending, and reads on otherwise. *)
Lemma reads_loop {A} (loop : nat → act A) (enough : pybytes → bool) k s s' x :
  (∀ w fuel, enough (pending w) = true → ready k s w →
     ∃ w', loop (S fuel) w = (inr x, w') ∧ ready k s' w' ∧ lines w' = lines w ∧ sent w' = sent w) →
  (∀ w fuel, enough (pending w) = false → ready k s w → ∃ eof, loop (S fuel) w = more eof (loop fuel) w) →
  enough s = true →
  reads (with_ticks loop) k k s s' x.
Proof.
  intros Hyes Hno Hs w Hw. unfold with_ticks.
  assert (Hfuel : (length (net w) < S (ticks w))%nat) by (destruct Hw; lia).
  revert Hfuel. generalize (S (ticks w)). revert Hw.
  remember (net w) as n eqn:En. revert w En.
  induction n as [|c n IH]; intros w En Hw fuel Hfuel; (destruct fuel as [|fuel]; [simpl in Hfuel; lia|]).
  - apply Hyes; [|done]. destruct Hw as [_ H2 _]. rewrite <-En in H2. simpl in H2.
    rewrite app_nil_r in H2. by rewrite H2.
  - destruct (enough (pending w)) eqn:E; [by apply Hyes|].
    destruct (Hno w fuel E Hw) as [eof ->].
    destruct Hw as [H1 H2 H3]. rewrite <-En in H1, H2, H3. apply Forall_cons in H1 as [Hc Hn].
    unfold more, seq_, in_time, recv, put. simpl in H3.
    destruct (ticks w) as [|t] eqn:Et; [lia|]. cbn [net pending]. rewrite <-En.
    destruct c as [|b c]; [done|]. cbn [net pending ticks set_pending lines sent].
    set (w1 := mkClient t n (pending w ++ b :: c) (lines w) (sent w)). destruct (IH w1 eq_refl) with (n := fuel) as (w' & E1 & Hw' & HL & HS).
    + split; simpl; [done| |lia]. rewrite <-H2. cbn [concat]. by rewrite <-app_assoc.
    + simpl in Hfuel. lia.
    + exists w'. split_and!; [exact E1|done|done|done].
Qed.

(** ** WebSocket reads *)

Lemma reads_exact n k a b : length a = n → reads (Ws.read_exact n) k k (a ++ b) b (Some a).
Proof.
  intros Hn. apply reads_loop with (enough := λ p, (n <=? length p)%nat).
  - intros w fuel Hp [H1 H2 H3]. apply Nat.leb_le in Hp. cbn [Ws.read_loop]. unfold seq_, get, put, ret.
    rewrite (proj2 (Nat.leb_le _ _) Hp). eexists. split; [f_equal; f_equal; f_equal|].
    + rewrite <-(take_app_le (pending w) (concat (net w))), H2, <-Hn by done. apply take_app_length.
    + split; [|done]. split; [done| |done]. cbn [set_pending net pending].
      rewrite <-(drop_app_le (pending w) (concat (net w))), H2, <-Hn by done. apply drop_app_length.
  - intros w fuel Hp _. cbn [Ws.read_loop]. unfold seq_ at 1, get at 1. cbv beta. rewrite Hp. by eexists.
  - apply Nat.leb_le. rewrite length_app. lia.
Qed.

(** A frame as the server sends it: unmasked, unfragmented, with the shortest
    length. *)
Definition length_field (n : Z) : pybytes :=
  if n <? 126 then [n] else if n <? 65536 then 126 :: to_be 2 n else 127 :: to_be 8 n.
Definition server_frame (opcode : Z) (payload : pybytes) : pybytes :=
  Z.lor 128 opcode :: length_field (len payload) ++ payload.

(** The bits of the first byte, by cases on the opcode. *)
Lemma opcode_bits opcode : 0 ≤ opcode < 16 →
  Z.land (Z.lor 128 opcode) 112 = 0 ∧ Z.land (Z.lor 128 opcode) 15 = opcode
  ∧ Z.land (Z.lor 128 opcode) 128 = 128.
Proof.
  intros H. rewrite <-(Z2Nat.id opcode) by lia. assert (Hn : (Z.to_nat opcode < 16)%nat) by lia.
  revert Hn. generalize (Z.to_nat opcode) as n. clear. intros n Hn.
  do 16 (destruct n as [|n]; [by vm_compute|]). lia.
Qed.

Lemma low_seven n : 0 ≤ n < 128 → Z.land n 127 = n.
Proof. intros H. change 127 with (Z.ones 7). rewrite Z.land_ones by lia. apply Z.mod_small. lia. Qed.

(** The length field, as [frame_length] reads it. *)
Lemma reads_length k n rest second tail :
  0 ≤ n < 2 ^ 64 → length_field n = second :: tail →
  Z.land second 128 = 0 ∧ reads (Ws.frame_length second) k k (tail ++ rest) rest n.
Proof.
  intros Hn. unfold length_field, Ws.frame_length.
  assert (Hx : ∀ size, 0 ≤ n < 256 ^ Z.of_nat size →
    reads (Ws.extended size) k k (to_be size n ++ rest) rest n).
  { intros size Hs. eapply reads_seq; [apply reads_exact, to_be_length|]. cbv beta iota.
    rewrite from_be_to_be by done. auto. }
  destruct (Z.ltb_spec n 126); [|destruct (Z.ltb_spec n 65536)]; intros [= <- <-].
  - pose proof (low_seven n ltac:(lia)) as Hl. rewrite Hl. rewrite !(proj2 (Z.eqb_neq _ _)) by lia. split; [|auto].
    rewrite <-Hl, <-Z.land_assoc. apply Z.land_0_r.
  - split; [done|]. apply (Hx 2%nat). lia.
  - split; [done|]. apply (Hx 8%nat). lia.
Qed.

Lemma reads_frame k opcode payload rest :
  0 ≤ opcode < 16 → len payload ≤ Ws.MAX_FRAME →
  reads Ws.read_frame (S k) k (server_frame opcode payload ++ rest) rest (Some (opcode, payload)).
Proof.
  intros Ho Hp. pose proof (opcode_bits opcode Ho) as (B1 & B2 & B3).
  unfold Ws.MAX_FRAME in *. unfold server_frame.
  destruct (length_field (len payload)) as [|second tail] eqn:E.
  { unfold length_field in E. destruct (_ <? _); [|destruct (_ <? _)]; discriminate. }
  destruct (reads_length k (len payload) (payload ++ rest) second tail) as [B4 HL]; [unfold len in *; lia|done|].
  replace ((Z.lor 128 opcode :: (second :: tail) ++ payload) ++ rest)
    with ([Z.lor 128 opcode; second] ++ tail ++ payload ++ rest) by (simpl; by rewrite <-app_assoc).
  unfold Ws.read_frame. eapply reads_seq; [apply reads_in_time|].
  eapply reads_seq; [by apply reads_exact|]. cbv beta iota. rewrite B1, B4, B2, B3, andb_false_r.
  cbn [Z.eqb negb orb]. eapply reads_seq; [exact HL|].
  rewrite (proj2 (Z.ltb_ge _ _)) by exact Hp.
  eapply reads_seq; [apply reads_exact; unfold len; lia|]. cbv beta iota. apply reads_ret.
Qed.

(** ** Messages of the server *)

Inductive msg := Text (t : pystr) | Ping (p : pybytes) | Pong (p : pybytes).

Definition wire (m : msg) : pybytes :=
  match m with
  | Text t => server_frame 1 (utf8_encode t)
  | Ping p => server_frame 9 p
  | Pong p => server_frame 10 p
  end.

(** What RFC 6455 and the client allow: control frames of at most 125 bytes. *)
Definition valid (m : msg) : Prop :=
  match m with
  | Text t => Forall is_scalar t ∧ len (utf8_encode t) ≤ Ws.MAX_FRAME
  | Ping p | Pong p => (length p < 126)%nat
  end.

Definition queued (ms : list msg) : list pystr :=
  ms ≫= λ m, match m with Text t => splitlines t | _ => [] end.

Definition client_frame (mask : pybytes) (opcode : Z) (payload : pybytes) : pybytes :=
  [Z.lor 128 opcode; Z.lor 128 (len payload)] ++ mask ++ Ws.masked mask payload.

(** The pongs that answer the pings, with the masks of the frames numbered
    from [i]. *)
Fixpoint answers (urandom : nat → pybytes) (i : nat) (ms : list msg) : list pybytes :=
  match ms with
  | [] => []
  | Ping p :: ms => client_frame (urandom i) 10 p :: answers urandom (S i) ms
  | _ :: ms => answers urandom i ms
  end.

Lemma reads_wire k m rest : valid m →
  reads Ws.read_frame (S k) k (wire m ++ rest) rest
    (Some (match m with Text t => (1, utf8_encode t) | Ping p => (9, p) | Pong p => (10, p) end)).
Proof.
  intros Hm. destruct m as [t|p|p]; cbn [wire valid] in *; apply reads_frame; unfold Ws.MAX_FRAME, len in *; lia.
Qed.

Lemma ready_le k k' s w : (k' ≤ k)%nat → ready k s w → ready k' s w.
Proof. intros H [H1 H2 H3]. split; [done|done|lia]. Qed.

Lemma utf8_strict_encode t : Forall is_scalar t → utf8_strict (utf8_encode t) = Some t.
Proof. intros H. unfold utf8_strict. by rewrite utf8_decode_encode, str_eqb_refl. Qed.

Lemma pop_none marker ls :
  Forall (λ l, contains l marker = false) ls → Ws.pop_lines marker ls = (None, []).
Proof. induction 1 as [|l ls Hl _ IH]; [done|]. cbn [Ws.pop_lines]. by rewrite Hl. Qed.

Lemma pop_first marker before l after :
  Forall (λ l, contains l marker = false) before → contains l marker = true →
  Ws.pop_lines marker (before ++ l :: after) = (Some l, after).
Proof.
  induction 1 as [|x before Hx _ IH]; intros Hl; cbn [app Ws.pop_lines]; [by rewrite Hl|].
  by rewrite Hx, IH.
Qed.

Section Until.
Context (urandom : nat → pybytes) (marker : pystr).

Definition unmarked (ls : list pystr) : Prop := Forall (λ l, contains l marker = false) ls.

(** One pass: the queue has no marker, and the next message is handled. *)
Lemma until_pass fuel k m rest w :
  valid m → unmarked (lines w) → ready (S (S (S k))) (wire m ++ rest) w →
  ∃ w', Ws.until_loop urandom (S fuel) marker w = Ws.until_loop urandom fuel marker w'
      ∧ ready k rest w' ∧ lines w' = queued [m] ∧ sent w' = sent w ++ answers urandom (length (sent w)) [m].
Proof.
  intros Hm Hq Hw. cbn [Ws.until_loop].
  destruct (reads_in_time _ _ w Hw) as (w1 & E1 & Hw1 & HL1 & HS1).
  unfold seq_ at 1. rewrite E1. unfold seq_ at 1, get. rewrite HL1, (pop_none _ _ Hq).
  unfold seq_ at 1, put.
  assert (Hw2 : ready (S (S k)) (wire m ++ rest) (set_lines [] w1)).
  { destruct Hw1 as [? ? ?]. by split. }
  destruct (reads_wire _ _ _ Hm _ Hw2) as (w3 & E3 & Hw3 & HL3 & HS3).
  unfold seq_ at 1. rewrite E3. cbn [set_lines lines sent] in HL3, HS3. rewrite HS1 in HS3.
  unfold seq_ at 1. destruct m as [t|p|p]; cbn [Z.eqb negb Pos.eqb].
  - destruct Hm as [Ht _]. unfold Ws.extend_lines. rewrite (utf8_strict_encode t Ht). unfold put.
    eexists. split; [reflexivity|]. split; [apply (ready_le (S k)); [lia|]; destruct Hw3; by split|].
    cbn [set_lines lines sent queued answers]. rewrite HL3, HS3, !app_nil_r. split; [|done].
    unfold queued. cbn [mbind list_bind]. by rewrite app_nil_r.
  - unfold Ws.send_frame. cbn [valid] in Hm. rewrite (proj2 (Nat.leb_gt _ _) Hm).
    unfold seq_ at 1, get. destruct (reads_in_time _ _ _ Hw3) as (w4 & E4 & Hw4 & HL4 & HS4).
    unfold seq_. rewrite E4. unfold sendall. eexists. split; [reflexivity|].
    split; [destruct Hw4; by split|]. cbn [lines sent answers]. rewrite HL4, HS4, HL3, HS3. done.
  - exists w3. split; [reflexivity|]. split; [apply (ready_le (S k)); [lia|done]|].
    cbn [answers]. by rewrite app_nil_r.
Qed.

Lemma queued_cons m ms : queued (m :: ms) = queued [m] ++ queued ms.
Proof. unfold queued. cbn [mbind list_bind]. by rewrite app_nil_r. Qed.

Lemma answers_cons i m ms :
  answers urandom i (m :: ms) = answers urandom i [m] ++ answers urandom (i + length (answers urandom i [m])) ms.
Proof. destruct m; cbn [answers app length]; f_equal; f_equal; lia. Qed.

(** The loop, from any queue without the marker. *)
Lemma until_messages ms t before l after k rest : ∀ fuel w,
  Forall valid (ms ++ [Text t]) → unmarked (lines w) → unmarked (queued ms) → unmarked before →
  splitlines t = before ++ l :: after → contains l marker = true →
  ready (3 * length ms + 4 + k) (concat (wire <$> ms ++ [Text t]) ++ rest) w →
  (length ms + 1 < fuel)%nat →
  ∃ w', Ws.until_loop urandom fuel marker w = (inr l, w') ∧ ready k rest w' ∧ lines w' = after
      ∧ sent w' = sent w ++ answers urandom (length (sent w)) ms.
Proof.
  induction ms as [|m ms IH]; intros fuel w Hv Hq Hms Hb Hsp Hl Hw Hfuel; (destruct fuel as [|fuel]; [lia|]);
    cbn [app fmap list_fmap concat] in *; rewrite <-app_assoc in Hw; apply Forall_cons in Hv as [Hm Hv].
  - destruct (until_pass fuel (S k) (Text t) ([] ++ rest) w Hm Hq Hw) as (w1 & E & Hw1 & HL & HS).
    rewrite E. destruct fuel as [|fuel]; [simpl in Hfuel; lia|]. cbn [Ws.until_loop].
    destruct (reads_in_time _ _ w1 Hw1) as (w2 & E2 & Hw2 & HL2 & HS2).
    unfold seq_ at 1. rewrite E2. unfold seq_ at 1, get. rewrite HL2, HL. unfold queued.
    cbn [mbind list_bind]. rewrite app_nil_r, Hsp, (pop_first _ _ _ _ Hb Hl). unfold seq_, put, ret.
    eexists. split; [reflexivity|]. split; [destruct Hw2; by split|]. cbn [set_lines lines sent]. by rewrite HS2.
  - rewrite queued_cons in Hms. apply Forall_app in Hms as [Hm1 Hms].
    destruct (until_pass fuel (3 * length ms + 4 + k) m (concat (wire <$> ms ++ [Text t]) ++ rest) w Hm Hq)
      as (w1 & E & Hw1 & HL & HS).
    { eapply ready_le; [|exact Hw]. simpl. lia. }
    rewrite E. destruct (IH fuel w1) as (w' & E' & Hw' & HL' & HS'); try done.
    { by rewrite HL. } { simpl in Hfuel. lia. }
    exists w'. split_and!; [exact E'|done|done|].
    rewrite HS', HS, length_app, <-app_assoc. f_equal. symmetry. apply answers_cons.
Qed.

(** C23: [WebSocketClient.until] on a connection that delivers server messages
    in time, cut into any chunks: it returns the first line that has the marker,
    keeps the lines after it for the next call, leaves the rest of the stream
    unread, and has answered exactly the pings before it, in order, each with a
    masked pong of the same payload. *)
Theorem ws_until_answers ms t before l after k rest w :
  Forall valid (ms ++ [Text t]) → unmarked (lines w ++ queued ms ++ before) →
  splitlines t = before ++ l :: after → contains l marker = true →
  ready (3 * length ms + 5 + k) (concat (wire <$> ms ++ [Text t]) ++ rest) w →
  ∃ w', Ws.until urandom marker w = (inr l, w') ∧ ready k rest w' ∧ lines w' = after
      ∧ sent w' = sent w ++ answers urandom (length (sent w)) ms.
Proof.
  intros Hv Hu Hsp Hl Hw. unfold unmarked in Hu. rewrite !Forall_app in Hu. destruct Hu as (Hq & Hms & Hb).
  destruct (reads_in_time (3 * length ms + 4 + k) _ w ltac:(eapply ready_le; [|exact Hw]; lia))
    as (w1 & E1 & Hw1 & HL1 & HS1).
  destruct (until_messages ms t before l after k rest (S (ticks w1)) w1) as (w' & E & H); try done.
  { by rewrite HL1. } { destruct Hw1. lia. }
  exists w'. split; [|by rewrite HS1 in H]. unfold Ws.until, seq_. rewrite E1. exact E.
Qed.
End Until.

Lemma all_scalar t :
  forallb (λ c, (0 <=? c) && (c <? 0x110000) && negb (is_surrogate c)) t = true → Forall is_scalar t.
Proof.
  intros H. apply Forall_forall. intros c Hc. apply forallb_elem with (x := c) in H; [|done].
  rewrite !andb_true_iff, Z.leb_le, Z.ltb_lt, negb_true_iff in H. destruct H as [H1 H2]. by split.
Qed.

(** A ping and a line, cut in the middle of the ping. *)
Lemma ws_until_answers_witness :
  let t := u ":irc.test PONG irc.test :tok" in
  let w := mkClient 20 [take 3 (wire (Ping [104; 105])); drop 3 (wire (Ping [104; 105])) ++ wire (Text t)] [] [] [] in
  ∃ w', Ws.until (λ _, [1; 2; 3; 4]) (u ":tok") w = (inr t, w') ∧ ready 2 [] w' ∧ lines w' = []
      ∧ sent w' = [[138; 130; 1; 2; 3; 4; 105; 107]].
Proof.
  intros t w.
  destruct (ws_until_answers (λ _, [1; 2; 3; 4]) (u ":tok") [Ping [104; 105]] t [] t [] 2 [] w) as (w' & E & H).
  - constructor; [vm_compute; lia|constructor; [split|constructor]].
    + apply all_scalar. vm_compute. reflexivity.
    + vm_compute. discriminate.
  - constructor.
  - vm_compute. reflexivity.
  - vm_compute. reflexivity.
  - split; [repeat constructor; vm_compute; discriminate|vm_compute; reflexivity|vm_compute; lia].
  - exists w'. split; [exact E|exact H].
Defined.

(** ** Masked frames *)

Fixpoint unmask (key data : pybytes) : pybytes :=
  match data with
  | [] => []
  | x :: data => Z.lxor x (hd 0 key) :: unmask (tl key ++ [hd 0 key]) data
  end.

(** A whole frame of a client, as section 5.2 of RFC 6455 has it: no reserved
    bit, the mask bit set, the length in 7, 16 or 64 bits. *)
Definition rfc_decode (b : pybytes) : option (Z * pybytes) :=
  match b with
  | first :: second :: rest =>
    let n := Z.land second 127 in
    let size := if n =? 126 then 2%nat else if n =? 127 then 8%nat else O in
    let n := if (size =? 0)%nat then n else from_be (take size rest) in
    let body := drop size rest in
    if (Z.land first 240 =? 128) && (Z.land second 128 =? 128) && (len (drop 4 body) =? n)
    then Some (Z.land first 15, unmask (take 4 body) (drop 4 body)) else None
  | _ => None
  end.

Lemma unmask_masked mask payload : length mask = 4%nat → unmask mask (Ws.masked mask payload) = payload.
Proof.
  intros Hk. set (f i := nth (i mod 4) mask 0).
  assert (Hf : ∀ i, f (i + 4)%nat = f i).
  { intros i. unfold f. by rewrite <-Nat.Div0.add_mod_idemp_r, Nat.Div0.mod_same, Nat.add_0_r. }
  assert (H : ∀ i, unmask [f i; f (i + 1)%nat; f (i + 2)%nat; f (i + 3)%nat]
                     (imap (λ j byte, Z.lxor byte (f (i + j)%nat)) payload) = payload).
  { induction payload as [|x payload IH]; intros i; [done|]. cbn [imap unmask hd tl app].
    rewrite Nat.add_0_r, Z.lxor_assoc, Z.lxor_nilpotent, Z.lxor_0_r. f_equal.
    rewrite <-(IH (i + 1)%nat) at 2. rewrite <-!Nat.add_assoc. cbn [Nat.add]. rewrite Hf. f_equal.
    apply imap_ext. intros j y _. simpl. by rewrite <-Nat.add_assoc. }
  destruct mask as [|a [|b [|c [|d [|]]]]]; try discriminate. exact (H O).
Qed.

Lemma low_bits n : 0 ≤ n < 128 → Z.land (Z.lor 128 n) 127 = n ∧ Z.land (Z.lor 128 n) 128 = 128.
Proof.
  intros H.
  pose proof (low_seven n H) as Hn.
  rewrite !Z.land_lor_distr_l. split; [by rewrite Hn|].
  rewrite <-Hn, <-Z.land_assoc. change (Z.land 127 128) with 0. by rewrite Z.land_0_r.
Qed.

Lemma first_bits opcode : 0 ≤ opcode < 16 → Z.land (Z.lor 128 opcode) 240 = 128.
Proof.
  intros H. destruct (opcode_bits opcode H) as (B1 & _ & B3).
  change 240 with (Z.lor 112 128). by rewrite Z.land_lor_distr_r, B1, B3.
Qed.

(** A frame with its length in [size] bytes. *)
Lemma rfc_decode_masked opcode second size field mask payload :
  0 ≤ opcode < 16 → length mask = 4%nat → Z.land second 128 = 128 → length field = size →
  (Z.land second 127, size) ∈ [(126, 2%nat); (127, 8%nat)] ∧ from_be field = len payload
  ∨ Z.land second 127 = len payload ∧ len payload < 126 ∧ size = O →
  rfc_decode ([Z.lor 128 opcode; second] ++ field ++ mask ++ Ws.masked mask payload) = Some (opcode, payload).
Proof.
  intros Ho Hm Hs Hf Hn. cbn [app rfc_decode].
  assert (Hsz : (if Z.land second 127 =? 126 then 2%nat else if Z.land second 127 =? 127 then 8%nat else O) = size
    ∧ (if (size =? 0)%nat then Z.land second 127 else from_be field) = len payload).
  { destruct Hn as [[Hin He]|(-> & Hl & ->)].
    - apply elem_of_cons in Hin as [[= -> ->]|[[= -> ->]|[]%elem_of_nil]%elem_of_cons]; done.
    - rewrite !(proj2 (Z.eqb_neq _ _)) by lia. done. }
  destruct Hsz as [-> Hlen].
  rewrite <-Hf, take_app_length, drop_app_length, Hf, Hlen, <-Hm, take_app_length, drop_app_length.
  rewrite first_bits, Hs, unmask_masked by done. unfold len, Ws.masked. rewrite length_imap, !Z.eqb_refl.
  destruct (opcode_bits opcode Ho) as (_ & B2 & _). by rewrite B2.
Qed.

(** Every frame the clients write is a well-formed masked frame of RFC 6455
    that decodes to the opcode and the payload: [send_frame] of the Windows
    client on payloads below 126 bytes, and [ws_frame] of the upgrade smoke test
    up to 65535 bytes; longer payloads are refused. *)
Theorem client_frames_decode urandom mask opcode payload w :
  0 ≤ opcode < 16 → (∀ i, length (urandom i) = 4%nat) → length mask = 4%nat → ticks w ≠ O →
  (if (126 <=? length payload)%nat then (Ws.send_frame urandom opcode payload w).1 = inl AssertionErr
   else ∃ w' frame, Ws.send_frame urandom opcode payload w = (inr (), w') ∧ sent w' = sent w ++ [frame]
        ∧ rfc_decode frame = Some (opcode, payload))
  ∧ (if 65536 <=? len payload then Upgrade.ws_frame mask payload = None
     else ∃ frame, Upgrade.ws_frame mask payload = Some frame ∧ rfc_decode frame = Some (1, payload)).
Proof.
  intros Ho Hu Hm Ht. split.
  - unfold Ws.send_frame. destruct (Nat.leb_spec 126 (length payload)); [done|].
    unfold seq_, get, in_time, sendall. destruct (ticks w) as [|t]; [done|].
    do 2 eexists. split; [reflexivity|]. cbn [sent]. split; [reflexivity|].
    destruct (low_bits (len payload)) as [B1 B2]; [unfold len; lia|].
    apply (rfc_decode_masked _ _ O []); try done. right. unfold len in *. split_and!; [done|lia|done].
  - unfold Upgrade.ws_frame. destruct (Z.leb_spec 65536 (len payload)).
    { rewrite !(proj2 (Z.ltb_ge _ _)) by lia. done. }
    destruct (Z.ltb_spec (len payload) 126); [|rewrite (proj2 (Z.ltb_lt _ _)) by lia];
      eexists; (split; [reflexivity|]).
    + destruct (low_bits (len payload)) as [B1 B2]; [unfold len in *; lia|].
      apply (rfc_decode_masked 1 _ O []); try done. right. split_and!; [done|lia|done].
    + apply (rfc_decode_masked 1 _ 2%nat (to_be 2 (len payload))); try done. left. split; [constructor|].
      apply from_be_to_be. unfold len in *. lia.
Qed.

Lemma client_frames_decode_witness :
  let w := mkClient 3 [] [] [] [] in
  (∃ w' frame, Ws.send_frame (λ _, [1; 2; 3; 4]) 9 [104; 105] w = (inr (), w') ∧ sent w' = [] ++ [frame]
     ∧ rfc_decode frame = Some (9, [104; 105]))
  ∧ ∃ frame, Upgrade.ws_frame [5; 6; 7; 8] [104; 105] = Some frame ∧ rfc_decode frame = Some (1, [104; 105]).
Proof.
  refine (client_frames_decode (λ _, [1; 2; 3; 4]) [5; 6; 7; 8] 9 [104; 105] (mkClient 3 [] [] [] []) _ _ _ _);
    [lia|reflexivity|reflexivity|discriminate].
Defined.

(** ** The incremental decoder of the upgrade smoke test *)

(** The first frame of a buffer: the text it adds and what follows it. *)
Definition next_frame (buf : pybytes) : option (pybytes * pybytes) :=
  if (length buf <? 2)%nat then None
  else match Upgrade.extent buf with
  | None => None
  | Some (n, off) =>
    if len buf <? Z.of_nat off + n then None
    else
      let stop := (off + Z.to_nat n)%nat in
      let opcode := Z.land (nth 0 buf 0) 15 in
      Some (if (opcode =? 1) || (opcode =? 2) then slice buf off stop ++ [10] else [], drop stop buf)
  end.

Lemma drain_next fuel buf text :
  Upgrade.drain (S fuel) buf text =
  match next_frame buf with
  | None => (buf, text)
  | Some (t, rest) => Upgrade.drain fuel rest (text ++ t)
  end.
Proof.
  cbn [Upgrade.drain]. unfold next_frame. destruct (_ <? _)%nat; [done|].
  destruct (Upgrade.extent buf) as [[n off]|]; [|done]. destruct (_ <? _); [done|].
  destruct (_ || _); [done|]. by rewrite app_nil_r.
Qed.

Lemma extent_off buf n off : Upgrade.extent buf = Some (n, off) → (2 ≤ length buf)%nat → (2 ≤ off ≤ length buf)%nat.
Proof.
  unfold Upgrade.extent. destruct (_ =? _); [|destruct (_ =? _)]; [destruct (Nat.ltb_spec (length buf) 4)|
    destruct (Nat.ltb_spec (length buf) 10)|]; intros [= <- <-]; lia.
Qed.

Lemma slice_app_l b c i j : (j ≤ length b)%nat → slice (b ++ c) i j = slice b i j.
Proof.
  intros H. unfold slice. destruct (decide (i ≤ length b)%nat).
  - rewrite drop_app_le, take_app_le by (rewrite ?length_drop; lia). done.
  - replace (j - i)%nat with O by lia. done.
Qed.

Lemma extent_app buf c x : (2 ≤ length buf)%nat → Upgrade.extent buf = Some x → Upgrade.extent (buf ++ c) = Some x.
Proof.
  intros H. unfold Upgrade.extent. rewrite app_nth1 by lia. rewrite length_app.
  destruct (_ =? _); [|destruct (_ =? _); [|done]].
  - destruct (Nat.ltb_spec (length buf) 4); [done|]. rewrite (proj2 (Nat.ltb_ge _ _)) by lia.
    by rewrite slice_app_l by lia.
  - destruct (Nat.ltb_spec (length buf) 10); [done|]. rewrite (proj2 (Nat.ltb_ge _ _)) by lia.
    by rewrite slice_app_l by lia.
Qed.

(** A frame that has arrived is not changed by what follows. *)
Lemma next_frame_app buf c t rest :
  next_frame buf = Some (t, rest) → next_frame (buf ++ c) = Some (t, rest ++ c).
Proof.
  unfold next_frame. destruct (Nat.ltb_spec (length buf) 2) as [|Hb]; [done|].
  destruct (Upgrade.extent buf) as [[n off]|] eqn:E; [|done]. pose proof (extent_off _ _ _ E Hb) as Ho.
  destruct (Z.ltb_spec (len buf) (Z.of_nat off + n)) as [|Hn]; [done|]. intros [= <- <-]. unfold len in *.
  rewrite (extent_app _ _ _ Hb E), length_app, app_nth1, slice_app_l, drop_app_le by lia.
  rewrite (proj2 (Nat.ltb_ge _ _)), (proj2 (Z.ltb_ge _ _)) by lia. done.
Qed.

Lemma next_frame_shorter buf t rest : next_frame buf = Some (t, rest) → (length rest < length buf)%nat.
Proof.
  unfold next_frame. destruct (Nat.ltb_spec (length buf) 2) as [|Hb]; [done|].
  destruct (Upgrade.extent buf) as [[n off]|] eqn:E; [|done]. pose proof (extent_off _ _ _ E Hb) as Ho.
  destruct (_ <? _); [done|]. intros [= _ <-]. rewrite length_drop. lia.
Qed.

(** The fuel of [drain_all] is enough. *)
Lemma drain_fuel n m buf text :
  (length buf < n)%nat → (length buf < m)%nat → Upgrade.drain n buf text = Upgrade.drain m buf text.
Proof.
  revert m buf text. induction n as [|n IH]; intros m buf text Hn Hm; [lia|]. destruct m as [|m]; [lia|].
  rewrite !drain_next. destruct (next_frame buf) as [[t rest]|] eqn:E; [|done].
  pose proof (next_frame_shorter _ _ _ E). apply IH; lia.
Qed.

Lemma drain_all_next buf text :
  Upgrade.drain_all buf text =
  match next_frame buf with
  | None => (buf, text)
  | Some (t, rest) => Upgrade.drain_all rest (text ++ t)
  end.
Proof.
  unfold Upgrade.drain_all at 1. rewrite drain_next. destruct (next_frame buf) as [[t rest]|] eqn:E; [|done].
  pose proof (next_frame_shorter _ _ _ E). apply drain_fuel; lia.
Qed.

(** Taking frames off before more arrives makes no difference. *)
Lemma drain_app buf text c :
  let '(rest, text') := Upgrade.drain_all buf text in
  Upgrade.drain_all (rest ++ c) text' = Upgrade.drain_all (buf ++ c) text.
Proof.
  revert text. induction buf as [buf IH] using (induction_ltof1 _ (@length Z)). unfold ltof in IH. intros text.
  rewrite (drain_all_next buf), (drain_all_next (buf ++ c)).
  destruct (next_frame buf) as [[t rest]|] eqn:E.
  - rewrite (next_frame_app _ c _ _ E). exact (IH rest (next_frame_shorter _ _ _ E) (text ++ t)).
  - apply drain_all_next.
Qed.

(** The text of the frames of a stream. *)
Definition frame_text (f : Z * pybytes) : pybytes :=
  if (f.1 =? 1) || (f.1 =? 2) then f.2 ++ [10] else [].
Definition texts (fs : list (Z * pybytes)) : pybytes := fs ≫= frame_text.
Definition stream (fs : list (Z * pybytes)) : pybytes := concat ((λ f, server_frame f.1 f.2) <$> fs).
Definition sendable (f : Z * pybytes) : Prop := 0 ≤ f.1 < 16 ∧ len f.2 < 2 ^ 64.

Lemma extent_field first n field second body :
  0 ≤ n < 2 ^ 64 → length_field n = second :: field →
  Upgrade.extent ([first; second] ++ field ++ body) = Some (n, (2 + length field)%nat).
Proof.
  intros Hn. unfold length_field, Upgrade.extent. cbn [app nth].
  assert (Hx : ∀ size, 0 ≤ n < 256 ^ Z.of_nat size →
    (length (first :: second :: to_be size n ++ body) <? 2 + size)%nat = false
    ∧ from_be (slice (first :: second :: to_be size n ++ body) 2 (2 + size)) = n).
  { intros size Hs. split; [apply Nat.ltb_ge; simpl; rewrite length_app, to_be_length; lia|].
    rewrite (slice_app [first; second] (to_be size n) body) by (simpl; rewrite ?to_be_length; done).
    by apply from_be_to_be. }
  destruct (Z.ltb_spec n 126); [|destruct (Z.ltb_spec n 65536)].
  - intros [= <- <-]. rewrite low_seven, !(proj2 (Z.eqb_neq _ _)) by lia. done.
  - destruct (Hx 2%nat) as [H1 H2]; [lia|]. cbn [Nat.add] in H1, H2. pose proof (to_be_length 2 n) as HL.
    remember (to_be 2 n) as tb. intros [= <- <-].
    change (Z.land 126 127 =? 126) with true. cbv iota. by rewrite H1, H2, HL.
  - destruct (Hx 8%nat) as [H1 H2]; [lia|]. cbn [Nat.add] in H1, H2. pose proof (to_be_length 8 n) as HL.
    remember (to_be 8 n) as tb. intros [= <- <-].
    change (Z.land 127 127 =? 126) with false. change (Z.land 127 127 =? 127) with true. cbv iota.
    by rewrite H1, H2, HL.
Qed.

Lemma next_server_frame f rest : sendable f →
  next_frame (server_frame f.1 f.2 ++ rest) = Some (frame_text f, rest).
Proof.
  destruct f as [opcode payload]. intros [Ho Hp]. cbn [fst snd] in *.
  destruct (opcode_bits opcode Ho) as (_ & B2 & _). unfold server_frame, frame_text. cbn [fst snd].
  destruct (length_field (len payload)) as [|second field] eqn:E.
  { unfold length_field in E. destruct (_ <? _); [|destruct (_ <? _)]; discriminate. }
  replace ((Z.lor 128 opcode :: (second :: field) ++ payload) ++ rest)
    with ([Z.lor 128 opcode; second] ++ field ++ payload ++ rest) by (simpl; by rewrite <-app_assoc).
  unfold next_frame. rewrite (extent_field _ (len payload) _ _ (payload ++ rest)); [|unfold len in *; lia|done].
  unfold len. rewrite !length_app, Nat2Z.id. cbn [length app nth].
  rewrite (proj2 (Nat.ltb_ge _ _)), (proj2 (Z.ltb_ge _ _)), B2 by lia. do 2 f_equal.
  - case_match; [|done]. f_equal.
    apply (slice_app (Z.lor 128 opcode :: second :: field)); simpl; lia.
  - rewrite app_assoc. apply (drop_app_length' (Z.lor 128 opcode :: second :: field ++ payload) rest).
    simpl. rewrite length_app. lia.
Qed.

(** A part of a frame is left alone. *)
Lemma next_frame_partial f b c : sendable f → b ++ c = server_frame f.1 f.2 → c ≠ [] → next_frame b = None.
Proof.
  intros Hf E Hc. destruct (next_frame b) as [[t rest]|] eqn:En; [|done].
  apply (next_frame_app _ c) in En. pose proof (next_server_frame f [] Hf) as H.
  rewrite app_nil_r, <-E, En in H. injection H as _ H. by apply app_eq_nil in H as [_ ->].
Qed.

(** Whatever part of the stream has arrived, the frames that are whole are
    taken off it; when all of it has, nothing is left. *)
Lemma drain_prefix fs b c text :
  Forall sendable fs → b ++ c = stream fs →
  ∃ k rest, Upgrade.drain_all b text = (rest, text ++ texts (take k fs))
          ∧ (k ≤ length fs)%nat ∧ (c = [] → k = length fs).
Proof.
  intros Hfs. revert b text. induction Hfs as [|f fs Hf Hfs IH]; intros b text E.
  - apply app_eq_nil in E as [-> ->]. exists O, []. rewrite drain_all_next. cbn. by rewrite app_nil_r.
  - change (stream (f :: fs)) with (server_frame f.1 f.2 ++ stream fs) in E.
    destruct (decide (length (server_frame f.1 f.2) ≤ length b)%nat) as [Hl|Hl].
    + assert (Hb : ∃ b', b = server_frame f.1 f.2 ++ b' ∧ b' ++ c = stream fs).
      { apply app_eq_inv in E as [(k & E1 & E2)|(k & E1 & E2)].
        - by exists k.
        - rewrite E1, length_app in Hl. assert (k = []) as -> by (destruct k; simpl in Hl; [done|lia]).
          exists []. rewrite app_nil_r in *. done. }
      destruct Hb as (b' & -> & E'). destruct (IH b' (text ++ frame_text f) E') as (k & rest & E2 & Hk & Hc).
      exists (S k), rest. rewrite drain_all_next, next_server_frame, E2 by done. cbn [take length]. split_and!.
      * unfold texts. cbn [mbind list_bind]. by rewrite <-app_assoc.
      * lia.
      * intros H. by rewrite Hc.
    + exists O, b. assert (Hn : next_frame b = None).
      { apply app_eq_inv in E as [(k & E1 & E2)|(k & E1 & E2)].
        - rewrite E1, length_app in Hl. lia.
        - apply (next_frame_partial f b k Hf); [done|]. intros ->. rewrite E1, length_app in Hl. simpl in Hl. lia. }
      rewrite drain_all_next, Hn. cbn. rewrite app_nil_r. split_and!; [done|lia|].
      intros ->. rewrite app_nil_r in E. rewrite E, length_app in Hl. lia.
Qed.

(** The loop goes on from any point of the stream. *)
Lemma recv_text_stream needle fs : ∀ net seen buf text ticks,
  Forall sendable fs → Forall (λ c, c ≠ []) net → seen ++ concat net = stream fs →
  Upgrade.drain_all seen [] = (buf, text) → (length net < ticks)%nat →
  ∃ k, Upgrade.recv_text_loop needle ticks net buf text = texts (take k fs)
     ∧ (contains (texts (take k fs)) needle = true ∨ k = length fs).
Proof.
  induction net as [|c net IH]; intros seen buf text ticks Hfs Hn E Hd Ht;
    (destruct ticks as [|ticks]; [lia|]); cbn [Upgrade.recv_text_loop];
    destruct (drain_prefix fs seen _ [] Hfs E) as (k & rest & Ek & Hk & Hend);
    rewrite Hd in Ek; injection Ek as -> ->; cbn [app].
  - exists k. destruct (contains _ needle) eqn:Ec; split; auto.
  - destruct (contains _ needle) eqn:Ec; [exists k; auto|].
    apply Forall_cons in Hn as [Hc Hn]. destruct c as [|x c]; [done|].
    pose proof (drain_app seen [] (x :: c)) as Ha. rewrite Hd in Ha.
    destruct (Upgrade.drain_all (rest ++ x :: c) _) as [buf' text'] eqn:E'.
    apply (IH (seen ++ x :: c)); [done|done| |done|simpl in Ht; lia].
    rewrite <-E. cbn [concat]. by rewrite <-app_assoc.
Qed.

(** [ws_recv_text] on a connection whose chunks, however they are cut, carry
    a sequence of server frames: the result is the decoded text of an initial
    part of the frames, every text or binary payload followed by a line feed,
    and that part is all of them unless the needle was found in it. *)
Theorem ws_recv_text_segmented needle ticks net fs :
  Forall sendable fs → Forall (λ c, c ≠ []) net → concat net = stream fs → (length net < ticks)%nat →
  ∃ k, Upgrade.ws_recv_text needle ticks net = utf8_decode (texts (take k fs))
     ∧ (contains (texts (take k fs)) needle = true ∨ k = length fs).
Proof.
  intros Hfs Hn E Ht. destruct (recv_text_stream needle fs net [] [] [] ticks) as (k & Ek & H); try done.
  exists k. unfold Upgrade.ws_recv_text. by rewrite Ek.
Qed.

(** A text frame and a ping, cut after the first byte. *)
Lemma ws_recv_text_segmented_witness :
  ∃ k, Upgrade.ws_recv_text (bs "zzz") 5 [[129]; [2; 104; 105; 137; 0]]
         = utf8_decode (texts (take k [(1, [104; 105]); (9, [])]))
     ∧ (contains (texts (take k [(1, [104; 105]); (9, [])])) (bs "zzz") = true ∨ k = 2%nat).
Proof.
  apply (ws_recv_text_segmented (bs "zzz") 5 [[129]; [2; 104; 105; 137; 0]] [(1, [104; 105]); (9, [])]).
  - repeat constructor; cbn; lia.
  - repeat constructor; discriminate.
  - vm_compute. reflexivity.
  - simpl. lia.
Defined.

(** ** Lines and the barrier *)

Definition line_of (raw : pybytes) : pystr := utf8_decode (rstrip_by (Z.eqb Irc.CR) raw).

(** From [w] to [w'], exactly the lines [raws] were taken off the stream. *)
Definition took (w w' : Client) (raws : list pybytes) : Prop :=
  sent w' = sent w ∧ Forall (λ raw, Irc.LF ∉ raw) raws ∧
  ∃ chunks, net w = chunks ++ net w'
          ∧ pending w ++ concat chunks = concat ((λ raw, raw ++ [Irc.LF]) <$> raws) ++ pending w'.

Lemma took_trans w1 w2 w3 a b : took w1 w2 a → took w2 w3 b → took w1 w3 (a ++ b).
Proof.
  intros (S1 & F1 & c1 & N1 & E1) (S2 & F2 & c2 & N2 & E2). split; [congruence|].
  split; [by apply Forall_app|]. exists (c1 ++ c2). rewrite N1, N2, app_assoc. split; [done|].
  rewrite concat_app, app_assoc, E1, <-app_assoc, E2, fmap_app, concat_app. by rewrite <-app_assoc.
Qed.

(** A step that moves chunks into what is pending takes no line. *)
Lemma took_more w w' chunks :
  sent w' = sent w → net w = chunks ++ net w' → pending w' = pending w ++ concat chunks → took w w' [].
Proof. intros HS HN HP. split; [done|]. split; [constructor|]. exists chunks. simpl. by rewrite HP. Qed.

Lemma take_line_took w : contains (pending w) [Irc.LF] = true →
  ∃ raw w', Irc.take_line w = (inr (line_of raw), w') ∧ took w w' [raw].
Proof.
  intros (x & y & E)%contains_iff.
  destruct (list_elem_of_split_l (pending w) Irc.LF) as (raw & rest & Ep & Hn).
  { rewrite E. apply elem_of_app. right. left. }
  exists raw. unfold Irc.take_line, seq_, get, put, ret. rewrite Ep, partition_char by done.
  eexists. split; [reflexivity|]. split; [done|]. split; [by constructor|].
  exists []. simpl. rewrite Ep, !app_nil_r, <-app_assoc. done.
Qed.

Lemma line_loop_took fuel w x w' :
  Irc.line_loop fuel w = (inr x, w') → ∃ raw, x = line_of raw ∧ took w w' [raw].
Proof.
  revert w. induction fuel as [|fuel IH]; intros w; [done|]. cbn [Irc.line_loop]. unfold seq_ at 1, get.
  destruct (contains (pending w) [Irc.LF]) eqn:E.
  - destruct (take_line_took w E) as (raw & w1 & -> & H). intros [= <- <-]. by exists raw.
  - unfold more, seq_, in_time, recv, put. destruct (ticks w) as [|t]; [done|]. cbn [net].
    destruct (net w) as [|[|b c] n] eqn:En; [done|done|].
    intros H. apply IH in H as (raw & -> & H). exists raw. split; [done|].
    eapply (took_trans _ _ _ [] [raw]); [|exact H].
    apply (took_more _ _ [b :: c]); [done|done|]. simpl. by rewrite app_nil_r.
Qed.

Definition one_line (m : act pystr) : Prop :=
  ∀ w x w', m w = (inr x, w') → ∃ raw, x = line_of raw ∧ took w w' [raw].

Lemma runtime_line_one : one_line Runtime.line.
Proof. intros w x w' H. by apply line_loop_took in H. Qed.

(** [until] takes lines up to and with the first that has the marker, and none
    of them has the forbidden text. *)
Lemma until_took line fuel marker forbidden w x w' :
  one_line line → Irc.until_loop line fuel marker (Some forbidden) w = (inr x, w') →
  ∃ raws raw, x = line_of raw ∧ took w w' (raws ++ [raw]) ∧ contains x marker = true
    ∧ Forall (λ r, contains (line_of r) marker = false) raws
    ∧ Forall (λ r, contains (line_of r) forbidden = false) (raws ++ [raw]).
Proof.
  intros Hone. revert w. induction fuel as [|fuel IH]; intros w; [done|]. cbn [Irc.until_loop].
  unfold seq_, in_time. destruct (ticks w) as [|t]; [done|].
  set (w0 := mkClient t (net w) (pending w) (lines w) (sent w)).
  assert (H0 : took w w0 []) by (apply (took_more w w0 []); [done|done|simpl; by rewrite app_nil_r]).
  destruct (line w0) as [[e|l] w1] eqn:El; [done|].
  apply Hone in El as (raw & -> & H1). pose proof (took_trans _ _ _ _ _ H0 H1) as H01. cbn [app] in H01.
  destruct (contains (line_of raw) forbidden) eqn:Ef; [done|].
  destruct (contains (line_of raw) marker) eqn:Em.
  - intros [= <- <-]. exists [], raw. split_and!; [done|done|done|constructor|by constructor].
  - intros (raws & last & -> & H2 & Hm & Hn & Hf)%IH. exists (raw :: raws), last.
    split_and!; [done|exact (took_trans _ _ _ _ _ H01 H2)|done|by constructor|by constructor].
Qed.

(** C24: when [barrier_without] returns, the lines it took off the stream, in
    order and without a gap, up to and with the PONG that carries the token,
    have no forbidden text, and neither have the bytes already read after them;
    it wrote one PING and nothing else. *)
Theorem barrier_vouches forbidden token w pong w' :
  forbidden ≠ [] → Runtime.barrier_without forbidden token w = (inr pong, w') →
  sent w' = sent w ++ [utf8_encode (u "PING :" ++ token ++ [Irc.CR; Irc.LF])]
  ∧ contains (pending w') (utf8_encode forbidden) = false
  ∧ contains pong (u " PONG ") = true ∧ contains pong (u ":" ++ token) = true
  ∧ ∃ raws raw chunks, pong = line_of raw
      ∧ net w = chunks ++ net w'
      ∧ pending w ++ concat chunks = concat ((λ r, r ++ [Irc.LF]) <$> raws ++ [raw]) ++ pending w'
      ∧ Forall (λ r, Irc.LF ∉ r ∧ contains (line_of r) forbidden = false) (raws ++ [raw]).
Proof.
  intros Hf. unfold Runtime.barrier_without, Runtime.send, Runtime.until, with_ticks.
  replace (if nonempty forbidden then Some forbidden else None) with (Some forbidden) by (by destruct forbidden).
  unfold seq_ at 1, sendall. unfold seq_ at 1.
  set (w0 := mkClient _ _ _ _ _).
  destruct (Irc.until_loop _ _ _ _ w0) as [[e|x] w1] eqn:Eu; [done|].
  apply (until_took _ _ _ _ _ _ _ runtime_line_one) in Eu as (raws & raw & -> & (HS & HF & chunks & HN & HP) & Hm & _ & Hn).
  destruct (contains (line_of raw) (u " PONG ")) eqn:Ep; [|done]. cbn [negb]. unfold seq_, get.
  destruct (contains (pending w1) _) eqn:Ec; [done|]. intros [= <- <-].
  split; [rewrite HS; simpl; by rewrite <-app_assoc|]. split_and!; [exact Ec|exact Ep|exact Hm|].
  exists raws, raw, chunks. split_and!; [done|done|done|]. by apply Forall_and.
Qed.

Lemma barrier_vouches_witness :
  let ok := u ":irc.test NOTICE k :hello" in
  let pong := u ":irc.test PONG irc.test :tok" in
  let w := mkClient 9 [ok ++ [13; 10] ++ pong; [13; 10]] [] [] [] in
  Runtime.barrier_without (u "secret") (u "tok") w
    = (inr pong, mkClient 5 [] [] [] [utf8_encode (u "PING :" ++ u "tok" ++ [Irc.CR; Irc.LF])])
  ∧ contains pong (u " PONG ") = true.
Proof.
  intros ok pong w.
  assert (E : Runtime.barrier_without (u "secret") (u "tok") w
    = (inr pong, mkClient 5 [] [] [] [utf8_encode (u "PING :" ++ u "tok" ++ [Irc.CR; Irc.LF])])).
  { vm_compute. reflexivity. }
  split; [exact E|].
  refine (proj1 (proj2 (proj2 (barrier_vouches (u "secret") (u "tok") w pong _ _ E)))).
  intros H. vm_compute in H. discriminate H.
Defined.

(** ** Every loop ends with the time *)

(** An action never gains time. *)
Definition timed {A} (m : act A) : Prop := ∀ w, (ticks (m w).2 ≤ ticks w)%nat.

(** Two actions agree on the clients with less than [t] looks at the clock. *)
Definition agree {A} (t : nat) (m m' : act A) : Prop := ∀ w, (ticks w < t)%nat → m w = m' w.

Create HintDb timed discriminated.

Lemma timed_ret {A} (x : A) : timed (ret x).
Proof. intros w. done. Qed.
Lemma timed_raise {A} e : timed (@raise A e).
Proof. intros w. done. Qed.
Lemma timed_get {A} (f : Client → A) : timed (get f).
Proof. intros w. done. Qed.
Lemma timed_in_time : timed in_time.
Proof. intros w. unfold in_time. destruct (ticks w) eqn:E; simpl; lia. Qed.
Lemma timed_recv : timed recv.
Proof. intros w. unfold recv. destruct (net w) as [|[] ?]; simpl; lia. Qed.
Lemma timed_sendall data : timed (sendall data).
Proof. intros w. done. Qed.
Lemma timed_pending f : timed (put (λ w, set_pending (f w) w)).
Proof. intros w. done. Qed.
Lemma timed_lines f : timed (put (λ w, set_lines (f w) w)).
Proof. intros w. done. Qed.
Lemma timed_set_pending p : timed (put (set_pending p)).
Proof. intros w. done. Qed.
Lemma timed_set_lines l : timed (put (set_lines l)).
Proof. intros w. done. Qed.
Lemma timed_seq {A B} (m : act A) (f : A → act B) : timed m → (∀ x, timed (f x)) → timed (seq_ m f).
Proof.
  intros Hm Hf w. unfold seq_. specialize (Hm w). destruct (m w) as [[e|x] w']; simpl in *; [done|].
  specialize (Hf x w'). lia.
Qed.
Lemma timed_with_ticks {A} (f : nat → act A) : (∀ n, timed (f n)) → timed (with_ticks f).
Proof. intros H w. apply H. Qed.
Lemma timed_more {A} (eof again : act A) : timed eof → timed again → timed (more eof again).
Proof.
  intros He Ha. unfold more. apply timed_seq; [apply timed_in_time|intros _].
  apply timed_seq; [apply timed_recv|]. intros [|b c]; [done|].
  apply timed_seq; [apply timed_pending|done].
Qed.

#[export] Hint Resolve timed_ret timed_raise timed_get timed_in_time timed_recv timed_sendall timed_pending
  timed_lines timed_set_pending timed_set_lines timed_seq timed_with_ticks timed_more : timed.

(** Case analysis on whatever decides the next action. *)
Ltac timed_solve :=
  repeat first
    [ solve [eauto with timed]
    | apply timed_seq; [|intros ?]
    | apply timed_more
    | case_match ].

Lemma timed_line_loop n : timed (Irc.line_loop n).
Proof. induction n; cbn [Irc.line_loop]; unfold Irc.take_line; timed_solve. Qed.
Lemma timed_read_loop n count : timed (Ws.read_loop n count).
Proof. induction n; cbn [Ws.read_loop]; timed_solve. Qed.
#[export] Hint Resolve timed_line_loop timed_read_loop : timed.

Lemma timed_line : timed Irc.line.
Proof. unfold Irc.line. timed_solve. Qed.
Lemma timed_runtime_line : timed Runtime.line.
Proof. unfold Runtime.line. timed_solve. Qed.
Lemma timed_read_exact count : timed (Ws.read_exact count).
Proof. unfold Ws.read_exact. timed_solve. Qed.
#[export] Hint Resolve timed_line timed_runtime_line timed_read_exact : timed.

Lemma timed_read_frame : timed Ws.read_frame.
Proof. unfold Ws.read_frame, Ws.frame_length, Ws.extended. timed_solve. Qed.
Lemma timed_send_frame urandom opcode payload : timed (Ws.send_frame urandom opcode payload).
Proof. unfold Ws.send_frame. timed_solve. Qed.
Lemma timed_extend payload : timed (Ws.extend_lines payload).
Proof. unfold Ws.extend_lines. timed_solve. Qed.
#[export] Hint Resolve timed_read_frame timed_send_frame timed_extend : timed.

Lemma agree_refl {A} t (m : act A) : agree t m m.
Proof. done. Qed.
Lemma agree_seq {A B} t (m : act A) (f g : A → act B) :
  timed m → (∀ x, agree t (f x) (g x)) → agree t (seq_ m f) (seq_ m g).
Proof.
  intros Hm Hf w Hw. unfold seq_. specialize (Hm w). destruct (m w) as [[e|x] w']; [done|].
  apply Hf. simpl in Hm. lia.
Qed.
Lemma agree_in_time {B} t (f g : act B) : agree t f g → agree (S t) (in_time ;;~ f) (in_time ;;~ g).
Proof.
  intros H w Hw. unfold seq_, in_time. destruct (ticks w) as [|n] eqn:E; [done|]. apply H. simpl. lia.
Qed.
Lemma agree_le {A} t t' (m m' : act A) : (t ≤ t')%nat → agree t' m m' → agree t m m'.
Proof. intros Ht H w Hw. apply H. lia. Qed.
Lemma agree_more {A} t (eof f g : act A) : agree t f g → agree (S t) (more eof f) (more eof g).
Proof.
  intros H. apply agree_in_time, agree_seq; [apply timed_recv|]. intros [|b c]; [done|].
  by apply agree_seq; [apply timed_pending|].
Qed.

Create HintDb agree discriminated.
#[export] Hint Resolve agree_refl agree_le : agree.

(** Down to the recursive call, through whatever decides it. *)
Ltac agree_solve IH :=
  repeat first
    [ apply IH | apply agree_refl | apply agree_more | apply agree_in_time
    | apply agree_seq; [solve [timed_solve]|intros ?]
    | solve [eapply agree_le; [|apply IH]; lia] | case_match ].

Ltac loop_agrees :=
  let n := fresh "n" in let m := fresh "m" in let IH := fresh "IH" in
  intros n; induction n as [|n IH]; intros m; intros; [by intros w Hw; simpl in Hw; lia|];
  destruct m as [|m]; [by intros w Hw; simpl in Hw; lia|]; cbn -[contains u]; agree_solve IH.

Lemma line_loop_agree n m : agree (n `min` m) (Irc.line_loop n) (Irc.line_loop m).
Proof. revert n m. loop_agrees. Qed.
Lemma irc_until_agree line marker forbidden n m : timed line →
  agree (n `min` m) (Irc.until_loop line n marker forbidden) (Irc.until_loop line m marker forbidden).
Proof. intros Hl. revert n m. loop_agrees. Qed.
Lemma names_loop_agree channel n m roster :
  agree (n `min` m) (Irc.names_loop n channel roster) (Irc.names_loop m channel roster).
Proof. revert n m roster. loop_agrees. Qed.
Lemma irc_quit_agree n m : agree (n `min` m) (Irc.quit_loop n) (Irc.quit_loop m).
Proof. revert n m. loop_agrees. Qed.
Lemma eof_loop_agree n m buf : agree (n `min` m) (Runtime.eof_loop n buf) (Runtime.eof_loop m buf).
Proof. revert n m buf. loop_agrees. Qed.
Lemma read_loop_agree count n m : agree (n `min` m) (Ws.read_loop n count) (Ws.read_loop m count).
Proof. revert n m. loop_agrees. Qed.
Lemma head_loop_agree n m : agree (n `min` m) (Ws.head_loop n) (Ws.head_loop m).
Proof. revert n m. loop_agrees. Qed.
Lemma ws_until_agree urandom marker n m :
  agree (n `min` m) (Ws.until_loop urandom n marker) (Ws.until_loop urandom m marker).
Proof. revert n m. loop_agrees. Qed.
Lemma pong_loop_agree urandom n m : agree (n `min` m) (Ws.pong_loop urandom n) (Ws.pong_loop urandom m).
Proof. revert n m. loop_agrees. Qed.
Lemma ws_quit_agree urandom n m : agree (n `min` m) (Ws.quit_loop urandom n) (Ws.quit_loop urandom m).
Proof. revert n m. loop_agrees. Qed.

Lemma fuel_enough {A} (loop : nat → act A) fuel w :
  (∀ n m, agree (n `min` m) (loop n) (loop m)) → (ticks w < fuel)%nat → loop fuel w = with_ticks loop w.
Proof. intros H Hf. apply H. lia. Qed.

(** Every loop of the clients ends when the time is up: beyond one pass for
    every look at the clock, the bound on the number of passes makes no
    difference, on any network. *)
Theorem client_loops_end urandom line marker forbidden channel roster buf count fuel w :
  timed line → (ticks w < fuel)%nat →
  Irc.line_loop fuel w = with_ticks Irc.line_loop w
  ∧ Irc.until_loop line fuel marker forbidden w = with_ticks (λ n, Irc.until_loop line n marker forbidden) w
  ∧ Irc.names_loop fuel channel roster w = with_ticks (λ n, Irc.names_loop n channel roster) w
  ∧ Irc.quit_loop fuel w = with_ticks Irc.quit_loop w
  ∧ Runtime.eof_loop fuel buf w = with_ticks (λ n, Runtime.eof_loop n buf) w
  ∧ Ws.read_loop fuel count w = Ws.read_exact count w
  ∧ Ws.head_loop fuel w = with_ticks Ws.head_loop w
  ∧ Ws.until_loop urandom fuel marker w = with_ticks (λ n, Ws.until_loop urandom n marker) w
  ∧ Ws.pong_loop urandom fuel w = with_ticks (Ws.pong_loop urandom) w
  ∧ Ws.quit_loop urandom fuel w = with_ticks (Ws.quit_loop urandom) w.
Proof.
  intros Hl Hf. unfold Ws.read_exact.
  split_and!; [apply (fuel_enough Irc.line_loop)|apply (fuel_enough (λ n, Irc.until_loop line n marker forbidden))
    |apply (fuel_enough (λ n, Irc.names_loop n channel roster))|apply (fuel_enough Irc.quit_loop)
    |apply (fuel_enough (λ n, Runtime.eof_loop n buf))|apply (fuel_enough (λ n, Ws.read_loop n count))
    |apply (fuel_enough Ws.head_loop)|apply (fuel_enough (λ n, Ws.until_loop urandom n marker))
    |apply (fuel_enough (Ws.pong_loop urandom))|apply (fuel_enough (Ws.quit_loop urandom))]; try exact Hf;
    intros n m; [apply line_loop_agree|by apply irc_until_agree|apply names_loop_agree|apply irc_quit_agree
    |apply eof_loop_agree|apply read_loop_agree|apply head_loop_agree|apply ws_until_agree|apply pong_loop_agree
    |apply ws_quit_agree].
Qed.
