(* ===== verification/AlpineLogger.v ===== *)
(** * tools/alpine_logger/driver.py: the logger test in an Alpine guest

    The driver pins its inputs, boots a disposable guest, types two commands on
    its console, reads the verdict of the guest script and decides whether log
    delivery was shown.  The digests of the files at every point the driver
    takes them, the outcome of the tools, what the console sends and what the
    clean-up finds are arguments. *)

From S2P Require Import Prelude PyStr Regex Alpine.

Module Logger.

Definition ISO_PIN : pystr := u "cdc1bc0efc64d8d611bf3733f54868172a545888dfd726f518bf279bcb0ff1af".
Definition SERVICE_PIN : pystr := u "c7d409bd2962b2eb3136124273a6d7476460f47e77907d252af39ab10bcc354e".
Definition CONFD_PIN : pystr := u "07615e4bd87d0256b51a455dd3f105d27ee39e96c2f1c024c823257ce9810d1f".

Definition FAILS : list pystr := split_ws (u "prerequisites occupied_socket boot_socket_type boot_syslog_status boot_syslog_identity boot_socket_owner boot_stale_identity boot_socket_binding boot_stale_remove boot_syslog_stop boot_syslog_retirement syslog_ready account openrc networking config service_user_config service_start supervisor logger_identity daemon_identity pipe_identity canary_scan metrics_ready metrics_read canary burst log_bound summary canary_leak syslog_died stop syslog_stop guest_mount_or_script").

(** ** Inputs *)

Inductive Input := Binary | Service | Confd | Guest.
Definition inputs : list Input := [Binary; Service; Confd; Guest].

(** When a digest is taken: before anything, after the copy, at the end. *)
Inductive When := Before | Copied | After.

(** [digest] of the sources, of the copies in the share and of the image;
    [None] when the file cannot be read. *)
Record Disk := mkDisk {
  source : When → Input → option pystr;
  copy : When → Input → option pystr;
  image : When → option pystr }.

Definition pins (d : Disk) : option (list (Input * pystr)) :=
  foldr (λ i acc, h ← source d Before i; l ← acc; Some ((i, h) :: l)) (Some []) inputs.

(** The pin of an input; the guest script has none. *)
Definition expected (binary_sha256 : pystr) (i : Input) : option pystr :=
  match i with
  | Binary => Some binary_sha256
  | Service => Some SERVICE_PIN
  | Confd => Some CONFD_PIN
  | Guest => None
  end.

Definition pinned (binary_sha256 : pystr) (l : list (Input * pystr)) : bool :=
  forallb (λ kv, match expected binary_sha256 kv.1 with Some v => str_eqb kv.2 v | None => true end) l.

(** Whether the source and the copy still have the digests; [None] when one
    cannot be read.  A source that differs spares the digest of its copy. *)
Fixpoint unchanged (d : Disk) (at_ : When) (l : list (Input * pystr)) : option bool :=
  match l with
  | [] => Some true
  | (i, h) :: l =>
    s ← source d at_ i;
    if negb (str_eqb s h) then Some false
    else c ← copy d at_ i; if negb (str_eqb c h) then Some false else unchanged d at_ l
  end.

(** ** The console *)

#[local] Open Scope re_scope.

(** [(?:^|\n) ... \r?\n]. *)
Definition on_line (r : re) : re := (RAssert at_bol </> lit [10]) @@ r @@ cr @@ lit [10].

Definition PASS : re :=
  on_line (lit (bs "ONYX_RESULT PASS logger ") @@ digits 1 6 @@ sp @@ digits 2 6 @@ sp @@ digits 3 6
           @@ sp @@ RGroup 4 (RChr (range 49 51))).
Definition FAIL : re :=
  on_line (lit (bs "ONYX_RESULT FAIL ") @@ RGroup 1 (rep 1 40 (RChr (λ c, az c || (c =? 95))))).
Definition RETIREMENT : re :=
  on_line (lit (bs "ONYX_DIAG retirement ") @@ words 1 (bs "gone changed zombie live unknown")
           @@ sp @@ words 2 (bs "started stopped unknown") @@ sp @@ words 3 (bs "absent socket symlink other")).
Definition METRICS : re :=
  on_line (lit (bs "ONYX_DIAG metrics ") @@ words 1 (bs "alive changed gone unknown")
           @@ sp @@ words 2 (bs "started stopped unknown") @@ sp @@ words 3 (bs "success timeout other")
           @@ sp @@ words 4 (bs "200 other absent") @@ sp @@ words 5 (bs "valid missing duplicate malformed")
           @@ sp @@ words 6 (bs "valid missing duplicate malformed")
           @@ sp @@ words 7 (bs "present absent read_error")).
Definition LIFETIME : re :=
  on_line (lit (bs "ONYX_DIAG lifetime ") @@ words 1 (bs "unknown exit signal") @@ sp @@ digits 2 3
           @@ sp @@ words 3 (bs "same changed gone unknown") @@ sp @@ words 4 (bs "none present unknown")
           @@ sp @@ words 5 (bs "panic out_of_memory access_denied address_in_use unknown")
           @@ sp @@ words 6 (bs "yes unknown")).

#[local] Close Scope re_scope.

Record Lifetime := mkLifetime {
  t_outcome : pystr; t_code : option Z; t_supervisor : pystr; t_replacement : pystr;
  t_marker : pystr; t_oom : pystr }.

Record Outcome := mkOutcome {
  result : pystr; failure : option pystr; cleanup_ok : bool;
  accepted : option Z; suppressed : option Z; summaries : option Z; attempt : option Z;
  retirement : option (list pystr); metrics : option (list pystr); lifetime : option Lifetime }.

Definition initial : Outcome :=
  mkOutcome (u "guest_timeout") None false None None None None None None None.

(** The one match of a pattern, if it is the only one. *)
Definition sole (r : re) (buffer : pybytes) : option mst :=
  match rfinditer r buffer with [m] => Some m.2 | _ => None end.

Definition lifetime_of (m : mst) : option Lifetime :=
  let outcome := group_ 1 m in
  let number := from_opt 0 (bint (group_ 2 m)) in
  if (str_eqb outcome (u "unknown") && (number =? 0)) || (str_eqb outcome (u "exit") && (number <=? 255))
     || (str_eqb outcome (u "signal") && (1 <=? number) && (number <=? 64))
  then Some (mkLifetime outcome (if negb (str_eqb outcome (u "unknown")) then Some number else None)
               (group_ 3 m) (group_ 4 m) (group_ 5 m) (group_ 6 m))
  else None.

Definition failed (code : pystr) (buffer : pybytes) : Outcome :=
  mkOutcome (u "guest_failure") (Some (if mem code FAILS then code else u "unknown")) false
    None None None None
    (if str_eqb code (u "boot_syslog_retirement")
     then m ← sole RETIREMENT buffer; Some ((λ n, group_ n m) <$> seq 1 3) else None)
    (if str_eqb code (u "metrics_ready")
     then m ← sole METRICS buffer; Some ((λ n, group_ n m) <$> seq 1 7) else None)
    (if str_eqb code (u "metrics_ready") then m ← sole LIFETIME buffer; lifetime_of m else None).

Definition num (n : nat) (m : mst) : Z := from_opt 0 (bint (group_ n m)).

Definition passed (m : mst) : Outcome :=
  if (128 <? num 1 m) && (0 <? num 2 m) && (0 <? num 3 m)
  then mkOutcome (u "pass") None false (Some (num 1 m)) (Some (num 2 m)) (Some (num 3 m)) (Some (num 4 m))
         None None None
  else mkOutcome (u "guest_invalid_sentinel") None false None None None None None None None.

Inductive Stage := Login | Prompt | Script.

Record Console := mkConsole { buffer : pybytes; stage : Stage; typed : list pybytes }.

Definition ROOT : pybytes := bs "root" ++ [10].
Definition COMMAND : pybytes :=
  bs "mkdir -p /fixture; mount -t 9p -o trans=virtio,version=9p2000.L,ro fixture /fixture && sh /fixture/guest.sh || echo ONYX_RESULT FAIL guest_mount_or_script" ++ [10].

(** A chunk of the console: the new state, and the outcome when the loop
    breaks. *)
Definition on_chunk (chunk : pybytes) (c : Console) : Console * option Outcome :=
  let buf := last_n 65536 (buffer c ++ chunk) in
  let c :=
    match stage c with
    | Login => if contains buf (bs "login:") then mkConsole [] Prompt (typed c ++ [ROOT])
               else mkConsole buf Login (typed c)
    | Prompt => if contains buf (bs "~ #") || contains buf (bs ":~# ")
                then mkConsole [] Script (typed c ++ [COMMAND]) else mkConsole buf Prompt (typed c)
    | Script => mkConsole buf Script (typed c)
    end in
  match stage c with
  | Script =>
    match rsearch FAIL (buffer c), rsearch PASS (buffer c) with
    | Some (_, _, m), _ => (c, Some (failed (group_ 1 m) (buffer c)))
    | None, Some (_, _, m) => (c, Some (passed m))
    | None, None => (c, None)
    end
  | _ => (c, None)
  end.

(** One pass of the loop: nothing to read in time, a chunk (empty at the end of
    the stream), or a write to a guest that is gone. *)
Inductive Turn := Quiet | Chunk (data : pybytes) | Broken.

(** The loop ends with the turns when the deadline has passed or the process
    has ended; [None] is an [OSError]. *)
Fixpoint watch (turns : list Turn) (c : Console) : option Outcome :=
  match turns with
  | [] => Some initial
  | Quiet :: turns => watch turns c
  | Chunk [] :: _ => Some initial
  | Chunk data :: turns =>
    match on_chunk data c with
    | (_, Some o) => Some o
    | (c, None) => watch turns c
    end
  | Broken :: _ => None
  end.

(** ** Clean-up *)

(** The answer to a signal of the process group: sent, no such group, or
    another error. *)
Inductive Sig := Sent | Lookup | Denied.

(** Looks at the group until it is gone or the time is up; [None] is an
    [OSError]. *)
Fixpoint looks (l : list Sig) : option bool :=
  match l with
  | [] => Some false
  | Sent :: l => looks l
  | Lookup :: _ => Some true
  | Denied :: _ => None
  end.

Record Cleanup := mkCleanup {
  c_term : Sig; c_first : list Sig; c_kill : Sig; c_second : list Sig;
  c_exited : bool }.            (* [process.poll() is not None] at the end *)

Definition cleanup (c : Cleanup) : option bool :=
  match c_term c with
  | Denied => None
  | _ =>
    _ ← looks (c_first c);
    match c_kill c with
    | Denied => None
    | _ => group_gone ← looks (c_second c); Some (c_exited c && group_gone)
    end
  end.

(** ** The run *)

Record World := mkWorld {
  disk : Disk;
  tools : bool;                 (* the tools and /dev/kvm are there *)
  extracted : bool;             (* xorriso succeeded in time *)
  turns : list Turn;
  clean : Cleanup }.

Definition with_result (v : pystr) (o : Outcome) : Outcome :=
  mkOutcome v (failure o) (cleanup_ok o) (accepted o) (suppressed o) (summaries o) (attempt o)
    (retirement o) (metrics o) (lifetime o).
Definition with_cleanup (v : bool) (o : Outcome) : Outcome :=
  mkOutcome (result o) (failure o) v (accepted o) (suppressed o) (summaries o) (attempt o)
    (retirement o) (metrics o) (lifetime o).

(** [None] is an exception [main] turns into [driver_failure]. *)
Definition run (binary_sha256 : pystr) (w : World) : option Outcome :=
  let d := disk w in
  p ← pins d;
  iso ← image d Before;
  if negb (str_eqb iso ISO_PIN) || negb (pinned binary_sha256 p) then None
  else if negb (tools w) then None
  else
    same ← unchanged d Copied p;
    if negb (same : bool) || negb (extracted w) then None
    else
      o ← watch (turns w) (mkConsole [] Login []);
      ok ← cleanup (clean w);
      let o := with_cleanup ok o in
      same ← unchanged d After p;
      iso_same ← (if same : bool then iso ← image d After; Some (str_eqb iso ISO_PIN) else Some false);
      let o := if negb iso_same then with_result (u "input_changed") o else o in
      Some (if negb (cleanup_ok o) then with_result (u "cleanup_failed") o else o).

(** [binary_sha256]: the argument's type. *)
Definition SHA256_ARG : re := times 64 (RChr (λ c, d09 c || range 97 102 c)).

Definition main (binary_sha256 : pystr) (w : World) : Z :=
  if negb (is_someb (rfullmatch SHA256_ARG binary_sha256)) then 2
  else match run binary_sha256 w with
  | Some o => if str_eqb (result o) (u "pass") then 0 else 1
  | None => 1
  end.
End Logger.
