(* ===== verification/AlpineLoggerSpec.v ===== *)
(** * What a passing logger test shows

    Exit status 0 of the driver is evidence: pinned inputs that did not change,
    a guest that is gone, and a verdict of the guest script on the console after
    the two commands were typed. *)

From S2P Require Import Prelude PyStr Regex Alpine AlpineLogger.

Import Logger.

(** ** Matches of the verdict *)

Lemma rsearch_sound r prev s i w m :
  rsearch_from r prev s = Some (i, w, m) → ∃ pre prev' rest, s = pre ++ rest ∧ Rm r (start_at prev' rest) m.
Proof.
  revert prev i. induction s as [|c s IH]; intros prev i; cbn [rsearch_from];
    (destruct (rm r Some (start_at prev _)) as [m'|] eqn:E;
     [intros [= _ _ <-]; apply rm_sound in E as (st & H & [= <-]); exists [], prev; eexists; split; [reflexivity|exact H]|]); [done|].
  destruct (rsearch_from r (Some c) s) as [[[i' w'] m']|] eqn:E'; [|done]. intros [= _ <- <-].
  apply IH in E' as (pre & prev' & rest & -> & H). by exists (c :: pre), prev', rest.
Qed.

Lemma Rm_seq_inv a b s s' : Rm (RSeq a b) s s' → ∃ s1, Rm a s s1 ∧ Rm b s1 s'.
Proof. intros H. inversion H; subst. eauto. Qed.

Lemma Rm_lit_then w b s s' : Rm (RSeq (lit w) b) s s' → ∃ s1, m_rest s = w ++ m_rest s1 ∧ Rm b s1 s'.
Proof. intros (s1 & H1%Rm_lit & H2)%Rm_seq_inv. eauto. Qed.

(** Captures survive a continuation that does not capture. *)
Lemma group_kept n k s s' : Rm k s s' → n ∉ groups k → group_ n s' = group_ n s.
Proof.
  intros H Hn. destruct (Rm_caps _ _ _ H) as (caps & E & Hc). unfold group_, group. rewrite E, assoc_nat_skip; [done|].
  eapply Forall_impl; [exact Hc|]. intros kv Hkv <-. by apply Hn.
Qed.

Lemma Rm_group_inv n a s s' : Rm (RGroup n a) s s' →
  ∃ w, m_rest s = w ++ m_rest s' ∧ group_ n s' = w.
Proof.
  intros H. inversion H as [| | | | | | |? ? ? s3 H5|]; subst. destruct (Rm_suffix _ _ _ H5) as (w & E).
  exists w. split; [done|]. unfold group_, group. simpl. rewrite Nat.eqb_refl. simpl. by apply consumed_app.
Qed.

Lemma Rm_group_then n a b s s' : Rm (RSeq (RGroup n a) b) s s' → n ∉ groups b →
  ∃ s1, m_rest s = group_ n s' ++ m_rest s1 ∧ Rm b s1 s'.
Proof.
  intros (s1 & (w & E & Eg)%Rm_group_inv & H2)%Rm_seq_inv Hn. exists s1. split; [|done].
  by rewrite (group_kept _ _ _ _ H2 Hn), Eg.
Qed.

(** Groups of the pieces of the patterns. *)
Lemma groups_lit w : groups (lit w) = [].
Proof. induction w as [|c [|d w] IH]; [done|done|]. exact IH. Qed.

Lemma groups_words n ws : groups (words n ws) = [n].
Proof.
  unfold words. cbn [groups]. f_equal. generalize (split_ws ws). intros l.
  induction l as [|w l IH]; [done|]. cbn [fmap list_fmap alts]. destruct l as [|w' l]; [apply groups_lit|].
  change (groups (lit w) ++ groups (alts (lit <$> w' :: l)) = []). by rewrite groups_lit, IH.
Qed.

Lemma groups_digits n hi : groups (digits n hi) = [n].
Proof.
  unfold digits, rep. cbn [groups]. f_equal. cbn [times groups app].
  generalize (hi - 1)%nat. intros k. induction k as [|k IH]; [done|]. cbn [upto groups]. by rewrite IH.
Qed.

(** The group is not one of those that follow. *)
Ltac fresh_group :=
  cbn [groups]; unfold sp, cr, opt; cbn [groups]; rewrite ?groups_words, ?groups_digits, ?groups_lit; cbn [app groups];
  apply (bool_decide_unpack _); reflexivity.

Definition verdict (a s n k : pybytes) : pybytes :=
  bs "ONYX_RESULT PASS logger " ++ a ++ [32] ++ s ++ [32] ++ n ++ [32] ++ k.

Lemma pass_text buf i w m : rsearch PASS buf = Some (i, w, m) →
  ∃ pre post, buf = pre ++ verdict (group_ 1 m) (group_ 2 m) (group_ 3 m) (group_ 4 m) ++ post.
Proof.
  intros (pre & prev & rest & -> & H)%rsearch_sound. unfold PASS, on_line in H.
  apply Rm_seq_inv in H as (s0 & H0 & H). apply Rm_seq_inv in H as (s5 & H & Hend).
  destruct (Rm_suffix _ _ _ H0) as (x & E0). cbn [m_rest start_at] in E0.
  apply Rm_lit_then in H as (s1 & E1 & H).
  assert (G : ∀ n, group_ n m = group_ n s5) by (intros n; apply (group_kept n _ _ _ Hend), not_elem_of_nil).
  rewrite !G. clear G Hend H0.
  apply Rm_group_then in H as (s2 & E2 & H); [|fresh_group].
  apply Rm_lit_then in H as (s3 & E3 & H).
  apply Rm_group_then in H as (s6 & E6 & H); [|fresh_group].
  apply Rm_lit_then in H as (s7 & E7 & H).
  apply Rm_group_then in H as (s8 & E8 & H); [|fresh_group].
  apply Rm_lit_then in H as (s9 & E9 & H). apply Rm_group_inv in H as (k & E10 & <-).
  exists (pre ++ x), (m_rest s5). unfold verdict.
  rewrite E0, E1, E2, E3, E6, E7, E8, E9, E10. by rewrite <-!app_assoc.
Qed.

(** ** The console *)

(** What the chunks of the turns carry. *)
Definition data (ts : list Turn) : pybytes :=
  ts ≫= λ t, match t with Chunk d => d | _ => [] end.

(** The console after turns that did not end the loop. *)
Fixpoint after (ts : list Turn) (c : Console) : option Console :=
  match ts with
  | [] => Some c
  | Quiet :: ts => after ts c
  | Chunk [] :: _ | Broken :: _ => None
  | Chunk d :: ts => match on_chunk d c with (c, None) => after ts c | _ => None end
  end.

Lemma after_snoc ts d c c1 c2 :
  after ts c = Some c1 → d ≠ [] → on_chunk d c1 = (c2, None) → after (ts ++ [Chunk d]) c = Some c2.
Proof.
  intros Ha Hd Hc. revert c Ha. induction ts as [|[|e|] ts IH]; intros c Ha; cbn [after app] in *.
  - injection Ha as ->. destruct d as [|x d]; [done|]. by rewrite Hc.
  - by apply IH.
  - destruct e as [|y e]; [done|]. destruct (on_chunk (y :: e) c) as [c' [o|]]; [done|]. by apply IH.
  - done.
Qed.

Lemma after_quiet ts c c1 : after ts c = Some c1 → after (ts ++ [Quiet]) c = Some c1.
Proof.
  revert c. induction ts as [|[|e|] ts IH]; intros c Ha; cbn [after app] in *; [done|by apply IH| |done].
  destruct e as [|y e]; [done|]. destruct (on_chunk (y :: e) c) as [c' [o|]]; [done|]. by apply IH.
Qed.

Definition start : Console := mkConsole [] Login [].

(** The state of the loop after the turns [ts]: what was typed goes with the
    stage, and the buffer of the script stage is the end of what came since. *)
Definition progress (ts : list Turn) (c : Console) : Prop :=
  match stage c with
  | Login => typed c = []
  | Prompt => typed c = [ROOT]
  | Script => typed c = [ROOT; COMMAND] ∧
    ∃ t1 t2 x, ts = t1 ++ t2 ∧ after t1 start = Some (mkConsole [] Script [ROOT; COMMAND])
             ∧ data t2 = x ++ buffer c
  end.

Lemma data_snoc ts d : data (ts ++ [Chunk d]) = data ts ++ d.
Proof. unfold data. rewrite bind_app. simpl. by rewrite app_nil_r. Qed.

Lemma progress_quiet ts c : progress ts c → progress (ts ++ [Quiet]) c.
Proof.
  unfold progress. destruct (stage c); [done|done|]. intros (H & t1 & t2 & x & -> & H1 & H2). split; [done|].
  exists t1, (t2 ++ [Quiet]), x. rewrite app_assoc. split_and!; [done|done|].
  unfold data in *. rewrite bind_app, H2. simpl. by rewrite app_nil_r.
Qed.

(** The new buffer is an end of the old one and the chunk. *)
Lemma last_n_end n (l : pybytes) : ∃ x, l = x ++ last_n n l.
Proof. destruct (last_n_suffix n l) as [k ->]. exists (take k l). by rewrite take_drop. Qed.

Lemma search_nil : rsearch FAIL [] = None ∧ rsearch PASS [] = None.
Proof. split; vm_compute; reflexivity. Qed.

(** What a chunk does before the verdict is looked for. *)
Definition advance (chunk : pybytes) (c : Console) : Console :=
  let buf := last_n 65536 (buffer c ++ chunk) in
  match stage c with
  | Login => if contains buf (bs "login:") then mkConsole [] Prompt (typed c ++ [ROOT])
             else mkConsole buf Login (typed c)
  | Prompt => if contains buf (bs "~ #") || contains buf (bs ":~# ")
              then mkConsole [] Script (typed c ++ [COMMAND]) else mkConsole buf Prompt (typed c)
  | Script => mkConsole buf Script (typed c)
  end.

Lemma on_chunk_advance d c :
  on_chunk d c = (advance d c,
    match stage (advance d c), rsearch FAIL (buffer (advance d c)), rsearch PASS (buffer (advance d c)) with
    | Script, Some (_, _, m), _ => Some (failed (group_ 1 m) (buffer (advance d c)))
    | Script, None, Some (_, _, m) => Some (passed m)
    | _, _, _ => None
    end).
Proof.
  unfold on_chunk. change (match stage c with Login => _ | Prompt => _ | Script => _ end) with (advance d c).
  generalize (advance d c). intros c'. generalize (rsearch FAIL (buffer c')), (rsearch PASS (buffer c')).
  intros f p. destruct (stage c'); [reflexivity|reflexivity|].
  destruct f as [[[? ?] ?]|]; [reflexivity|]. destruct p as [[[? ?] ?]|]; reflexivity.
Qed.

Lemma advance_progress ts d c :
  progress ts c → after ts start = Some c → d ≠ [] → progress (ts ++ [Chunk d]) (advance d c).
Proof.
  intros Hp Ha Hd. pose proof (on_chunk_advance d c) as Hc. unfold progress in Hp.
  unfold advance in *. destruct (stage c) eqn:Es.
  - generalize (last_n 65536 (buffer c ++ d)). intros buf. unfold progress.
    destruct (contains buf (bs "login:")); cbn [stage typed]; by rewrite Hp.
  - revert Hc. generalize (last_n 65536 (buffer c ++ d)). intros buf Hc. unfold progress.
    destruct (contains buf (bs "~ #") || contains buf (bs ":~# ")); cbn [stage typed buffer] in *; rewrite Hp in *.
    + split; [reflexivity|]. exists (ts ++ [Chunk d]), [], []. split_and!; [by rewrite app_nil_r| |done].
      destruct search_nil as [E1 E2]. rewrite E1, E2 in Hc. exact (after_snoc _ _ _ _ _ Ha Hd Hc).
    + reflexivity.
  - clear Hc. unfold progress. cbn [stage typed buffer].
    destruct Hp as (Ht & t1 & t2 & x & -> & H1 & H2). split; [exact Ht|].
    destruct (last_n_end 65536 (buffer c ++ d)) as (y & Hy). revert Hy. generalize (last_n 65536 (buffer c ++ d)).
    intros buf Hy. exists t1, (t2 ++ [Chunk d]), (x ++ y). rewrite app_assoc. split_and!; [reflexivity|exact H1|].
    rewrite data_snoc, H2, <-!app_assoc, Hy. reflexivity.
Qed.

(** The numbers of a verdict. *)
Record shown (a s n : pybytes) (o : Outcome) : Prop := {
  s_accepted : ∃ z, bint a = Some z ∧ 128 < z ∧ accepted o = Some z;
  s_suppressed : ∃ z, bint s = Some z ∧ 0 < z ∧ suppressed o = Some z;
  s_summaries : ∃ z, bint n = Some z ∧ 0 < z ∧ summaries o = Some z }.

Lemma from_opt_pos (o : option Z) lo : 0 ≤ lo → lo < from_opt 0 o → ∃ z, o = Some z ∧ lo < z ∧ from_opt 0 o = z.
Proof. intros H. destruct o as [z|]; simpl; [|lia]. by exists z. Qed.

Lemma passed_shown m : result (passed m) = u "pass" → shown (group_ 1 m) (group_ 2 m) (group_ 3 m) (passed m).
Proof.
  unfold passed. destruct (_ && _ && _) eqn:E; [|intros H; vm_compute in H; discriminate H].
  intros _. rewrite !andb_true_iff, !Z.ltb_lt in E. destruct E as [[Ea Es] En]. unfold num in *.
  apply from_opt_pos in Ea as (za & Ea & La & ->); [|lia].
  apply from_opt_pos in Es as (zs & Es & Ls & ->); [|lia].
  apply from_opt_pos in En as (zn & En & Ln & ->); [|lia].
  split; cbn [accepted suppressed summaries]; [exists za|exists zs|exists zn]; split_and!; assumption || reflexivity.
Qed.

Lemma not_pass : result initial ≠ u "pass" ∧ ∀ code buf, result (failed code buf) ≠ u "pass".
Proof. split; [|intros code buf]; intros H; vm_compute in H; discriminate H. Qed.

(** The loop passes only on a verdict of the script. *)
Lemma watch_pass ts : ∀ ts0 c o,
  progress ts0 c → after ts0 start = Some c → watch ts c = Some o → result o = u "pass" →
  ∃ t1 t2 t3 a s n k pre post, ts0 ++ ts = t1 ++ t2 ++ t3
    ∧ after t1 start = Some (mkConsole [] Script [ROOT; COMMAND])
    ∧ data t2 = pre ++ verdict a s n k ++ post ∧ shown a s n o.
Proof.
  destruct not_pass as [N1 N2].
  induction ts as [|t ts IH]; intros ts0 c o Hp Ha Hw Hr.
  { injection Hw as <-. destruct (N1 Hr). }
  assert (Ets : ts0 ++ t :: ts = (ts0 ++ [t]) ++ ts) by (by rewrite <-app_assoc).
  destruct t as [|d|]; cbn [watch] in Hw; [| |discriminate Hw].
  - rewrite Ets. exact (IH _ _ _ (progress_quiet _ _ Hp) (after_quiet _ _ _ Ha) Hw Hr).
  - destruct d as [|x d]; [injection Hw as <-; destruct (N1 Hr)|]. assert (Hd : x :: d ≠ []) by discriminate.
    revert Hd Ets Hw. generalize (x :: d). clear x d. intros d Hd Ets Hw.
    pose proof (advance_progress _ _ _ Hp Ha Hd) as Hp'. pose proof (on_chunk_advance d c) as Hc.
    assert (Hn : on_chunk d c = (advance d c, None) → after (ts0 ++ [Chunk d]) start = Some (advance d c))
      by (apply after_snoc; done).
    rewrite Hc in Hw, Hn. clear Hc. revert Hp' Hn Hw. generalize (advance d c). intros c' Hp' Hn Hw.
    destruct (stage c') eqn:Es; [rewrite Ets; eauto|rewrite Ets; eauto|].
    destruct (rsearch FAIL (buffer c')) as [[[? ?] mf]|]; [injection Hw as <-; destruct (N2 _ _ Hr)|].
    destruct (rsearch PASS (buffer c')) as [[[i w] m]|] eqn:Em; [|rewrite Ets; eauto].
    injection Hw as <-. apply pass_text in Em as (pre & post & Eb). unfold progress in Hp'. rewrite Es in Hp'.
    destruct Hp' as (_ & t1 & t2 & y & E1 & H1 & H2).
    exists t1, t2, ts, (group_ 1 m), (group_ 2 m), (group_ 3 m), (group_ 4 m), (y ++ pre), post.
    split_and!; [rewrite Ets, E1; by rewrite <-app_assoc|exact H1|rewrite H2, Eb; by rewrite <-app_assoc|].
    exact (passed_shown _ Hr).
Qed.

(** ** The run *)

Lemma unchanged_true d at_ l : unchanged d at_ l = Some true →
  Forall (λ kv, source d at_ kv.1 = Some kv.2 ∧ copy d at_ kv.1 = Some kv.2) l.
Proof.
  induction l as [|[i h] l IH]; cbn [unchanged mbind option_bind]; [constructor|].
  destruct (source d at_ i) as [s|] eqn:Es; cbn [mbind option_bind]; [|done].
  destruct (str_eqb s h) eqn:E1; cbn [negb]; [|done]. apply str_eqb_eq in E1 as ->.
  destruct (copy d at_ i) as [c|] eqn:Ec; cbn [mbind option_bind]; [|done].
  destruct (str_eqb c h) eqn:E2; cbn [negb]; [|done]. apply str_eqb_eq in E2 as ->.
  intros H. constructor; [done|by apply IH].
Qed.

(** The pins are the digests of all inputs. *)
Lemma pins_inv d l : pins d = Some l →
  ∃ h, l = (λ i, (i, h i)) <$> inputs ∧ ∀ i, source d Before i = Some (h i).
Proof.
  unfold pins, inputs. cbn [foldr].
  destruct (source d Before Binary) as [h1|] eqn:E1; cbn [mbind option_bind]; [|done].
  destruct (source d Before Service) as [h2|] eqn:E2; cbn [mbind option_bind]; [|done].
  destruct (source d Before Confd) as [h3|] eqn:E3; cbn [mbind option_bind]; [|done].
  destruct (source d Before Guest) as [h4|] eqn:E4; cbn [mbind option_bind]; [|done].
  intros [= <-]. exists (λ i, match i with Binary => h1 | Service => h2 | Confd => h3 | Guest => h4 end).
  split; [done|]. by intros [].
Qed.

(** Every digest the driver took of an input is the same one, the pinned
    inputs have their pins, and so has the image. *)
Record kept (binary_sha256 : pystr) (d : Disk) (h : Input → pystr) : Prop := {
  k_source t i : source d t i = Some (h i);
  k_copy t i : t ≠ Before → copy d t i = Some (h i);
  k_pinned i v : expected binary_sha256 i = Some v → h i = v;
  k_image t : t ≠ Copied → image d t = Some ISO_PIN }.

Lemma inputs_all (P : Input → Prop) : Forall P inputs → ∀ i, P i.
Proof. intros H i. rewrite Forall_forall in H. apply H. destruct i; unfold inputs; repeat (left || right). Qed.

Lemma run_kept b d l : pins d = Some l → pinned b l = true → unchanged d Copied l = Some true →
  unchanged d After l = Some true → image d Before = Some ISO_PIN → image d After = Some ISO_PIN →
  ∃ h, kept b d h.
Proof.
  intros (h & -> & Hh)%pins_inv Hp Hc%unchanged_true Ha%unchanged_true Hi Hi'. exists h.
  apply Forall_fmap in Hc, Ha. pose proof (inputs_all _ Hc) as Hc'. pose proof (inputs_all _ Ha) as Ha'.
  cbn in Hc', Ha'. split.
  - intros [] i; [apply Hh|apply Hc'|apply Ha'].
  - intros [] i Ht; [done|apply Hc'|apply Ha'].
  - intros i v Hv. unfold pinned in Hp.
    pose proof (proj1 (forallb_elem _ _) Hp (i, h i)) as H. cbn [fst snd] in H. rewrite Hv in H.
    apply str_eqb_eq, H, list_elem_of_fmap. exists i. split; [done|]. revert i Hv H.
    intros i _ _. apply (inputs_all (λ i, i ∈ inputs)). by apply Forall_forall.
  - intros [] Ht; [exact Hi|done|exact Hi'].
Qed.

(** The last look at the group found it gone, and the process was reaped. *)
Definition gone (c : Cleanup) : Prop :=
  c_exited c = true ∧ ∃ n rest, c_second c = replicate n Sent ++ Lookup :: rest.

Lemma cleanup_gone c : cleanup c = Some true → gone c.
Proof.
  unfold cleanup, gone. destruct (c_term c); try done; destruct (looks (c_first c)); cbn [mbind option_bind]; try done;
    destruct (c_kill c); try done; destruct (looks (c_second c)) as [g|] eqn:E; cbn [mbind option_bind]; try done.
  all: intros [= [-> ->]%andb_true_iff]; (split; [done|]); revert E; generalize (c_second c); intros l;
    induction l as [|[] l IH]; cbn [looks]; try done; [intros (n & rest & ->)%IH; by exists (S n), rest|
    intros _; by exists O, l].
Qed.

Lemma run_pass b w o : run b w = Some o → result o = u "pass" →
  (∃ h, kept b (disk w) h) ∧ gone (clean w) ∧ extracted w = true
  ∧ ∃ o', watch (turns w) start = Some o' ∧ o = with_cleanup true o'.
Proof.
  unfold run. destruct (pins (disk w)) as [l|] eqn:Ep; cbn [mbind option_bind]; [|done].
  destruct (image (disk w) Before) as [iso|] eqn:Ei; cbn [mbind option_bind]; [|done].
  destruct (str_eqb iso ISO_PIN) eqn:E1; [|done]. destruct (pinned b l) eqn:E2; [|done]. cbn [negb orb].
  destruct (tools w); cbn [negb]; [|done].
  destruct (unchanged (disk w) Copied l) as [[]|] eqn:Ec; cbn [mbind option_bind negb orb]; [|done|done].
  destruct (extracted w) eqn:Ex; cbn [negb]; [|done].
  change (mkConsole [] Login []) with start.
  destruct (watch (turns w) start) as [o'|]; cbn [mbind option_bind]; [|done].
  destruct (cleanup (clean w)) as [ok|] eqn:Ek; cbn [mbind option_bind]; [|done].
  destruct (unchanged (disk w) After l) as [same|] eqn:Ea; cbn [mbind option_bind]; [|done].
  destruct same; cbn [mbind option_bind].
  - destruct (image (disk w) After) as [iso'|] eqn:Ei'; cbn [mbind option_bind]; [|done].
    intros H Hr. injection H as H.
    destruct (str_eqb iso' ISO_PIN) eqn:E3; cbn [negb cleanup_ok with_cleanup with_result] in H;
      destruct ok; cbn [negb] in H; subst o;
      try (exfalso; vm_compute in Hr; discriminate Hr).
    split; [|split_and!; [exact (cleanup_gone _ Ek)|done|by exists o']].
    apply str_eqb_eq in E1 as ->. apply str_eqb_eq in E3 as ->. exact (run_kept _ _ _ Ep E2 Ec Ea Ei Ei').
  - intros H Hr. injection H as H. exfalso. cbn [negb cleanup_ok with_cleanup with_result] in H.
    destruct ok; cbn [negb] in H; subst o; vm_compute in Hr; discriminate Hr.
Qed.

(** C22: exit status 0 of the logger driver is evidence of log delivery: the
    argument is a SHA-256, every input had its pin and kept one digest from
    the start, through the copy into the guest's share, to the end, and so
    did the image; the process was reaped and the last look at its group
    found it gone; and after the login and the one command were typed the
    console carried a verdict line whose counts the result reports, more
    than 128 accepted messages, and at least one suppressed message and one
    summary. *)
Theorem logger_pass_evidence b w : main b w = 0 →
  is_Some (rfullmatch SHA256_ARG b) ∧ (∃ h, kept b (disk w) h) ∧ gone (clean w)
  ∧ ∃ o t1 t2 t3 a s n k pre post, run b w = Some o ∧ turns w = t1 ++ t2 ++ t3
    ∧ after t1 start = Some (mkConsole [] Script [ROOT; COMMAND])
    ∧ data t2 = pre ++ verdict a s n k ++ post ∧ shown a s n o.
Proof.
  unfold main. destruct (rfullmatch SHA256_ARG b) as [mb|]; [|done]. cbn [is_someb negb].
  destruct (run b w) as [o|] eqn:Er; [|done]. destruct (str_eqb (result o) (u "pass")) eqn:E; [|done].
  intros _. apply str_eqb_eq in E. pose proof (run_pass _ _ _ Er E) as (Hk & Hg & _ & o' & Hw & ->).
  split; [by eexists|]. split; [exact Hk|]. split; [exact Hg|].
  destruct (watch_pass (turns w) [] start o') as (t1 & t2 & t3 & a & s & n & k & pre & post & E1 & E2 & E3 & Hs);
    [reflexivity|reflexivity|exact Hw|exact E|].
  exists (with_cleanup true o'), t1, t2, t3, a, s, n, k, pre, post.
  split; [reflexivity|]. split; [exact E1|]. split; [exact E2|]. split; [exact E3|]. destruct Hs; by split.
Qed.

(** A guest that logs in, runs the script and passes. *)
Definition sample_sha : pystr := replicate 64 97.
Definition sample_world : World :=
  let h := λ i, Some (match i with Binary => sample_sha | Service => SERVICE_PIN | Confd => CONFD_PIN | Guest => [103] end) in
  mkWorld (mkDisk (λ _, h) (λ _, h) (λ _, Some ISO_PIN)) true true
    [Chunk (bs "alpine login:"); Quiet; Chunk (bs "alpine:~# "); Chunk ([10] ++ bs "ONYX_RESULT PASS log");
     Chunk (bs "ger 200 3 1 1" ++ [13; 10])]
    (mkCleanup Sent [Sent; Lookup] Lookup [Lookup] true).

Lemma logger_pass_evidence_witness :
  main sample_sha sample_world = 0 ∧ ∃ h, kept sample_sha (disk sample_world) h.
Proof.
  assert (E : main sample_sha sample_world = 0) by (vm_compute; reflexivity).
  split; [exact E|]. exact (proj1 (proj2 (logger_pass_evidence sample_sha sample_world E))).
Defined.

(** ** The result has a fixed vocabulary *)

(** The value of a run of decimal digits. *)
Lemma int_digits_bound w acc : Forall (λ c, is_ascii_digit c = true) w → 0 ≤ acc →
  ∃ z, int_digits bdigit_val acc false w = Some z ∧ 0 ≤ z < (acc + 1) * 10 ^ Z.of_nat (length w).
Proof.
  intros Hw. revert acc. induction Hw as [|c w Hc _ IH]; intros acc Ha; cbn [int_digits length].
  - exists acc. split; [done|]. change (10 ^ Z.of_nat 0) with 1. lia.
  - unfold bdigit_val. rewrite Hc. assert (Hr : 0 ≤ c - 48 < 10) by (unfold is_ascii_digit in Hc; bool_hyps; lia).
    destruct (IH (acc * 10 + (c - 48)) ltac:(lia)) as (z & E & Hz). exists z. split; [exact E|].
    rewrite Nat2Z.inj_succ, Z.pow_succ_r by lia. nia.
Qed.

Lemma bint_bound w : Forall (λ c, is_ascii_digit c = true) w →
  0 ≤ from_opt 0 (bint w) < 10 ^ Z.of_nat (length w).
Proof.
  intros Hw. unfold bint, int_of. rewrite strip_by_fix.
  2: { eapply Forall_impl; [exact Hw|]. intros c. unfold is_ascii_digit, bisspace. intros H. bool_hyps.
       repeat (apply orb_false_intro); rewrite ?andb_false_iff, ?Z.leb_gt, ?Z.eqb_neq; lia. }
  destruct (int_digits_bound w 0 Hw ltac:(lia)) as (z & E & Hz).
  assert (Hu : 0 ≤ from_opt 0 (int_unsigned bdigit_val w) < 10 ^ Z.of_nat (length w)).
  { destruct w as [|c w]; [simpl; lia|]. unfold int_unsigned. destruct (is_someb _); [rewrite E|]; simpl from_opt; lia. }
  destruct w as [|c w]; [exact Hu|]. inversion Hw as [|? ? Hc _]; subst.
  assert (Hr : 48 ≤ c ≤ 57) by (unfold is_ascii_digit in Hc; bool_hyps; lia).
  destruct c as [|p|p]; try lia. do 6 (destruct p as [p|p|]; try (exact Hu); try lia).
Qed.

(** Matches of a bounded repetition of one class. *)
Lemma Rm_times p n s s' : Rm (times n (RChr p)) s s' →
  ∃ w, m_rest s = w ++ m_rest s' ∧ length w = n ∧ Forall (λ c, p c = true) w.
Proof.
  revert s. induction n as [|n IH]; intros s H; cbn [times] in H.
  - inversion H; subst. by exists [].
  - apply Rm_seq_inv in H as (s1 & H1 & (w & E & L & F)%IH). inversion H1 as [|? ? c t E1 Ec| | | | | | |]; subst.
    exists (c :: w). cbn [m_rest] in E. rewrite E1, E. split_and!; [done|done|by constructor].
Qed.

Lemma Rm_upto p n s s' : Rm (upto n (RChr p)) s s' →
  ∃ w, m_rest s = w ++ m_rest s' ∧ (length w ≤ n)%nat ∧ Forall (λ c, p c = true) w.
Proof.
  revert s. induction n as [|n IH]; intros s H; cbn [upto] in H.
  - inversion H; subst. by exists [].
  - inversion H as [| | |? ? ? ? H1|? ? ? ? H1| | | |]; subst.
    + apply Rm_seq_inv in H1 as (s1 & H1 & (w & E & L & F)%IH). inversion H1 as [|? ? c t E1 Ec| | | | | | |]; subst.
      exists (c :: w). cbn [m_rest] in E. rewrite E1, E. split_and!; [done|simpl; lia|by constructor].
    + inversion H1; subst. exists []. split_and!; [done|simpl; lia|constructor].
Qed.

(** A group captures what its pattern matched. *)
Lemma Rm_group_cap n a b s s' : Rm (RSeq (RGroup n a) b) s s' → n ∉ groups b →
  ∃ s0 s1, Rm a s s0 ∧ m_rest s = group_ n s' ++ m_rest s0 ∧ Rm b s1 s'.
Proof.
  intros (s1 & H1 & H2)%Rm_seq_inv Hn. inversion H1 as [| | | | | | |? ? ? s0 H5|]; subst.
  exists s0, (add_cap n s s0). split_and!; [done| |done].
  rewrite (group_kept _ _ _ _ H2 Hn). unfold group_, group. cbn [add_cap m_caps assoc_nat]. rewrite Nat.eqb_refl.
  cbn [from_opt]. destruct (Rm_suffix _ _ _ H5) as (w & E). by rewrite (consumed_app w).
Qed.

Lemma Rm_words_then n ws b s s' : Rm (RSeq (words n ws) b) s s' → n ∉ groups b →
  group_ n s' ∈ split_ws ws ∧ ∃ s1, Rm b s1 s'.
Proof.
  intros H Hn. apply Rm_group_cap in H as (s0 & s1 & (w & Hw & E)%Rm_alts_lit & E' & H); [|done].
  split; [|by exists s1]. rewrite E in E'. by apply app_inv_tail in E' as <-.
Qed.

Lemma Rm_digits_then n hi b s s' : Rm (RSeq (digits n hi) b) s s' → n ∉ groups b → (1 ≤ hi)%nat →
  0 ≤ from_opt 0 (bint (group_ n s')) < 10 ^ Z.of_nat hi ∧ ∃ s1, Rm b s1 s'.
Proof.
  intros H Hn Hhi. apply Rm_group_cap in H as (s0 & s1 & Hr & E & H); [|done]. split; [|by exists s1].
  apply Rm_seq_inv in Hr as (s2 & (w1 & E1 & L1 & F1)%Rm_times & (w2 & E2 & L2 & F2)%Rm_upto).
  rewrite E1, E2, app_assoc in E. apply app_inv_tail in E as <-.
  pose proof (bint_bound (w1 ++ w2) ltac:(by apply Forall_app)) as [H1 H2]. split; [done|].
  eapply Z.lt_le_trans; [exact H2|]. apply Z.pow_le_mono_r; [lia|]. rewrite length_app. lia.
Qed.

(** Everything a result can say: fixed codes, words of fixed vocabularies and
    small numbers. *)
Record typed_outcome (o : Outcome) : Prop := {
  ty_result : result o ∈ split_ws (u "guest_timeout guest_failure pass guest_invalid_sentinel input_changed cleanup_failed");
  ty_failure f : failure o = Some f → f ∈ FAILS ∨ f = u "unknown";
  ty_counts z : accepted o = Some z ∨ suppressed o = Some z ∨ summaries o = Some z → 0 ≤ z < 10 ^ 6;
  ty_attempt z : attempt o = Some z → 1 ≤ z ≤ 3;
  ty_retirement l : retirement o = Some l →
    Forall2 (λ v ws, v ∈ split_ws ws) l
      [bs "gone changed zombie live unknown"; bs "started stopped unknown"; bs "absent socket symlink other"];
  ty_metrics l : metrics o = Some l →
    Forall2 (λ v ws, v ∈ split_ws ws) l
      [bs "alive changed gone unknown"; bs "started stopped unknown"; bs "success timeout other";
       bs "200 other absent"; bs "valid missing duplicate malformed"; bs "valid missing duplicate malformed";
       bs "present absent read_error"];
  ty_lifetime t : lifetime o = Some t →
    Forall2 (λ v ws, v ∈ split_ws ws)
      [t_outcome t; t_supervisor t; t_replacement t; t_marker t; t_oom t]
      [bs "unknown exit signal"; bs "same changed gone unknown"; bs "none present unknown";
       bs "panic out_of_memory access_denied address_in_use unknown"; bs "yes unknown"]
    ∧ match t_code t with
      | None => t_outcome t = u "unknown"
      | Some z => t_outcome t = u "exit" ∧ 0 ≤ z ≤ 255 ∨ t_outcome t = u "signal" ∧ 1 ≤ z ≤ 64
      end }.

(** The only match of a pattern is a match. *)
Lemma sole_Rm r buf m : sole r buf = Some m → ∃ prev rest, Rm r (start_at prev rest) m.
Proof.
  unfold sole, rfinditer. cbn [rfinditer_go]. destruct (rsearch_from r None buf) as [[[i w] m']|] eqn:E; [|done].
  destruct (match w with [] => _ | _ => _ end) as [|? ?]; [|done]. intros [= <-].
  apply rsearch_sound in E as (pre & prev & rest & _ & H). eauto.
Qed.

(** The line of a diagnostic, past its beginning. *)
Lemma on_line_inv w r s m : Rm (on_line (RSeq (lit w) r)) s m →
  ∃ s1 s2, Rm r s1 s2 ∧ ∀ n, group_ n m = group_ n s2.
Proof.
  intros H. apply Rm_seq_inv in H as (s0 & _ & H). apply Rm_seq_inv in H as (s2 & H & Hend).
  apply Rm_lit_then in H as (s1 & _ & H). exists s1, s2. split; [done|].
  intros n. apply (group_kept n _ _ _ Hend), not_elem_of_nil.
Qed.

Ltac next_words H W := apply Rm_words_then in H as [W H]; [destruct H as [? H]|fresh_group].
Ltac next_space H := apply Rm_lit_then in H as (? & _ & H).

Lemma Rm_words n ws s s' : Rm (words n ws) s s' → group_ n s' ∈ split_ws ws.
Proof.
  intros H. apply (Rm_words_then n ws REps s s'); [|apply not_elem_of_nil]. econstructor; [exact H|constructor].
Qed.

Lemma retirement_words m buf : sole RETIREMENT buf = Some m →
  Forall2 (λ v ws, v ∈ split_ws ws) ((λ n, group_ n m) <$> seq 1 3)
    [bs "gone changed zombie live unknown"; bs "started stopped unknown"; bs "absent socket symlink other"].
Proof.
  intros (prev & rest & H)%sole_Rm. apply on_line_inv in H as (s1 & s2 & H & G). cbn [seq fmap list_fmap]. rewrite !G.
  next_words H W1. next_space H. next_words H W2. next_space H. apply Rm_words in H.
  constructor; [exact W1|constructor; [exact W2|constructor; [exact H|constructor]]].
Qed.

Lemma metrics_words m buf : sole METRICS buf = Some m →
  Forall2 (λ v ws, v ∈ split_ws ws) ((λ n, group_ n m) <$> seq 1 7)
    [bs "alive changed gone unknown"; bs "started stopped unknown"; bs "success timeout other";
     bs "200 other absent"; bs "valid missing duplicate malformed"; bs "valid missing duplicate malformed";
     bs "present absent read_error"].
Proof.
  intros (prev & rest & H)%sole_Rm. apply on_line_inv in H as (s1 & s2 & H & G). cbn [seq fmap list_fmap]. rewrite !G.
  next_words H W1. next_space H. next_words H W2. next_space H. next_words H W3. next_space H.
  next_words H W4. next_space H. next_words H W5. next_space H. next_words H W6. next_space H. apply Rm_words in H.
  constructor; [exact W1|constructor; [exact W2|constructor; [exact W3|constructor; [exact W4|
    constructor; [exact W5|constructor; [exact W6|constructor; [exact H|constructor]]]]]]].
Qed.

Lemma lifetime_words m buf t : sole LIFETIME buf = Some m → lifetime_of m = Some t →
  Forall2 (λ v ws, v ∈ split_ws ws)
    [t_outcome t; t_supervisor t; t_replacement t; t_marker t; t_oom t]
    [bs "unknown exit signal"; bs "same changed gone unknown"; bs "none present unknown";
     bs "panic out_of_memory access_denied address_in_use unknown"; bs "yes unknown"]
  ∧ match t_code t with
    | None => t_outcome t = u "unknown"
    | Some z => t_outcome t = u "exit" ∧ 0 ≤ z ≤ 255 ∨ t_outcome t = u "signal" ∧ 1 ≤ z ≤ 64
    end.
Proof.
  intros (prev & rest & H)%sole_Rm. apply on_line_inv in H as (s1 & s2 & H & G).
  next_words H W1. next_space H.
  apply Rm_digits_then in H as [Hz H]; [destruct H as [? H]|fresh_group|lia].
  next_space H. next_words H W3. next_space H. next_words H W4. next_space H. next_words H W5. next_space H.
  apply Rm_words in H. rewrite <-!G in *. clear G. unfold lifetime_of.
  revert Hz. generalize (from_opt 0 (bint (group_ 2 m))). intros z Hz.
  destruct (_ || _) eqn:E; [|discriminate]. intros [= <-]. cbn [t_outcome t_supervisor t_replacement t_marker t_oom t_code].
  split.
  { constructor; [exact W1|constructor; [exact W3|constructor; [exact W4|constructor; [exact W5|
      constructor; [exact H|constructor]]]]]. }
  rewrite !orb_true_iff, !andb_true_iff, !str_eqb_eq, Z.eqb_eq, !Z.leb_le in E.
  destruct (str_eqb (group_ 1 m) (u "unknown")) eqn:Eu; cbn [negb]; [by apply str_eqb_eq|].
  apply str_eqb_neq in Eu. destruct E as [[[Eo _]|[Eo Hb]]|[[Eo H1] H2]]; [destruct (Eu Eo)|left|right]; (split; [exact Eo|lia]).
Qed.

Lemma pass_counts buf i w m : rsearch PASS buf = Some (i, w, m) →
  0 ≤ num 1 m < 10 ^ 6 ∧ 0 ≤ num 2 m < 10 ^ 6 ∧ 0 ≤ num 3 m < 10 ^ 6 ∧ 1 ≤ num 4 m ≤ 3.
Proof.
  intros (pre & prev & rest & _ & H)%rsearch_sound. apply on_line_inv in H as (s1 & s2 & H & G). unfold num. rewrite !G.
  apply Rm_digits_then in H as [H1 H]; [destruct H as [? H]|fresh_group|lia]. next_space H.
  apply Rm_digits_then in H as [H2 H]; [destruct H as [? H]|fresh_group|lia]. next_space H.
  apply Rm_digits_then in H as [H3 H]; [destruct H as [? H]|fresh_group|lia]. next_space H.
  split_and!; [apply H1|apply H1|apply H2|apply H2|apply H3|apply H3| |].
  all: inversion H as [| | | | | | |? ? ? s0 H5|]; subst;
    inversion H5 as [|? ? c t Er Ec| | | | | | |]; subst;
    unfold group_, group; cbn [add_cap m_caps assoc_nat]; rewrite Nat.eqb_refl; cbn [from_opt];
    rewrite (consumed_app [c]) by (exact Er); unfold range in Ec; bool_hyps;
    (assert (Hc : c = 49 ∨ c = 50 ∨ c = 51) by lia); destruct Hc as [->|[->| ->]]; vm_compute; congruence.
Qed.

(** An outcome with nothing but a fixed result. *)
Lemma typed_bare v : v ∈ split_ws (u "guest_timeout guest_failure pass guest_invalid_sentinel input_changed cleanup_failed") →
  typed_outcome (mkOutcome v None false None None None None None None None).
Proof.
  intros Hv. split; cbn [result failure accepted suppressed summaries attempt retirement metrics lifetime];
    [exact Hv|discriminate|intros z [H|[H|H]]; discriminate H|discriminate..].
Qed.

Lemma elem_of_split_ws v ws : existsb (str_eqb v) (split_ws ws) = true → v ∈ split_ws ws.
Proof. intros (x & Hx & E)%existsb_elem. by apply str_eqb_eq in E as ->. Qed.

Lemma passed_typed buf i w m : rsearch PASS buf = Some (i, w, m) → typed_outcome (passed m).
Proof.
  intros (H1 & H2 & H3 & H4)%pass_counts. unfold passed. destruct (_ && _ && _).
  - split; cbn [result failure accepted suppressed summaries attempt retirement metrics lifetime];
      [apply elem_of_split_ws; vm_compute; reflexivity|discriminate| | |discriminate..].
    + intros z [H|[H|H]]; injection H as <-; assumption.
    + intros z H. injection H as <-. exact H4.
  - apply typed_bare, elem_of_split_ws. vm_compute. reflexivity.
Qed.

Lemma failed_typed code buf : typed_outcome (failed code buf).
Proof.
  unfold failed. split; cbn [result failure accepted suppressed summaries attempt retirement metrics lifetime].
  - apply elem_of_split_ws. vm_compute. reflexivity.
  - intros f H. injection H as <-. destruct (mem code FAILS) eqn:E; [left; by apply mem_elem|by right].
  - intros z [H|[H|H]]; discriminate H.
  - discriminate.
  - intros l. destruct (str_eqb _ _); [|discriminate].
    destruct (sole RETIREMENT buf) as [m|] eqn:E; cbn [mbind option_bind]; [|discriminate].
    intros H. injection H as <-. exact (retirement_words _ _ E).
  - intros l. destruct (str_eqb _ _); [|discriminate].
    destruct (sole METRICS buf) as [m|] eqn:E; cbn [mbind option_bind]; [|discriminate].
    intros H. injection H as <-. exact (metrics_words _ _ E).
  - intros t. destruct (str_eqb _ _); [|discriminate].
    destruct (sole LIFETIME buf) as [m|] eqn:E; cbn [mbind option_bind]; [|discriminate].
    exact (lifetime_words _ _ _ E).
Qed.

Lemma initial_typed : typed_outcome initial.
Proof. apply typed_bare, elem_of_split_ws. vm_compute. reflexivity. Qed.

Lemma watch_typed ts : ∀ c o, watch ts c = Some o → typed_outcome o.
Proof.
  induction ts as [|[|d|] ts IH]; intros c o; cbn [watch]; [|exact (IH c o)| |discriminate].
  - intros H. injection H as <-. exact initial_typed.
  - destruct d as [|x d]; [intros H; injection H as <-; exact initial_typed|].
    rewrite on_chunk_advance. generalize (advance (x :: d) c). intros c'.
    destruct (stage c'); [exact (IH c' o)|exact (IH c' o)|].
    destruct (rsearch FAIL (buffer c')) as [[[? ?] mf]|]; [intros H; injection H as <-; apply failed_typed|].
    destruct (rsearch PASS (buffer c')) as [[[i w] m]|] eqn:E; [|exact (IH c' o)].
    intros H. injection H as <-. exact (passed_typed _ _ _ _ E).
Qed.

Lemma with_typed v ok o : typed_outcome o →
  v ∈ split_ws (u "guest_timeout guest_failure pass guest_invalid_sentinel input_changed cleanup_failed") →
  typed_outcome (with_cleanup ok o) ∧ typed_outcome (with_result v o).
Proof. intros [? ? ? ? ? ? ?] Hv. by split. Qed.

(** C38: whatever the guest writes on its console, the result the logger driver
    prints is well typed, so nothing of the console leaves the driver: the
    result and the failure are fixed codes, the counts have at most six digits,
    the attempt is 1, 2 or 3, every field of a diagnostic is a word of its fixed
    vocabulary, and an exit code or a signal is in its range. *)
Theorem logger_result_typed b w : match run b w with Some o => typed_outcome o | None => True end.
Proof.
  unfold run. destruct (pins (disk w)) as [l|]; cbn [mbind option_bind]; [|exact I].
  destruct (image (disk w) Before) as [iso|]; cbn [mbind option_bind]; [|exact I].
  destruct (_ || _); [exact I|]. destruct (negb (tools w)); [exact I|].
  destruct (unchanged (disk w) Copied l) as [same|]; cbn [mbind option_bind]; [|exact I].
  destruct (_ || _); [exact I|].
  destruct (watch (turns w) _) as [o|] eqn:Ew; cbn [mbind option_bind]; [|exact I].
  destruct (cleanup (clean w)) as [ok|]; cbn [mbind option_bind]; [|exact I].
  apply watch_typed in Ew. pose proof (proj1 (with_typed _ ok _ Ew (ty_result _ Ew))) as Hc.
  revert Hc. generalize (with_cleanup ok o). clear o Ew. intros o Ho.
  destruct (unchanged (disk w) After l) as [same'|]; cbn [mbind option_bind]; [|exact I].
  destruct (if same' then _ else _) as [iso_same|]; cbn [mbind option_bind]; [|exact I].
  assert (Hr : ∀ v o, typed_outcome o → existsb (str_eqb v)
    (split_ws (u "guest_timeout guest_failure pass guest_invalid_sentinel input_changed cleanup_failed")) = true →
    typed_outcome (with_result v o)) by (intros v o' Ht Hv; exact (proj2 (with_typed v true o' Ht (elem_of_split_ws _ _ Hv)))).
  assert (Ho' : typed_outcome (if negb iso_same then with_result (u "input_changed") o else o)).
  { destruct (negb iso_same); [|exact Ho]. apply Hr; [exact Ho|]. vm_compute. reflexivity. }
  revert Ho'. generalize (if negb iso_same then with_result (u "input_changed") o else o). intros o' Ho'.
  destruct (negb (cleanup_ok o')); [|exact Ho']. apply Hr; [exact Ho'|]. vm_compute. reflexivity.
Qed.

(** A diagnostic is meant to be used when it is the only one, but the pattern
    takes the line break on either side of it: of two adjacent lines that
    contradict each other the first is reported. *)
Lemma adjacent_diagnostics :
  retirement (failed (u "boot_syslog_retirement")
    ([10] ++ bs "ONYX_DIAG retirement gone stopped absent" ++ [10]
     ++ bs "ONYX_DIAG retirement live started socket" ++ [10]))
  = Some [u "gone"; u "stopped"; u "absent"].
Proof. vm_compute. reflexivity. Qed.
