(* ===== verification/CloakAudit.v ===== *)
(** * tools/cloak_audit_smoke.py: the access checkpoint and the audit's report

    The independent decoder of access checkpoints, the comparison of a
    checkpoint with the candidate the audit published, and the judgement of one
    run of the audit process.  What the process wrote, the secret tokens and the
    files are arguments; [None] or [false] is a [Failure]. *)

From S2P Require Import Prelude PyStr PyBytes.

(** ** Reports *)

Definition REFUSAL : pybytes := bs "cloak-audit: audit refused" ++ [10].
Definition CAPTURE_LIMIT : Z := Z.shiftl 2 20.
Definition EXPECTED : list pystr :=
  replicate 5 (u "verified_replacement")
  ++ split_ws (u "derivation_mismatch missing_witness ambiguous_host_glob unsupported_formula invalid_witness already_current witness_mismatch").

Fixpoint summary_from (i : Z) (kinds : list pystr) : pybytes :=
  match kinds with
  | [] => []
  | kind :: kinds =>
    utf8_encode (u "row=" ++ dec i ++ u " classification=" ++ kind ++ [10]) ++ summary_from (i + 1) kinds
  end.
Definition summary (kinds : list pystr) : pybytes := summary_from 0 kinds.

(** One run of a process: its arguments and environment, its exit status and
    the captures of its two streams. *)
Record Child := mkChild {
  ch_arguments : list pystr; ch_env : list pystr; ch_status : Z; ch_out : pybytes; ch_err : pybytes }.

(** What is expected of a run: its status, its output when it succeeds, whether
    it is the fixture builder, and whether its files are cut short. *)
Record Case := mkCase {
  c_expected : Z; c_out : option pybytes; c_builder : bool; c_file_failure : bool }.

Definition absent (tokens : list pybytes) (text : pybytes) : bool :=
  forallb (λ t, negb (contains text t)) tokens.

Definition report_ok (c : Case) (ch : Child) : bool :=
  let out := ch_out ch in
  let err := ch_err ch in
  if c_builder c then str_eqb out [] && str_eqb err []
  else if c_expected c =? 0 then str_eqb err [] && bool_decide (c_out c = Some out)
  else if c_expected c =? 1 then
    if c_file_failure c
    then (str_eqb out [] || bool_decide (c_out c = Some out)) && (str_eqb err [] || str_eqb err (take 1 REFUSAL))
    else str_eqb err REFUSAL && (str_eqb out [] || str_eqb out (summary EXPECTED))
  else str_eqb out [] && startswith err (bs "usage: onyx-server cloak-audit ").

(** The content and the mode of the inputs, against those of the files after
    the run. *)
Definition unchanged (originals : list (pystr * (pybytes * Z))) (files : pystr → option (pybytes * Z)) : bool :=
  forallb (λ o, bool_decide (files o.1 = Some o.2)) originals.

(** [invoke], on a process that ended in time. *)
Definition invoke (secrets : list pystr) (root : pystr) (originals : list (pystr * (pybytes * Z)))
    (files : pystr → option (pybytes * Z)) (c : Case) (ch : Child) : bool :=
  absent secrets (join [0] (ch_arguments ch)) && absent secrets (join [0] (ch_env ch))
  && (len (ch_out ch) <=? CAPTURE_LIMIT) && (len (ch_err ch) <=? CAPTURE_LIMIT)
  && absent (utf8_encode <$> secrets) (ch_out ch ++ ch_err ch)
  && negb (contains (ch_out ch ++ ch_err ch) (bs "PRIVATE_"))
  && negb (contains (ch_out ch ++ ch_err ch) (utf8_encode root))
  && (ch_status ch =? c_expected c) && report_ok c ch && unchanged originals files.

(** ** Access checkpoints *)

(** [struct.unpack_from] of one little-endian field of [k] bytes. *)
Definition from_le (b : pybytes) : Z := from_be (rev b).
Definition unpack (k : nat) (data : pybytes) (pos : nat) : option Z :=
  if (pos + k <=? length data)%nat then Some (from_le (slice data pos (pos + k))) else None.

(** Fields of the given sizes, one after the other; bounds are checked as a
    whole. *)
Fixpoint fields_at (sizes : list nat) (data : pybytes) (pos : nat) : list Z :=
  match sizes with
  | [] => []
  | k :: sizes => from_le (slice data pos (pos + k)) :: fields_at sizes data (pos + k)
  end.
Definition unpack_from (sizes : list nat) (data : pybytes) (pos : nat) : option (list Z) :=
  if (pos + sum_list sizes <=? length data)%nat then Some (fields_at sizes data pos) else None.

Record Header := mkHeader {
  h_magic : pybytes; h_version : Z; h_body : Z;
  h_rows : Z; h_tombstones : Z; h_rest : list Z }.    (* header[5:] *)

Record Row := mkRow {
  r_channel : pybytes; r_mask : pybytes; r_issuer : pybytes; r_level : Z;
  r_duration : option Z; r_expiry : option Z; r_hlc : Z; r_origin : Z }.

Record Tombstone := mkTombstone {
  t_channel : pybytes; t_mask : pybytes; t_level : Z; t_clocks : list Z }.

#[global] Instance row_eq_dec : EqDecision Row.
Proof. solve_decision. Defined.
#[global] Instance tombstone_eq_dec : EqDecision Tombstone.
Proof. solve_decision. Defined.

(** ["<4sB3xIHHHHQQQQ"]. *)
Definition header_at (data : pybytes) : option Header :=
  if (length data <? 52)%nat then None
  else match fields_at [1%nat] data 4, fields_at [4; 2; 2]%nat data 8, fields_at [2; 2; 8; 8; 8; 8]%nat data 16 with
  | [version], [body; rows; tombstones], rest => Some (mkHeader (slice data 0 4) version body rows tombstones rest)
  | _, _, _ => None
  end.

(** A value that is present when its tag is 1. *)
Definition nullable (tag : Z) (data : pybytes) (pos : nat) : option (option Z * nat) :=
  if tag =? 0 then Some (None, pos)
  else if tag =? 1 then v ← unpack 8 data pos; Some (Some v, (pos + 8)%nat)
  else None.

Definition row_at (data : pybytes) (pos : nat) : option (Row * nat) :=
  head ← unpack_from [1; 1; 1; 1; 1; 1]%nat data pos;
  match head with
  | [c; m; s; level; has_duration; has_expiry] =>
    let c := Z.to_nat c in let m := Z.to_nat m in let s := Z.to_nat s in
    let pos := (pos + 6)%nat in
    let channel := slice data pos (pos + c) in
    let mask := slice data (pos + c) (pos + c + m) in
    let issuer := slice data (pos + c + m) (pos + c + m + s) in
    let pos := (pos + (c + m + s))%nat in
    '(duration, pos) ← nullable has_duration data pos;
    '(expiry, pos) ← nullable has_expiry data pos;
    clocks ← unpack_from [8; 8]%nat data pos;
    match clocks with
    | [hlc; origin] => Some (mkRow channel mask issuer level duration expiry hlc origin, (pos + 16)%nat)
    | _ => None
    end
  | _ => None
  end.

Definition tombstone_at (data : pybytes) (pos : nat) : option (Tombstone * nat) :=
  head ← unpack_from [1; 1; 1]%nat data pos;
  match head with
  | [c; m; level] =>
    let c := Z.to_nat c in let m := Z.to_nat m in
    let pos := (pos + 3)%nat in
    let channel := slice data pos (pos + c) in
    let mask := slice data (pos + c) (pos + c + m) in
    let pos := (pos + (c + m))%nat in
    clocks ← unpack_from [8; 8; 8]%nat data pos;
    Some (mkTombstone channel mask level clocks, (pos + 24)%nat)
  | _ => None
  end.

(** [n] items in a row. *)
Fixpoint items {A} (item : pybytes → nat → option (A * nat)) (n : nat) (data : pybytes) (pos : nat)
    : option (list A * nat) :=
  match n with
  | O => Some ([], pos)
  | S n =>
    '(x, pos) ← item data pos;
    '(l, pos) ← items item n data pos;
    Some (x :: l, pos)
  end.

Definition access_rows (data : pybytes) : option (Header * list Row * list Tombstone) :=
  header ← header_at data;
  if negb (str_eqb (h_magic header) (bs "ACCS") && (h_version header =? 1)) then None
  else if negb (len data =? 52 + h_body header + 32) then None
  else
    '(rows, pos) ← items row_at (Z.to_nat (h_rows header)) data 52;
    '(tombstones, pos) ← items tombstone_at (Z.to_nat (h_tombstones header)) data pos;
    if (pos + 32 =? length data)%nat then Some (header, rows, tombstones) else None.

(** ** The candidate *)

(** A set literal against the set of a list. *)
Definition same_set {A} `{EqDecision A} (l1 l2 : list A) : bool :=
  forallb (λ x, bool_decide (x ∈ l2)) l1 && forallb (λ x, bool_decide (x ∈ l1)) l2.

Definition nick_part (mask : pybytes) : pybytes := hd [] (split (bs "@") mask).

(** Everything of a row but its mask. *)
Definition sans_mask (r : Row) : pybytes * pybytes * Z * option Z * option Z * Z * Z :=
  (r_channel r, r_issuer r, r_level r, r_duration r, r_expiry r, r_hlc r, r_origin r).

Definition row_kept (index : nat) (old new : Row) : bool :=
  bool_decide (sans_mask old = sans_mask new)
  && (if (index <? 5)%nat
      then negb (str_eqb (r_mask old) (r_mask new)) && str_eqb (nick_part (r_mask old)) (nick_part (r_mask new))
      else bool_decide (old = new)).

Fixpoint rows_kept (index : nat) (before after : list Row) : bool :=
  match before, after with
  | old :: before, new :: after => row_kept index old new && rows_kept (S index) before after
  | _, _ => true
  end.

Definition mask_delta (before after : list Row) : Z :=
  foldr Z.add 0 (zip_with (λ old new, len (r_mask new) - len (r_mask old)) before after).

Definition candidate_ok (before after : Header * list Row * list Tombstone) : bool :=
  let '(hb, rb, tb) := before in
  let '(ha, ra, ta) := after in
  bool_decide ((h_magic hb, h_version hb, h_rows hb, h_tombstones hb, h_rest hb)
               = (h_magic ha, h_version ha, h_rows ha, h_tombstones ha, h_rest ha))
  && bool_decide (tb = ta) && (length tb =? 1)%nat
  && (h_body ha - h_body hb =? mask_delta rb ra)
  && (length rb =? 12)%nat && (length ra =? 12)%nat
  && bool_decide (take 3 (h_rest hb) = [31; 19; 271]) && bool_decide (take 2 (drop 3 (h_rest hb)) = [100; 9])
  && bool_decide (NoDup (r_hlc <$> rb)) && forallb (λ r, r_origin r =? 9) rb
  && same_set (r_duration <$> rb) [None; Some 0; Some 30] && same_set (r_expiry <$> rb) [None; Some 130]
  && (size (list_to_set (r_channel <$> rb) : gset (list Z)) =? 2)%nat
  && rows_kept 0 rb ra.

(** The files of the verified run: the input, the published candidate and the
    expected bytes, with the mode and the links of the candidate. *)
Definition verified_candidate (input actual expected : pybytes) (mode nlink : Z) : bool :=
  str_eqb actual expected && (mode =? 384) && (nlink =? 1)
  && match access_rows input, access_rows actual with
     | Some before, Some after => candidate_ok before after
     | _, _ => false
     end.
