(* ===== verification/CloakAuditSpec.v ===== *)
(** * Properties of the cloak-audit oracle

    The decoder accepts exactly the encodings of well-formed checkpoints, a
    candidate that passes the comparison differs from the input in the masks of
    the verified rows only, and an accepted report carries no secret. *)

From S2P Require Import Prelude PyStr PyBytes Base64 CloakAudit.

(** ** Little-endian fields *)

Definition to_le (n : nat) (z : Z) : pybytes := rev (to_be n z).

Lemma to_be_shift n z k : to_be n (z + k * 256 ^ Z.of_nat n) = to_be n z.
Proof.
  revert z k. induction n as [|n IH]; intros z k; [done|]. cbn [to_be].
  rewrite Nat2Z.inj_succ, Z.pow_succ_r by lia.
  replace (z + k * (256 * 256 ^ Z.of_nat n)) with (z + (k * 256) * 256 ^ Z.of_nat n) by ring.
  rewrite IH, Z.div_add, Z.mod_add by lia. done.
Qed.

Lemma from_be_from acc b :
  foldl (λ a y, a * 256 + y) acc b = acc * 256 ^ Z.of_nat (length b) + from_be b.
Proof.
  unfold from_be. revert acc. induction b as [|y b IH]; intros acc; [simpl; lia|]. cbn [foldl length].
  rewrite IH, (IH (0 * 256 + y)), Nat2Z.inj_succ, Z.pow_succ_r by lia. ring.
Qed.

Lemma from_be_cons x b : from_be (x :: b) = x * 256 ^ Z.of_nat (length b) + from_be b.
Proof. unfold from_be at 1. cbn [foldl]. rewrite from_be_from. lia. Qed.

Lemma from_be_range b : Forall is_byte b → 0 ≤ from_be b < 256 ^ Z.of_nat (length b).
Proof.
  induction 1 as [|x b Hx _ IH]; [done|]. rewrite from_be_cons. cbn [length].
  rewrite Nat2Z.inj_succ, Z.pow_succ_r by lia. unfold is_byte in Hx. nia.
Qed.

Lemma to_be_from_be b : Forall is_byte b → to_be (length b) (from_be b) = b.
Proof.
  induction 1 as [|x b Hx Hb IH]; [done|]. cbn [length to_be]. rewrite from_be_cons.
  rewrite (Z.add_comm (x * _)), to_be_shift, IH. f_equal.
  pose proof (from_be_range b Hb). unfold is_byte in Hx. rewrite Z.div_add, Z.div_small, Z.mod_small by lia. lia.
Qed.

Lemma to_le_length n z : length (to_le n z) = n.
Proof. unfold to_le. by rewrite length_rev, to_be_length. Qed.

Lemma from_le_to_le n z : 0 ≤ z < 256 ^ Z.of_nat n → from_le (to_le n z) = z.
Proof. intros H. unfold from_le, to_le. by rewrite rev_involutive, from_be_to_be. Qed.

Lemma to_le_from_le b : Forall is_byte b → to_le (length b) (from_le b) = b ∧ 0 ≤ from_le b < 256 ^ Z.of_nat (length b).
Proof.
  intros H. assert (Hr : Forall is_byte (rev b)) by (by rewrite <-Permutation_rev).
  unfold to_le, from_le. rewrite <-length_rev. split; [by rewrite to_be_from_be, rev_involutive|by apply from_be_range].
Qed.

(** ** Readers *)

Section Readers.
Context (data : pybytes) (Hdata : Forall is_byte data).

(** The bytes [w] stand at [pos]. *)
Definition here (pos : nat) (w : pybytes) : Prop :=
  slice data pos (pos + length w) = w ∧ (pos + length w ≤ length data)%nat.

Lemma slice_here pos k : (pos + k ≤ length data)%nat → here pos (slice data pos (pos + k)).
Proof.
  intros H. assert (Hl : length (slice data pos (pos + k)) = k).
  { unfold slice. rewrite length_take, length_drop. lia. }
  split; [by rewrite Hl|lia].
Qed.

Lemma here_app pos a b : here pos (a ++ b) ↔ here pos a ∧ here (pos + length a) b.
Proof.
  unfold here. rewrite length_app.
  pose proof (slice_join data pos (pos + length a) (pos + (length a + length b)) ltac:(lia)) as J. split.
  - intros [E H]. assert (L : length (slice data pos (pos + length a)) = length a).
    { unfold slice. rewrite length_take, length_drop. lia. }
    rewrite <-J in E. apply app_inj_1 in E as [E1 E2]; [|done]. split_and!; [done|lia| |lia].
    by replace (pos + length a + length b)%nat with (pos + (length a + length b))%nat by lia.
  - intros [[E1 H1] [E2 H2]]. split; [|lia]. rewrite <-J, E1. f_equal.
    by replace (pos + (length a + length b))%nat with (pos + length a + length b)%nat by lia.
Qed.

Lemma here_inj pos a b : here pos a → here pos b → length a = length b → a = b.
Proof. intros [E1 _] [E2 _] H. by rewrite <-E1, <-E2, H. Qed.

Lemma slice_bytes i j : Forall is_byte (slice data i j).
Proof. unfold slice. by apply Forall_take, Forall_drop. Qed.

(** One field. *)
Lemma here_field pos k v : (pos + k ≤ length data)%nat →
  (from_le (slice data pos (pos + k)) = v ↔ here pos (to_le k v) ∧ 0 ≤ v < 256 ^ Z.of_nat k).
Proof.
  intros H. pose proof (slice_here pos k H) as Hh. set (b := slice data pos (pos + k)) in *.
  assert (L : length b = k) by (unfold b, slice; rewrite length_take, length_drop; lia).
  destruct (to_le_from_le b (slice_bytes _ _)) as [E R]. rewrite L in E, R. split.
  - intros <-. by rewrite E.
  - intros [Hv Rv]. rewrite <-(from_le_to_le k v Rv). f_equal. apply (here_inj pos); [done|done|].
    by rewrite to_le_length.
Qed.

Definition enc_fields (sizes : list nat) (vs : list Z) : pybytes := concat (zip_with to_le sizes vs).
Definition in_range (k : nat) (v : Z) : Prop := 0 ≤ v < 256 ^ Z.of_nat k.

Lemma enc_fields_length sizes vs : Forall2 in_range sizes vs → length (enc_fields sizes vs) = sum_list sizes.
Proof.
  unfold enc_fields. induction 1 as [|k v sizes vs _ _ IH]; [done|]. cbn [zip_with concat sum_list_with].
  by rewrite length_app, IH, to_le_length.
Qed.

Lemma fields_at_exact sizes vs pos : (pos + sum_list sizes ≤ length data)%nat →
  (fields_at sizes data pos = vs ↔ here pos (enc_fields sizes vs) ∧ Forall2 in_range sizes vs).
Proof.
  revert pos vs. induction sizes as [|k sizes IH]; intros pos vs H; cbn [fields_at sum_list_with] in *.
  - unfold enc_fields. cbn [zip_with concat]. split.
    + intros <-. split; [|constructor]. split; [|simpl; lia]. unfold slice. simpl.
      by replace (pos + 0 - pos)%nat with O by lia.
    + intros [_ F]. by inversion F.
  - destruct vs as [|v vs].
    { split; [done|]. intros [_ F]. inversion F. }
    unfold enc_fields. cbn [zip_with concat]. fold (enc_fields sizes vs).
    rewrite here_app, to_le_length, Forall2_cons.
    change (id k) with k in H. pose proof (here_field pos k v ltac:(lia)) as A. pose proof (IH (pos + k)%nat vs ltac:(lia)) as B.
    unfold in_range at 1. split.
    + intros [= E1 E2]. apply A in E1. apply B in E2. tauto.
    + intros [[H1 H2] [R1 R2]]. f_equal; [by apply A|by apply B].
Qed.

Lemma unpack_from_exact sizes vs pos :
  unpack_from sizes data pos = Some vs
  ↔ (pos + sum_list sizes ≤ length data)%nat ∧ here pos (enc_fields sizes vs) ∧ Forall2 in_range sizes vs.
Proof.
  unfold unpack_from. destruct (Nat.leb_spec (pos + sum_list sizes) (length data)) as [H|H].
  - rewrite <-fields_at_exact by done. split; [intros [= ->]; done|]. by intros [_ ->].
  - split; [done|]. intros [? _]. lia.
Qed.

Lemma unpack_exact k v pos : unpack k data pos = Some v ↔ here pos (to_le k v) ∧ in_range k v.
Proof.
  unfold unpack, in_range. destruct (Nat.leb_spec (pos + k) (length data)) as [H|H].
  - rewrite <-here_field by done. split; [by intros [= ->]|by intros ->].
  - split; [done|]. intros [[_ Hl] _]. rewrite to_le_length in Hl. lia.
Qed.

(** ** Encodings *)

Definition tag (v : option Z) : Z := if v then 1 else 0.
Definition enc_nullable (v : option Z) : pybytes := match v with Some v => to_le 8 v | None => [] end.

Definition enc_row (r : Row) : pybytes :=
  enc_fields [1; 1; 1; 1; 1; 1]%nat
    [len (r_channel r); len (r_mask r); len (r_issuer r); r_level r; tag (r_duration r); tag (r_expiry r)]
  ++ r_channel r ++ r_mask r ++ r_issuer r ++ enc_nullable (r_duration r) ++ enc_nullable (r_expiry r)
  ++ enc_fields [8; 8]%nat [r_hlc r; r_origin r].

Definition nullable_ok (v : option Z) : Prop := match v with Some v => in_range 8 v | None => True end.

Definition row_ok (r : Row) : Prop :=
  len (r_channel r) < 256 ∧ len (r_mask r) < 256 ∧ len (r_issuer r) < 256 ∧ in_range 1 (r_level r)
  ∧ nullable_ok (r_duration r) ∧ nullable_ok (r_expiry r) ∧ in_range 8 (r_hlc r) ∧ in_range 8 (r_origin r).

Definition enc_tombstone (t : Tombstone) : pybytes :=
  enc_fields [1; 1; 1]%nat [len (t_channel t); len (t_mask t); t_level t]
  ++ t_channel t ++ t_mask t ++ enc_fields [8; 8; 8]%nat (t_clocks t).

Definition tombstone_ok (t : Tombstone) : Prop :=
  len (t_channel t) < 256 ∧ len (t_mask t) < 256 ∧ in_range 1 (t_level t)
  ∧ Forall2 in_range [8; 8; 8]%nat (t_clocks t).

Lemma nullable_exact g v pos pos' :
  nullable g data pos = Some (v, pos')
  ↔ g = tag v ∧ (pos' = pos + length (enc_nullable v))%nat ∧ nullable_ok v
    ∧ (v = None ∨ here pos (enc_nullable v)).
Proof.
  unfold nullable. destruct (Z.eqb_spec g 0) as [->|H0]; [|destruct (Z.eqb_spec g 1) as [->|H1]].
  - split.
    + intros [= <- <-]. simpl. split_and!; [done|lia|done|by left].
    + destruct v as [v|]; simpl; [by intros [? _]|]. intros (_ & -> & _). do 2 f_equal. lia.
  - destruct (unpack 8 data pos) as [x|] eqn:E; cbn [mbind option_bind].
    + apply unpack_exact in E as [E R]. split.
      * intros [= <- <-]. cbn [tag enc_nullable nullable_ok]. rewrite to_le_length. auto.
      * destruct v as [v|]; cbn [tag enc_nullable nullable_ok]; [|by intros [? _]]. rewrite to_le_length.
        intros (_ & -> & Rv & [?|Hv]); [done|]. do 2 f_equal. f_equal.
        rewrite <-(from_le_to_le 8 x R), <-(from_le_to_le 8 v Rv). f_equal.
        apply (here_inj pos); [done|done|by rewrite !to_le_length].
    + split; [done|]. destruct v as [v|]; cbn [tag enc_nullable nullable_ok]; [|by intros [? _]].
      intros (_ & _ & Rv & [?|Hv]); [done|]. by rewrite (proj2 (unpack_exact 8 v pos) (conj Hv Rv)) in E.
  - split; [done|]. destruct v; simpl; intros [? _]; done.
Qed.

Lemma len_range (b : pybytes) : len b < 256 ↔ in_range 1 (len b).
Proof. unfold in_range, len. change (256 ^ Z.of_nat 1) with 256. lia. Qed.

(** Text of a counted length, when there is room for it. *)
Lemma text_here pos n : 0 ≤ n → (pos + Z.to_nat n ≤ length data)%nat →
  let w := slice data pos (pos + Z.to_nat n) in here pos w ∧ len w = n ∧ length w = Z.to_nat n.
Proof.
  intros Hn H w. assert (L : length w = Z.to_nat n).
  { unfold w, slice. rewrite length_take, length_drop. lia. }
  split_and!; [by apply slice_here|unfold len; lia|done].
Qed.

Lemma nullable_length v : (length (enc_nullable v) ≤ 8)%nat.
Proof. destruct v; cbn [enc_nullable]; [rewrite to_le_length|simpl]; lia. Qed.

Lemma here_nullable pos v rest :
  (v = None ∨ here pos (enc_nullable v)) → here (pos + length (enc_nullable v)) rest → here pos (enc_nullable v ++ rest).
Proof.
  intros [->|Hv] Hr; [|by apply here_app]. simpl in *. by rewrite Nat.add_0_r in Hr.
Qed.

Lemma row_sound pos r pos' : row_at data pos = Some (r, pos') →
  here pos (enc_row r) ∧ row_ok r ∧ (pos' = pos + length (enc_row r))%nat.
Proof.
  unfold row_at. destruct (unpack_from _ data pos) as [head|] eqn:Eh; cbn [mbind option_bind]; [|done].
  destruct head as [|c [|m [|s [|level [|td [|te [|]]]]]]]; try done.
  apply unpack_from_exact in Eh as (_ & Hh & Rh).
  pose proof (enc_fields_length _ _ Rh) as Lh. change (sum_list [1; 1; 1; 1; 1; 1]%nat) with 6%nat in Lh.
  rewrite !Forall2_cons in Rh. destruct Rh as (Rc & Rm & Rs & Rl & _).
  destruct (nullable td data _) as [[duration p1]|] eqn:E1; cbn [mbind option_bind]; [|done].
  destruct (nullable te data p1) as [[expiry p2]|] eqn:E2; cbn [mbind option_bind]; [|done].
  destruct (unpack_from _ data p2) as [clocks|] eqn:E3; cbn [mbind option_bind]; [|done].
  destruct clocks as [|hlc [|origin [|]]]; try done. intros [= <- <-].
  apply nullable_exact in E1 as (-> & -> & V1 & N1). apply nullable_exact in E2 as (-> & -> & V2 & N2).
  apply unpack_from_exact in E3 as (B3 & H3 & R3). pose proof (enc_fields_length _ _ R3) as L3.
  change (sum_list [8; 8]%nat) with 16%nat in L3, B3.
  rewrite !Forall2_cons in R3. destruct R3 as (Rh & Ro & _). unfold in_range in Rc, Rm, Rs.
  destruct (text_here (pos + 6) c) as (Hc & Lc & Nc); [lia|lia|].
  destruct (text_here (pos + 6 + Z.to_nat c) m) as (Hm & Lm & Nm); [lia|lia|].
  destruct (text_here (pos + 6 + Z.to_nat c + Z.to_nat m) s) as (Hs & Ls & Ns); [lia|lia|].
  set (channel := slice data (pos + 6) _) in *. set (mask := slice data (pos + 6 + Z.to_nat c) _) in *.
  set (issuer := slice data (pos + 6 + Z.to_nat c + Z.to_nat m) _) in *.
  unfold enc_row, row_ok. cbn [r_channel r_mask r_issuer r_level r_duration r_expiry r_hlc r_origin].
  rewrite Lc, Lm, Ls. split_and!; try done; try lia.
  - apply here_app. split; [done|]. rewrite Lh. apply here_app. split; [done|]. rewrite Nc.
    apply here_app. split; [done|]. rewrite Nm. apply here_app. split; [done|]. rewrite Ns.
    replace (pos + 6 + Z.to_nat c + Z.to_nat m + Z.to_nat s)%nat
      with (pos + 6 + (Z.to_nat c + Z.to_nat m + Z.to_nat s))%nat by lia.
    apply here_nullable; [done|]. by apply here_nullable.
  - rewrite !length_app, Lh, L3, Nc, Nm, Ns. lia.
Qed.

Lemma here_bound pos w : here pos w → (pos + length w ≤ length data)%nat.
Proof. by intros [_ H]. Qed.

(** Fields that stand at [pos] are read there. *)
Lemma unpack_here sizes vs pos :
  here pos (enc_fields sizes vs) → Forall2 in_range sizes vs → unpack_from sizes data pos = Some vs.
Proof.
  intros H R. apply unpack_from_exact. pose proof (here_bound _ _ H). rewrite (enc_fields_length _ _ R) in *. auto.
Qed.

Lemma slice_text pos w j : here pos w → (j = pos + length w)%nat → slice data pos j = w.
Proof. by intros [E _] ->. Qed.

Lemma here_nullable_inv pos v rest :
  here pos (enc_nullable v ++ rest) →
  (v = None ∨ here pos (enc_nullable v)) ∧ here (pos + length (enc_nullable v)) rest.
Proof. intros [H1 H2]%here_app. auto. Qed.

Lemma tag_range v : in_range 1 (tag v).
Proof. destruct v; unfold in_range, tag; simpl; lia. Qed.

Lemma row_complete pos r : here pos (enc_row r) → row_ok r →
  row_at data pos = Some (r, (pos + length (enc_row r))%nat).
Proof.
  destruct r as [channel mask issuer level duration expiry hlc origin]. unfold enc_row, row_ok.
  cbn [r_channel r_mask r_issuer r_level r_duration r_expiry r_hlc r_origin].
  intros H (Rc & Rm & Rs & Rl & V1 & V2 & Rh & Ro). apply len_range in Rc, Rm, Rs.
  set (head := [len channel; len mask; len issuer; level; tag duration; tag expiry]) in *.
  assert (Fh : Forall2 in_range [1; 1; 1; 1; 1; 1]%nat head).
  { unfold head. pose proof (tag_range duration). pose proof (tag_range expiry). eauto 10 using Forall2. }
  assert (Ft : Forall2 in_range [8; 8]%nat [hlc; origin]) by eauto using Forall2.
  pose proof (enc_fields_length _ _ Fh) as Lh. change (sum_list [1; 1; 1; 1; 1; 1]%nat) with 6%nat in Lh.
  pose proof (enc_fields_length _ _ Ft) as Lt. change (sum_list [8; 8]%nat) with 16%nat in Lt.
  apply here_app in H as [Hh H]. rewrite Lh in H. apply here_app in H as [Hc H]. apply here_app in H as [Hm H].
  apply here_app in H as [Hs H]. apply here_nullable_inv in H as [N1 H]. apply here_nullable_inv in H as [N2 Ht].
  unfold row_at. rewrite (unpack_here _ _ _ Hh Fh). cbn [mbind option_bind]. unfold head, len. rewrite !Nat2Z.id.
  rewrite (slice_text _ _ _ Hc), (slice_text _ _ _ Hm), (slice_text _ _ _ Hs) by lia.
  replace (pos + 6 + (length channel + length mask + length issuer))%nat
    with (pos + 6 + length channel + length mask + length issuer)%nat by lia.
  rewrite (proj2 (nullable_exact (tag duration) duration _ _)) by auto. cbn [mbind option_bind].
  rewrite (proj2 (nullable_exact (tag expiry) expiry _ _)) by auto. cbn [mbind option_bind].
  rewrite (unpack_here _ _ _ Ht Ft). cbn [mbind option_bind]. do 2 f_equal.
  rewrite !length_app. fold (len channel) (len mask) (len issuer). fold head. rewrite Lh, Lt. lia.
Qed.

Lemma tombstone_sound pos t pos' : tombstone_at data pos = Some (t, pos') →
  here pos (enc_tombstone t) ∧ tombstone_ok t ∧ (pos' = pos + length (enc_tombstone t))%nat.
Proof.
  unfold tombstone_at. destruct (unpack_from _ data pos) as [head|] eqn:Eh; cbn [mbind option_bind]; [|done].
  destruct head as [|c [|m [|level [|]]]]; try done.
  apply unpack_from_exact in Eh as (_ & Hh & Rh).
  pose proof (enc_fields_length _ _ Rh) as Lh. change (sum_list [1; 1; 1]%nat) with 3%nat in Lh.
  rewrite !Forall2_cons in Rh. destruct Rh as (Rc & Rm & Rl & _).
  destruct (unpack_from _ data (pos + 3 + _)%nat) as [clocks|] eqn:E3; cbn [mbind option_bind]; [|done].
  intros [= <- <-]. apply unpack_from_exact in E3 as (B3 & H3 & R3). pose proof (enc_fields_length _ _ R3) as L3.
  change (sum_list [8; 8; 8]%nat) with 24%nat in L3, B3. unfold in_range in Rc, Rm.
  destruct (text_here (pos + 3) c) as (Hc & Lc & Nc); [lia|lia|].
  destruct (text_here (pos + 3 + Z.to_nat c) m) as (Hm & Lm & Nm); [lia|lia|].
  set (channel := slice data (pos + 3) _) in *. set (mask := slice data (pos + 3 + Z.to_nat c) _) in *.
  unfold enc_tombstone, tombstone_ok. cbn [t_channel t_mask t_level t_clocks].
  rewrite Lc, Lm. split_and!; try done; try lia.
  - apply here_app. split; [done|]. rewrite Lh. apply here_app. split; [done|]. rewrite Nc.
    apply here_app. split; [done|]. rewrite Nm.
    by replace (pos + 3 + Z.to_nat c + Z.to_nat m)%nat with (pos + 3 + (Z.to_nat c + Z.to_nat m))%nat by lia.
  - rewrite !length_app, Lh, L3, Nc, Nm. lia.
Qed.

Lemma tombstone_complete pos t : here pos (enc_tombstone t) → tombstone_ok t →
  tombstone_at data pos = Some (t, (pos + length (enc_tombstone t))%nat).
Proof.
  destruct t as [channel mask level clocks]. unfold enc_tombstone, tombstone_ok.
  cbn [t_channel t_mask t_level t_clocks]. intros H (Rc & Rm & Rl & Ft). apply len_range in Rc, Rm.
  set (head := [len channel; len mask; level]) in *.
  assert (Fh : Forall2 in_range [1; 1; 1]%nat head) by (unfold head; eauto using Forall2).
  pose proof (enc_fields_length _ _ Fh) as Lh. change (sum_list [1; 1; 1]%nat) with 3%nat in Lh.
  pose proof (enc_fields_length _ _ Ft) as Lt. change (sum_list [8; 8; 8]%nat) with 24%nat in Lt.
  apply here_app in H as [Hh H]. rewrite Lh in H. apply here_app in H as [Hc H]. apply here_app in H as [Hm Ht].
  unfold tombstone_at. rewrite (unpack_here _ _ _ Hh Fh). cbn [mbind option_bind]. unfold head, len. rewrite !Nat2Z.id.
  rewrite (slice_text _ _ _ Hc), (slice_text _ _ _ Hm) by lia.
  replace (pos + 3 + (length channel + length mask))%nat with (pos + 3 + length channel + length mask)%nat by lia.
  rewrite (unpack_here _ _ _ Ht Ft). cbn [mbind option_bind]. do 2 f_equal.
  rewrite !length_app. fold (len channel) (len mask). fold head. rewrite Lh, Lt. lia.
Qed.

(** Items one after the other. *)
Lemma items_exact {A} (item : pybytes → nat → option (A * nat)) (enc : A → pybytes) (ok : A → Prop) n pos l pos' :
  (∀ pos x pos', item data pos = Some (x, pos') ↔ here pos (enc x) ∧ ok x ∧ (pos' = pos + length (enc x))%nat) →
  (pos ≤ length data)%nat →
  (items item n data pos = Some (l, pos')
   ↔ here pos (concat (enc <$> l)) ∧ Forall ok l ∧ length l = n ∧ (pos' = pos + length (concat (enc <$> l)))%nat).
Proof.
  intros Hitem. revert pos l. induction n as [|n IH]; intros pos l Hp; cbn [items].
  - split.
    + intros [= <- <-]. simpl. split_and!; [split; simpl|constructor|done|lia]; [|lia].
      unfold slice. by replace (pos + 0 - pos)%nat with O by lia.
    + intros (_ & _ & ->%length_zero_iff_nil & ->). simpl. do 2 f_equal. lia.
  - split.
    + destruct (item data pos) as [[x p1]|] eqn:E; cbn [mbind option_bind]; [|done].
      apply Hitem in E as (H1 & O1 & ->). destruct (items item n data _) as [[l' p2]|] eqn:E2; cbn [mbind option_bind]; [|done].
      intros [= <- <-]. apply IH in E2 as (H2 & O2 & L2 & ->); [|by apply here_bound].
      cbn [fmap list_fmap concat length]. rewrite length_app. split_and!; [by apply here_app|by constructor|lia|lia].
    + destruct l as [|x l]; [intros (_ & _ & ? & _); discriminate|].
      cbn [fmap list_fmap concat length]. rewrite length_app.
      intros ([H1 H2]%here_app & [O1 O2]%Forall_cons & L & ->).
      rewrite (proj2 (Hitem pos x _)) by eauto. cbn [mbind option_bind].
      rewrite (proj2 (IH _ l (here_bound _ _ H1))) by (split_and!; [done|done|lia|lia]). done.
Qed.
End Readers.

(** ** Checkpoints *)

Definition enc_header (h : Header) (pad : pybytes) : pybytes :=
  h_magic h ++ to_le 1 (h_version h) ++ pad ++ enc_fields [4; 2; 2]%nat [h_body h; h_rows h; h_tombstones h]
  ++ enc_fields [2; 2; 8; 8; 8; 8]%nat (h_rest h).

(** A checkpoint: header, rows, tombstones and the 32 bytes of its digest; the
    three padding bytes of the header and the digest are free. *)
Definition checkpoint (h : Header) (rows : list Row) (tombstones : list Tombstone) (pad digest : pybytes) : pybytes :=
  enc_header h pad ++ concat (enc_row <$> rows) ++ concat (enc_tombstone <$> tombstones) ++ digest.

Record header_ok (h : Header) (rows : list Row) (tombstones : list Tombstone) : Prop := {
  ho_magic : h_magic h = bs "ACCS";
  ho_version : h_version h = 1;
  ho_body : h_body h = len (concat (enc_row <$> rows) ++ concat (enc_tombstone <$> tombstones));
  ho_body_range : in_range 4 (h_body h);
  ho_rows : h_rows h = Z.of_nat (length rows);
  ho_tombstones : h_tombstones h = Z.of_nat (length tombstones);
  ho_counts : in_range 2 (h_rows h) ∧ in_range 2 (h_tombstones h);
  ho_rest : Forall2 in_range [2; 2; 8; 8; 8; 8]%nat (h_rest h) }.

Lemma row_exact data : Forall is_byte data → ∀ pos r pos',
  row_at data pos = Some (r, pos') ↔ here data pos (enc_row r) ∧ row_ok r ∧ (pos' = pos + length (enc_row r))%nat.
Proof.
  intros Hd pos r pos'. split; [by apply row_sound|]. intros (H & O & ->). by apply row_complete.
Qed.

Lemma tombstone_exact data : Forall is_byte data → ∀ pos t pos',
  tombstone_at data pos = Some (t, pos')
  ↔ here data pos (enc_tombstone t) ∧ tombstone_ok t ∧ (pos' = pos + length (enc_tombstone t))%nat.
Proof.
  intros Hd pos t pos'. split; [by apply tombstone_sound|]. intros (H & O & ->). by apply tombstone_complete.
Qed.

(** The header is read from the first 52 bytes. *)
Lemma header_exact data h : Forall is_byte data →
  header_at data = Some h
  ↔ ∃ pad, length pad = 3%nat ∧ length (h_magic h) = 4%nat ∧ here data 0 (enc_header h pad) ∧ in_range 1 (h_version h)
    ∧ Forall2 in_range [4; 2; 2]%nat [h_body h; h_rows h; h_tombstones h]
    ∧ Forall2 in_range [2; 2; 8; 8; 8; 8]%nat (h_rest h).
Proof.
  intros Hd. unfold header_at. destruct (Nat.ltb_spec (length data) 52) as [Hl|Hl].
  - split; [done|]. intros (pad & Lp & Lm & H & Rv & Rc & Rr). apply here_bound in H.
    unfold enc_header in H. rewrite !length_app, to_le_length, (enc_fields_length _ _ Rc), (enc_fields_length _ _ Rr) in H.
    simpl in H. lia.
  - assert (Hs : ∀ i k, (i + k ≤ 52)%nat → length (slice data i (i + k)) = k).
    { intros i k H. unfold slice. rewrite length_take, length_drop. lia. }
    assert (Ls : ∀ h pad, length (h_magic h) = 4%nat → length pad = 3%nat →
      Forall2 in_range [4; 2; 2]%nat [h_body h; h_rows h; h_tombstones h] →
      here data 0 (enc_header h pad) ↔ here data 0 (h_magic h) ∧ here data 4 (to_le 1 (h_version h)) ∧ here data 5 pad
        ∧ here data 8 (enc_fields [4; 2; 2]%nat [h_body h; h_rows h; h_tombstones h])
        ∧ here data 16 (enc_fields [2; 2; 8; 8; 8; 8]%nat (h_rest h))).
    { intros h' pad Lm Lp F. unfold enc_header. rewrite !here_app, Lm, to_le_length, Lp, (enc_fields_length _ _ F). done. }
    split.
    + intros [= <-]. exists (slice data 5 8). cbn [h_magic h_version h_body h_rows h_tombstones h_rest].
      destruct (proj1 (here_field data Hd 4 1 _ ltac:(lia)) eq_refl) as [Hv Rv].
      destruct (proj1 (fields_at_exact data Hd [4; 2; 2]%nat _ 8 ltac:(simpl; lia)) eq_refl) as [Hc Rc].
      destruct (proj1 (fields_at_exact data Hd [2; 2; 8; 8; 8; 8]%nat _ 16 ltac:(simpl; lia)) eq_refl) as [Hr Rr].
      split_and!; [apply (Hs 5 3)%nat; lia|apply (Hs 0 4)%nat; lia| |exact Rv|exact Rc|exact Rr].
      apply Ls; cbn [h_magic h_version h_body h_rows h_tombstones h_rest];
        [apply (Hs 0 4)%nat; lia|apply (Hs 5 3)%nat; lia|exact Rc|].
      split_and!; [apply (slice_here data 0 4); lia|exact Hv|apply (slice_here data 5 3); lia|exact Hc|exact Hr].
    + intros (pad & Lp & Lm & H & Rv & Rc & Rr). apply (Ls h pad Lm Lp Rc) in H as (Hm & Hv & Hp & Hc & Hr).
      pose proof (proj2 (here_field data Hd 4 1 (h_version h) ltac:(lia)) (conj Hv Rv)) as Ev.
      pose proof (proj2 (fields_at_exact data Hd [4; 2; 2]%nat _ 8 ltac:(simpl; lia)) (conj Hc Rc)) as Ec.
      pose proof (proj2 (fields_at_exact data Hd [2; 2; 8; 8; 8; 8]%nat _ 16 ltac:(simpl; lia)) (conj Hr Rr)) as Er.
      rewrite Ec, Er. cbn [fields_at]. rewrite Ev, (slice_text _ _ _ 4 Hm) by lia. by destruct h.
Qed.

Lemma enc_header_length h pad : length pad = 3%nat → length (h_magic h) = 4%nat →
  Forall2 in_range [4; 2; 2]%nat [h_body h; h_rows h; h_tombstones h] →
  Forall2 in_range [2; 2; 8; 8; 8; 8]%nat (h_rest h) → length (enc_header h pad) = 52%nat.
Proof.
  intros Lp Lm Rc Rr. unfold enc_header.
  rewrite !length_app, to_le_length, (enc_fields_length _ _ Rc), (enc_fields_length _ _ Rr), Lp, Lm. done.
Qed.

Lemma here_prefix data w : here data 0 w ↔ ∃ rest, data = w ++ rest.
Proof.
  unfold here, slice. cbn [Nat.add]. rewrite drop_0, Nat.sub_0_r. split.
  - intros [E _]. exists (drop (length w) data). rewrite <-E at 1. by rewrite take_drop.
  - intros [rest ->]. rewrite take_app_length, length_app. split; [done|lia].
Qed.

(** The body of the loops, on a file with a good header. *)
Lemma body_exact data rows tombstones h pad : Forall is_byte data → length (enc_header h pad) = 52%nat →
  here data 0 (enc_header h pad) →
  (('(rows, pos) ← items row_at (Z.to_nat (h_rows h)) data 52;
    '(tombstones, pos) ← items tombstone_at (Z.to_nat (h_tombstones h)) data pos;
    if (pos + 32 =? length data)%nat then Some (h, rows, tombstones) else None) = Some (h, rows, tombstones)
   ↔ length rows = Z.to_nat (h_rows h) ∧ length tombstones = Z.to_nat (h_tombstones h)
     ∧ Forall row_ok rows ∧ Forall tombstone_ok tombstones
     ∧ ∃ digest, length digest = 32%nat ∧ data = checkpoint h rows tombstones pad digest).
Proof.
  intros Hd L Hh. pose proof (here_bound _ _ _ Hh) as B. rewrite L in B. cbn [Nat.add] in B.
  assert (C : ∀ rows tombstones, here data 52 (concat (enc_row <$> rows)) →
    here data (52 + length (concat (enc_row <$> rows))) (concat (enc_tombstone <$> tombstones)) →
    here data 0 (enc_header h pad ++ concat (enc_row <$> rows) ++ concat (enc_tombstone <$> tombstones))).
  { intros. rewrite !here_app, L. done. }
  split.
  - destruct (items row_at _ data 52) as [[rows' p1]|] eqn:E1; cbn [mbind option_bind]; [|done].
    apply (items_exact data row_at enc_row row_ok) in E1 as (H1 & O1 & L1 & ->); [|by apply row_exact|done].
    destruct (items tombstone_at _ data _) as [[ts' p2]|] eqn:E2; cbn [mbind option_bind]; [|done].
    apply (items_exact data tombstone_at enc_tombstone tombstone_ok) in E2 as (H2 & O2 & L2 & ->);
      [|by apply tombstone_exact|by apply here_bound].
    destruct (Nat.eqb_spec (52 + length (concat (enc_row <$> rows')) + length (concat (enc_tombstone <$> ts')) + 32)
      (length data)) as [El|]; [|done].
    intros [= -> ->]. split_and!; [done|done|done|done|].
    destruct (proj1 (here_prefix _ _) (C _ _ H1 H2)) as (digest & Ed). exists digest. split.
    + rewrite Ed, !length_app, L in El. lia.
    + rewrite Ed at 1. unfold checkpoint. by rewrite <-!app_assoc.
  - intros (L1 & L2 & O1 & O2 & digest & Ld & Ed).
    assert (H : here data 0 (enc_header h pad ++ concat (enc_row <$> rows) ++ concat (enc_tombstone <$> tombstones))).
    { apply here_prefix. exists digest. rewrite Ed at 1. unfold checkpoint. by rewrite <-!app_assoc. }
    rewrite !here_app, L in H. destruct H as (_ & H1 & H2). cbn [Nat.add] in H1, H2.
    rewrite (proj2 (items_exact data row_at enc_row row_ok _ 52 rows _ (row_exact _ Hd) B)) by eauto. cbn [mbind option_bind].
    rewrite (proj2 (items_exact data tombstone_at enc_tombstone tombstone_ok _ _ tombstones _ (tombstone_exact _ Hd) (here_bound _ _ _ H1))) by eauto. cbn [mbind option_bind].
    rewrite (proj2 (Nat.eqb_eq _ _)); [done|]. rewrite Ed. unfold checkpoint. rewrite !length_app, L, Ld. lia.
Qed.

(** C21: [access_rows] accepts a file of bytes exactly when it is a well-formed
    access checkpoint, and returns what the checkpoint holds: the decoder reads
    back every encoding, and a file it accepts is the encoding of its result,
    up to the padding of the header and the digest it leaves to the native
    codec. *)
Theorem access_rows_exact data h rows tombstones : Forall is_byte data →
  access_rows data = Some (h, rows, tombstones)
  ↔ header_ok h rows tombstones ∧ Forall row_ok rows ∧ Forall tombstone_ok tombstones
    ∧ ∃ pad digest, length pad = 3%nat ∧ length digest = 32%nat ∧ data = checkpoint h rows tombstones pad digest.
Proof.
  intros Hd. unfold access_rows. split.
  - destruct (header_at data) as [h'|] eqn:Eh; cbn [mbind option_bind]; [|done].
    apply header_exact in Eh as (pad & Lp & Lm & Hh & Rv & Rc & Rr); [|done].
    destruct (str_eqb (h_magic h') (bs "ACCS")) eqn:Em; [|done]. apply str_eqb_eq in Em.
    destruct (Z.eqb_spec (h_version h') 1) as [Ev|]; [|done]. cbn [andb negb].
    destruct (Z.eqb_spec (len data) (52 + h_body h' + 32)) as [El|]; [|done]. cbn [negb]. intros E.
    assert (Hh' : h' = h).
    { destruct (items row_at _ data 52) as [[? ?]|]; cbn [mbind option_bind] in E; [|done].
      destruct (items tombstone_at _ data _) as [[? ?]|]; cbn [mbind option_bind] in E; [|done].
      destruct (_ =? _)%nat; [|done]. by injection E. }
    subst h'. apply (body_exact _ _ _ _ pad Hd) in E as (L1 & L2 & O1 & O2 & digest & Ld & Ed);
      [|by apply enc_header_length|done].
    split; [|split_and!; [done|done|by exists pad, digest]].
    pose proof Rc as Rc'. rewrite !Forall2_cons in Rc'. destruct Rc' as (Rb & Rn & Rt & _).
    split; try done; [|unfold in_range in *; lia..].
    unfold len in *. rewrite Ed in El. unfold checkpoint in El.
    rewrite !length_app, (enc_header_length _ _ Lp Lm Rc Rr), Ld in El. rewrite length_app. lia.
  - intros ([M V Bd Br N T [C1 C2] R] & O1 & O2 & pad & digest & Lp & Ld & Ed).
    assert (Rc : Forall2 in_range [4; 2; 2]%nat [h_body h; h_rows h; h_tombstones h]) by eauto using Forall2.
    assert (Lm : length (h_magic h) = 4%nat) by (rewrite M; vm_compute; reflexivity).
    pose proof (enc_header_length _ _ Lp Lm Rc R) as Lh.
    assert (Hh : here data 0 (enc_header h pad)) by (apply here_prefix; rewrite Ed; by eexists).
    rewrite (proj2 (header_exact data h Hd)).
    2: { exists pad. split_and!; [done|done|done| |done|done]. unfold in_range. rewrite V. simpl. lia. }
    cbn [mbind option_bind]. rewrite M, str_eqb_refl, V, Z.eqb_refl. cbn [andb negb].
    rewrite (proj2 (Z.eqb_eq _ _)).
    2: { rewrite Bd, Ed. unfold len, checkpoint. rewrite !length_app, Lh, Ld. lia. }
    cbn [negb]. apply (body_exact _ _ _ _ pad Hd Lh Hh). split_and!; [lia|lia|done|done|by exists digest].
Qed.

Lemma all_bytes b : forallb (λ x, (0 <=? x) && (x <? 256)) b = true → Forall is_byte b.
Proof.
  intros H. apply Forall_forall. intros x Hx. unfold is_byte.
  apply forallb_elem with (x := x) in H; [|exact Hx]. apply andb_true_iff in H as [H1 H2]. lia.
Qed.

(** A row with one channel and no duration. *)
Definition sample_row : Row := mkRow [35; 99] [42; 64; 104] [105] 1 None (Some 130) 7 9.
Definition sample_header : Header := mkHeader (bs "ACCS") 1 36 1 0 [31; 19; 271; 100; 9; 0].

Lemma access_rows_exact_witness :
  access_rows (checkpoint sample_header [sample_row] [] [0; 0; 0] (replicate 32 0))
  = Some (sample_header, [sample_row], []).
Proof.
  apply access_rows_exact.
  - apply all_bytes. vm_compute. reflexivity.
  - split; [|split; [|split]].
    + split; try (vm_compute; reflexivity); unfold in_range; simpl; try lia.
      repeat constructor; simpl; lia.
    + constructor; [|constructor]. repeat split; simpl; unfold len; simpl; lia.
    + constructor.
    + exists [0; 0; 0], (replicate 32 0). split; [reflexivity|]. split; reflexivity.
Defined.

(** ** The candidate *)

Definition with_mask (m : pybytes) (r : Row) : Row :=
  mkRow (r_channel r) m (r_issuer r) (r_level r) (r_duration r) (r_expiry r) (r_hlc r) (r_origin r).

(** A row the audit may have replaced, at a position of the checkpoint. *)
Definition replaced (index : nat) (old new : Row) : Prop :=
  if (index <? 5)%nat
  then new = with_mask (r_mask new) old ∧ r_mask new ≠ r_mask old ∧ nick_part (r_mask new) = nick_part (r_mask old)
  else new = old.

Lemma row_kept_replaced index old new : row_kept index old new = true → replaced index old new.
Proof.
  unfold row_kept, replaced. rewrite andb_true_iff, bool_decide_eq_true. intros [Hs H].
  destruct (_ <? _)%nat; [|by apply bool_decide_eq_true in H].
  rewrite andb_true_iff, negb_true_iff, str_eqb_neq, str_eqb_eq in H. destruct H as [H1 H2].
  unfold sans_mask in Hs. destruct old, new. cbn in *. by simplify_eq.
Qed.

Lemma rows_kept_replaced before after k : rows_kept k before after = true →
  ∀ i old new, before !! i = Some old → after !! i = Some new → replaced (k + i) old new.
Proof.
  revert after k. induction before as [|o before IH]; intros [|n after] k H i old new Ho Hn; try done.
  cbn [rows_kept] in H. apply andb_true_iff in H as [H1 H2]. destruct i as [|i]; simpl in Ho, Hn.
  - simplify_eq. rewrite Nat.add_0_r. by apply row_kept_replaced.
  - replace (k + S i)%nat with (S k + i)%nat by lia. by apply (IH after (S k) H2).
Qed.

(** A candidate that passes the verified run is a well-formed checkpoint
    with the header of the input but for the length of the body, the same
    tombstone and twelve rows: the five verified rows have a new mask with the
    same nick part and are otherwise those of the input, and the other seven
    are untouched. *)
Theorem candidate_masks_only input actual expected mode nlink :
  Forall is_byte input → Forall is_byte actual →
  verified_candidate input actual expected mode nlink = true →
  actual = expected ∧ mode = 384 ∧ nlink = 1 ∧
  ∃ h body rb ra t p1 d1 p2 d2,
    input = checkpoint h rb [t] p1 d1
    ∧ actual = checkpoint (mkHeader (h_magic h) (h_version h) body (h_rows h) (h_tombstones h) (h_rest h)) ra [t] p2 d2
    ∧ length rb = 12%nat ∧ length ra = 12%nat
    ∧ ∀ i old new, rb !! i = Some old → ra !! i = Some new → replaced i old new.
Proof.
  intros Hi Ha. unfold verified_candidate. rewrite !andb_true_iff, str_eqb_eq, !Z.eqb_eq.
  intros [[[-> ->] ->] H].
  destruct (access_rows input) as [[[hb rb] tb]|] eqn:Eb; [|done].
  destruct (access_rows expected) as [[[ha ra] ta]|] eqn:Ea; [|done].
  split; [done|]. split; [done|]. split; [done|].
  apply access_rows_exact in Eb as (_ & _ & _ & p1 & d1 & _ & _ & E1); [|done].
  apply access_rows_exact in Ea as (_ & _ & _ & p2 & d2 & _ & _ & E2); [|done].
  unfold candidate_ok in H. rewrite !andb_true_iff, !bool_decide_eq_true, !Nat.eqb_eq in H.
  destruct H as [[[[[[[[[[[[[Hh Ht] Lt] _] Lb] La] _] _] _] _] _] _] _] Hr].
  subst ta. destruct tb as [|t [|]]; [discriminate Lt| |discriminate Lt].
  exists hb, (h_body ha), rb, ra, t, p1, d1, p2, d2. split; [exact E1|]. split.
  - rewrite E2. destruct ha. cbn in *. by simplify_eq.
  - split; [exact Lb|]. split; [exact La|]. exact (rows_kept_replaced _ _ O Hr).
Qed.

(** Twelve rows of two channels, before and after the audit. *)
Definition sample_rows (host : nat → pybytes) : list Row :=
  (λ i, mkRow [35; if (i <? 6)%nat then 97 else 98] ([110; 64] ++ host i) [105] 1
          (if (i =? 0)%nat then None else if (i =? 1)%nat then Some 0 else Some 30)
          (if (i =? 0)%nat then None else Some 130) (Z.of_nat i) 9) <$> seq 0 12.
Definition sample_tombstone : Tombstone := mkTombstone [35; 97] [42] 2 [1; 2; 3].
Definition sample_checkpoint (rows : list Row) : pybytes :=
  checkpoint (mkHeader (bs "ACCS") 1 (len (concat (enc_row <$> rows) ++ enc_tombstone sample_tombstone)) 12 1
                [31; 19; 271; 100; 9; 0]) rows [sample_tombstone] [0; 0; 0] (replicate 32 0).
Definition sample_before : pybytes := sample_checkpoint (sample_rows (λ _, [111])).
Definition sample_after : pybytes := sample_checkpoint (sample_rows (λ i, if (i <? 5)%nat then [110; 101; 119] else [111])).

Lemma candidate_masks_only_witness :
  verified_candidate sample_before sample_after sample_after 384 1 = true
  ∧ ∃ h body rb ra t p1 d1 p2 d2,
    sample_before = checkpoint h rb [t] p1 d1
    ∧ sample_after = checkpoint (mkHeader (h_magic h) (h_version h) body (h_rows h) (h_tombstones h) (h_rest h)) ra [t] p2 d2
    ∧ length rb = 12%nat ∧ length ra = 12%nat
    ∧ ∀ i old new, rb !! i = Some old → ra !! i = Some new → replaced i old new.
Proof.
  assert (E : verified_candidate sample_before sample_after sample_after 384 1 = true) by (vm_compute; reflexivity).
  split; [exact E|].
  refine (proj2 (proj2 (proj2 (candidate_masks_only sample_before sample_after sample_after 384 1 _ _ E))));
    apply all_bytes; vm_compute; reflexivity.
Defined.

(** When a run of the audit is accepted, no secret token is in its
    arguments, in its environment or in what it wrote, its report names neither
    a private file nor the run's directory, both captures are bounded, and it
    ended with the expected status and left every input file as it was; a
    successful run wrote the expected summary and nothing on the error stream. *)
Theorem report_redacted secrets root originals files c ch : invoke secrets root originals files c ch = true →
  (∀ t, t ∈ secrets → contains (join [0] (ch_arguments ch)) t = false
      ∧ contains (join [0] (ch_env ch)) t = false
      ∧ ∀ x y, ch_out ch ++ ch_err ch ≠ x ++ utf8_encode t ++ y)
  ∧ (∀ x y, ch_out ch ++ ch_err ch ≠ x ++ bs "PRIVATE_" ++ y ∧ ch_out ch ++ ch_err ch ≠ x ++ utf8_encode root ++ y)
  ∧ len (ch_out ch) ≤ 2 * 2 ^ 20 ∧ len (ch_err ch) ≤ 2 * 2 ^ 20
  ∧ ch_status ch = c_expected c
  ∧ (∀ path v, (path, v) ∈ originals → files path = Some v)
  ∧ (c_builder c = false → c_expected c = 0 → c_out c = Some (ch_out ch) ∧ ch_err ch = []).
Proof.
  unfold invoke. rewrite !andb_true_iff, !negb_true_iff, !Z.leb_le, Z.eqb_eq.
  intros [[[[[[[[[Ha He] Lo] Le] Hs] Hp] Hr] Hst] Hrep] Hun]. unfold absent, unchanged in *. rewrite !forallb_elem in *.
  assert (N : ∀ s p, contains s p = false → ∀ x y, s ≠ x ++ p ++ y).
  { intros s p H x y E. by rewrite (proj2 (contains_iff s p) ltac:(eauto)) in H. }
  split; [|split; [|split; [exact Lo|split; [exact Le|split; [exact Hst|split]]]]].
  - intros t Ht. split; [apply negb_true_iff; by apply Ha|]. split; [apply negb_true_iff; by apply He|].
    apply N, negb_true_iff, Hs. apply list_elem_of_fmap. by exists t.
  - intros x y. split; by apply N.
  - intros path v Hv. exact (proj1 (bool_decide_eq_true _) (Hun _ Hv)).
  - unfold report_ok in Hrep. intros Hb H0. rewrite Hb, H0 in Hrep. cbn [Z.eqb] in Hrep.
    apply andb_true_iff in Hrep as [H1 H2]. apply str_eqb_eq in H1. apply bool_decide_eq_true in H2. done.
Qed.

Lemma report_redacted_witness :
  let ch := mkChild [u "cloak-audit"] [u "1"] 0 (summary EXPECTED) [] in
  let c := mkCase 0 (Some (summary EXPECTED)) false false in
  invoke [u "203.0.113.9"] (u "/run/x") [([97], ([1], 384))] (λ _, Some ([1], 384)) c ch = true ∧ ch_status ch = c_expected c.
Proof.
  intros ch c. assert (E : invoke [u "203.0.113.9"] (u "/run/x") [([97], ([1], 384))] (λ _, Some ([1], 384)) c ch = true) by (vm_compute; reflexivity).
  split; [exact E|].
  exact (proj1 (proj2 (proj2 (proj2 (proj2 (report_redacted [u "203.0.113.9"] (u "/run/x") _ _ c ch E)))))).
Defined.
