(* ===== verification/Maintenance.v ===== *)
(** * tools/setup_maintenance_smoke.py: processes, sockets and clean-up

    The retirement of a process group, the clean-up that attempts every
    resource, the reading of process and socket tables of /proc, and the
    witnesses that a client still holds the same physical socket.  What the
    system answers to every call is an argument. *)

From S2P Require Import Prelude PyStr PyBytes.

Definition MAINTENANCE_FILE_LIMIT : Z := 64 * 1024 * 1024.
Definition FIXTURE_DRIFT : pybytes := bs "fixture-drift".

Definition validate_artifact_size (size : Z) : bool :=
  (0 <? size) && (size <=? MAINTENANCE_FILE_LIMIT - len FIXTURE_DRIFT).

(** ** Clean-up *)

(** An exception, by the name of its class. *)
Abbreviation exception := (list Z) (only parsing).

Record CleanupError := mkError { resource : pystr; class : pystr }.

(** Every action is run, in order, whatever the ones before it raised; [A] is
    what an action does. *)
Section Attempts.
Context {W : Type}.
Abbreviation action := (W → option exception * W).

Fixpoint cleanup_attempts (actions : list (pystr * action)) (w : W) : list CleanupError * W :=
  match actions with
  | [] => ([], w)
  | (label, act) :: actions =>
    let '(raised, w) := act w in
    let '(errors, w) := cleanup_attempts actions w in
    (match raised with Some c => mkError label c :: errors | None => errors end, w)
  end.

(** [cleanup_resources]: the errors are raised together as one failure. *)
Definition cleanup_resources (wizards clients : list action) (retire : action) (logs : list action) (w : W)
    : list CleanupError * W :=
  cleanup_attempts
    (((λ a, (u "wizard", a)) <$> wizards) ++ ((λ a, (u "client", a)) <$> clients)
     ++ [(u "daemon_group", retire)] ++ ((λ a, (u "capture", a)) <$> logs)) w.
End Attempts.

(** ** Process groups *)

(** The answer of a system call: a value, [ProcessLookupError] or
    [ChildProcessError], or another exception. *)
Inductive answer (A : Type) := Ok (a : A) | NoProcess | NoChild | Raised (c : pystr).
#[global] Arguments Ok {A} a.
#[global] Arguments NoProcess {A}.
#[global] Arguments NoChild {A}.
#[global] Arguments Raised {A} c.

Definition class_of {A} (v : answer A) : pystr :=
  match v with
  | Ok _ => []
  | NoProcess => u "ProcessLookupError"
  | NoChild => u "ChildProcessError"
  | Raised c => c
  end.

(** The line of /proc/<pid>/stat: the fields after the command name, which may
    hold any character. *)
Definition stat_fields (data : pystr) : list pystr :=
  match rfind data (u ")") with
  | Some i => split_ws (drop (i + 2) data)
  | None => split_ws (drop 1 data)
  end.

(** Whether a task of the table is live and in the group; [None] is a
    [ValueError]. *)
Definition in_group (pgid : Z) (data : pystr) : option bool :=
  match stat_fields data with
  | state :: _ :: pgrp :: session :: _ =>
    g ← int pgrp;
    if negb (g =? pgid) then Some false
    else s ← int session;
    Some ((s =? pgid) && negb (mem state [u "Z"; u "X"]))
  | _ => Some false
  end.

(** An entry of /proc: its name, and its [stat] if it could be read. *)
Record Entry := mkEntry { e_name : pystr; e_stat : option pystr }.

Definition isdecimal (s : pystr) : bool := nonempty s && forallb is_digit s.

Fixpoint live_group_members (pgid : Z) (entries : list Entry) : option (list Z) :=
  match entries with
  | [] => Some []
  | e :: entries =>
    match isdecimal (e_name e), e_stat e with
    | true, Some data =>
      live ← in_group pgid data;
      rest ← live_group_members pgid entries;
      if (live : bool) then pid ← int (e_name e); Some (pid :: rest) else Some rest
    | _, _ => live_group_members pgid entries
    end
  end.

(** What the system does while a group is retired: [waitid] and [getpgid]
    before the first signal, the two signals, what every look at the group finds
    until the deadline, the wait for the leader (and the code recorded by a wait
    that raised after it had reaped), and the children collected after it. *)
Record Retirement := mkRetirement {
  x_status : answer (option Z);
  x_own_group : answer bool;
  x_term : answer unit;
  x_grace : list (answer (list Z));
  x_kill : answer unit;
  x_observe : list (answer (list Z));
  x_wait : answer Z;
  x_late : option Z;
  x_reap : list (answer Z) }.

Record Process := mkProcess { pid : Z; returncode : option Z; owned_group_retired : bool }.

(** [process_status]: the recorded code, or a look that does not reap. *)
Definition process_status (q : Process) (look : answer (option Z)) : answer (option Z) :=
  match returncode q with Some c => Ok (Some c) | None => look end.

(** What was done to the group, in order. *)
Inductive effect := SigTerm | SigKill | ReapLeader | ReapChild.

Inductive verdict := Retired | CleanupFailure (errors : list CleanupError) | Propagated (c : pystr).

Definition signal_error (label : pystr) (v : answer unit) : list CleanupError :=
  match v with Ok _ | NoProcess => [] | _ => [mkError label (class_of v)] end.

(** The grace loop ends with the time, with the group, or with an exception. *)
Fixpoint grace (looks : list (answer (list Z))) : list CleanupError :=
  match looks with
  | [] | Ok [] :: _ => []
  | Ok _ :: looks => grace looks
  | v :: _ => [mkError (u "group_grace") (class_of v)]
  end.

(** Whether the group is still live, and the errors. *)
Fixpoint observe (looks : list (answer (list Z))) : bool * list CleanupError :=
  match looks with
  | [] => (true, [mkError (u "group") (u "LiveGroupTimeout")])
  | Ok [] :: _ => (false, [])
  | Ok _ :: looks => observe looks
  | v :: _ => (true, [mkError (u "group_observe") (class_of v)])
  end.

(** [waitpid(-pid, WNOHANG)] in a loop: it returns any child of the group,
    and the leader too when the wait before it did not reap it. *)
Fixpoint collect (leader : Z) (waits : list (answer Z)) : list effect * list CleanupError :=
  match waits with
  | [] | NoChild :: _ => ([], [])
  | Ok child :: waits =>
    if child =? 0 then ([], [])
    else let '(es, errors) := collect leader waits in
         ((if child =? leader then ReapLeader else ReapChild) :: es, errors)
  | v :: _ => ([], [mkError (u "group_reap") (class_of v)])
  end.

Definition retire_group (p : option Process) (x : Retirement) : verdict * option Process * list effect :=
  match p with
  | None => (Retired, None, [])
  | Some q =>
    if owned_group_retired q then (Retired, p, [])
    else if is_someb (returncode q)
    then (CleanupFailure [mkError (u "group") (u "LeaderAlreadyReaped")], p, [])
    else match process_status q (x_status x), x_own_group x with
    | Ok _, Ok true =>
      let term := signal_error (u "group_term") (x_term x) in
      let kill := signal_error (u "group_kill") (x_kill x) in
      let '(live, seen) := observe (x_observe x) in
      let '(reaped, code, waited) :=
        match x_wait x with
        | Ok code => (true, Some code, [])
        | v => (false, x_late x, [mkError (u "leader_reap") (class_of v)])
        end in
      let '(children, collected) := collect (pid q) (x_reap x) in
      let errors := term ++ grace (x_grace x) ++ kill ++ seen ++ waited ++ collected in
      let q := mkProcess (pid q) code (reaped && negb live) in
      (match errors with [] => Retired | _ => CleanupFailure errors end, Some q,
       [SigTerm; SigKill] ++ (if is_someb code then [ReapLeader] else []) ++ children)
    | Ok _, Ok false => (CleanupFailure [mkError (u "group") (u "WrongProcessGroup")], p, [])
    | Ok _, v => (Propagated (class_of v), p, [])
    | v, _ => (Propagated (class_of v), p, [])
    end
  end.

(** ** Sockets *)

(** An IP address; two addresses have the same text exactly when they are
    equal. *)
Inductive addr := V4 (z : Z) | V6 (z : Z).
#[global] Instance addr_eq_dec : EqDecision addr.
Proof. solve_decision. Defined.

Definition normalized_address (a : addr) : addr :=
  match a with
  | V6 z => if Z.shiftr z 32 =? 65535 then V4 (Z.land z 4294967295) else a
  | V4 _ => a
  end.

Definition hex_val (c : Z) : option Z :=
  if is_ascii_digit c then Some (c - 48)
  else if (97 <=? c) && (c <=? 102) then Some (c - 87)
  else if (65 <=? c) && (c <=? 70) then Some (c - 55)
  else None.

(** [bytes.fromhex]: pairs of digits, with spaces between them. *)
Fixpoint fromhex (fuel : nat) (s : pystr) : option pybytes :=
  match fuel with
  | O => None
  | S fuel =>
    match lstrip_by bisspace s with
    | [] => Some []
    | a :: b :: t => x ← hex_val a; y ← hex_val b; l ← fromhex fuel t; Some (x * 16 + y :: l)
    | _ => None
    end
  end.

(** The digits of [int(s, 16)]: an underscore may separate two digits. *)
Fixpoint hex_digits (acc : Z) (after_us : bool) (s : pystr) : option Z :=
  match s with
  | [] => if after_us then None else Some acc
  | c :: t =>
    match (match digit_val c with Some d => Some d | None => hex_val c end) with
    | Some d => hex_digits (acc * 16 + d) false t
    | None => if (c =? 95) && negb after_us then hex_digits acc true t else None
    end
  end.

(** A prefix [0x] may stand before the digits. *)
Definition hex_unsigned (s : pystr) : option Z :=
  match s with
  | 48 :: x :: t => if (x =? 120) || (x =? 88)
                    then match t with [] => None | 95 :: t => hex_digits 0 true t | _ => hex_digits 0 true t end
                    else hex_digits 0 true s
  | _ => hex_digits 0 true s
  end.

Definition int16 (s : pystr) : option Z :=
  match strip s with
  | 45 :: t => Z.opp <$> hex_unsigned t
  | 43 :: t => hex_unsigned t
  | t => hex_unsigned t
  end.

Inductive family := tcp | tcp6.

(** The words of an address of the kernel's table have their bytes reversed. *)
Fixpoint swap_words (raw : pybytes) : pybytes :=
  match raw with
  | a :: b :: c :: d :: t => d :: c :: b :: a :: swap_words t
  | t => rev t
  end.

Definition endpoint := (addr * Z)%type.

Definition proc_endpoint (encoded : pystr) (f : family) : option endpoint :=
  match split (u ":") encoded with
  | [address; port] =>
    raw ← fromhex (S (length address)) address;
    if negb (length raw =? match f with tcp => 4 | tcp6 => 16 end)%nat then None
    else
      let z := from_be (swap_words raw) in
      p ← int16 port;
      Some (normalized_address (match f with tcp => V4 z | tcp6 => V6 z end), p)
  | _ => None
  end.

Record SocketRow := mkSocket {
  s_inode : pystr; s_state : pystr; s_local : endpoint; s_remote : endpoint }.

(** One line of a table: nothing when the socket is not the process's. *)
Definition socket_row (owned : list pystr) (f : family) (line : pystr) : option (option SocketRow) :=
  let fields := split_ws line in
  if (length fields <? 10)%nat then None
  else
    let at_ n := nth n fields [] in
    let inode := u "socket:[" ++ at_ 9%nat ++ u "]" in
    if negb (mem inode owned) then Some None
    else
      l ← proc_endpoint (at_ 1%nat) f;
      r ← proc_endpoint (at_ 2%nat) f;
      Some (Some (mkSocket inode (at_ 3%nat) l r)).

Fixpoint table_rows (owned : list pystr) (f : family) (lines : list pystr) : option (list SocketRow) :=
  match lines with
  | [] => Some []
  | line :: lines =>
    r ← socket_row owned f line;
    rest ← table_rows owned f lines;
    Some (match r with Some r => r :: rest | None => rest end)
  end.

(** [socket_rows], on the sockets of the process and the lines of the two
    tables after their headings. *)
Definition socket_rows (fds : list pystr) (tcp_lines tcp6_lines : list pystr) : option (list SocketRow) :=
  let owned := List.filter (λ v, startswith v (u "socket:[")) fds in
  a ← table_rows owned tcp tcp_lines;
  b ← table_rows owned tcp6 tcp6_lines;
  Some (a ++ b).

(** A client's own address and its peer's. *)
Record ClientSocket := mkClientSocket { k_name : addr * Z; k_peer : addr * Z }.

Definition normal (e : addr * Z) : endpoint := (normalized_address e.1, e.2).

Definition candidates (rows : list SocketRow) (c : ClientSocket) : list pystr :=
  remove_dups (s_inode <$> List.filter (λ r, str_eqb (s_state r) (u "01")
    && bool_decide (s_local r = normal (k_peer c)) && bool_decide (s_remote r = normal (k_name c))) rows).

Fixpoint witness_inodes (rows : list SocketRow) (clients : list ClientSocket) : option (list pystr) :=
  match clients with
  | [] => Some []
  | c :: clients =>
    match candidates rows c with
    | [inode] => rest ← witness_inodes rows clients; Some (inode :: rest)
    | _ => None
    end
  end.

Definition client_socket_witness (rows : list SocketRow) (clients : list ClientSocket) : option (list pystr) :=
  result ← witness_inodes rows clients;
  if (length (remove_dups result) =? length clients)%nat then Some result else None.

Definition require_client_socket_custody (expected : list pystr) (rows : list SocketRow)
    (clients : list ClientSocket) : bool :=
  bool_decide (client_socket_witness rows clients = Some expected).

Definition listener_socket_witness (rows : list SocketRow) (port : Z) : option pystr :=
  match remove_dups (s_inode <$> List.filter (λ r, str_eqb (s_state r) (u "0A") && (snd (s_local r) =? port)) rows) with
  | [inode] => Some inode
  | _ => None
  end.
