(* ===== verification/MaintenanceSpec.v ===== *)
(** * Properties of the maintenance smoke test's custody

    A group that was retired is gone and no signal is ever sent after its leader
    was reaped, over any number of attempts; a clean-up attempts everything; a
    socket witness names, for every client, the one physical socket of the
    server that the table shows for it. *)

From S2P Require Import Prelude PyStr PyBytes Maintenance.

(** ** Clean-up *)

(** Every action runs, and every one that raised is reported, in order. *)
Lemma cleanup_attempts_all {W} (actions : list (pystr * (W → option (list Z) * W))) w :
  (cleanup_attempts actions w).2 = foldl (λ w a, (a.2 w).2) w actions.
Proof.
  revert w. induction actions as [|[label act] actions IH]; intros w; [done|].
  cbn [cleanup_attempts foldl snd]. specialize (IH (act w).2). destruct (act w) as [raised w1]. cbn [snd] in *.
  destruct (cleanup_attempts actions w1) as [errors w2]. exact IH.
Qed.

(** ** Retirement *)

Definition is_signal (e : effect) : bool := match e with SigTerm | SigKill => true | _ => false end.

(** Successive attempts on one process, each with its own answers. *)
Fixpoint attempts (p : option Process) (xs : list Retirement) : option Process * list effect :=
  match xs with
  | [] => (p, [])
  | x :: xs =>
    let '(_, p, es) := retire_group p x in
    let '(p, es') := attempts p xs in (p, es ++ es')
  end.

(** The children collected are not signals. *)
Lemma collect_no_signal leader waits : Forall (λ e, is_signal e = false) (collect leader waits).1.
Proof.
  induction waits as [|[child| | |c] waits IH]; cbn [collect]; try constructor.
  destruct (child =? 0); [constructor|]. destruct (collect leader waits) as [es errors].
  constructor; [by destruct (child =? leader)|done].
Qed.

(** What one attempt does: nothing, or the two signals and then the reaping;
    it signals only when the leader was not known to be reaped and [waitid]
    found a child. *)
Lemma retire_shape p x :
  let '(v, p', es) := retire_group p x in
  (es = [] ∧ p' = p)
  ∨ (∃ tail, es = [SigTerm; SigKill] ++ tail ∧ Forall (λ e, is_signal e = false) tail)
    ∧ ∃ q status, p = Some q ∧ returncode q = None ∧ x_status x = Ok status.
Proof.
  destruct p as [q|]; cbn [retire_group]; [|by left].
  destruct (owned_group_retired q); [by left|]. unfold process_status.
  destruct (returncode q) as [c|] eqn:Er; cbn [is_someb]; [by left|].
  destruct (x_status x) as [status| | |c]; [|by left..].
  destruct (x_own_group x) as [[]| | |c]; [|by left..].
  destruct (observe (x_observe x)) as [live seen].
  pose proof (collect_no_signal (pid q) (x_reap x)) as Hc.
  destruct (collect (pid q) (x_reap x)) as [children collected]. cbn [fst] in *.
  assert (Ht : ∀ b : bool, Forall (λ e, is_signal e = false) ((if b then [ReapLeader] else []) ++ children))
    by (intros []; by repeat constructor).
  destruct (x_wait x) as [code| | |c]; right;
    (split; [eexists; split; [reflexivity|apply Ht]|exists q, status; done]).
Qed.

(** What the kernel guarantees of the answers: once the leader was reaped, by
    the wait or by collecting the group, [waitid] on it does not find a child,
    since its number no longer belongs to one.  [reaped] says whether it was
    before the first attempt. *)
Fixpoint honest (reaped : Prop) (p : option Process) (xs : list Retirement) : Prop :=
  match xs with
  | [] => True
  | x :: xs =>
    (reaped → x_status x = NoChild)
    ∧ let '(_, p', es) := retire_group p x in honest (reaped ∨ ReapLeader ∈ es) p' xs
  end.

(** Once the leader was reaped, nothing is signalled. *)
Lemma reaped_silent xs : ∀ (reaped : Prop) p, reaped → honest reaped p xs →
  Forall (λ e, is_signal e = false) (attempts p xs).2.
Proof.
  induction xs as [|x xs IH]; intros reaped p Hr Hh; [constructor|]. cbn [attempts honest] in *.
  destruct Hh as [Hx Hh]. specialize (Hx Hr). pose proof (retire_shape p x) as Hs.
  destruct (retire_group p x) as [[v p'] es].
  assert (Hrest : Forall (λ e, is_signal e = false) (attempts p' xs).2) by (eapply IH; [|exact Hh]; by left).
  destruct (attempts p' xs) as [p'' es']. cbn [snd] in *. apply Forall_app. split; [|done].
  destruct Hs as [[-> _]|(_ & q & status & _ & _ & Hst)]; [constructor|congruence].
Qed.

Lemma signal_split (es tail : list effect) a b :
  Forall (λ e, is_signal e = false) tail → es = [SigTerm; SigKill] ++ tail → es = a ++ ReapLeader :: b →
  Forall (λ e, is_signal e = false) b.
Proof.
  intros Ht -> E. destruct a as [|e1 [|e2 a]]; simplify_eq/=.
  apply Forall_app in Ht as [_ Ht]. by apply Forall_cons in Ht as [_ Ht].
Qed.

(** C27: over any number of attempts to retire a group, no signal is sent after
    its leader was reaped, whether by waiting for it or by collecting the
    children of the group: every signal goes to a group whose number cannot
    have been reused.  The answers of the system are arbitrary, except that
    [waitid] does not find a child once the leader was reaped (ECHILD). *)
Theorem no_signal_after_reap xs p a b :
  honest False p xs → (attempts p xs).2 = a ++ ReapLeader :: b → SigTerm ∉ b ∧ SigKill ∉ b.
Proof.
  assert (H : ∀ (reaped : Prop), honest reaped p xs →
    (attempts p xs).2 = a ++ ReapLeader :: b → Forall (λ e, is_signal e = false) b).
  { revert p a. induction xs as [|x xs IH]; intros p a reaped Hh; cbn [attempts honest] in *; [by destruct a|].
    destruct Hh as [_ Hh]. pose proof (retire_shape p x) as Hs. destruct (retire_group p x) as [[v p'] es].
    pose proof (IH p') as IH'. pose proof (λ H, reaped_silent xs _ p' H Hh) as Hq.
    destruct (attempts p' xs) as [p'' es'] eqn:Ea. cbn [snd] in *. intros E.
    apply app_eq_inv in E as [(k & E1 & E2)|(k & E1 & E2)].
    - destruct k as [|e k]; [by eapply (IH' [] _ Hh); rewrite app_nil_l|]. injection E2 as <- E2.
      destruct Hs as [[-> _]|((tail & Et & Ft) & _)]; [by destruct a|].
      rewrite E2. apply Forall_app. split; [by eapply signal_split|].
      apply Hq. right. rewrite E1. apply elem_of_app. right. left.
    - by eapply (IH' k). }
  intros Hh E. specialize (H _ Hh E). rewrite Forall_forall in H.
  split; intros Hin; specialize (H _ Hin); discriminate H.
Qed.

(** A first attempt that cannot wait for the leader but reaps it while
    collecting the group, and a second that finds no child. *)
Definition sample_retirement (status : answer (option Z)) (reaped : list (answer Z)) : Retirement :=
  mkRetirement status (Ok true) (Ok ()) [Ok [7]; Ok []] (Ok ()) [Ok []] (Raised (u "TimeoutExpired")) None reaped.

Lemma no_signal_after_reap_witness :
  let xs := [sample_retirement (Ok None) [Ok 8; Ok 7; NoChild]; sample_retirement NoChild []] in
  (attempts (Some (mkProcess 7 None false)) xs).2 = [SigTerm; SigKill; ReapChild] ++ ReapLeader :: []
  ∧ SigTerm ∉ ([] : list effect).
Proof.
  set (xs := [sample_retirement (Ok None) [Ok 8; Ok 7; NoChild]; sample_retirement NoChild []]).
  assert (E : (attempts (Some (mkProcess 7 None false)) xs).2
    = [SigTerm; SigKill; ReapChild] ++ ReapLeader :: []) by (vm_compute; reflexivity).
  split; [exact E|].
  refine (proj1 (no_signal_after_reap xs (Some (mkProcess 7 None false)) _ _ _ E)).
  split; [by intros []|]. cbn. split; [done|exact I].
Defined.

(** Looks at the group up to one that finds it empty. *)
Lemma observe_gone looks : (observe looks).1 = false →
  ∃ before after, looks = before ++ Ok [] :: after ∧ Forall (λ v, ∃ l, v = Ok l) before.
Proof.
  induction looks as [|[l| | |c] looks IH]; cbn [observe]; try done.
  destruct l as [|pid l]; [intros _; by exists [], looks|]. intros (before & after & -> & F)%IH.
  exists (Ok (pid :: l) :: before), after. split; [done|]. constructor; [by eexists|done].
Qed.

(** A retirement that raises nothing has reaped the leader, and a look at the
    group after the last signal found no live task. *)
Theorem retired_is_gone q x p' es :
  retire_group (Some q) x = (Retired, p', es) → owned_group_retired q = false →
  ∃ code before after, x_wait x = Ok code ∧ p' = Some (mkProcess (pid q) (Some code) true)
    ∧ x_observe x = before ++ Ok [] :: after ∧ Forall (λ v, ∃ l, v = Ok l) before.
Proof.
  cbn [retire_group]. intros H Ho. rewrite Ho in H. destruct (is_someb (returncode q)); [done|].
  destruct (process_status q (x_status x)) as [status| | |c]; try done. destruct (x_own_group x) as [[]| | |c]; try done.
  pose proof (observe_gone (x_observe x)) as Hg.
  assert (Hl : (observe (x_observe x)).1 = true → (observe (x_observe x)).2 ≠ []).
  { clear. generalize (x_observe x). intros looks.
    induction looks as [|[[|pid l]| | |c] looks IH]; cbn [observe fst snd]; try done. }
  destruct (observe (x_observe x)) as [live seen]. cbn [fst snd] in *.
  destruct (collect (pid q) (x_reap x)) as [children collected].
  destruct (x_wait x) as [code| | |c]; cbn [is_someb andb] in H.
  2-4: exfalso; destruct (signal_error _ _), (grace _), (signal_error _ _), seen; discriminate H.
  destruct live.
  - exfalso. specialize (Hl eq_refl). destruct (signal_error _ _), (grace _), (signal_error _ _), seen; done.
  - destruct (Hg eq_refl) as (before & after & E & F). exists code, before, after.
    destruct (_ ++ _) eqn:Eerr in H; [|discriminate H]. injection H as <- _. done.
Qed.

(** ** Witnesses *)

(** A row of the server's side of a client's connection. *)
Definition serves (c : ClientSocket) (r : SocketRow) : Prop :=
  s_state r = u "01" ∧ s_local r = normal (k_peer c) ∧ s_remote r = normal (k_name c).

Lemma elem_of_candidates rows c x : x ∈ candidates rows c ↔ ∃ r, r ∈ rows ∧ serves c r ∧ s_inode r = x.
Proof.
  unfold candidates. rewrite elem_of_remove_dups, list_elem_of_fmap. setoid_rewrite list_elem_of_In.
  setoid_rewrite filter_In. setoid_rewrite andb_true_iff. setoid_rewrite andb_true_iff.
  setoid_rewrite bool_decide_eq_true. setoid_rewrite str_eqb_eq. unfold serves.
  split; [intros (r & -> & H & [[H1 H2] H3])|intros (r & H & (H1 & H2 & H3) & <-)]; exists r; auto.
Qed.

(** The one element of a list without duplicates. *)
Lemma sole_candidate rows c x :
  candidates rows c = [x] ↔ (∃ r, r ∈ rows ∧ serves c r) ∧ ∀ r, r ∈ rows → serves c r → s_inode r = x.
Proof.
  pose proof (elem_of_candidates rows c) as Hc. assert (Hn : NoDup (candidates rows c)) by apply NoDup_remove_dups.
  revert Hc Hn. generalize (candidates rows c). intros l Hc Hn. split.
  - intros ->. split.
    + destruct (proj1 (Hc x)) as (r & H1 & H2 & _); [left|]. by exists r.
    + intros r H1 H2. apply list_elem_of_singleton, Hc. by exists r.
  - intros [(r & H1 & H2) Hall].
    assert (Hx : ∀ y, y ∈ l → y = x) by (intros y (r' & ? & ? & <-)%Hc; by apply Hall).
    assert (Hin : x ∈ l) by (apply Hc; exists r; auto).
    destruct l as [|y l]; [by apply elem_of_nil in Hin|]. rewrite (Hx y) in * by left.
    destruct l as [|z l]; [done|]. rewrite (Hx z) in Hn by (right; left).
    apply NoDup_cons in Hn as [Hn _]. destruct Hn. left.
Qed.

Lemma witness_inodes_exact rows clients l :
  witness_inodes rows clients = Some l ↔ Forall2 (λ c x, candidates rows c = [x]) clients l.
Proof.
  revert l. induction clients as [|c clients IH]; intros l; cbn [witness_inodes].
  - split; [intros [= <-]; constructor|]. by inversion 1.
  - split.
    + destruct (candidates rows c) as [|x [|]] eqn:E; try done.
      destruct (witness_inodes rows clients) as [rest|]; cbn [mbind option_bind]; [|done].
      intros [= <-]. constructor; [done|]. by apply IH.
    + inversion 1 as [|? x ? rest Hx Hr]; subst. rewrite Hx. apply IH in Hr as ->. done.
Qed.

Lemma remove_dups_le (l : list pystr) : (length (remove_dups l) ≤ length l)%nat.
Proof. induction l as [|y l IH]; simpl; [lia|]. destruct (decide_rel (∈) y l); simpl; lia. Qed.

Lemma remove_dups_length (l : list pystr) : length (remove_dups l) = length l ↔ NoDup l.
Proof.
  induction l as [|x l IH]; [by split; [constructor|]|]. pose proof (remove_dups_le l). rewrite NoDup_cons. simpl.
  destruct (decide_rel (∈) x l); simpl; [|rewrite <-IH]; split.
  - lia.
  - by intros [? _].
  - intros [= H1]. done.
  - intros [_ ->]. done.
Qed.

(** [client_socket_witness] gives a list exactly when it names, for every
    client in order, an inode that every established row between the server and
    that client has and at least one row has, and no two clients share one. *)
Theorem socket_witness_exact rows clients l :
  client_socket_witness rows clients = Some l
  ↔ NoDup l ∧ Forall2 (λ c x, (∃ r, r ∈ rows ∧ serves c r) ∧ ∀ r, r ∈ rows → serves c r → s_inode r = x) clients l.
Proof.
  assert (E : Forall2 (λ c x, (∃ r, r ∈ rows ∧ serves c r) ∧ ∀ r, r ∈ rows → serves c r → s_inode r = x) clients l
    ↔ witness_inodes rows clients = Some l).
  { rewrite witness_inodes_exact. split; intros H; (eapply Forall2_impl; [exact H|]); intros c x; by rewrite sole_candidate. }
  rewrite E. unfold client_socket_witness. split.
  - destruct (witness_inodes rows clients) as [l'|] eqn:Ew; cbn [mbind option_bind]; [|done].
    destruct (Nat.eqb_spec (length (remove_dups l')) (length clients)) as [Hl|]; [|done].
    intros H. injection H as <-. split; [|done]. apply witness_inodes_exact, Forall2_length in Ew.
    apply remove_dups_length. congruence.
  - intros [Hn Ew]. rewrite Ew. cbn [mbind option_bind]. apply witness_inodes_exact, Forall2_length in Ew.
    rewrite (proj2 (Nat.eqb_eq _ _)); [done|]. rewrite (proj2 (remove_dups_length l) Hn). done.
Qed.

(** ** Process tables *)

Lemma rfind_absent c b : c ∉ b → rfind b [c] = None.
Proof.
  induction b as [|x b IH]; [done|]. intros [Hx Hb]%not_elem_of_cons. cbn [rfind]. rewrite (IH Hb).
  cbn [startswith]. by rewrite (proj2 (Z.eqb_neq c x)).
Qed.

Lemma rfind_last c a b : c ∉ b → rfind (a ++ c :: b) [c] = Some (length a).
Proof.
  intros Hb. induction a as [|x a IH]; cbn [app rfind length].
  - rewrite (rfind_absent c b Hb). cbn [startswith]. by rewrite Z.eqb_refl.
  - by rewrite IH.
Qed.

(** The fields of a [stat] line are those after the name of the command,
    whatever the name is: parentheses and spaces in it do not shift them. *)
Theorem stat_fields_any_command pid command rest :
  41 ∉ rest → stat_fields (pid ++ u " (" ++ command ++ u ") " ++ rest) = split_ws rest.
Proof.
  intros Hr. unfold stat_fields. change (u ")") with [41]. change (u ") ") with [41; 32].
  replace (pid ++ u " (" ++ command ++ [41; 32] ++ rest) with ((pid ++ u " (" ++ command) ++ 41 :: 32 :: rest)
    by (by rewrite <-!app_assoc).
  rewrite rfind_last by (by apply not_elem_of_cons). generalize (pid ++ u " (" ++ command). intros a.
  rewrite drop_app_ge by lia. by replace (length a + 2 - length a)%nat with 2%nat by lia.
Qed.
