(* ===== verification/ScmService.v ===== *)
(** * tools/windows_scm_service_smoke.py: custody of a Windows service

    The class [Scm] and the main program of the service smoke test: a service
    is created, exercised, stopped, and deleted with its fixture directory.
    Every call to the service manager, the kernel and the file system is an
    event of the history; what the system answers is a function of the history
    so far.  The looks at the clock of a polling loop are bounded, since each
    pass sleeps a quarter of a second. *)

From S2P Require Import Prelude PyStr.

Definition ERROR_SERVICE_DOES_NOT_EXIST : Z := 1060.
Definition ERROR_SERVICE_MARKED_FOR_DELETE : Z := 1072.
Definition SERVICE_STOPPED : Z := 1.
Definition SERVICE_START_PENDING : Z := 2.
Definition SERVICE_STOP_PENDING : Z := 3.
Definition SERVICE_RUNNING : Z := 4.

Record ServiceStatusProcess := mkStatus {
  state : Z; win32_exit_code : Z; service_exit_code : Z; pid : Z }.

Inductive exc := WinError | RuntimeError | ValueError | AssertionError | TimeoutError | RecursionError
  | Other (c : pystr).

(** ** Calls and their answers *)

Inductive event :=
| OpenSCManager (create ok : bool)
| CloseManager
| OpenService (r : Z + unit)                    (* by name: an error or a handle *)
| CreateServiceW (command : pystr) (ok : bool)
| StartServiceW (ok : bool)
| QueryServiceStatusEx (r : option ServiceStatusProcess)
| ControlStop (ok : bool)
| DeleteService (ok : bool)
| CloseServiceHandle (ok : bool)
| BeforeDeadline (b : bool)
| OpenProcess (pid : Z) (ok : bool)
| QueryImage (r : option pystr)
| SamePath (actual : pystr) (b : bool)           (* the image path is the fixture's *)
| SameFile (actual : pystr) (r : exc + bool)
| TerminateProcess (pid : Z) (ok : bool)
| WaitForProcess (gone : bool)
| CloseProcess
| ImagePids (r : exc + list Z)
| PortRebound (r : option exc)
| Setup (r : option exc)                        (* the copy, the private directory, the configuration *)
| CheckConfig (r : exc + bool)
| Exercise (r : option exc)                     (* the clients of one stage *)
| ResolveFixture (r : exc + bool)               (* the directory is still the fixture's *)
| RemoveFixture (r : option exc).

Abbreviation history := (list event).

(** What the system answers. *)
Record System := mkSystem {
  sys_manager : history → bool;
  sys_open : history → Z + unit;
  sys_create : history → bool;
  sys_start : history → bool;
  sys_query : history → option ServiceStatusProcess;
  sys_control : history → bool;
  sys_delete : history → bool;
  sys_close : history → bool;
  sys_time : history → bool;
  sys_open_process : history → bool;
  sys_image : history → option pystr;
  sys_abspath : pystr → pystr;                    (* os.path.abspath *)
  sys_normcase : pystr → pystr;                   (* os.path.normcase *)
  sys_same_file : history → exc + bool;
  sys_terminate : history → bool;
  sys_wait : history → bool;
  sys_pids : history → exc + list Z;
  sys_port : history → option exc;
  sys_setup : history → option exc;
  sys_check : history → exc + bool;
  sys_clients : history → option exc;
  sys_resolve : history → exc + bool;
  sys_remove : history → option exc }.

(** The fields of [Scm], the problems of the main program and the calls made
    so far. *)
Record World := mkWorld { service : bool; created : bool; problems : list exc; log : history }.

Definition act (A : Type) : Type := World → (exc + A) * World.

Definition ret {A} (x : A) : act A := λ w, (inr x, w).
Definition raise {A} (e : exc) : act A := λ w, (inl e, w).
Definition bind_ {A B} (m : act A) (k : A → act B) : act B :=
  λ w, match m w with (inl e, w) => (inl e, w) | (inr x, w) => k x w end.

Declare Scope scm_scope.
Delimit Scope scm_scope with scm.
Notation "x <-% m ;; k" := (bind_ m (λ x, k%scm))
  (at level 100, m at next level, right associativity) : scm_scope.
Notation "m ;;% k" := (bind_ m (λ _, k%scm)) (at level 100, right associativity) : scm_scope.
Open Scope scm_scope.

(** [try: m except e: h(e)] and [try: m finally: f]. *)
Definition catch {A} (m : act A) (h : exc → act A) : act A :=
  λ w, match m w with (inl e, w) => h e w | r => r end.
Definition finally {A} (m : act A) (f : act unit) : act A :=
  λ w, let '(r, w) := m w in
       match f w with (inl e, w) => (inl e, w) | (inr _, w) => (r, w) end.

(** One call: its event, with the answer. *)
Definition call {A} (answer : history → A) (ev : A → event) : act A :=
  λ w, let a := answer (log w) in (inr a, mkWorld (service w) (created w) (problems w) (log w ++ [ev a])).

Definition get {A} (f : World → A) : act A := λ w, (inr (f w), w).
Definition set_service (b : bool) : act unit := λ w, (inr (), mkWorld b (created w) (problems w) (log w)).
Definition set_created (b : bool) : act unit := λ w, (inr (), mkWorld (service w) b (problems w) (log w)).
Definition problem (e : exc) : act unit := λ w,
  (inr (), mkWorld (service w) (created w) (problems w ++ [e]) (log w)).

Definition check (b : bool) (e : exc) : act unit := if b then ret () else raise e.
Definition raised (r : option exc) : act unit := match r with Some e => raise e | None => ret () end.
Definition value {A} (r : exc + A) : act A := match r with inl e => raise e | inr x => ret x end.

(** ** The service manager *)

Section Scm.
Context (sys : System).

(** [Scm(create=...)] and [close]. *)
Definition open_manager (create : bool) : act unit :=
  ok <-% call (sys_manager sys) (OpenSCManager create) ;;
  check ok WinError ;;% set_service false ;;% set_created false.

Definition close : act unit :=
  s <-% get service ;;
  (if s : bool then call (sys_close sys) CloseServiceHandle ;;% set_service false else ret ()) ;;%
  call (λ _, ()) (λ _, CloseManager).

Definition open_by_name : act (Z + unit) :=
  r <-% call (sys_open sys) OpenService ;;
  match r with
  | inr _ => call (sys_close sys) CloseServiceHandle ;;% ret r
  | inl _ => ret r
  end.

Definition absent : act unit :=
  r <-% open_by_name ;;
  match r with
  | inr _ => raise RuntimeError
  | inl error => check (error =? ERROR_SERVICE_DOES_NOT_EXIST) WinError
  end.

(** [create] with the paths of the binary and the configuration, and whether
    they are absolute. *)
Definition create (binary config : pystr) (absolute : bool) : act unit :=
  s <-% get service ;;
  check (negb s) RuntimeError ;;%
  check absolute ValueError ;;%
  let command := [34] ++ binary ++ [34] ++ u " --windows-service " ++ [34] ++ config ++ [34] in
  ok <-% call (sys_create sys) (CreateServiceW command) ;;
  set_service ok ;;%
  check ok WinError ;;%
  set_created true.

Definition start : act unit := ok <-% call (sys_start sys) StartServiceW ;; check ok WinError.

Definition query : act ServiceStatusProcess :=
  r <-% call (sys_query sys) QueryServiceStatusEx ;;
  match r with Some status => ret status | None => raise WinError end.

Fixpoint wait_state_loop (looks : nat) (wanted : Z) : act ServiceStatusProcess :=
  match looks with
  | O => query ;;% raise TimeoutError
  | S looks =>
    early <-% call (sys_time sys) BeforeDeadline ;;
    if early : bool then
      status <-% query ;;
      if state status =? wanted then ret status
      else if (wanted =? SERVICE_RUNNING) && (state status =? SERVICE_STOPPED) then raise AssertionError
      else wait_state_loop looks wanted
    else query ;;% raise TimeoutError
  end.

(** Every pass sleeps a quarter of a second. *)
Definition wait_state (wanted timeout : Z) : act ServiceStatusProcess :=
  wait_state_loop (Z.to_nat (4 * timeout)) wanted.

(** The end of [stop], at a service that is stopping or running. *)
Definition stop_now (status : ServiceStatusProcess) : act unit :=
  (if state status =? SERVICE_RUNNING then
     ok <-% call (sys_control sys) ControlStop ;; check ok WinError
   else check (state status =? SERVICE_STOP_PENDING) AssertionError) ;;%
  final <-% wait_state SERVICE_STOPPED 150 ;;
  check (win32_exit_code final =? 0) AssertionError.

(** [depth] calls of [stop] can be nested before Python's recursion limit. *)
Fixpoint stop (depth : nat) : act unit :=
  match depth with
  | O => raise RecursionError
  | S depth =>
    c <-% get created ;;
    if negb c then ret ()
    else
      status <-% query ;;
      if state status =? SERVICE_STOPPED then check (win32_exit_code status =? 0) AssertionError
      else if state status =? SERVICE_START_PENDING then
        λ w, match wait_state SERVICE_RUNNING 130 w with
             | (inl AssertionError, w) =>
               (again <-% query ;;
                if state again =? SERVICE_STOPPED then stop depth else raise AssertionError) w
             | (inl e, w) => (inl e, w)
             | (inr status, w) => stop_now status w
             end
      else stop_now status
  end.

(** An image path without the prefix of extended-length paths. *)
Definition EXTENDED : pystr := [92; 92; 63; 92].
Definition plain_path (image : pystr) : pystr := if startswith image EXTENDED then drop 4 image else image.

(** The body of [terminate_verified_host]'s [try]. *)
Definition terminate_opened (binary : pystr) (host : Z) : act unit :=
  image <-% call (sys_image sys) QueryImage ;;
  check (is_someb image) WinError ;;%
  let actual := plain_path (from_opt [] image) in
  same <-% call (λ _, str_eqb (sys_normcase sys (sys_abspath sys actual)) (sys_normcase sys binary))
             (SamePath actual) ;;
  check same RuntimeError ;;%
  r <-% call (sys_same_file sys) (SameFile actual) ;;
  identical <-% value r ;;
  check identical RuntimeError ;;%
  again <-% query ;;
  if state again =? SERVICE_STOPPED then ret ()
  else
    check (pid again =? host) RuntimeError ;;%
    killed <-% call (sys_terminate sys) (TerminateProcess host) ;;
    (if killed : bool then ret ()
     else gone <-% call (sys_wait sys) WaitForProcess ;; check gone WinError) ;;%
    gone <-% call (sys_wait sys) WaitForProcess ;;
    check gone TimeoutError ;;%
    wait_state SERVICE_STOPPED 30 ;;% ret ().

Definition terminate_verified_host (binary : pystr) : act unit :=
  c <-% get created ;;
  check c RuntimeError ;;%
  status <-% query ;;
  if state status =? SERVICE_STOPPED then ret ()
  else
    check (negb (pid status =? 0)) RuntimeError ;;%
    opened <-% call (sys_open_process sys) (OpenProcess (pid status)) ;;
    check opened WinError ;;%
    finally (terminate_opened binary (pid status)) (call (λ _, ()) (λ _, CloseProcess)).

Fixpoint removed_loop (looks : nat) : act unit :=
  match looks with
  | O => raise TimeoutError
  | S looks =>
    early <-% call (sys_time sys) BeforeDeadline ;;
    if early : bool then
      r <-% open_by_name ;;
      match r with
      | inl error =>
        if error =? ERROR_SERVICE_DOES_NOT_EXIST then set_created false
        else check (error =? ERROR_SERVICE_MARKED_FOR_DELETE) WinError ;;% removed_loop looks
      | inr _ => removed_loop looks
      end
    else raise TimeoutError
  end.

Definition delete_owned : act unit :=
  c <-% get created ;;
  if negb c then ret ()
  else
    ok <-% call (sys_delete sys) DeleteService ;; check ok WinError ;;%
    closed <-% call (sys_close sys) CloseServiceHandle ;; check closed WinError ;;%
    set_service false ;;%
    removed_loop 80.

(** ** The exercise *)

Definition image_pids : act (list Z) := r <-% call (sys_pids sys) ImagePids ;; value r.

Fixpoint wait_worker_loop (looks : nat) (host_pid : Z) (previous : option Z) : act Z :=
  match looks with
  | O => raise TimeoutError
  | S looks =>
    early <-% call (sys_time sys) BeforeDeadline ;;
    if early : bool then
      last <-% image_pids ;;
      check (existsb (Z.eqb host_pid) last) AssertionError ;;%
      match List.filter (λ p, negb (p =? host_pid)) last with
      | [worker] => if bool_decide (Some worker = previous)
                    then wait_worker_loop looks host_pid previous else ret worker
      | _ => wait_worker_loop looks host_pid previous
      end
    else raise TimeoutError
  end.

Definition wait_worker (host_pid : Z) (previous : option Z) : act Z :=
  wait_worker_loop 200 host_pid previous.

Definition clients_stage : act unit := r <-% call (sys_clients sys) Exercise ;; raised r.

Definition exercise : act unit :=
  start ;;%
  status <-% wait_state SERVICE_RUNNING 130 ;;
  check (negb (pid status =? 0)) AssertionError ;;%
  worker <-% wait_worker (pid status) None ;;
  clients_stage ;;%
  next_worker <-% wait_worker (pid status) (Some worker) ;;
  again <-% query ;;
  check ((state again =? SERVICE_RUNNING) && (pid again =? pid status)) AssertionError ;;%
  clients_stage.

(** tools/windows_scm_smoke.py: [wait_gone]. *)
Fixpoint wait_gone_loop (looks : nat) : act unit :=
  match looks with
  | O => image_pids ;;% raise AssertionError
  | S looks =>
    early <-% call (sys_time sys) BeforeDeadline ;;
    if early : bool then
      last <-% image_pids ;;
      match last with [] => ret () | _ => wait_gone_loop looks end
    else image_pids ;;% raise AssertionError
  end.

Definition wait_gone : act unit := wait_gone_loop 60.

(** ** The main program *)

(** [--preflight]. *)
Definition preflight : act unit := open_manager false ;;% finally absent close.

Definition run_fixture (binary config : pystr) (absolute : bool) : act unit :=
  s <-% call (sys_setup sys) Setup ;; raised s ;;%
  checked <-% call (sys_check sys) CheckConfig ;;
  ok <-% value checked ;;
  check ok AssertionError ;;%
  create binary config absolute ;;%
  exercise.

(** The clean-up of a created service. *)
Definition clean_service (binary : pystr) (depth : nat) : act unit :=
  catch (stop depth) (λ e, problem e ;;% terminate_verified_host binary) ;;%
  wait_gone ;;%
  catch (p <-% call (sys_port sys) PortRebound ;; raised p) problem ;;%
  delete_owned.

Definition clean (binary : pystr) (depth : nat) : act unit :=
  c <-% get created ;;
  if c : bool then catch (clean_service binary depth) problem else ret ().

Definition failure_diagnostics : act unit :=
  c <-% get created ;;
  (if c : bool then catch (query ;;% ret ()) (λ _, ret ()) else ret ()) ;;%
  catch (image_pids ;;% ret ()) (λ _, ret ()).

Definition remove_fixture : act unit :=
  r <-% call (sys_resolve sys) ResolveFixture ;;
  own <-% value r ;;
  check own RuntimeError ;;%
  removed <-% call (sys_remove sys) RemoveFixture ;; raised removed.

(** From the fixture directory to its removal. *)
Definition body (depth : nat) (binary config : pystr) (absolute : bool) : act unit :=
  catch (run_fixture binary config absolute) problem ;;%
  clean binary depth ;;%
  found <-% get problems ;;
  (match found with [] => ret () | _ => failure_diagnostics end) ;;%
  c <-% get created ;;
  (if c : bool then ret () else catch remove_fixture problem) ;;%
  found <-% get problems ;;
  match found with [] => ret () | e :: _ => raise e end.

(** The installing run of [main]; a group of problems is raised as its first. *)
Definition main (depth : nat) (binary config : pystr) (absolute : bool) : act unit :=
  preflight ;;%
  open_manager true ;;%
  finally (absent ;;% body depth binary config absolute) close.

End Scm.
