(* ===== verification/ScmServiceSpec.v ===== *)
(** * tools/windows_scm_service_smoke.py: custody

    Whatever the system answers, the run starts, stops, terminates and deletes
    only what it created, terminates only a process it has just verified,
    deletes the service only when it is stopped and its processes are gone, and
    removes the fixture only when no service of its own is left. *)

From S2P Require Import Prelude PyStr ScmService.

(** ** What a history shows *)

(** The service of the run was created. *)
Definition has_create (h : history) : Prop := ∃ command, CreateServiceW command true ∈ h.

(** It was created and seen stopped afterwards. *)
Definition has_stopped (h : history) : Prop :=
  ∃ a st b, h = a ++ QueryServiceStatusEx (Some st) :: b ∧ state st = SERVICE_STOPPED ∧ has_create a.

(** Then no process of its image was found. *)
Definition has_gone (h : history) : Prop :=
  ∃ a b, h = a ++ ImagePids (inr []) :: b ∧ has_stopped a.

(** The service was deleted and its name is free. *)
Definition has_deleted (h : history) : Prop :=
  ∃ a b, h = a ++ OpenService (inl ERROR_SERVICE_DOES_NOT_EXIST) :: b ∧ DeleteService true ∈ a.

(** The name was free before anything was created. *)
Definition name_free (h : history) : Prop := OpenService (inl ERROR_SERVICE_DOES_NOT_EXIST) ∈ h.

(** The process was just verified: the service of the run reported it, it was
    opened, it runs the image of the fixture, and the service, which is not
    stopped, still reports it. *)
Definition verified (h : history) (p : Z) : Prop :=
  ∃ a st img st2,
    h = a ++ [QueryServiceStatusEx (Some st); OpenProcess p true; QueryImage (Some img);
              SamePath (plain_path img) true; SameFile (plain_path img) (inr true);
              QueryServiceStatusEx (Some st2)]
    ∧ has_create a ∧ pid st = p ∧ pid st2 = p ∧ p ≠ 0 ∧ state st2 ≠ SERVICE_STOPPED.

(** When a call may be made. *)
Definition allowed (h : history) (e : event) : Prop :=
  match e with
  | CreateServiceW _ _ => name_free h ∧ ¬ has_create h
  | StartServiceW _ | ControlStop _ => has_create h
  | DeleteService _ => has_gone h
  | TerminateProcess p _ => verified h p
  | RemoveFixture _ => ¬ has_create h ∨ has_deleted h
  | _ => True
  end.

Definition safe (h : history) : Prop := ∀ a e b, h = a ++ e :: b → allowed a e.

Lemma safe_nil : safe [].
Proof. intros a e b H. by destruct a. Qed.

Lemma safe_snoc h e : safe h → allowed h e → safe (h ++ [e]).
Proof.
  intros Hs Ha a x b E. destruct (decide (b = [])) as [->|Hb].
  - by apply app_inj_tail in E as [<- <-].
  - destruct (exists_last Hb) as (b' & y & ->). rewrite app_comm_cons, app_assoc in E.
    apply app_inj_tail in E as [-> _]. by eapply Hs.
Qed.

(** *** What was shown stays shown *)

Lemma create_mono h t : has_create h → has_create (h ++ t).
Proof. intros [c H]. exists c. apply elem_of_app. by left. Qed.

Lemma stopped_mono h t : has_stopped h → has_stopped (h ++ t).
Proof. intros (a & st & b & -> & H). exists a, st, (b ++ t). by rewrite <-app_assoc. Qed.

Lemma gone_mono h t : has_gone h → has_gone (h ++ t).
Proof. intros (a & b & -> & H). exists a, (b ++ t). by rewrite <-app_assoc. Qed.

Lemma deleted_mono h t : has_deleted h → has_deleted (h ++ t).
Proof. intros (a & b & -> & H). exists a, (b ++ t). by rewrite <-app_assoc. Qed.

Lemma stopped_create h : has_stopped h → has_create h.
Proof. intros (a & st & b & -> & _ & H). by apply create_mono. Qed.

Lemma stopped_intro h st : has_create h → state st = SERVICE_STOPPED →
  has_stopped (h ++ [QueryServiceStatusEx (Some st)]).
Proof. intros Hc Hs. by exists h, st, []. Qed.

Lemma gone_intro h : has_stopped h → has_gone (h ++ [ImagePids (inr [])]).
Proof. intros Hs. by exists h, []. Qed.

(** ** Calls without a condition *)

Definition harmless (e : event) : bool :=
  match e with
  | CreateServiceW _ _ | StartServiceW _ | ControlStop _ | DeleteService _ | TerminateProcess _ _
  | RemoveFixture _ => false
  | _ => true
  end.

Lemma safe_app h t : safe h → Forall (λ e, harmless e = true) t → safe (h ++ t).
Proof.
  intros Hs Ht. revert h Hs. induction Ht as [|e t He _ IH]; intros h Hs; [by rewrite app_nil_r|].
  replace (h ++ e :: t) with ((h ++ [e]) ++ t) by (by rewrite <-app_assoc). apply IH, safe_snoc; [done|].
  by destruct e.
Qed.

Lemma no_create_app h t : Forall (λ e, harmless e = true) t → ¬ has_create h → ¬ has_create (h ++ t).
Proof.
  intros Ht Hn [c [H|H]%elem_of_app]; [apply Hn; by exists c|].
  rewrite Forall_forall in Ht. by apply Ht in H.
Qed.

(** An action that makes only such calls and leaves [created] as it is. *)
Definition quiet {A} (m : act A) : Prop :=
  ∀ w, created (m w).2 = created w ∧ ∃ t, log (m w).2 = log w ++ t ∧ Forall (λ e, harmless e = true) t.

Lemma quiet_ret {A} (x : A) : quiet (ret x).
Proof. intros w. split; [done|]. exists []. by rewrite app_nil_r. Qed.
Lemma quiet_raise {A} e : quiet (@raise A e).
Proof. intros w. split; [done|]. exists []. by rewrite app_nil_r. Qed.
Lemma quiet_get {A} (f : World → A) : quiet (get f).
Proof. intros w. split; [done|]. exists []. by rewrite app_nil_r. Qed.
Lemma quiet_set_service b : quiet (set_service b).
Proof. intros w. split; [done|]. exists []. by rewrite app_nil_r. Qed.
Lemma quiet_problem e : quiet (problem e).
Proof. intros w. split; [done|]. exists []. by rewrite app_nil_r. Qed.
Lemma quiet_call {A} (f : history → A) ev : (∀ a, harmless (ev a) = true) → quiet (call f ev).
Proof. intros H w. split; [done|]. eexists. split; [done|]. by constructor. Qed.

Lemma quiet_bind {A B} (m : act A) (k : A → act B) : quiet m → (∀ x, quiet (k x)) → quiet (bind_ m k).
Proof.
  intros Hm Hk w. destruct (Hm w) as (Hc & t & Hl & Ht). unfold bind_. destruct (m w) as [[e|x] w1]; simpl in *.
  - split; [done|]. by exists t.
  - destruct (Hk x w1) as (Hc' & t' & Hl' & Ht'). split; [congruence|]. exists (t ++ t').
    rewrite Hl', Hl, app_assoc. split; [done|]. by apply Forall_app.
Qed.

Lemma quiet_catch {A} (m : act A) h : quiet m → (∀ e, quiet (h e)) → quiet (catch m h).
Proof.
  intros Hm Hk w. destruct (Hm w) as (Hc & t & Hl & Ht). unfold catch. destruct (m w) as [[e|x] w1]; simpl in *.
  - destruct (Hk e w1) as (Hc' & t' & Hl' & Ht'). split; [congruence|]. exists (t ++ t').
    rewrite Hl', Hl, app_assoc. split; [done|]. by apply Forall_app.
  - split; [done|]. by exists t.
Qed.

Lemma quiet_finally {A} (m : act A) f : quiet m → quiet f → quiet (finally m f).
Proof.
  intros Hm Hf w. destruct (Hm w) as (Hc & t & Hl & Ht). unfold finally. destruct (m w) as [r w1]; simpl in *.
  destruct (Hf w1) as (Hc' & t' & Hl' & Ht'). destruct (f w1) as [[e|[]] w2]; simpl in *;
    (split; [congruence|]; exists (t ++ t'); rewrite Hl', Hl, app_assoc; split; [done|]; by apply Forall_app).
Qed.

Lemma quiet_check b e : quiet (check b e).
Proof. destruct b; [apply quiet_ret|apply quiet_raise]. Qed.
Lemma quiet_raised r : quiet (raised r).
Proof. destruct r; [apply quiet_raise|apply quiet_ret]. Qed.
Lemma quiet_value {A} (r : exc + A) : quiet (value r).
Proof. destruct r; [apply quiet_raise|apply quiet_ret]. Qed.

Create HintDb quiet.
#[export] Hint Resolve quiet_ret quiet_raise quiet_get quiet_set_service quiet_problem quiet_check
  quiet_raised quiet_value : quiet.

(** Follow the structure of an action. *)
Ltac quiet :=
  repeat match goal with
  | |- quiet (bind_ _ _) => apply quiet_bind; [|intros ?]
  | |- quiet (catch _ _) => apply quiet_catch; [|intros ?]
  | |- quiet (finally _ _) => apply quiet_finally
  | |- quiet (call _ _) => apply quiet_call; intros ?
  | |- quiet (if ?b then _ else _) => destruct b
  | |- quiet (match ?x with _ => _ end) => destruct x
  | |- quiet _ => solve [auto with quiet]
  | |- harmless _ = true => reflexivity
  end.

Section Custody.
Context (sys : System).

Lemma quiet_query : quiet (query sys).
Proof. unfold query. quiet. Qed.
Lemma quiet_open_by_name : quiet (open_by_name sys).
Proof. unfold open_by_name. quiet. Qed.
Lemma quiet_pids : quiet (image_pids sys).
Proof. unfold image_pids. quiet. Qed.
#[local] Hint Resolve quiet_query quiet_open_by_name quiet_pids : quiet.
Lemma quiet_absent : quiet (absent sys).
Proof. unfold absent. quiet. Qed.
Lemma quiet_close : quiet (close sys).
Proof. unfold close. quiet. Qed.
Lemma quiet_wait_state_loop wanted looks : quiet (wait_state_loop sys looks wanted).
Proof. induction looks as [|looks IH]; cbn [wait_state_loop]; quiet. Qed.
Lemma quiet_wait_state wanted timeout : quiet (wait_state sys wanted timeout).
Proof. apply quiet_wait_state_loop. Qed.
Lemma quiet_wait_worker host previous : quiet (wait_worker sys host previous).
Proof.
  unfold wait_worker. generalize 200%nat. intros looks.
  induction looks as [|looks IH]; cbn [wait_worker_loop]; quiet.
Qed.
Lemma quiet_wait_gone_loop looks : quiet (wait_gone_loop sys looks).
Proof. induction looks as [|looks IH]; cbn [wait_gone_loop]; quiet. Qed.
Lemma quiet_clients : quiet (clients_stage sys).
Proof. unfold clients_stage. quiet. Qed.
Lemma quiet_diagnostics : quiet (failure_diagnostics sys).
Proof. unfold failure_diagnostics. quiet. Qed.
#[local] Hint Resolve quiet_absent quiet_close quiet_wait_state quiet_wait_worker quiet_clients
  quiet_diagnostics : quiet.

(** ** The invariant *)

Definition custody (w : World) : Prop :=
  safe (log w)
  ∧ if created w then has_create (log w) else ¬ has_create (log w) ∨ has_deleted (log w).

Definition held (w : World) : Prop := safe (log w) ∧ created w = true ∧ has_create (log w).

Lemma held_custody w : held w ↔ custody w ∧ created w = true.
Proof. unfold held, custody. destruct (created w); naive_solver. Qed.

Lemma quiet_custody {A} (m : act A) w : quiet m → custody w → custody (m w).2.
Proof.
  intros Hm [Hs Hc]. destruct (Hm w) as (E & t & El & Ht). unfold custody. rewrite E, El.
  split; [by apply safe_app|]. destruct (created w); [by apply create_mono|].
  destruct Hc as [Hc|Hc]; [left; by apply no_create_app|right; by apply deleted_mono].
Qed.

Lemma quiet_held {A} (m : act A) w : quiet m → held w → held (m w).2.
Proof.
  intros Hm Hw. apply held_custody in Hw as [Hc Ht]. apply held_custody.
  split; [by apply quiet_custody|]. destruct (Hm w) as [-> _]. done.
Qed.

(** While the service is held: from [P], the action keeps it held, and [Q]
    holds when it returns. *)
Definition spec {A} (P : World → Prop) (m : act A) (Q : A → World → Prop) : Prop :=
  ∀ w, held w → P w → held (m w).2 ∧ ∀ x, (m w).1 = inr x → Q x (m w).2.

Definition any {A} : A → World → Prop := λ _ _, True.

Lemma sp_quiet {A} P (m : act A) : quiet m → spec P m any.
Proof. intros Hm w Hw _. split; [by apply quiet_held|done]. Qed.

(** Harmless calls keep what was shown. *)
Lemma sp_frame {A} (F : history → Prop) (m : act A) :
  (∀ h t, F h → F (h ++ t)) → quiet m → spec (λ w, F (log w)) m (λ _ w, F (log w)).
Proof.
  intros HF Hm w Hw Hp. split; [by apply quiet_held|]. intros x _.
  destruct (Hm w) as (_ & t & -> & _). by apply HF.
Qed.

Lemma sp_bind {A B} P (m : act A) Q (k : A → act B) R :
  spec P m Q → (∀ x, spec (Q x) (k x) R) → spec P (bind_ m k) R.
Proof.
  intros Hm Hk w Hw Hp. destruct (Hm w Hw Hp) as [H1 H2]. unfold bind_.
  destruct (m w) as [[e|x] w1]; simpl in *; [done|]. apply Hk; [done|]. by apply H2.
Qed.

Lemma sp_ret {A} (P : World → Prop) (x : A) (Q : A → World → Prop) :
  (∀ w, P w → Q x w) → spec P (ret x) Q.
Proof. intros H w Hw Hp. split; [done|]. intros y [= <-]. by apply H. Qed.

Lemma sp_raise {A} P e (Q : A → World → Prop) : spec P (raise e) Q.
Proof. intros w Hw Hp. by split. Qed.

Lemma sp_check (P : World → Prop) b e (Q : unit → World → Prop) :
  (b = true → ∀ w, P w → Q () w) → spec P (check b e) Q.
Proof. destruct b; intros H; [apply sp_ret; by apply H|apply sp_raise]. Qed.

Lemma sp_weaken {A} (P P' : World → Prop) (m : act A) (Q Q' : A → World → Prop) :
  spec P m Q → (∀ w, P' w → P w) → (∀ x w, Q x w → Q' x w) → spec P' m Q'.
Proof. intros H HP HQ w Hw Hp. destruct (H w Hw (HP w Hp)) as [H1 H2]. split; [done|]. eauto. Qed.

Lemma sp_catch {A} P (m : act A) h Q : spec P m Q → (∀ e, spec (λ _, True) (h e) Q) → spec P (catch m h) Q.
Proof.
  intros Hm Hh w Hw Hp. destruct (Hm w Hw Hp) as [H1 H2]. unfold catch.
  destruct (m w) as [[e|x] w1]; simpl in *; [by apply Hh|]. split; [done|]. intros y [= <-]. by apply H2.
Qed.

(** While it is held, the service is created. *)
Lemma sp_created {A} P (k : bool → act A) Q : spec P (k true) Q → spec P (bind_ (get created) k) Q.
Proof. intros H w Hw Hp. unfold bind_, get. pose proof Hw as (_ & -> & _). by apply H. Qed.

(** A call that its condition allows. *)
Lemma sp_call {A} P (f : history → A) (ev : A → event) (Q : A → World → Prop) :
  (∀ w a, has_create (log w) → P w → allowed (log w) (ev a)) →
  (∀ w a h, P w → has_create h → log w = h →
     Q a (mkWorld (service w) (created w) (problems w) (h ++ [ev a]))) →
  spec P (call f ev) Q.
Proof.
  intros Ha HQ w (Hs & Hc & Hcr) Hp. unfold call. simpl. split.
  - split; [by apply safe_snoc, Ha|]. split; [done|]. by apply create_mono.
  - intros a [= <-]. by apply HQ.
Qed.

(** ** Stopping *)

(** The last call was this answer of the service, which the run created. *)
Definition reported (st : ServiceStatusProcess) (w : World) : Prop :=
  ∃ h, log w = h ++ [QueryServiceStatusEx (Some st)] ∧ has_create h.

Lemma sp_query P : spec P (query sys) reported.
Proof.
  unfold query. eapply sp_bind.
  - apply (sp_call P _ _ (λ r w, ∃ h, log w = h ++ [QueryServiceStatusEx r] ∧ has_create h)); [done|].
    intros w a h _ Hh E. by exists h.
  - intros [st|]; [by apply sp_ret|apply sp_raise].
Qed.

Lemma reported_stopped st w : reported st w → state st = SERVICE_STOPPED → has_stopped (log w).
Proof. intros (h & -> & Hc) Hs. by apply stopped_intro. Qed.

Lemma sp_wait_state P wanted timeout :
  spec P (wait_state sys wanted timeout) (λ st w, state st = wanted ∧ reported st w).
Proof.
  unfold wait_state. generalize (Z.to_nat (4 * timeout)). intros looks. revert P.
  assert (Hlate : ∀ P, spec P (query sys ;;% raise TimeoutError)%scm (λ st w, state st = wanted ∧ reported st w))
    by (intros P; eapply sp_bind; [apply sp_query|intros x; apply sp_raise]).
  induction looks as [|looks IH]; intros P; cbn [wait_state_loop]; [apply Hlate|].
  eapply sp_bind; [apply (sp_quiet P); quiet|]. intros []; [|apply Hlate].
  eapply sp_bind; [apply sp_query|]. intros st. destruct (Z.eqb_spec (state st) wanted) as [E|E].
  - by apply sp_ret.
  - destruct (_ && _); [apply sp_raise|apply IH].
Qed.

Lemma sp_wait_stopped P timeout :
  spec P (wait_state sys SERVICE_STOPPED timeout) (λ _ w, has_stopped (log w)).
Proof.
  eapply sp_weaken; [apply (sp_wait_state P)|done|]. intros st w [Hs Hr]. by eapply reported_stopped.
Qed.

Lemma sp_stop_now P st : spec P (stop_now sys st) (λ _ w, has_stopped (log w)).
Proof.
  unfold stop_now. eapply (sp_bind P _ any).
  - destruct (_ =? SERVICE_RUNNING).
    + eapply sp_bind; [apply (sp_call P _ _ any); done|]. intros ok. by apply sp_check.
    + by apply sp_check.
  - intros []. eapply sp_bind; [apply sp_wait_stopped|]. intros final. by apply sp_check.
Qed.

Lemma sp_stop depth : ∀ P, spec P (stop sys depth) (λ _ w, has_stopped (log w)).
Proof.
  induction depth as [|depth IH]; intros P; cbn [stop]; [apply sp_raise|].
  apply sp_created. cbn [negb].
  eapply sp_bind; [apply sp_query|]. intros st.
  destruct (Z.eqb_spec (state st) SERVICE_STOPPED) as [Es|Es].
  - apply sp_check. intros _ w' Hr. by eapply reported_stopped.
  - destruct (state st =? SERVICE_START_PENDING); [|apply sp_stop_now].
    intros w1 Hw1 Hp1. destruct (sp_wait_state (λ _, True) SERVICE_RUNNING 130 w1 Hw1 I) as [H1 _].
    destruct (wait_state sys SERVICE_RUNNING 130 w1) as [[e|st'] w2]; simpl in H1.
    + destruct e; try (by split).
      assert (Hs : spec (λ _, True) (again <-% query sys ;;
        if state again =? SERVICE_STOPPED then stop sys depth else raise AssertionError)%scm
        (λ _ w, has_stopped (log w))).
      { eapply sp_bind; [apply sp_query|]. intros again. destruct (_ =? _); [apply IH|apply sp_raise]. }
      exact (Hs w2 H1 I).
    + by apply (sp_stop_now (λ _, True)).
Qed.

(** ** Termination *)

(** The last calls, after the service was created. *)
Definition tail (t : list event) (w : World) : Prop := ∃ h, log w = h ++ t ∧ has_create h.

Lemma sp_tail {A} (f : history → A) ev t : (∀ a, harmless (ev a) = true) →
  spec (tail t) (call f ev) (λ a, tail (t ++ [ev a])).
Proof.
  intros He. apply sp_call.
  - intros w a _ _. specialize (He a). by destruct (ev a).
  - intros w a h (h0 & E & Hc) _ <-. exists h0. simpl. by rewrite E, app_assoc.
Qed.

Lemma sp_query_tail t : spec (tail t) (query sys) (λ st, tail (t ++ [QueryServiceStatusEx (Some st)])).
Proof.
  unfold query. eapply sp_bind; [by apply sp_tail|]. intros [st|]; [by apply sp_ret|apply sp_raise].
Qed.

Lemma sp_false {A} P e (k : unit → act A) Q : spec P (bind_ (check false e) k) Q.
Proof. intros w Hw Hp. by split. Qed.

Lemma sp_true {A} P e (k : unit → act A) Q : spec P (k ()) Q → spec P (bind_ (check true e) k) Q.
Proof. done. Qed.

Lemma sp_value {A B} P (r : exc + A) (k : A → act B) Q :
  (∀ x, r = inr x → spec P (k x) Q) → spec P (bind_ (value r) k) Q.
Proof. destruct r as [e|x]; intros H; [intros w Hw Hp; by split|by apply H]. Qed.

Lemma sp_terminate_opened binary p st : p ≠ 0 → pid st = p →
  spec (tail [QueryServiceStatusEx (Some st); OpenProcess p true]) (terminate_opened sys binary p)
    (λ _ w, has_stopped (log w)).
Proof.
  intros Hp0 Hp. unfold terminate_opened.
  eapply sp_bind; [by apply sp_tail|]. intros [img|]; [|apply sp_false]. apply sp_true.
  eapply sp_bind; [by apply sp_tail|]. intros []; [|apply sp_false]. apply sp_true.
  eapply sp_bind; [by apply sp_tail|]. intros r. apply sp_value. intros identical ->. cbn [app].
  destruct identical; [|apply sp_false]. apply sp_true.
  eapply sp_bind; [apply sp_query_tail|]. intros st2. cbn [app].
  destruct (Z.eqb_spec (state st2) SERVICE_STOPPED) as [E|E].
  { apply sp_ret. intros w (h & Hl & Hc). rewrite Hl.
    replace (h ++ _) with ((h ++ [QueryServiceStatusEx (Some st); OpenProcess p true; QueryImage (Some img);
      SamePath (plain_path img) true; SameFile (plain_path img) (inr true)]) ++ [QueryServiceStatusEx (Some st2)]) by (by rewrite <-app_assoc).
    apply stopped_intro; [by apply create_mono|done]. }
  destruct (Z.eqb_spec (pid st2) p) as [E2|E2]; [|apply sp_false]. apply sp_true.
  eapply sp_bind; [apply (sp_call _ _ _ any); [|done]|].
  { intros w a _ (h & Hl & Hc). exists h, st, img, st2. done. }
  intros killed. eapply (sp_bind _ _ any).
  - destruct killed; [by apply sp_ret|]. eapply sp_bind; [apply (sp_call _ _ _ any); done|].
    intros gone. by apply sp_check.
  - intros []. eapply sp_bind; [apply (sp_call _ _ _ any); done|]. intros gone.
    eapply (sp_bind _ _ any); [by apply sp_check|]. intros [].
    eapply sp_bind; [apply sp_wait_stopped|]. intros st3. by apply sp_ret.
Qed.

Lemma sp_finally {A} P (m : act A) f (F : history → Prop) :
  (∀ h t, F h → F (h ++ t)) → spec P m (λ _ w, F (log w)) → quiet f →
  spec P (finally m f) (λ _ w, F (log w)).
Proof.
  intros HF Hm Hf w Hw Hp. destruct (Hm w Hw Hp) as [H1 H2]. unfold finally.
  destruct (m w) as [r w1]. simpl in *. pose proof (quiet_held f w1 Hf H1) as Hh.
  destruct (Hf w1) as (_ & t & Hl & _). destruct (f w1) as [[e|[]] w2]; simpl in *; [by split|].
  split; [done|]. intros x Hx. rewrite Hl. apply HF. by eapply H2.
Qed.

Lemma sp_terminate binary P : spec P (terminate_verified_host sys binary) (λ _ w, has_stopped (log w)).
Proof.
  unfold terminate_verified_host. apply sp_created, sp_true.
  eapply sp_bind; [apply sp_query|]. intros st. destruct (Z.eqb_spec (state st) SERVICE_STOPPED) as [E|E].
  { apply sp_ret. intros w Hr. by eapply reported_stopped. }
  destruct (Z.eqb_spec (pid st) 0) as [E0|E0]; [apply sp_false|]. apply sp_true.
  eapply sp_bind; [apply (sp_tail _ (OpenProcess (pid st)) [QueryServiceStatusEx (Some st)]); done|].
  intros []; [|apply sp_false]. apply sp_true.
  apply sp_finally; [intros; by apply stopped_mono| |quiet].
  by apply sp_terminate_opened.
Qed.

(** ** Deletion *)

Lemma sp_wait_gone : spec (λ w, has_stopped (log w)) (wait_gone sys) (λ _ w, has_gone (log w)).
Proof.
  unfold wait_gone. generalize 60%nat. intros looks.
  assert (Hlate : spec (λ w, has_stopped (log w)) (image_pids sys ;;% raise AssertionError)%scm
    (λ (_ : unit) w, has_gone (log w))) by (eapply sp_bind; [apply (sp_quiet _ _ quiet_pids)|]; intros x; apply sp_raise).
  induction looks as [|looks IH]; cbn [wait_gone_loop]; [exact Hlate|].
  eapply sp_bind; [apply (sp_frame has_stopped); [intros; by apply stopped_mono|quiet]|].
  intros []; [|exact Hlate].
  eapply (sp_bind _ _ (λ (l : list Z) w, has_stopped (log w) ∧ (l = [] → has_gone (log w)))).
  - unfold image_pids. eapply sp_bind.
    + apply (sp_call _ _ _ (λ r w, has_stopped (log w) ∧ (r = inr [] → has_gone (log w)))); [done|].
      intros w a h Hs _ <-. simpl. split; [by apply stopped_mono|]. intros ->. by apply gone_intro.
    + intros [e|l]; [apply sp_raise|]. apply sp_ret. intros w [Hs Hg]. split; [done|]. intros ->. by apply Hg.
  - intros [|q l]; [apply sp_ret; intros w [_ Hg]; by apply Hg|].
    eapply sp_weaken; [apply IH|by intros w [Hs _]|done].
Qed.

Lemma bind_eq {A B} (m : act A) (k : A → act B) w :
  bind_ m k w = match m w with (inl e, w) => (inl e, w) | (inr x, w) => k x w end.
Proof. done. Qed.

(** After the deletion was accepted, the name is polled until it is free. *)
Lemma removed_custody looks : ∀ w, held w → DeleteService true ∈ log w →
  custody (removed_loop sys looks w).2
  ∧ ((removed_loop sys looks w).1 = inr () → created (removed_loop sys looks w).2 = false).
Proof.
  induction looks as [|looks IH]; intros w Hw Hd; cbn [removed_loop].
  { apply held_custody in Hw as [Hc _]. by split. }
  rewrite bind_eq. cbn [call]. set (w1 := mkWorld _ _ _ _).
  assert (Hw1 : held w1) by (apply (quiet_held (call (sys_time sys) BeforeDeadline) w); [quiet|done]).
  assert (Hd1 : DeleteService true ∈ log w1) by (apply elem_of_app; by left).
  clearbody w1. destruct (sys_time sys (log w)).
  2:{ apply held_custody in Hw1 as [Hc _]. by split. }
  rewrite bind_eq. unfold open_by_name. rewrite bind_eq. cbn [call].
  destruct (sys_open sys (log w1)) as [error|[]] eqn:Eo.
  - cbn [ret]. set (w2 := mkWorld _ _ _ _).
    assert (Hw2 : held w2).
    { pose proof (quiet_held (call (sys_open sys) OpenService) w1 ltac:(quiet) Hw1) as H.
      unfold call in H. rewrite Eo in H. exact H. }
    destruct (Z.eqb_spec error ERROR_SERVICE_DOES_NOT_EXIST) as [->|Hne].
    + split; [|done]. apply held_custody in Hw2 as [[Hs _] _]. split; [exact Hs|]. simpl. right.
      exists (log w1), []. done.
    + rewrite bind_eq. destruct (_ =? ERROR_SERVICE_MARKED_FOR_DELETE); simpl.
      * apply IH; [done|]. simpl. apply elem_of_app. by left.
      * apply held_custody in Hw2 as [Hc _]. by split.
  - rewrite bind_eq. cbn [call ret]. set (w2 := mkWorld _ _ _ _). apply IH.
    + pose proof (quiet_held (open_by_name sys) w1 quiet_open_by_name Hw1) as H.
      unfold open_by_name in H. rewrite bind_eq in H. cbn [call] in H. rewrite Eo in H. exact H.
    + simpl. rewrite !elem_of_app. by left; left.
Qed.

Lemma delete_custody w : held w → has_gone (log w) →
  custody (delete_owned sys w).2
  ∧ ((delete_owned sys w).1 = inr () → created (delete_owned sys w).2 = false).
Proof.
  intros Hw Hg. unfold delete_owned. rewrite bind_eq. cbn [get]. pose proof Hw as (Hs & Hc & Hcr).
  rewrite Hc. cbn [negb]. rewrite bind_eq. cbn [call]. set (w1 := mkWorld _ _ _ _).
  assert (Hw1 : held w1).
  { split; [by apply safe_snoc|]. split; [done|]. by apply create_mono. }
  destruct (sys_delete sys (log w)) eqn:Ed; rewrite bind_eq; cbn [check ret raise].
  2:{ apply held_custody in Hw1 as [H _]. by split. }
  rewrite bind_eq. cbn [call]. set (w2 := mkWorld _ _ _ (log w1 ++ _)).
  assert (Hw2 : held w2) by (apply (quiet_held (call (sys_close sys) CloseServiceHandle) w1); [quiet|done]).
  destruct (sys_close sys (log w1)) eqn:Ec; rewrite bind_eq; cbn [check ret raise].
  2:{ apply held_custody in Hw2 as [H _]. by split. }
  rewrite bind_eq. cbn [set_service]. apply removed_custody; [exact Hw2|].
  simpl. rewrite !elem_of_app. left. right. by apply list_elem_of_singleton.
Qed.

(** ** The clean-up *)

Lemma clean_custody binary depth w : custody w → custody (clean sys binary depth w).2.
Proof.
  intros Hc. unfold clean. rewrite bind_eq. cbn [get]. destruct (created w) eqn:Ew; [|done].
  assert (Hw : held w) by (by apply held_custody). unfold catch.
  assert (H : custody (clean_service sys binary depth w).2).
  { unfold clean_service. rewrite bind_eq.
    destruct (sp_catch (λ _, True) (stop sys depth) (λ e, problem e ;;% terminate_verified_host sys binary)%scm
      (λ _ w, has_stopped (log w)) (sp_stop depth _)) with (w := w) as [H1 H2]; [|done|done|].
    { intros e. eapply sp_bind; [apply (sp_quiet _ _ (quiet_problem e))|]. intros []. apply sp_terminate. }
    destruct (catch _ _ w) as [[e|[]] w1]; simpl in *; [by apply held_custody in H1 as [H _]|].
    specialize (H2 () eq_refl). rewrite bind_eq. destruct (sp_wait_gone w1 H1 H2) as [H3 H4].
    destruct (wait_gone sys w1) as [[e|[]] w2]; simpl in *; [by apply held_custody in H3 as [H _]|].
    specialize (H4 () eq_refl). rewrite bind_eq.
    destruct (sp_frame has_gone (catch (p <-% call (sys_port sys) PortRebound ;; raised p)%scm problem))
      with (w := w2) as [H5 H6]; [intros; by apply gone_mono|quiet|done|done|].
    destruct (catch _ _ w2) as [[e|[]] w3]; simpl in *; [by apply held_custody in H5 as [H _]|].
    by apply delete_custody; [|apply (H6 ())]. }
  destruct (clean_service sys binary depth w) as [[e|x] w1]; simpl in *; [|done].
  apply (quiet_custody (problem e) w1); [quiet|done].
Qed.

(** ** The run *)

Lemma sp_exercise P : spec P (exercise sys) any.
Proof.
  unfold exercise, start. eapply (sp_bind _ _ any).
  { eapply sp_bind; [apply (sp_call P _ _ any); done|]. intros ok. by apply sp_check. }
  intros []. apply sp_quiet. quiet.
Qed.

Lemma exercise_custody w : held w → custody (exercise sys w).2.
Proof. intros Hw. destruct (sp_exercise (λ _, True) w Hw I) as [H _]. by apply held_custody in H as [H _]. Qed.

(** The free name is seen before the service is created. *)
Lemma absent_free w : (absent sys w).1 = inr () → name_free (log (absent sys w).2).
Proof.
  unfold absent, open_by_name. rewrite !bind_eq. cbn [call].
  destruct (sys_open sys (log w)) as [error|[]] eqn:E; [|by rewrite !bind_eq]. cbn [ret].
  destruct (Z.eqb_spec error ERROR_SERVICE_DOES_NOT_EXIST) as [->|Hne]; [|done]. intros _. simpl.
  apply elem_of_app. right. by apply list_elem_of_singleton.
Qed.

Lemma free_app h t : name_free h → name_free (h ++ t).
Proof. intros H. apply elem_of_app. by left. Qed.

(** No service of the run exists yet, and the name is free. *)
Definition fresh (w : World) : Prop :=
  safe (log w) ∧ created w = false ∧ ¬ has_create (log w) ∧ name_free (log w).

Lemma quiet_fresh {A} (m : act A) w : quiet m → fresh w → fresh (m w).2.
Proof.
  intros Hm (Hs & Hc & Hn & Hf). destruct (Hm w) as (E & t & El & Ht). unfold fresh. rewrite E, El.
  split; [by apply safe_app|]. split; [done|]. split; [by apply no_create_app|by apply free_app].
Qed.

Lemma fresh_custody w : fresh w → custody w.
Proof. intros (Hs & Hc & Hn & _). split; [done|]. rewrite Hc. by left. Qed.

Lemma create_custody binary config absolute w : fresh w →
  custody (create sys binary config absolute w).2
  ∧ ((create sys binary config absolute w).1 = inr () → held (create sys binary config absolute w).2).
Proof.
  intros Hf. unfold create. rewrite bind_eq. cbn [get]. rewrite bind_eq.
  destruct (service w); cbn [negb check raise ret]; [split; [by apply fresh_custody|done]|].
  rewrite bind_eq. destruct absolute; cbn [check raise ret]; [|split; [by apply fresh_custody|done]].
  rewrite bind_eq. cbn [call]. set (command := _ ++ _ ++ _). destruct Hf as (Hs & Hc & Hn & Hfr).
  assert (Hsafe : ∀ ok, safe (log w ++ [CreateServiceW command ok])) by (intros ok; by apply safe_snoc).
  destruct (sys_create sys (log w)) eqn:Ecr; rewrite bind_eq; cbn [set_service]; rewrite bind_eq;
    cbn [check raise ret set_created service created problems log].
  - assert (Hcr : has_create (log w ++ [CreateServiceW command true])).
    { exists command. apply elem_of_app. right. by apply list_elem_of_singleton. }
    split; [split; [apply Hsafe|exact Hcr]|]. intros _. split; [apply Hsafe|]. split; [done|exact Hcr].
  - split; [|done]. split; [apply Hsafe|]. simpl. rewrite Hc. left. intros [c [H|H]%elem_of_app].
    + apply Hn. by exists c.
    + apply list_elem_of_singleton in H. discriminate.
Qed.

Lemma run_fixture_custody binary config absolute w : fresh w →
  custody (run_fixture sys binary config absolute w).2
  ∧ ((run_fixture sys binary config absolute w).1 = inr () →
     created (run_fixture sys binary config absolute w).2 = true).
Proof.
  intros Hf. unfold run_fixture.
  assert (Hstep : ∀ {A} (m : act A) (k : A → act unit), quiet m →
    (∀ x w, fresh w → custody (k x w).2 ∧ ((k x w).1 = inr () → created (k x w).2 = true)) →
    ∀ w, fresh w → custody (bind_ m k w).2 ∧ ((bind_ m k w).1 = inr () → created (bind_ m k w).2 = true)).
  { intros A m k Hm Hk w0 Hf0. rewrite bind_eq. pose proof (quiet_fresh m w0 Hm Hf0) as H.
    destruct (m w0) as [[e|x] w1]; simpl in *; [split; [by apply fresh_custody|done]|by apply Hk]. }
  revert w Hf. do 2 (apply Hstep; [quiet|intros ?]). do 3 (apply Hstep; [quiet|intros ?]).
  intros w Hf. rewrite bind_eq. destruct (create_custody binary config absolute w Hf) as [H1 H2].
  destruct (create sys binary config absolute w) as [[e|[]] w1]; simpl in *; [by split|].
  specialize (H2 eq_refl). split; [by apply exercise_custody|]. intros _.
  by destruct (sp_exercise (λ _, True) w1 H2 I) as [(_ & H & _) _].
Qed.

Lemma remove_custody w : custody w → created w = false → custody (remove_fixture sys w).2.
Proof.
  intros Hc Hf. unfold remove_fixture.
  assert (H : ∀ w, custody w → created w = false →
    custody ((removed <-% call (sys_remove sys) RemoveFixture ;; raised removed)%scm w).2).
  { clear. intros w [Hs Hc] Hf. rewrite bind_eq. cbn [call]. rewrite Hf in Hc.
    assert (H : custody (mkWorld (service w) (created w) (problems w)
      (log w ++ [RemoveFixture (sys_remove sys (log w))]))).
    { split; [by apply safe_snoc|]. simpl. rewrite Hf. destruct Hc as [Hc|Hc]; [left|right; by apply deleted_mono].
      intros [c [H|H]%elem_of_app]; [apply Hc; by exists c|]. apply list_elem_of_singleton in H. discriminate. }
    by destruct (sys_remove sys (log w)). }
  rewrite bind_eq. cbn [call]. set (w1 := mkWorld _ _ _ _).
  assert (H1 : custody w1) by (apply (quiet_custody (call (sys_resolve sys) ResolveFixture) w); [quiet|done]).
  rewrite bind_eq. destruct (sys_resolve sys (log w)) as [e|own]; cbn [value raise ret]; [done|].
  rewrite bind_eq. destruct own; cbn [check raise ret]; [|done]. by apply H.
Qed.

Lemma catch_problem {A} (m : act A) (h : exc → act A) w : custody (m w).2 → (∀ e, quiet (h e)) →
  custody (catch m h w).2.
Proof.
  intros Hc Hq. unfold catch. destruct (m w) as [[e|x] w1]; simpl in *; [|done].
  by apply (quiet_custody (h e) w1).
Qed.

Lemma body_custody depth binary config absolute w : fresh w →
  custody (body sys depth binary config absolute w).2.
Proof.
  intros Hf. unfold body. rewrite bind_eq.
  pose proof (catch_problem (run_fixture sys binary config absolute) problem w
    (proj1 (run_fixture_custody binary config absolute w Hf)) quiet_problem) as H1.
  destruct (catch _ _ w) as [[e|[]] w1]; simpl in H1; [done|]. rewrite bind_eq.
  pose proof (clean_custody binary depth w1 H1) as H2. destruct (clean sys binary depth w1) as [[e|[]] w2]; simpl in H2; [done|].
  rewrite bind_eq. cbn [get]. rewrite bind_eq.
  set (diag := match problems w2 with [] => ret () | _ => failure_diagnostics sys end).
  assert (H3 : custody (diag w2).2) by (apply quiet_custody; [unfold diag; quiet|done]).
  destruct (diag w2) as [[e|[]] w3]; simpl in H3; [done|]. clear diag.
  rewrite bind_eq. cbn [get]. rewrite bind_eq. set (rm := if created w3 then ret () else _).
  assert (H4 : custody (rm w3).2).
  { unfold rm. destruct (created w3) eqn:Ec; [done|]. apply catch_problem; [by apply remove_custody|].
    intros e. apply quiet_problem. }
  destruct (rm w3) as [[e|[]] w4]; simpl in H4; [done|]. rewrite bind_eq. cbn [get].
  by destruct (problems w4).
Qed.

Definition start_world : World := mkWorld false false [] [].

(** Nothing of the run exists. *)
Definition clear (w : World) : Prop := safe (log w) ∧ created w = false ∧ ¬ has_create (log w).

Lemma quiet_clear {A} (m : act A) w : quiet m → clear w → clear (m w).2.
Proof.
  intros Hm (Hs & Hc & Hn). destruct (Hm w) as (E & t & El & Ht). unfold clear. rewrite E, El.
  split; [by apply safe_app|]. split; [done|]. by apply no_create_app.
Qed.

Lemma clear_custody w : clear w → custody w.
Proof. intros (Hs & Hc & Hn). split; [done|]. rewrite Hc. by left. Qed.

Lemma open_manager_clear create w : clear w → clear (open_manager sys create w).2.
Proof.
  intros Hw. unfold open_manager. rewrite bind_eq. cbn [call]. set (w1 := mkWorld _ _ _ _).
  assert (H1 : clear w1) by (apply (quiet_clear (call (sys_manager sys) (OpenSCManager create)) w); [quiet|done]).
  clearbody w1. rewrite bind_eq. destruct (sys_manager sys (log w)); cbn [check raise ret]; [|done].
  rewrite bind_eq. cbn [set_service set_created]. destruct H1 as (Hs & _ & Hn). by split.
Qed.

Lemma main_custody depth binary config absolute :
  custody (main sys depth binary config absolute start_world).2.
Proof.
  unfold main. rewrite bind_eq. unfold preflight. rewrite bind_eq.
  assert (H0 : clear start_world) by (split; [apply safe_nil|]; split; [done|]; intros [c H]; by apply elem_of_nil in H).
  pose proof (open_manager_clear false start_world H0) as H1.
  destruct (open_manager sys false start_world) as [[e|[]] w1]; simpl in H1; [by apply clear_custody|].
  assert (H2 : clear (finally (absent sys) (close sys) w1).2) by (apply quiet_clear; [quiet|done]).
  destruct (finally (absent sys) (close sys) w1) as [[e|[]] w2]; simpl in H2; [by apply clear_custody|].
  rewrite bind_eq. pose proof (open_manager_clear true w2 H2) as H3.
  destruct (open_manager sys true w2) as [[e|[]] w3]; simpl in H3; [by apply clear_custody|].
  assert (H4 : custody ((absent sys ;;% body sys depth binary config absolute)%scm w3).2).
  { rewrite bind_eq. pose proof (quiet_clear (absent sys) w3 quiet_absent H3) as Ha.
    pose proof (absent_free w3) as Hf. destruct (absent sys w3) as [[e|[]] w4]; simpl in *; [by apply clear_custody|].
    apply body_custody. destruct Ha as (Hs & Hc & Hn). split; [done|]. split; [done|]. split; [done|]. by apply Hf. }
  unfold finally. destruct ((absent sys ;;% body sys depth binary config absolute)%scm w3) as [r w4]. simpl in H4.
  pose proof (quiet_custody (close sys) w4 quiet_close H4) as H5.
  by destruct (close sys w4) as [[e|[]] w5].
Qed.
End Custody.

(** C5: Custody of the service.  Whatever the service manager, the kernel and
    the file system answer, in every run of the program: a service is created
    at most once and only after its name was seen free; nothing is started or
    stopped before the run created it; a process is terminated only right
    after it was verified to be the host of the created service, by its image
    and by a second report of the manager; the service is deleted only after
    it was seen stopped and then no process of its image was left; and the
    fixture is removed only when the run created no service or the name was
    seen free again after the deletion.  When the program still considers the
    service its own at the end, it did create it. *)
Theorem scm_custody sys depth binary config absolute :
  let w := (main sys depth binary config absolute start_world).2 in
  safe (log w) ∧ (created w = true → has_create (log w)).
Proof.
  intros w. destruct (main_custody sys depth binary config absolute) as [Hs Hc]. fold w in Hs, Hc.
  split; [done|]. intros E. by rewrite E in Hc.
Qed.

(** ** A run that succeeds *)

(** The problems of a run are never dropped. *)
Definition grows {A} (m : act A) : Prop := ∀ w, ∃ t, problems (m w).2 = problems w ++ t.

Lemma grows_same {A} (m : act A) : (∀ w, problems (m w).2 = problems w) → grows m.
Proof. intros H w. exists []. by rewrite H, app_nil_r. Qed.

Lemma grows_bind {A B} (m : act A) (k : A → act B) : grows m → (∀ x, grows (k x)) → grows (bind_ m k).
Proof.
  intros Hm Hk w. destruct (Hm w) as [t Ht]. rewrite bind_eq. destruct (m w) as [[e|x] w1]; simpl in *; [by exists t|].
  destruct (Hk x w1) as [t' Ht']. exists (t ++ t'). by rewrite Ht', Ht, app_assoc.
Qed.

Lemma grows_catch {A} (m : act A) h : grows m → (∀ e, grows (h e)) → grows (catch m h).
Proof.
  intros Hm Hk w. destruct (Hm w) as [t Ht]. unfold catch. destruct (m w) as [[e|x] w1]; simpl in *; [|by exists t].
  destruct (Hk e w1) as [t' Ht']. exists (t ++ t'). by rewrite Ht', Ht, app_assoc.
Qed.

Lemma grows_finally {A} (m : act A) f : grows m → grows f → grows (finally m f).
Proof.
  intros Hm Hf w. destruct (Hm w) as [t Ht]. unfold finally. destruct (m w) as [r w1]; simpl in *.
  destruct (Hf w1) as [t' Ht']. destruct (f w1) as [[e|[]] w2]; simpl in *;
    exists (t ++ t'); by rewrite Ht', Ht, app_assoc.
Qed.

Lemma grows_problem e : grows (problem e).
Proof. intros w. by exists [e]. Qed.

Lemma grows_check b e : grows (check b e).
Proof. apply grows_same. by destruct b. Qed.
Lemma grows_raised r : grows (raised r).
Proof. apply grows_same. by destruct r. Qed.
Lemma grows_value {A} (r : exc + A) : grows (value r).
Proof. apply grows_same. by destruct r. Qed.

Create HintDb grows.
#[export] Hint Resolve grows_problem grows_check grows_raised grows_value : grows.

Ltac grows :=
  repeat match goal with
  | |- grows (bind_ _ _) => apply grows_bind; [|intros ?]
  | |- grows (catch _ _) => apply grows_catch; [|intros ?]
  | |- grows (finally _ _) => apply grows_finally
  | |- grows (if ?b then _ else _) => destruct b
  | |- grows (match ?x with _ => _ end) => destruct x
  | |- grows _ => solve [auto with grows | apply grows_same; reflexivity]
  end.

Section Success.
Context (sys : System).

Lemma grows_query : grows (query sys).
Proof. unfold query. grows. Qed.
Lemma grows_pids : grows (image_pids sys).
Proof. unfold image_pids. grows. Qed.
Lemma grows_by_name : grows (open_by_name sys).
Proof. unfold open_by_name. grows. Qed.
#[local] Hint Resolve grows_query grows_pids grows_by_name : grows.
Lemma grows_wait wanted timeout : grows (wait_state sys wanted timeout).
Proof.
  unfold wait_state. generalize (Z.to_nat (4 * timeout)). intros looks.
  induction looks as [|looks IH]; cbn [wait_state_loop]; grows.
Qed.
#[local] Hint Resolve grows_wait : grows.
Lemma grows_gone : grows (wait_gone sys).
Proof. unfold wait_gone. generalize 60%nat. intros looks. induction looks as [|looks IH]; cbn [wait_gone_loop]; grows. Qed.
Lemma grows_removed looks : grows (removed_loop sys looks).
Proof. induction looks as [|looks IH]; cbn [removed_loop]; grows. Qed.
Lemma grows_stop depth : grows (stop sys depth).
Proof.
  induction depth as [|depth IH]; cbn [stop]; [grows|]. apply grows_bind; [grows|]. intros c.
  destruct (negb c); [grows|]. apply grows_bind; [grows|]. intros st. destruct (_ =? SERVICE_STOPPED); [grows|].
  assert (Hnow : ∀ st, grows (stop_now sys st)) by (intros st'; unfold stop_now; grows).
  destruct (_ =? SERVICE_START_PENDING); [|apply Hnow]. intros w.
  destruct (grows_wait SERVICE_RUNNING 130 w) as [t Ht].
  destruct (wait_state sys SERVICE_RUNNING 130 w) as [[e|st'] w1]; simpl in Ht.
  - assert (Ha : grows (again <-% query sys ;;
      if state again =? SERVICE_STOPPED then stop sys depth else raise AssertionError)%scm) by grows.
    destruct e; try (by exists t). destruct (Ha w1) as [t' Ht']. exists (t ++ t'). by rewrite Ht', Ht, app_assoc.
  - destruct (Hnow st' w1) as [t' Ht']. exists (t ++ t'). by rewrite Ht', Ht, app_assoc.
Qed.
#[local] Hint Resolve grows_gone grows_removed grows_stop : grows.

Lemma grows_clean_service binary depth : grows (clean_service sys binary depth).
Proof. unfold clean_service, terminate_verified_host, terminate_opened, delete_owned. grows. Qed.
#[local] Hint Resolve grows_clean_service : grows.
Lemma grows_clean binary depth : grows (clean sys binary depth).
Proof. unfold clean. grows. Qed.
Lemma grows_rest : grows (failure_diagnostics sys) ∧ grows (catch (remove_fixture sys) problem).
Proof. unfold failure_diagnostics, remove_fixture. split; grows. Qed.

Lemma grows_nil {A} (m : act A) w : grows m → problems (m w).2 = [] → problems w = [].
Proof. intros Hm E. destruct (Hm w) as [t Ht]. rewrite E in Ht. symmetry in Ht. by apply app_eq_nil in Ht as [? _]. Qed.

(** A guarded action that left no problem succeeded. *)
Lemma caught (m : act unit) w : problems (catch m problem w).2 = [] → ∃ w', m w = (inr (), w') ∧ catch m problem w = (inr (), w').
Proof.
  unfold catch. destruct (m w) as [[e|[]] w1]; simpl; [|by exists w1]. intros H%app_eq_nil. by destruct H.
Qed.

Lemma removed_log looks : ∀ w, ∃ t, log (removed_loop sys looks w).2 = log w ++ t.
Proof.
  induction looks as [|looks IH]; intros w; cbn [removed_loop]; [exists []; by rewrite app_nil_r|].
  rewrite bind_eq. cbn [call]. destruct (sys_time sys (log w)); [|by eexists].
  set (w1 := mkWorld _ _ _ _). destruct (quiet_open_by_name sys w1) as (_ & t & Ht & _).
  rewrite bind_eq. destruct (open_by_name sys w1) as [[e|[error|[]]] w2]; simpl in *.
  - exists (BeforeDeadline true :: t). by rewrite Ht, <-app_assoc.
  - assert (Hr : ∃ t', log (removed_loop sys looks w2).2 = log w ++ t').
    { destruct (IH w2) as [t' Ht']. exists (BeforeDeadline true :: t ++ t'). by rewrite Ht', Ht, <- !app_assoc. }
    destruct (_ =? _); [exists (BeforeDeadline true :: t); simpl; by rewrite Ht, <-app_assoc|].
    rewrite bind_eq. destruct (_ =? _); simpl; [exact Hr|].
    exists (BeforeDeadline true :: t). by rewrite Ht, <-app_assoc.
  - destruct (IH w2) as [t' Ht']. exists (BeforeDeadline true :: t ++ t'). by rewrite Ht', Ht, <- !app_assoc.
Qed.

Lemma delete_log w : ∃ t, log (delete_owned sys w).2 = log w ++ t.
Proof.
  unfold delete_owned. rewrite bind_eq. cbn [get]. destruct (created w); cbn [negb]; [|exists []; by rewrite app_nil_r].
  rewrite bind_eq. cbn [call]. rewrite bind_eq. destruct (sys_delete sys (log w)); cbn [check ret raise]; [|by eexists].
  rewrite bind_eq. cbn [call]. rewrite bind_eq. destruct (sys_close _ _); cbn [check ret raise].
  - rewrite bind_eq. cbn [set_service]. set (w1 := mkWorld _ _ _ _). destruct (removed_log 80 w1) as [t Ht].
    eexists. rewrite Ht. simpl. rewrite <- !app_assoc. reflexivity.
  - eexists. simpl. rewrite <-app_assoc. reflexivity.
Qed.

Lemma clean_done binary depth w : custody w → created w = true → problems (clean sys binary depth w).2 = [] →
  created (clean sys binary depth w).2 = false ∧ has_deleted (log (clean sys binary depth w).2).
Proof.
  intros Hc Hcr. pose proof (clean_custody sys binary depth w Hc) as Hcu. revert Hcu.
  unfold clean. rewrite bind_eq. cbn [get]. rewrite Hcr. intros Hcu Hp.
  destruct (caught _ _ Hp) as (w' & E & E'). rewrite E' in *. simpl in *.
  assert (Hw : held w) by (by apply held_custody).
  assert (H : created w' = false ∧ has_create (log w')).
  { unfold clean_service in E. rewrite bind_eq in E.
    destruct (sp_catch (λ _, True) (stop sys depth) (λ e, problem e ;;% terminate_verified_host sys binary)%scm
      (λ _ w, has_stopped (log w)) (sp_stop sys depth _)) with (w := w) as [H1 H2]; [|done|done|].
    { intros e. eapply sp_bind; [apply (sp_quiet _ _ (quiet_problem e))|]. intros []. apply sp_terminate. }
    destruct (catch _ _ w) as [[e|[]] w1]; simpl in *; [done|]. specialize (H2 () eq_refl).
    rewrite bind_eq in E. destruct (sp_wait_gone sys w1 H1 H2) as [H3 H4].
    destruct (wait_gone sys w1) as [[e|[]] w2]; simpl in *; [done|]. specialize (H4 () eq_refl).
    rewrite bind_eq in E.
    destruct (sp_frame has_gone (catch (p <-% call (sys_port sys) PortRebound ;; raised p)%scm problem))
      with (w := w2) as [H5 H6]; [intros; by apply gone_mono|quiet|done|done|].
    destruct (catch _ _ w2) as [[e|[]] w3]; simpl in *; [done|]. specialize (H6 () eq_refl).
    destruct (delete_custody sys w3 H5 H6) as [_ H8]. destruct (delete_log w3) as [t Ht].
    rewrite E in H8, Ht. simpl in *. split; [by apply H8|]. rewrite Ht.
    destruct H5 as (_ & _ & H5). by apply create_mono. }
  destruct H as [H1 H2]. split; [done|]. destruct Hcu as [_ Hcu]. rewrite H1 in Hcu.
  destruct Hcu; [contradiction|done].
Qed.

Lemma remove_done w w' : remove_fixture sys w = (inr (), w') → RemoveFixture None ∈ log w'.
Proof.
  unfold remove_fixture. rewrite bind_eq. cbn [call]. rewrite bind_eq.
  destruct (sys_resolve sys (log w)) as [e|[]]; cbn [value raise ret]; [done| |done].
  rewrite bind_eq. cbn [check ret]. rewrite bind_eq. cbn [call].
  destruct (sys_remove sys _) as [e|] eqn:E; [done|]. intros [= <-]. simpl.
  apply elem_of_app. right. by apply list_elem_of_singleton.
Qed.

Lemma remove_log w : ∃ t, log (catch (remove_fixture sys) problem w).2 = log w ++ t.
Proof.
  unfold catch, remove_fixture. rewrite bind_eq. cbn [call]. rewrite bind_eq.
  destruct (sys_resolve sys (log w)) as [e|[]]; cbn [value raise ret]; [by eexists| |by eexists].
  rewrite bind_eq. cbn [check ret]. rewrite bind_eq. cbn [call].
  destruct (sys_remove sys _) as [e|]; cbn [raised raise ret problem]; eexists; simpl; rewrite <-app_assoc; reflexivity.
Qed.

Lemma catch_created w : created (catch (remove_fixture sys) problem w).2 = created w.
Proof.
  unfold catch, remove_fixture. rewrite bind_eq. cbn [call]. rewrite bind_eq.
  destruct (sys_resolve sys (log w)) as [e|[]]; cbn [value raise ret]; [done| |done].
  rewrite bind_eq. cbn [check ret]. rewrite bind_eq. cbn [call]. by destruct (sys_remove sys _).
Qed.

Lemma body_done depth binary config absolute w w' : fresh w →
  body sys depth binary config absolute w = (inr (), w') →
  created w' = false ∧ has_deleted (log w') ∧ RemoveFixture None ∈ log w'.
Proof.
  intros Hf. unfold body. rewrite bind_eq. destruct (grows_rest) as [Gd Gr].
  pose proof (run_fixture_custody sys binary config absolute w Hf) as [C1 C2].
  pose proof (catch_problem (run_fixture sys binary config absolute) problem w C1 quiet_problem) as Hc1.
  pose proof (caught (run_fixture sys binary config absolute) w) as K1.
  destruct (catch (run_fixture sys binary config absolute) problem w) as [[e|[]] w1]; simpl in *; [done|].
  rewrite bind_eq. pose proof (clean_done binary depth w1) as Hd. pose proof (grows_nil (clean sys binary depth) w1 (grows_clean binary depth)) as G1.
  destruct (clean sys binary depth w1) as [[e|[]] w2]; simpl in *; [done|].
  rewrite bind_eq. cbn [get]. rewrite bind_eq.
  set (diag := match problems w2 with [] => ret () | _ => failure_diagnostics sys end).
  assert (G2 : grows diag) by (unfold diag; destruct (problems w2); [by apply grows_same|done]).
  assert (Q2 : quiet diag) by (unfold diag; destruct (problems w2); [apply quiet_ret|apply quiet_diagnostics]).
  pose proof (grows_nil diag w2 G2) as G2'. destruct (Q2 w2) as (Ec & t & Hl & _).
  destruct (diag w2) as [[e|[]] w3]; simpl in *; [done|]. clear diag G2 Q2.
  rewrite bind_eq. cbn [get]. rewrite bind_eq.
  pose proof (grows_nil (catch (remove_fixture sys) problem) w3 Gr) as G3.
  pose proof (caught (remove_fixture sys) w3) as K3. destruct (remove_log w3) as [t' Hl'].
  pose proof (catch_created w3) as Ecr.
  destruct (created w3) eqn:Ew3; cbn [ret].
  { rewrite bind_eq. cbn [get]. destruct (problems w3) eqn:Ep; [|done]. intros [= <-].
    destruct K1 as (w1' & Er & [= ->]); [by apply G1, G2'|]. rewrite Er in C2. simpl in C2.
    destruct Hd as [Hd _]; [done|by apply C2|by apply G2'|]. congruence. }
  destruct (catch (remove_fixture sys) problem w3) as [[e|[]] w4]; simpl in *; [done|].
  rewrite bind_eq. cbn [get]. destruct (problems w4) eqn:Ep; [|done]. intros [= <-].
  destruct K3 as (w4' & Erm & [= ->]); [done|].
  destruct K1 as (w1' & Er & [= ->]); [by apply G1, G2', G3|]. rewrite Er in C2. simpl in C2.
  destruct Hd as [Hd1 Hd2]; [done|by apply C2|by apply G2', G3|].
  split; [congruence|]. split; [rewrite Hl', Hl; by do 2 apply deleted_mono|by eapply remove_done].
Qed.
End Success.

(** C25: A run of the service test that reports success has left nothing
    behind: the service it created was deleted, after it was stopped and its
    processes were gone, the name was seen free, and the fixture directory was
    removed. *)
Theorem scm_success sys depth binary config absolute w :
  main sys depth binary config absolute start_world = (inr (), w) →
  created w = false ∧ has_deleted (log w) ∧ RemoveFixture None ∈ log w
  ∧ ∃ a b, log w = a ++ DeleteService true :: b ∧ has_gone a.
Proof.
  intros E. destruct (main_custody sys depth binary config absolute) as [Hs _]. rewrite E in Hs. simpl in Hs.
  assert (H : created w = false ∧ has_deleted (log w) ∧ RemoveFixture None ∈ log w).
  { unfold main in E. rewrite bind_eq in E. unfold preflight in E. rewrite bind_eq in E.
    assert (H0 : clear start_world) by (split; [apply safe_nil|]; split; [done|]; intros [c H]; by apply elem_of_nil in H).
    pose proof (open_manager_clear sys false start_world H0) as H1.
    destruct (open_manager sys false start_world) as [[e|[]] w1]; simpl in H1; [done|].
    assert (H2 : clear (finally (absent sys) (close sys) w1).2)
      by (apply quiet_clear; [apply quiet_finally; [apply quiet_absent|apply quiet_close]|done]).
    destruct (finally (absent sys) (close sys) w1) as [[e|[]] w2]; simpl in H2; [done|].
    rewrite bind_eq in E. pose proof (open_manager_clear sys true w2 H2) as H3.
    destruct (open_manager sys true w2) as [[e|[]] w3]; simpl in H3; [done|].
    unfold finally in E. rewrite bind_eq in E.
    pose proof (quiet_clear (absent sys) w3 (quiet_absent sys) H3) as Ha. pose proof (absent_free sys w3) as Hf.
    destruct (absent sys w3) as [[e|[]] w4]; simpl in *; [by destruct (close sys w4) as [[?|[]] ?]|].
    assert (Hfr : fresh w4).
    { destruct Ha as (A1 & A2 & A3). split; [done|]. split; [done|]. split; [done|]. by apply Hf. }
    pose proof (body_done sys depth binary config absolute w4) as Hb.
    destruct (body sys depth binary config absolute w4) as [[e|[]] w5]; [by destruct (close sys w5) as [[?|[]] ?]|].
    destruct (Hb w5 Hfr eq_refl) as (B1 & B2 & B3). destruct (quiet_close sys w5) as (Ec & t & Hl & _).
    destruct (close sys w5) as [[?|[]] w6]; [done|]. injection E as <-. simpl in *.
    rewrite Ec, Hl. split; [done|]. split; [by apply deleted_mono|]. apply elem_of_app. by left. }
  destruct H as (H1 & H2 & H3). split; [done|]. split; [done|]. split; [done|].
  destruct H2 as (a & b & El & Hin). apply list_elem_of_split in Hin as (a1 & a2 & ->).
  exists a1, (a2 ++ OpenService (inl ERROR_SERVICE_DOES_NOT_EXIST) :: b).
  assert (El' : log w = a1 ++ DeleteService true :: (a2 ++ OpenService (inl ERROR_SERVICE_DOES_NOT_EXIST) :: b))
    by (rewrite El, <-app_assoc; reflexivity).
  split; [exact El'|]. exact (Hs _ _ _ El').
Qed.

(** A system on which everything works: the worker is replaced once the
    clients have run, and the stop request stops the service. *)
Definition asked (h : history) : bool := existsb (λ e, match e with ControlStop _ => true | _ => false end) h.
Definition served (h : history) : bool := existsb (λ e, match e with Exercise _ => true | _ => false end) h.

Definition cooperating : System :=
  {| sys_manager := λ _, true;
     sys_open := λ _, inl ERROR_SERVICE_DOES_NOT_EXIST;
     sys_create := λ _, true; sys_start := λ _, true;
     sys_query := λ h, Some (if asked h then mkStatus SERVICE_STOPPED 0 0 0 else mkStatus SERVICE_RUNNING 0 0 7);
     sys_control := λ _, true; sys_delete := λ _, true; sys_close := λ _, true; sys_time := λ _, true;
     sys_open_process := λ _, true; sys_image := λ _, Some (u "onyx"); sys_abspath := λ p, p; sys_normcase := lower;
     sys_same_file := λ _, inr true; sys_terminate := λ _, true; sys_wait := λ _, true;
     sys_pids := λ h, inr (if asked h then [] else if served h then [7; 9] else [7; 8]);
     sys_port := λ _, None; sys_setup := λ _, None; sys_check := λ _, inr true; sys_clients := λ _, None;
     sys_resolve := λ _, inr true; sys_remove := λ _, None |}.

Lemma scm_success_witness :
  ∃ w, main cooperating 10 (u "C:/f/onyx.exe") (u "C:/f/server.toml") true start_world = (inr (), w)
    ∧ has_deleted (log w) ∧ RemoveFixture None ∈ log w.
Proof.
  destruct (main cooperating 10 (u "C:/f/onyx.exe") (u "C:/f/server.toml") true start_world) as [r w] eqn:E.
  assert (Hr : r = inr ()).
  { change r with (r, w).1. rewrite <-E. vm_compute. reflexivity. }
  rewrite Hr in E. exists w. rewrite Hr. split; [reflexivity|].
  destruct (scm_success cooperating 10 (u "C:/f/onyx.exe") (u "C:/f/server.toml") true w E) as (_ & H1 & H2 & _).
  exact (conj H1 H2).
Defined.

(** When the service ignores the stop request, its verified host is
    terminated. *)
Example stalled_terminates :
  let stalled := mkSystem (λ _, true) (λ _, inl ERROR_SERVICE_DOES_NOT_EXIST) (λ _, true) (λ _, true)
    (λ h, Some (if existsb (λ e, match e with TerminateProcess _ _ => true | _ => false end) h
                then mkStatus SERVICE_STOPPED 0 0 0 else mkStatus SERVICE_RUNNING 0 0 7))
    (λ _, false) (λ _, true) (λ _, true) (λ _, true) (λ _, true) (λ _, Some (u "b")) id lower
    (λ _, inr true) (λ _, true) (λ _, true)
    (λ h, inr (if existsb (λ e, match e with TerminateProcess _ _ => true | _ => false end) h then []
               else if served h then [7; 9] else [7; 8]))
    (λ _, None) (λ _, None) (λ _, inr true) (λ _, None) (λ _, inr true) (λ _, None) in
  let r := main stalled 10 (u "b") (u "c") true start_world in
  r.1 = inl WinError ∧ created r.2 = false ∧ TerminateProcess 7 true ∈ log r.2.
Proof.
  split; [vm_compute; reflexivity|]. split; [vm_compute; reflexivity|].
  apply list_elem_of_In. vm_compute. repeat (first [left; reflexivity|right]).
Qed.
