(* ===== verification/MeshChat.v ===== *)
(** * tools/mesh_chat_smoke.py: two clients across the mesh

    The environment and the endpoints, the minimal IRC client with capability
    negotiation and optional SASL PLAIN, the waiting loop over both sockets and
    the main program.  What the sockets deliver until the deadline is an
    argument; writes succeed. *)

From S2P Require Import Prelude PyStr Base64.

(** ** Environment *)

Abbreviation environ := (gmap pystr pystr) (only parsing).

(** [_env]: the first variable that is set and not empty. *)
Fixpoint env_ (env : environ) (names : list pystr) (default : pystr) : pystr :=
  match names with
  | [] => default
  | n :: names => match env !! n with
                  | Some v => if nonempty v then v else env_ env names default
                  | None => env_ env names default
                  end
  end.

Definition truthy (env : environ) (name : pystr) (default : bool) : bool :=
  match env !! name with
  | None => default
  | Some raw => if negb (nonempty raw) then default
                else negb (mem (lower (strip raw)) [u "0"; u "false"; u "no"; u "off"])
  end.

Definition channel (env : environ) : pystr := env_ env [u "MESH_SMOKE_CHANNEL"] (u "#root").
Definition SASL_USER (env : environ) : pystr := env_ env [u "MESH_SMOKE_SASL_USER"; u "ANNOUNCE_SASL_USER"] [].
Definition SASL_PASS (env : environ) : pystr := env_ env [u "MESH_SMOKE_SASL_PASS"; u "ANNOUNCE_SASL_PASS"] [].

(** ** Endpoints *)

(** [s.rpartition(c)] without the separator; [None] without [c]. *)
Definition rpartition (c : Z) (s : pystr) : option (pystr * pystr) :=
  match rfind s [c] with Some i => Some (take i s, drop (S i) s) | None => None end.

(** [None] is the [ValueError]. *)
Definition parse_endpoint (spec : pystr) : option (pystr * Z) :=
  let spec := strip spec in
  if negb (nonempty spec) then None
  else if startswith spec (u "[") then
    let '(host, _, port_s) := partition (u "]:") (drop 1 spec) in
    if negb (nonempty port_s) then None else port ← int port_s; Some (host, port)
  else
    match rpartition 58 spec with
    | Some (host, port_s) => port ← int port_s; Some (host, port)
    | None => None
    end.

Record Endpoint := mkEndpoint { host : pystr; port : Z; tls : bool }.

(** The endpoints of A and B: [inl] is the exit status 2. *)
Definition resolve_endpoints (env : environ) (args : list pystr) : unit + (Endpoint * Endpoint) :=
  let a_spec := env_ env [u "MESH_SMOKE_A"] (u "127.0.0.1:6667") in
  let b_spec := env_ env [u "MESH_SMOKE_B"] [] in
  let a_tls := truthy env (u "MESH_SMOKE_A_TLS") false in
  let b_tls := truthy env (u "MESH_SMOKE_B_TLS") true in
  let specs := match args with
               | a :: b :: _ => Some (a, b)
               | [b] => Some (a_spec, b)
               | [] => if nonempty b_spec then Some (a_spec, b_spec) else None
               end in
  match specs with
  | None => inl ()
  | Some (a, b) =>
    match parse_endpoint a, parse_endpoint b with
    | Some (ah, ap), Some (bh, bp) => inr (mkEndpoint ah ap a_tls, mkEndpoint bh bp b_tls)
    | _, _ => inl ()
    end
  end.

(** Whether SASL is used; [None] is the exit status 2. *)
Definition resolve_auth_mode (env : environ) : option bool :=
  if nonempty (SASL_USER env) && nonempty (SASL_PASS env) then Some true
  else if truthy env (u "MESH_SMOKE_REQUIRE_SASL") false then None
  else Some false.

(** ** The client *)

Record IrcClient := mkClient {
  label : pystr; nick : pystr; sasl_user : pystr; sasl_pass : pystr; use_sasl : bool;
  chan : pystr;
  buf : pybytes; registered : bool; joined : bool; sasl_ok : bool; cap_ended : bool;
  cap_ls : list pystr; seen_privmsgs : list pystr; last_err : option pystr;
  reg_numerics : list pystr;
  sent : list pystr }.         (* the lines written *)

Definition new_client (label nick user pass : pystr) (use_sasl : bool) (chan : pystr) : IrcClient :=
  mkClient label nick user pass use_sasl chan [] false false false false [] [] None [] [].

Definition with_buf (b : pybytes) (c : IrcClient) : IrcClient :=
  mkClient (label c) (nick c) (sasl_user c) (sasl_pass c) (use_sasl c) (chan c) b (registered c) (joined c)
    (sasl_ok c) (cap_ended c) (cap_ls c) (seen_privmsgs c) (last_err c) (reg_numerics c) (sent c).
Definition with_nick (n : pystr) (c : IrcClient) : IrcClient :=
  mkClient (label c) n (sasl_user c) (sasl_pass c) (use_sasl c) (chan c) (buf c) (registered c) (joined c)
    (sasl_ok c) (cap_ended c) (cap_ls c) (seen_privmsgs c) (last_err c) (reg_numerics c) (sent c).
Definition with_registered (c : IrcClient) : IrcClient :=
  mkClient (label c) (nick c) (sasl_user c) (sasl_pass c) (use_sasl c) (chan c) (buf c) true (joined c)
    (sasl_ok c) (cap_ended c) (cap_ls c) (seen_privmsgs c) (last_err c) (reg_numerics c) (sent c).
Definition with_joined (c : IrcClient) : IrcClient :=
  mkClient (label c) (nick c) (sasl_user c) (sasl_pass c) (use_sasl c) (chan c) (buf c) (registered c) true
    (sasl_ok c) (cap_ended c) (cap_ls c) (seen_privmsgs c) (last_err c) (reg_numerics c) (sent c).
Definition with_sasl_ok (c : IrcClient) : IrcClient :=
  mkClient (label c) (nick c) (sasl_user c) (sasl_pass c) (use_sasl c) (chan c) (buf c) (registered c) (joined c)
    true (cap_ended c) (cap_ls c) (seen_privmsgs c) (last_err c) (reg_numerics c) (sent c).
Definition with_cap_ended (c : IrcClient) : IrcClient :=
  mkClient (label c) (nick c) (sasl_user c) (sasl_pass c) (use_sasl c) (chan c) (buf c) (registered c) (joined c)
    (sasl_ok c) true (cap_ls c) (seen_privmsgs c) (last_err c) (reg_numerics c) (sent c).
Definition with_cap_ls (l : list pystr) (c : IrcClient) : IrcClient :=
  mkClient (label c) (nick c) (sasl_user c) (sasl_pass c) (use_sasl c) (chan c) (buf c) (registered c) (joined c)
    (sasl_ok c) (cap_ended c) l (seen_privmsgs c) (last_err c) (reg_numerics c) (sent c).
Definition with_seen (l : list pystr) (c : IrcClient) : IrcClient :=
  mkClient (label c) (nick c) (sasl_user c) (sasl_pass c) (use_sasl c) (chan c) (buf c) (registered c) (joined c)
    (sasl_ok c) (cap_ended c) (cap_ls c) l (last_err c) (reg_numerics c) (sent c).
Definition with_err (e : pystr) (c : IrcClient) : IrcClient :=
  mkClient (label c) (nick c) (sasl_user c) (sasl_pass c) (use_sasl c) (chan c) (buf c) (registered c) (joined c)
    (sasl_ok c) (cap_ended c) (cap_ls c) (seen_privmsgs c) (Some e) (reg_numerics c) (sent c).
Definition with_numeric (code : pystr) (c : IrcClient) : IrcClient :=
  mkClient (label c) (nick c) (sasl_user c) (sasl_pass c) (use_sasl c) (chan c) (buf c) (registered c) (joined c)
    (sasl_ok c) (cap_ended c) (cap_ls c) (seen_privmsgs c) (last_err c)
    (if mem code (reg_numerics c) then reg_numerics c else reg_numerics c ++ [code]) (sent c).

(** [_send] of one line. *)
Definition send_ (line : pystr) (c : IrcClient) : IrcClient :=
  mkClient (label c) (nick c) (sasl_user c) (sasl_pass c) (use_sasl c) (chan c) (buf c) (registered c) (joined c)
    (sasl_ok c) (cap_ended c) (cap_ls c) (seen_privmsgs c) (last_err c) (reg_numerics c) (sent c ++ [line]).

(** [connect] after the socket is open. *)
Definition connect (c : IrcClient) : IrcClient :=
  send_ (u "USER " ++ nick c ++ u " 0 * :mesh-chat-smoke " ++ label c)
    (send_ (u "NICK " ++ nick c) (send_ (u "CAP LS 302") c)).

Definition cap_end (c : IrcClient) : IrcClient :=
  if cap_ended c then c else send_ (u "CAP END") (with_cap_ended c).

(** A capability without its value. *)
Definition cap_name (c : pystr) : pystr := from_opt [] (hd_error (split (u "=") c)).

(** [line.split(" :", 1)[1].split()] if there is a trailing part. *)
Definition offered (line : pystr) : list pystr :=
  match split_max 1 (u " :") line with _ :: t :: _ => split_ws t | _ => [] end.

Definition handle_cap (line : pystr) (parts : list pystr) (c : IrcClient) : IrcClient :=
  let sub := from_opt [] (parts !! 3%nat) in
  let caps := offered line in
  if str_eqb sub (u "LS") then
    let more := match parts !! 4%nat with Some p => str_eqb p (u "*") | None => false end in
    let c := with_cap_ls (cap_ls c ++ (cap_name <$> caps)) c in
    if more then c
    else if use_sasl c then
      if mem (u "sasl") (cap_ls c) then send_ (u "CAP REQ :sasl") c
      else cap_end (with_err (u "server did not offer sasl") c)
    else cap_end c
  else if str_eqb sub (u "ACK") then
    if negb (use_sasl c) then cap_end c
    else if mem (u "sasl") (cap_name <$> caps) then send_ (u "AUTHENTICATE PLAIN") c
    else cap_end (with_err (u "sasl not ACKed") c)
  else if str_eqb sub (u "NAK") then
    cap_end (if use_sasl c then with_err (u "CAP REQ NAK") c else c)
  else c.

(** The base64 of the account, the account and the password. *)
Definition credentials (c : IrcClient) : pystr :=
  b64encode (utf8_encode (sasl_user c ++ [0] ++ sasl_user c ++ [0] ++ sasl_pass c)).

Definition handle_numeric (code : pystr) (c : IrcClient) : IrcClient :=
  let c := with_numeric code c in
  if str_eqb code (u "903") then cap_end (with_sasl_ok c)
  else if mem code [u "902"; u "904"; u "905"; u "906"; u "907"] then
    cap_end (if use_sasl c then with_err (u "sasl failed (" ++ code ++ u ")") c else c)
  else if str_eqb code (u "001") then send_ (u "JOIN " ++ chan c) (with_registered c)
  else if mem code [u "433"; u "436"] then
    let c := with_nick (nick c ++ u "_") c in send_ (u "NICK " ++ nick c) c
  else if mem code [u "464"; u "465"] then
    with_err (u "register rejected (" ++ code ++ u ", " ++ (if use_sasl c then u "auth" else u "guest") ++ u ")") c
  else c.

(** [s[1:] if s.startswith(":") else s]. *)
Definition uncolon (s : pystr) : pystr := if startswith s (u ":") then drop 1 s else s.

(** What is handled of a line: [None] is an [IndexError]. *)
Definition strip_tags (line : pystr) : option pystr :=
  let work := if startswith line (u "@") && contains line (u " ") then drop 1 line else line in
  if startswith work (u "@") then split_max 1 (u " ") work !! 1%nat else Some work.

(** [work.split("PING", 1)[1].strip()], without a leading colon. *)
Definition ping_token (work : pystr) : pystr :=
  uncolon (strip (from_opt [] (split_max 1 (u "PING") work !! 1%nat))).

(** The digits that are not decimal ones: superscripts, subscripts, circled and
    the like (Unicode 14), as ranges. *)
Definition other_digits : list (Z * Z) :=
  [(178, 179); (185, 185); (4969, 4977); (6618, 6618); (8304, 8304); (8308, 8313); (8320, 8329);
   (9312, 9320); (9332, 9340); (9352, 9360); (9450, 9450); (9461, 9469); (9471, 9471);
   (10102, 10110); (10112, 10120); (10122, 10130); (68160, 68163); (69216, 69224);
   (69714, 69722); (127232, 127242)].

Definition isdigit (s : pystr) : bool :=
  nonempty s
  && forallb (λ c, is_digit c || existsb (λ '(a, b), (a <=? c) && (c <=? b)) other_digits) s.

(** The words of a line that is not empty. *)
Definition handle_words (work p0 : pystr) (rest : list pystr) (c : IrcClient) : IrcClient :=
  let parts := p0 :: rest in
  let p1 := hd_error rest in
  let second x := match p1 with Some p => str_eqb p x | None => false end in
  if str_eqb p0 (u "PING") || second (u "PING") then send_ (u "PONG :" ++ ping_token work) c
  else if str_eqb p0 (u "AUTHENTICATE") && second (u "+") then
    if use_sasl c then send_ (u "AUTHENTICATE " ++ credentials c) c else c
  else if Nat.leb 4 (length parts) && second (u "CAP") then handle_cap work parts c
  else if match p1 with Some p => isdigit p | None => false end then handle_numeric (from_opt [] p1) c
  else if Nat.leb 3 (length parts) && second (u "JOIN") then
    let join_nick := from_opt [] (hd_error (split_max 1 (u "!") (uncolon p0))) in
    let target := uncolon (from_opt [] (parts !! 2%nat)) in
    if str_eqb (lower join_nick) (lower (nick c)) && str_eqb (lower target) (lower (chan c))
    then with_joined c else c
  else if Nat.leb 4 (length parts) && second (u "PRIVMSG") then
    with_seen (seen_privmsgs c ++ [from_opt [] (split_max 1 (u " :") work !! 1%nat)]) c
  else c.

Definition handle (line : pystr) (c : IrcClient) : option IrcClient :=
  match line with
  | [] => Some c
  | _ =>
    work ← strip_tags line;
    match split_ws work with
    | [] => Some c
    | p0 :: rest => Some (handle_words work p0 rest c)
    end
  end.

(** ** Reading *)

Definition CRLF : pybytes := [13; 10].

(** What a read does. *)
Inductive recv := Chunk (b : pybytes) | NoData | Broken.

Fixpoint handle_all (lines : list pybytes) (c : IrcClient) : option IrcClient :=
  match lines with
  | [] => Some c
  | raw :: lines => c ← handle (utf8_decode raw) c; handle_all lines c
  end.

(** [pump]: an empty read is the end of the stream; the complete lines are
    handled in order and the rest stays in the buffer.  [None] is an
    exception. *)
Definition pump (r : recv) (c : IrcClient) : option IrcClient :=
  match r with
  | NoData => Some c
  | Broken => None
  | Chunk [] => Some (with_err (u "eof") c)
  | Chunk b =>
    let pieces := split CRLF (buf c ++ b) in
    with_buf (from_opt [] (last pieces)) <$> handle_all (removelast pieces) c
  end.

(** ** The exchange *)

(** One pass of the loop: what is read on A and on B, if anything. *)
Definition pass : Type := option recv * option recv.

Definition pump_ready (r : option recv) (c : IrcClient) : option IrcClient :=
  match r with Some r => pump r c | None => Some c end.

Definition has_err (c : IrcClient) : bool := nonempty (from_opt [] (last_err c)).

(** [wait_until]: whether the condition held, both clients and the passes
    left; no pass is left once the deadline is over. *)
Fixpoint wait_until (pred : IrcClient → IrcClient → bool) (passes : list pass) (a b : IrcClient)
    : option (bool * IrcClient * IrcClient * list pass) :=
  match passes with
  | [] => Some (pred a b, a, b, [])
  | (ra, rb) :: rest =>
    if pred a b then Some (true, a, b, passes)
    else if has_err a || has_err b then Some (false, a, b, passes)
    else a ← pump_ready ra a; b ← pump_ready rb b; wait_until pred rest a b
  end.

Definition send_privmsg (text : pystr) (c : IrcClient) : IrcClient :=
  send_ (u "PRIVMSG " ++ chan c ++ u " :" ++ text) c.

Definition saw (text : pystr) (c : IrcClient) : bool := existsb (λ t, contains t text) (seen_privmsgs c).

(** [close]. *)
Definition close (c : IrcClient) : IrcClient := send_ (u "QUIT :mesh-chat-smoke done") c.

(** The run after both sockets are open: the exit status and both clients. *)
Definition exchange (msg_a msg_b : pystr) (passes : list pass) (a b : IrcClient)
    : option (Z * IrcClient * IrcClient) :=
  r1 ← wait_until (λ a b : IrcClient, joined a && joined b) passes a b;
  let '(ok, a, b, passes) := r1 in
  if negb ok then
    let blocked (c : IrcClient) := match last_err c with Some e => contains e (u "register rejected (46") | None => false end in
    Some (if negb (use_sasl a) && (blocked a || blocked b) then 2 else 1, a, b)
  else
    let a := send_privmsg msg_a a in
    r2 ← wait_until (λ _ b, saw msg_a b) passes a b;
    let '(ok, a, b, passes) := r2 in
    if negb ok then Some (1, a, b)
    else
      let b := send_privmsg msg_b b in
      r3 ← wait_until (λ a _, saw msg_b a) passes a b;
      let '(ok, a, b, _) := r3 in
      Some (if ok : bool then 0 else 1, a, b).

(** The client that [main] makes and connects. *)
Definition make_client (env : environ) (tag : pystr) (use_sasl : bool) (label suffix : pystr) : IrcClient :=
  connect (new_client label (u "mcs" ++ take 6 tag ++ suffix) (SASL_USER env) (SASL_PASS env) use_sasl
             (channel env)).

Definition message_a (tag : pystr) : pystr := u "mesh-chat-smoke A->" ++ tag.
Definition message_b (tag : pystr) : pystr := u "mesh-chat-smoke B->" ++ tag.

(** [main] with the unique tag of the run; [None] is an exception that is not
    handled, [opened] says which endpoints a socket could be opened to. *)
Definition main (env : environ) (args : list pystr) (tag : pystr) (opened : Endpoint → bool) (passes : list pass)
    : option (Z * option (IrcClient * IrcClient)) :=
  match resolve_auth_mode env with
  | None => Some (2, None)
  | Some use_sasl =>
    match resolve_endpoints env args with
    | inl _ => Some (2, None)
    | inr (a_ep, b_ep) =>
      if negb (opened a_ep && opened b_ep) then Some (1, None)
      else
        r ← exchange (message_a tag) (message_b tag) passes
              (make_client env tag use_sasl (u "A") (u "a")) (make_client env tag use_sasl (u "B") (u "b"));
        let '(code, a, b) := r in Some (code, Some (close a, close b))
    end
  end.
