(* ===== verification/MeshChatSpec.v ===== *)
(** * tools/mesh_chat_smoke.py: properties

    The client does not depend on how the stream is cut, ends the negotiation
    once and never authenticates as a guest; a run that passes is closed to
    failed authentication; endpoints are read as they are written. *)

From S2P Require Import Prelude PyStr Base64 MeshChat.

(** ** Handling a line *)

(** Handling a line leaves the buffer alone. *)
Lemma cap_end_buf x c : cap_end (with_buf x c) = with_buf x (cap_end c).
Proof. unfold cap_end. simpl. by destruct (cap_ended c). Qed.

Lemma handle_cap_buf line parts x c :
  handle_cap line parts (with_buf x c) = with_buf x (handle_cap line parts c).
Proof.
  unfold handle_cap. cbv zeta. destruct (str_eqb _ (u "LS")).
  - destruct (match parts !! 4%nat with Some _ => _ | None => _ end); [reflexivity|].
    cbn [use_sasl with_buf with_cap_ls cap_ls]. destruct (use_sasl c); [|exact (cap_end_buf x (with_cap_ls _ c))].
    destruct (mem _ _); [reflexivity|]. exact (cap_end_buf x (with_err _ (with_cap_ls _ c))).
  - destruct (str_eqb _ (u "ACK")).
    + cbn [use_sasl with_buf]. destruct (use_sasl c); cbn [negb]; [|apply cap_end_buf].
      destruct (mem _ _); [reflexivity|]. exact (cap_end_buf x (with_err _ c)).
    + destruct (str_eqb _ (u "NAK")); [|reflexivity]. cbn [use_sasl with_buf].
      destruct (use_sasl c); [exact (cap_end_buf x (with_err _ c))|apply cap_end_buf].
Qed.

Lemma handle_numeric_buf code x c :
  handle_numeric code (with_buf x c) = with_buf x (handle_numeric code c).
Proof.
  unfold handle_numeric. cbv zeta.
  destruct (str_eqb code (u "903")); [exact (cap_end_buf x (with_sasl_ok (with_numeric code c)))|].
  destruct (mem code [u "902"; _; _; _; _]).
  { cbn [use_sasl with_buf with_numeric]. destruct (use_sasl c);
      [exact (cap_end_buf x (with_err _ (with_numeric code c)))|exact (cap_end_buf x (with_numeric code c))]. }
  destruct (str_eqb code (u "001")); [reflexivity|].
  destruct (mem code [u "433"; _]); [reflexivity|].
  destruct (mem code [u "464"; _]); reflexivity.
Qed.

Lemma handle_words_buf work p0 rest x c :
  handle_words work p0 rest (with_buf x c) = with_buf x (handle_words work p0 rest c).
Proof.
  unfold handle_words. cbv zeta.
  destruct (str_eqb p0 (u "PING") || _); [reflexivity|].
  destruct (str_eqb p0 (u "AUTHENTICATE") && _).
  { cbn [use_sasl with_buf]. by destruct (use_sasl c). }
  destruct (Nat.leb 4 _ && match hd_error rest with Some p => str_eqb p (u "CAP") | None => false end);
    [apply handle_cap_buf|].
  destruct (match hd_error rest with Some p => isdigit p | None => false end); [apply handle_numeric_buf|].
  destruct (Nat.leb 3 _ && _).
  { cbn [nick chan with_buf]. by destruct (_ && _). }
  destruct (Nat.leb 4 _ && _); reflexivity.
Qed.

Lemma handle_buf line x c : handle line (with_buf x c) = with_buf x <$> handle line c.
Proof.
  unfold handle. destruct line as [|ch line]; [reflexivity|].
  destruct (strip_tags (ch :: line)) as [work|]; [|reflexivity]. cbn [mbind option_bind].
  destruct (split_ws work) as [|p0 rest]; [reflexivity|]. cbn [fmap option_fmap option_map].
  by rewrite handle_words_buf.
Qed.

Lemma handle_all_buf lines x : ∀ c, handle_all lines (with_buf x c) = with_buf x <$> handle_all lines c.
Proof.
  induction lines as [|raw lines IH]; intros c; [reflexivity|]. cbn [handle_all]. rewrite handle_buf.
  destruct (handle (utf8_decode raw) c) as [c1|]; [|reflexivity]. cbn [fmap option_fmap option_map mbind option_bind].
  apply IH.
Qed.

Lemma handle_all_app l1 l2 c : handle_all (l1 ++ l2) c = c1 ← handle_all l1 c; handle_all l2 c1.
Proof.
  revert c. induction l1 as [|raw l1 IH]; intros c; [reflexivity|]. cbn [app handle_all].
  destruct (handle (utf8_decode raw) c) as [c1|]; [|reflexivity]. cbn [mbind option_bind]. apply IH.
Qed.

(** ** Segmentation *)

(** Read the chunks one after the other. *)
Fixpoint pumps (chunks : list pybytes) (c : IrcClient) : option IrcClient :=
  match chunks with
  | [] => Some c
  | b :: chunks => c ← pump (Chunk b) c; pumps chunks c
  end.

(** All the lines of a stream, then what is left of it. *)
Definition whole (stream : pybytes) (c : IrcClient) : option IrcClient :=
  with_buf (from_opt [] (last (split CRLF stream))) <$> handle_all (removelast (split CRLF stream)) c.

Lemma with_buf_twice x y c : with_buf x (with_buf y c) = with_buf x c.
Proof. reflexivity. Qed.

Lemma split_last_single s : split CRLF (from_opt [] (last (split CRLF s))) = [from_opt [] (last (split CRLF s))].
Proof.
  assert (Hc : CRLF ≠ []) by done. pose proof (split_app CRLF s [] Hc) as H. rewrite !app_nil_r in H.
  pose proof (split_nonnil CRLF s) as Hn. destruct (split CRLF s) as [|p l _] using rev_ind; [done|].
  rewrite removelast_last, last_snoc in *. cbn [from_opt] in *. by apply app_inv_head in H.
Qed.

Lemma pump_whole stream b c c1 : b ≠ [] → whole stream c = Some c1 →
  pump (Chunk b) c1 = whole (stream ++ b) c.
Proof.
  intros Hb E. unfold whole in *. destruct (handle_all (removelast (split CRLF stream)) c) as [c0|] eqn:E0; [|done].
  cbn [fmap option_fmap option_map] in E. injection E as <-.
  assert (Hc : CRLF ≠ []) by done. destruct b as [|x b]; [done|]. unfold pump. cbv zeta.
  cbn [buf with_buf]. rewrite (split_app CRLF stream (x :: b) Hc).
  set (p := from_opt [] (last (split CRLF stream))). pose proof (split_nonnil CRLF (p ++ x :: b)) as Hn.
  rewrite removelast_app, handle_all_app, E0 by done. cbn [mbind option_bind]. rewrite handle_all_buf.
  destruct (handle_all (removelast (split CRLF (p ++ x :: b))) c0) as [c2|]; [|reflexivity].
  cbn [fmap option_fmap option_map]. rewrite with_buf_twice. do 2 f_equal.
  destruct (split CRLF (p ++ x :: b)) as [|q l _] using rev_ind; [done|].
  by rewrite app_assoc, !last_snoc.
Qed.

(** A line that raises does so whatever follows. *)
Lemma whole_raises stream t c : whole stream c = None → whole (stream ++ t) c = None.
Proof.
  unfold whole. assert (Hc : CRLF ≠ []) by done. rewrite (split_app CRLF stream t Hc).
  rewrite removelast_app by apply split_nonnil. rewrite handle_all_app.
  destruct (handle_all (removelast (split CRLF stream)) c); [done|]. reflexivity.
Qed.

Lemma pumps_whole chunks : ∀ stream c c1, Forall (λ b, b ≠ []) chunks → whole stream c = Some c1 →
  pumps chunks c1 = whole (stream ++ concat chunks) c.
Proof.
  induction chunks as [|b chunks IH]; intros stream c c1 Hf E; cbn [pumps concat].
  - by rewrite app_nil_r.
  - apply Forall_cons in Hf as [Hb Hf]. rewrite (pump_whole stream b c c1 Hb E), app_assoc.
    destruct (whole (stream ++ b) c) as [c2|] eqn:E2; cbn [mbind option_bind]; [by apply IH|].
    symmetry. by apply whole_raises.
Qed.

(** What a client of the mesh smoke test does depends on the bytes it
    receives and not on how the network cuts them: after any sequence of
    reads it is in the state in which it handled the complete lines of the
    whole stream in order, with the unfinished rest in its buffer, and it
    raises exactly when one of these lines raises. *)
Theorem mesh_segmentation chunks c :
  buf c = [] → Forall (λ b, b ≠ []) chunks →
  pumps chunks c
  = with_buf (from_opt [] (last (split CRLF (concat chunks))))
    <$> handle_all (removelast (split CRLF (concat chunks))) c.
Proof.
  intros Hb Hf. apply (pumps_whole chunks [] c c Hf). unfold whole. destruct c. simpl in Hb. subst. reflexivity.
Qed.

Definition guest : IrcClient := new_client (u "A") (u "mcsa") [] [] false (u "#root").

Lemma mesh_segmentation_witness :
  pumps [bs "PING :x" ++ [13]; [10] ++ bs "NEX"] guest
  = with_buf (bs "NEX") <$> handle_all [bs "PING :x"] guest.
Proof.
  rewrite (mesh_segmentation [bs "PING :x" ++ [13]; [10] ++ bs "NEX"] guest).
  - vm_compute. reflexivity.
  - reflexivity.
  - repeat constructor; intros H; vm_compute in H; discriminate H.
Defined.

(** ** The negotiation *)

Definition is_cap_end (line : pystr) : bool := str_eqb line (u "CAP END").

(** The number of times the negotiation was ended. *)
Definition cap_ends (c : IrcClient) : nat := length (List.filter is_cap_end (sent c)).

(** A line of the authentication. *)
Definition auth_line (line : pystr) : bool :=
  startswith line (u "AUTHENTICATE") || str_eqb line (u "CAP REQ :sasl").

Definition SASL_FAILURES : list pystr := [u "902"; u "904"; u "905"; u "906"; u "907"].

Section Negotiation.
Context (mode : bool).

Record negotiation (c : IrcClient) : Prop := mkNeg {
  ng_mode : use_sasl c = mode;
  ng_once : cap_ends c = if cap_ended c then 1%nat else 0%nat;
  ng_guest : use_sasl c = false → Forall (λ l, auth_line l = false) (sent c);
  ng_failed : use_sasl c = true → ∀ code, code ∈ SASL_FAILURES → code ∈ reg_numerics c → has_err c = true;
  ng_rejected : ∀ code, code ∈ [u "464"; u "465"] → code ∈ reg_numerics c → has_err c = true }.

(** Writing a line that is neither. *)
Lemma ng_send line c : is_cap_end line = false → auth_line line = false →
  negotiation c → negotiation (send_ line c).
Proof.
  intros H1 H2 [N0 N1 N2 N3 N4]. constructor; [done| | |done|done].
  - unfold cap_ends in *. cbn [sent send_ cap_ended]. rewrite List.filter_app, length_app, N1. simpl. rewrite H1.
    simpl. lia.
  - cbn [sent send_ use_sasl]. intros Hu. apply Forall_app. split; [by apply N2|]. by constructor.
Qed.

Lemma ng_send_auth line c : is_cap_end line = false → use_sasl c = true →
  negotiation c → negotiation (send_ line c).
Proof.
  intros H1 H2 [N0 N1 N2 N3 N4]. constructor; [done| | |done|done].
  - unfold cap_ends in *. cbn [sent send_ cap_ended]. rewrite List.filter_app, length_app, N1. simpl. rewrite H1.
    simpl. lia.
  - cbn [sent send_ use_sasl]. congruence.
Qed.

Lemma ng_cap_end c : negotiation c → negotiation (cap_end c).
Proof.
  intros [N0 N1 N2 N3 N4]. unfold cap_end. destruct (cap_ended c) eqn:E; [by constructor; rewrite ?E|].
  constructor; [done| | |done|done].
  - unfold cap_ends in *. cbn [sent send_ with_cap_ended cap_ended]. rewrite List.filter_app, length_app, N1.
    vm_compute. reflexivity.
  - cbn [sent send_ with_cap_ended use_sasl]. intros Hu. apply Forall_app. split; [by apply N2|].
    constructor; [vm_compute; reflexivity|constructor].
Qed.

(** Changes that touch none of it, or record a failure. *)
Lemma ng_same c c' : sent c' = sent c → cap_ended c' = cap_ended c → use_sasl c' = use_sasl c →
  reg_numerics c' = reg_numerics c → (has_err c = true → has_err c' = true) →
  negotiation c → negotiation c'.
Proof.
  intros E1 E2 E3 E4 E5 [N0 N1 N2 N3 N4]. constructor; unfold cap_ends in *; rewrite ?E1, ?E2, ?E3, ?E4; eauto.
Qed.

Lemma ng_err e c : nonempty e = true → negotiation c → negotiation (with_err e c).
Proof. intros He. by apply ng_same. Qed.

Lemma elem_numeric code' code c : code' ∈ reg_numerics (with_numeric code c) →
  code' = code ∨ code' ∈ reg_numerics c.
Proof.
  cbn [reg_numerics with_numeric]. destruct (mem code (reg_numerics c)); [by right|].
  intros [H|H]%elem_of_app; [by right|]. left. by apply list_elem_of_singleton in H.
Qed.

Lemma ng_numeric code c : negotiation c → (use_sasl c = true → mem code SASL_FAILURES = false) →
  mem code [u "464"; u "465"] = false → negotiation (with_numeric code c).
Proof.
  intros [N0 N1 N2 N3 N4] H1 H2. constructor; [exact N0|exact N1|exact N2| |].
  - intros Hu code' Hc [->|Hin]%elem_numeric; [|by apply N3 with code'].
    exfalso. specialize (H1 Hu). apply not_true_iff_false in H1. apply H1, existsb_elem. exists code.
    split; [exact Hc|apply str_eqb_refl].
  - intros code' Hc [->|Hin]%elem_numeric; [|by apply N4 with code'].
    exfalso. apply not_true_iff_false in H2. apply H2, existsb_elem. exists code.
    split; [exact Hc|apply str_eqb_refl].
Qed.

(** A numeric that records a failure. *)
Lemma ng_numeric_err code e c : nonempty e = true → negotiation c → negotiation (with_err e (with_numeric code c)).
Proof.
  intros He [N0 N1 N2 N3 N4]. constructor; [exact N0|exact N1|exact N2| |]; intros; exact He.
Qed.

Lemma mem_excludes code l1 l2 : mem code l1 = true →
  forallb (λ x, negb (mem x l2)) l1 = true → mem code l2 = false.
Proof.
  intros (x & Hx & E)%existsb_elem H. apply str_eqb_eq in E as ->. rewrite forallb_elem in H.
  specialize (H x Hx). by apply negb_true_iff in H.
Qed.

Lemma str_mem a b : str_eqb a b = true → mem a [b] = true.
Proof. intros H. cbn. by rewrite H. Qed.

Lemma ng_handle_numeric code c : negotiation c → negotiation (handle_numeric code c).
Proof.
  intros Hn. unfold handle_numeric. cbv zeta.
  destruct (str_eqb code (u "903")) eqn:E903.
  { apply ng_cap_end. apply str_mem in E903. apply (ng_same (with_numeric code c)); try done.
    apply ng_numeric; [done|intros _|]; apply (mem_excludes code _ _ E903); vm_compute; reflexivity. }
  destruct (mem code [u "902"; u "904"; u "905"; u "906"; u "907"]) eqn:Ef.
  { apply ng_cap_end. cbn [use_sasl with_numeric]. destruct (use_sasl c) eqn:Eu.
    - apply ng_numeric_err; [vm_compute; reflexivity|done].
    - apply ng_numeric; [done|congruence|apply (mem_excludes code _ _ Ef); vm_compute; reflexivity]. }
  destruct (str_eqb code (u "001")) eqn:E1.
  { apply ng_send; [generalize (chan (with_registered (with_numeric code c))); intros x; vm_compute; reflexivity
      |generalize (chan (with_registered (with_numeric code c))); intros x; vm_compute; reflexivity|].
    apply str_mem in E1. apply (ng_same (with_numeric code c)); try done.
    apply ng_numeric; [done|intros _|]; apply (mem_excludes code _ _ E1); vm_compute; reflexivity. }
  destruct (mem code [u "433"; u "436"]) eqn:E4.
  { apply ng_send; [generalize (nick (with_nick (nick (with_numeric code c) ++ u "_") (with_numeric code c)));
      intros x; vm_compute; reflexivity
      |generalize (nick (with_nick (nick (with_numeric code c) ++ u "_") (with_numeric code c)));
      intros x; vm_compute; reflexivity|].
    apply (ng_same (with_numeric code c)); try done.
    apply ng_numeric; [done|intros _|]; apply (mem_excludes code _ _ E4); vm_compute; reflexivity. }
  destruct (mem code [u "464"; u "465"]) eqn:E6.
  - apply ng_numeric_err; [vm_compute; reflexivity|done].
  - apply ng_numeric; [done|by intros _|done].
Qed.

Lemma ng_handle_cap line parts c : negotiation c → negotiation (handle_cap line parts c).
Proof.
  intros Hn. unfold handle_cap. cbv zeta. destruct (str_eqb _ (u "LS")).
  - set (c1 := with_cap_ls _ c). assert (H1 : negotiation c1) by (by apply (ng_same c)).
    destruct (match parts !! 4%nat with Some _ => _ | None => _ end); [exact H1|].
    destruct (use_sasl c1) eqn:Eu; [|by apply ng_cap_end].
    destruct (mem _ _); [apply ng_send_auth; [vm_compute; reflexivity|exact Eu|exact H1]|].
    apply ng_cap_end, ng_err; [vm_compute; reflexivity|exact H1].
  - destruct (str_eqb _ (u "ACK")).
    + destruct (use_sasl c) eqn:Eu; cbn [negb]; [|by apply ng_cap_end].
      destruct (mem _ _); [apply ng_send_auth; [vm_compute; reflexivity|exact Eu|exact Hn]|].
      apply ng_cap_end, ng_err; [vm_compute; reflexivity|exact Hn].
    + destruct (str_eqb _ (u "NAK")); [|exact Hn]. apply ng_cap_end.
      destruct (use_sasl c); [|exact Hn]. apply ng_err; [vm_compute; reflexivity|exact Hn].
Qed.

Lemma ng_handle_words work p0 rest c : negotiation c → negotiation (handle_words work p0 rest c).
Proof.
  intros Hn. unfold handle_words. cbv zeta.
  destruct (str_eqb p0 (u "PING") || _).
  { apply ng_send; [| |exact Hn]; generalize (ping_token work); intros x; vm_compute; reflexivity. }
  destruct (str_eqb p0 (u "AUTHENTICATE") && _).
  { destruct (use_sasl c) eqn:Eu; [|exact Hn]. apply ng_send_auth; [|exact Eu|exact Hn].
    generalize (credentials c). intros x. vm_compute. reflexivity. }
  destruct (Nat.leb 4 _ && match hd_error rest with Some p => str_eqb p (u "CAP") | None => false end);
    [by apply ng_handle_cap|].
  destruct (match hd_error rest with Some p => isdigit p | None => false end); [by apply ng_handle_numeric|].
  destruct (Nat.leb 3 _ && _); [destruct (_ && _); [by apply (ng_same c)|exact Hn]|].
  destruct (Nat.leb 4 _ && _); [by apply (ng_same c)|exact Hn].
Qed.

Lemma ng_handle line c c' : negotiation c → handle line c = Some c' → negotiation c'.
Proof.
  intros Hn. unfold handle. destruct line as [|ch line]; [by intros [= <-]|].
  destruct (strip_tags (ch :: line)) as [work|]; [|done]. cbn [mbind option_bind].
  destruct (split_ws work) as [|p0 rest]; intros [= <-]; [done|]. by apply ng_handle_words.
Qed.

Lemma ng_handle_all lines : ∀ c c', negotiation c → handle_all lines c = Some c' → negotiation c'.
Proof.
  induction lines as [|raw lines IH]; intros c c' Hn; cbn [handle_all]; [by intros [= <-]|].
  destruct (handle (utf8_decode raw) c) as [c1|] eqn:E; [|done]. cbn [mbind option_bind].
  apply IH. by eapply ng_handle.
Qed.

Lemma ng_pump r c c' : negotiation c → pump r c = Some c' → negotiation c'.
Proof.
  intros Hn. unfold pump. destruct r as [[|x b]| |]; [| |by intros [= <-]|done].
  - intros [= <-]. apply ng_err; [vm_compute; reflexivity|exact Hn].
  - cbv zeta. destruct (handle_all _ c) as [c1|] eqn:E; [|done]. intros [= <-].
    apply (ng_same c1); try done. by eapply ng_handle_all.
Qed.

Lemma ng_ready r c c' : negotiation c → pump_ready r c = Some c' → negotiation c'.
Proof. destruct r as [r|]; [apply ng_pump|]. by intros Hn [= <-]. Qed.

Lemma ng_privmsg text c : negotiation c → negotiation (send_privmsg text c).
Proof.
  apply ng_send; unfold send_privmsg; generalize (chan c ++ u " :" ++ text); intros x; vm_compute; reflexivity.
Qed.

Lemma ng_connect label nick user pass chan : negotiation (connect (new_client label nick user pass mode chan)).
Proof.
  unfold connect. set (c0 := new_client _ _ _ _ _ _). assert (H0 : negotiation c0).
  { constructor; [done|done|by constructor|..]; intros; by apply elem_of_nil in H1 || by apply elem_of_nil in H0. }
  apply ng_send; [generalize (MeshChat.nick c0 ++ u " 0 * :mesh-chat-smoke " ++ MeshChat.label c0); intros x; vm_compute; reflexivity
    |generalize (MeshChat.nick c0 ++ u " 0 * :mesh-chat-smoke " ++ MeshChat.label c0); intros x; vm_compute; reflexivity|].
  apply ng_send; [generalize (MeshChat.nick c0); intros x; vm_compute; reflexivity
    |generalize (MeshChat.nick c0); intros x; vm_compute; reflexivity|].
  apply ng_send; [vm_compute; reflexivity|vm_compute; reflexivity|done].
Qed.

(** ** The loop *)

(** Nothing is waited for once a client has failed. *)
Lemma wait_until_spec pred passes : ∀ a b ok a' b' rest,
  negotiation a → negotiation b → wait_until pred passes a b = Some (ok, a', b', rest) →
  negotiation a' ∧ negotiation b' ∧ (ok = true → pred a' b' = true)
  ∧ (ok = true → pred a b = false → has_err a = false ∧ has_err b = false).
Proof.
  induction passes as [|[ra rb] passes IH]; intros a b ok a' b' rest Ha Hb; cbn [wait_until].
  - intros [= <- <- <- <-]. split; [done|]. split; [done|]. split; [done|]. congruence.
  - destruct (pred a b) eqn:Ep; [intros [= <- <- <- <-]; done|].
    destruct (has_err a || has_err b) eqn:Ee; [intros [= <- <- <- <-]; done|].
    apply orb_false_elim in Ee as [Ea Eb].
    destruct (pump_ready ra a) as [a1|] eqn:Ea1; [|done]. cbn [mbind option_bind].
    destruct (pump_ready rb b) as [b1|] eqn:Eb1; [|done]. cbn [mbind option_bind]. intros E.
    destruct (IH a1 b1 ok a' b' rest (ng_ready _ _ _ Ha Ea1) (ng_ready _ _ _ Hb Eb1) E) as (H1 & H2 & H3 & _). done.
Qed.
End Negotiation.

(** The negotiation of a mesh client is safe against any server: whatever
    it reads, it ends the capability negotiation at most once, as a guest it
    never requests or performs authentication, and a SASL client that was
    told of a failed authentication, or any client whose registration was
    rejected, has recorded an error. *)
Theorem mesh_negotiation mode label nick user pass chan reads c :
  foldl (λ c r, c ≫= pump r) (Some (connect (new_client label nick user pass mode chan))) reads = Some c →
  (cap_ends c ≤ 1)%nat
  ∧ (mode = false → Forall (λ l, auth_line l = false) (sent c))
  ∧ (mode = true → ∀ code, code ∈ SASL_FAILURES → code ∈ reg_numerics c → has_err c = true)
  ∧ (∀ code, code ∈ [u "464"; u "465"] → code ∈ reg_numerics c → has_err c = true).
Proof.
  assert (H : ∀ reads c0 c1, negotiation mode c0 → foldl (λ c r, c ≫= pump r) (Some c0) reads = Some c1 →
    negotiation mode c1).
  { clear. induction reads as [|r reads IH]; intros c0 c1 Hn; cbn [foldl]; [by intros [= <-]|].
    cbn [mbind option_bind]. destruct (pump r c0) as [c2|] eqn:E; [apply IH; by eapply ng_pump|].
    intros E'. exfalso. revert E'. clear. induction reads as [|r reads IH]; cbn [foldl]; [done|exact IH]. }
  intros E. apply (H _ _ _ (ng_connect mode label nick user pass chan)) in E as [N0 N1 N2 N3 N4].
  split; [rewrite N1; destruct (cap_ended c); lia|]. rewrite N0 in *.
  split; [exact N2|]. split; [exact N3|exact N4].
Qed.

Lemma mesh_negotiation_witness :
  ∃ c, foldl (λ c r, c ≫= pump r) (Some (connect (new_client (u "A") (u "n") (u "acc") (u "pw") true (u "#r"))))
         [Chunk (bs ":s CAP * LS :sasl" ++ CRLF ++ bs ":s 904 n :no" ++ CRLF ++ bs ":s 904 n :no" ++ CRLF)] = Some c
    ∧ (cap_ends c ≤ 1)%nat ∧ has_err c = true.
Proof.
  destruct (foldl (λ c r, c ≫= pump r) (Some (connect (new_client (u "A") (u "n") (u "acc") (u "pw") true (u "#r"))))
    [Chunk (bs ":s CAP * LS :sasl" ++ CRLF ++ bs ":s 904 n :no" ++ CRLF ++ bs ":s 904 n :no" ++ CRLF)]) as [c|] eqn:E;
    [|vm_compute in E; discriminate].
  exists c. split; [reflexivity|].
  destruct (mesh_negotiation true (u "A") (u "n") (u "acc") (u "pw") (u "#r") _ c E) as (H1 & _ & H3 & _).
  split; [exact H1|]. apply (H3 eq_refl (u "904")).
  - right. left.
  - assert (Hm : mem (u "904") (reg_numerics c) = true).
    { vm_compute in E. injection E as <-. vm_compute. reflexivity. }
    apply existsb_elem in Hm as (x & Hx & Ex). apply str_eqb_eq in Ex as ->. exact Hx.
Defined.

(** The exchange that passes, from clients whose negotiation is sound. *)
Lemma exchange_pass msg_a msg_b passes mode a b a' b' :
  negotiation mode a → negotiation mode b →
  exchange msg_a msg_b passes a b = Some (0, a', b') →
  ∃ a1 b1 p1 a2 b2 p2 p3,
    wait_until (λ a b, joined a && joined b) passes a b = Some (true, a1, b1, p1)
    ∧ wait_until (λ _ b, saw msg_a b) p1 (send_privmsg msg_a a1) b1 = Some (true, a2, b2, p2)
    ∧ wait_until (λ a _, saw msg_b a) p2 a2 (send_privmsg msg_b b2) = Some (true, a', b', p3)
    ∧ joined a1 = true ∧ joined b1 = true ∧ saw msg_a b2 = true ∧ saw msg_b a' = true
    ∧ (saw msg_b a2 = false →
       has_err a2 = false ∧ has_err b2 = false
       ∧ (mode = true → ∀ code, code ∈ SASL_FAILURES → code ∉ reg_numerics a2 ∧ code ∉ reg_numerics b2)
       ∧ ∀ code, code ∈ [u "464"; u "465"] → code ∉ reg_numerics a2 ∧ code ∉ reg_numerics b2).
Proof.
  intros Ha Hb. unfold exchange.
  destruct (wait_until _ passes a b) as [[[[ok1 a1] b1] p1]|] eqn:E1; [|done]. cbn [mbind option_bind].
  destruct (wait_until_spec mode _ _ _ _ _ _ _ _ Ha Hb E1) as (Ha1 & Hb1 & P1 & _).
  destruct ok1; cbn [negb].
  2:{ destruct (negb (use_sasl a1) && _); intros [= ? _ _]; discriminate. }
  destruct (wait_until _ p1 _ _) as [[[[ok2 a2] b2] p2]|] eqn:E2; [|done]. cbn [mbind option_bind].
  destruct (wait_until_spec mode _ _ _ _ _ _ _ _ (ng_privmsg mode msg_a a1 Ha1) Hb1 E2) as (Ha2 & Hb2 & P2 & _).
  destruct ok2; cbn [negb]; [|intros [= ? _ _]; discriminate].
  destruct (wait_until _ p2 _ _) as [[[[ok3 a3] b3] p3]|] eqn:E3; [|done]. cbn [mbind option_bind].
  destruct (wait_until_spec mode _ _ _ _ _ _ _ _ Ha2 (ng_privmsg mode msg_b b2 Hb2) E3) as (Ha3 & Hb3 & P3 & F3).
  destruct ok3; [|intros [= ? _ _]; discriminate]. intros [= <- <-].
  specialize (P1 eq_refl). apply andb_prop in P1 as [J1 J2].
  exists a1, b1, p1, a2, b2, p2, p3. split; [done|]. split; [done|]. split; [done|]. split; [done|]. split; [done|].
  split; [by apply P2|]. split; [by apply P3|]. intros Hf. destruct (F3 eq_refl Hf) as [Fa Fb].
  assert (Fb' : has_err b2 = false) by exact Fb. split; [exact Fa|]. split; [exact Fb'|].
  destruct Ha2 as [A0 _ _ A3 A4], Hb2 as [B0 _ _ B3 B4]. split.
  - intros Hm code Hc. split; intros Hin; [rewrite (A3 ltac:(congruence) code Hc Hin) in Fa; done|].
    rewrite (B3 ltac:(congruence) code Hc Hin) in Fb'. done.
  - intros code Hc. split; intros Hin; [rewrite (A4 code Hc Hin) in Fa; done|].
    rewrite (B4 code Hc Hin) in Fb'. done.
Qed.

(** ** What was read *)

(** The messages a client has seen are only ever added to. *)
Lemma seen_cap_end c : seen_privmsgs (cap_end c) = seen_privmsgs c.
Proof. unfold cap_end. by destruct (cap_ended c). Qed.

Lemma seen_handle_cap line parts c : seen_privmsgs (handle_cap line parts c) = seen_privmsgs c.
Proof.
  unfold handle_cap. cbv zeta.
  repeat match goal with |- seen_privmsgs (if ?b then _ else _) = _ => destruct b end;
    rewrite ?seen_cap_end; try reflexivity; by destruct (use_sasl c).
Qed.

Lemma seen_handle_numeric code c : seen_privmsgs (handle_numeric code c) = seen_privmsgs c.
Proof.
  unfold handle_numeric. cbv zeta.
  repeat match goal with |- seen_privmsgs (if ?b then _ else _) = _ => destruct b end;
    rewrite ?seen_cap_end; try reflexivity; by destruct (use_sasl _).
Qed.

Lemma seen_handle_words work p0 rest c :
  seen_privmsgs c `prefix_of` seen_privmsgs (handle_words work p0 rest c).
Proof.
  unfold handle_words. cbv zeta.
  repeat match goal with |- _ `prefix_of` seen_privmsgs (if ?b then _ else _) => destruct b end;
    rewrite ?seen_handle_cap, ?seen_handle_numeric; try reflexivity.
  by eexists.
Qed.

Lemma seen_handle_all lines : ∀ c c', handle_all lines c = Some c' →
  seen_privmsgs c `prefix_of` seen_privmsgs c'.
Proof.
  induction lines as [|raw lines IH]; intros c c'; cbn [handle_all]; [by intros [= <-]|].
  destruct (handle (utf8_decode raw) c) as [c1|] eqn:E; [|done]. cbn [mbind option_bind].
  intros H%IH. etransitivity; [|exact H]. revert E. unfold handle.
  destruct (utf8_decode raw) as [|ch line]; [by intros [= <-]|].
  destruct (strip_tags (ch :: line)) as [work|]; [|done]. cbn [mbind option_bind].
  destruct (split_ws work) as [|p0 rest]; intros [= <-]; [done|]. apply seen_handle_words.
Qed.

Lemma seen_ready r c c' : pump_ready r c = Some c' → seen_privmsgs c `prefix_of` seen_privmsgs c'.
Proof.
  destruct r as [[[|x b]| |]|]; unfold pump_ready, pump; try (by intros [= <-]).
  cbv zeta. destruct (handle_all _ c) as [c1|] eqn:E; [|done]. intros [= <-].
  exact (seen_handle_all _ _ _ E).
Qed.

(** Both clients read what the passes deliver. *)
Fixpoint read_all (passes : list pass) (a b : IrcClient) : option (IrcClient * IrcClient) :=
  match passes with
  | [] => Some (a, b)
  | (ra, rb) :: passes => a ← pump_ready ra a; b ← pump_ready rb b; read_all passes a b
  end.

Lemma read_all_seen passes : ∀ a b a' b', read_all passes a b = Some (a', b') →
  seen_privmsgs a `prefix_of` seen_privmsgs a' ∧ seen_privmsgs b `prefix_of` seen_privmsgs b'.
Proof.
  induction passes as [|[ra rb] passes IH]; intros a b a' b'; cbn [read_all]; [by intros [= <- <-]|].
  destruct (pump_ready ra a) as [a1|] eqn:Ea; [|done]. cbn [mbind option_bind].
  destruct (pump_ready rb b) as [b1|] eqn:Eb; [|done]. cbn [mbind option_bind].
  intros [H1 H2]%IH. apply seen_ready in Ea, Eb. by split; etransitivity.
Qed.

(** The loop reads some of the passes and leaves the others. *)
Lemma wait_until_reads pred passes : ∀ a b ok a' b' rest,
  wait_until pred passes a b = Some (ok, a', b', rest) →
  ∃ used, passes = used ++ rest ∧ read_all used a b = Some (a', b').
Proof.
  induction passes as [|[ra rb] passes IH]; intros a b ok a' b' rest; cbn [wait_until].
  - intros [= <- <- <- <-]. by exists [].
  - destruct (pred a b); [intros [= <- <- <- <-]; by exists []|].
    destruct (_ || _); [intros [= <- <- <- <-]; by exists []|].
    destruct (pump_ready ra a) as [a1|] eqn:Ea; [|done]. cbn [mbind option_bind].
    destruct (pump_ready rb b) as [b1|] eqn:Eb; [|done]. cbn [mbind option_bind].
    intros (used & -> & H)%IH. exists ((ra, rb) :: used). split; [done|]. cbn [read_all].
    rewrite Ea. cbn [mbind option_bind]. by rewrite Eb.
Qed.

(** A message not seen before is among those received since. *)
Lemma seen_since text c c' : seen_privmsgs c `prefix_of` seen_privmsgs c' →
  saw text c = false → saw text c' = true →
  ∃ t, t ∈ drop (length (seen_privmsgs c)) (seen_privmsgs c') ∧ contains t text = true.
Proof.
  intros [l E] Hf (t & Ht & Hc)%existsb_elem. rewrite E in Ht |- *. rewrite drop_app_length.
  apply elem_of_app in Ht as [Ht|Ht]; [|by exists t].
  assert (saw text c = true) by (apply existsb_elem; by exists t). congruence.
Qed.

(** C15: Exit status 0 of the mesh smoke test.  The endpoints were resolved
    and both could be reached.  The reads fall into three parts.  After the
    first, both clients had joined the channel; then A sent its message and,
    after the second part, B had received a message with that text; then B
    sent its own and, after the third part, A had received it.  A message that
    was not seen before it was sent (its tag is unique to the run) was received
    in the part that follows the sending.  If A had not seen B's message
    early, no client had an error when it was sent, so with SASL
    neither had been told that its authentication failed, and none had its
    registration rejected. *)
Theorem mesh_pass env args tag opened passes clients :
  main env args tag opened passes = Some (0, clients) →
  ∃ mode ea eb p1 p2 p3 rest a1 b1 a2 b2 a3 b3,
    resolve_auth_mode env = Some mode ∧ resolve_endpoints env args = inr (ea, eb)
    ∧ opened ea = true ∧ opened eb = true ∧ passes = p1 ++ p2 ++ p3 ++ rest
    ∧ clients = Some (close a3, close b3)
    ∧ read_all p1 (make_client env tag mode (u "A") (u "a")) (make_client env tag mode (u "B") (u "b"))
      = Some (a1, b1) ∧ joined a1 = true ∧ joined b1 = true
    ∧ read_all p2 (send_privmsg (message_a tag) a1) b1 = Some (a2, b2) ∧ saw (message_a tag) b2 = true
    ∧ read_all p3 a2 (send_privmsg (message_b tag) b2) = Some (a3, b3) ∧ saw (message_b tag) a3 = true
    ∧ (saw (message_a tag) b1 = false →
       ∃ t, t ∈ drop (length (seen_privmsgs b1)) (seen_privmsgs b2) ∧ contains t (message_a tag) = true)
    ∧ (saw (message_b tag) a2 = false →
       (∃ t, t ∈ drop (length (seen_privmsgs a2)) (seen_privmsgs a3) ∧ contains t (message_b tag) = true)
       ∧ has_err a2 = false ∧ has_err b2 = false
       ∧ (mode = true → ∀ code, code ∈ SASL_FAILURES → code ∉ reg_numerics a2 ∧ code ∉ reg_numerics b2)
       ∧ ∀ code, code ∈ [u "464"; u "465"] → code ∉ reg_numerics a2 ∧ code ∉ reg_numerics b2).
Proof.
  unfold main. destruct (resolve_auth_mode env) as [mode|] eqn:Em; [|intros [= ? _]; discriminate].
  destruct (resolve_endpoints env args) as [[]|[ea eb]] eqn:Ee; [intros [= ? _]; discriminate|].
  destruct (opened ea && opened eb) eqn:Eo; cbn [negb]; [|intros [= ? _]; discriminate].
  apply andb_prop in Eo as [Eo1 Eo2].
  destruct (exchange _ _ _ _ _) as [[[code a3] b3]|] eqn:Ex; [|done]. cbn [mbind option_bind].
  intros [= -> <-].
  apply (exchange_pass _ _ _ mode) in Ex as (a1 & b1 & q1 & a2 & b2 & q2 & q3 & W1 & W2 & W3 & J1 & J2 & S1 & S2 & He);
    [|apply ng_connect..].
  apply wait_until_reads in W1 as (p1 & -> & R1), W2 as (p2 & -> & R2), W3 as (p3 & -> & R3).
  exists mode, ea, eb, p1, p2, p3, q3, a1, b1, a2, b2, a3, b3.
  do 13 (split; [first [done|reflexivity]|]). split.
  - intros Hf. apply read_all_seen in R2 as [_ R2]. by apply (seen_since _ b1 b2).
  - intros Hf. split; [|by apply He]. apply read_all_seen in R3 as [R3 _]. by apply (seen_since _ a2 a3).
Qed.

Definition welcome_to (n : pybytes) : recv :=
  Chunk (bs ":s 001 x :hi" ++ CRLF ++ bs ":" ++ n ++ bs "!u@h JOIN #root" ++ CRLF).

Definition talk (n text : pybytes) : recv := Chunk (bs ":" ++ n ++ bs "!u@h PRIVMSG #root :" ++ text ++ CRLF).

Definition good_passes : list pass :=
  [(Some (welcome_to (bs "mcs7a")), Some (welcome_to (bs "mcs7b")));
   (None, Some (talk (bs "na") (bs "mesh-chat-smoke A->7")));
   (Some (talk (bs "nb") (bs "mesh-chat-smoke B->7")), None)].

Lemma mesh_pass_witness :
  ∃ ea eb, resolve_endpoints ∅ [u "10.0.0.1:6667"] = inr (ea, eb)
    ∧ (fst <$> main ∅ [u "10.0.0.1:6667"] (u "7") (λ _, true) good_passes) = Some 0.
Proof.
  destruct (main ∅ [u "10.0.0.1:6667"] (u "7") (λ _, true) good_passes) as [[code cl]|] eqn:E;
    [|vm_compute in E; discriminate].
  assert (Hcode : code = 0).
  { assert (Hc : (fst <$> main ∅ [u "10.0.0.1:6667"] (u "7") (λ _, true) good_passes) = Some 0)
      by (vm_compute; reflexivity).
    rewrite E in Hc. cbn in Hc. by injection Hc. }
  rewrite Hcode in E.
  destruct (mesh_pass ∅ [u "10.0.0.1:6667"] (u "7") (λ _, true) good_passes cl E)
    as (? & ea & eb & ? & ? & ? & ? & ? & ? & ? & ? & ? & ? & _ & H & _).
  exists ea, eb. split; [exact H|]. cbn. by rewrite Hcode.
Defined.

(** ** Tags *)

(** Only the at sign of the tags is removed, so a tagged message is taken for
    something else and dropped, and a line of tags alone raises. *)
Example tags_not_stripped :
  handle (u "@time=1 :n!u@h PRIVMSG #root :hello") guest = Some guest
  ∧ (seen_privmsgs <$> handle (u ":n!u@h PRIVMSG #root :hello") guest) = Some [u "hello"]
  ∧ handle (u "@time=1") guest = None.
Proof. split; [vm_compute; reflexivity|]. split; vm_compute; reflexivity. Qed.

(** ** Endpoints *)

Lemma find_pair c d x y : c ∉ x → find (x ++ c :: d :: y) [c; d] = Some (length x).
Proof.
  induction x as [|a x IH]; intros Hc; cbn [app find].
  - cbn [startswith]. by rewrite !Z.eqb_refl.
  - apply not_elem_of_cons in Hc as [Hne Hc]. cbn [startswith]. rewrite (proj2 (Z.eqb_neq c a)) by done.
    cbn [andb]. by rewrite IH.
Qed.

Lemma rfind_char c a b : c ∉ b → rfind (a ++ c :: b) [c] = Some (length a).
Proof.
  assert (Hno : ∀ b, c ∉ b → rfind b [c] = None).
  { intros b0. induction b0 as [|x b0 IH]; [done|]. intros [Hx Hb]%not_elem_of_cons. cbn [rfind]. rewrite (IH Hb).
    cbn [startswith]. by rewrite (proj2 (Z.eqb_neq c x)). }
  intros Hb. induction a as [|x a IH]; cbn [app rfind length].
  - rewrite (Hno b Hb). cbn [startswith]. by rewrite Z.eqb_refl.
  - by rewrite IH.
Qed.

Lemma digits_no_space z : 0 ≤ z → Forall (λ c, isspace c = false) (dec z).
Proof.
  intros Hz. eapply Forall_impl; [by apply dec_chars|]. intros c Hc. unfold is_ascii_digit in Hc. bool_hyps.
  assert (Hd : forallb (λ c, negb (isspace c)) [48; 49; 50; 51; 52; 53; 54; 55; 56; 57] = true) by (vm_compute; reflexivity).
  rewrite forallb_elem in Hd. apply negb_true_iff, Hd.
  assert (c = 48 ∨ c = 49 ∨ c = 50 ∨ c = 51 ∨ c = 52 ∨ c = 53 ∨ c = 54 ∨ c = 55 ∨ c = 56 ∨ c = 57) as Hx by lia.
  apply list_elem_of_In. simpl. intuition.
Qed.

Lemma dec_nonempty z : 0 ≤ z → nonempty (dec z) = true.
Proof. intros Hz. pose proof (int_dec z Hz) as H. destruct (dec z); [done|reflexivity]. Qed.

Lemma int_dec_drop h p : 0 ≤ p → int (drop (S (length h)) (h ++ 58 :: dec p)) = Some p.
Proof.
  intros Hp. rewrite drop_app_ge by lia. replace (S (length h) - length h)%nat with 1%nat by lia. cbn [drop].
  by rewrite drop_0, int_dec.
Qed.

(** Endpoints are read as they are written, with names and IPv4 addresses as
    [host:port] and IPv6 addresses, which hold colons, in brackets. *)
Theorem endpoint_roundtrip h p :
  0 ≤ p → Forall (λ c, isspace c = false) h →
  (nonempty h = true → startswith h (u "[") = false → parse_endpoint (h ++ [58] ++ dec p) = Some (h, p))
  ∧ (93 ∉ h → parse_endpoint ([91] ++ h ++ [93; 58] ++ dec p) = Some (h, p)).
Proof.
  intros Hp Hh. pose proof (digits_no_space p Hp) as Hd.
  assert (H58 : 58 ∉ dec p).
  { intros Hin. pose proof (dec_chars p Hp) as Hc. rewrite Forall_forall in Hc. by specialize (Hc _ Hin). }
  assert (E91 : u "[" = [91]) by (vm_compute; reflexivity).
  split.
  - intros Hne Hb. unfold parse_endpoint, strip.
    rewrite strip_by_fix by (rewrite !Forall_app; split; [done|]; split; [by repeat constructor|done]). cbv zeta.
    destruct h as [|c h]; [discriminate|]. cbn [app nonempty negb].
    assert (Hb' : startswith (c :: h ++ 58 :: dec p) (u "[") = false).
    { rewrite E91 in *. cbn [startswith] in *. exact Hb. }
    rewrite Hb'. unfold rpartition. change (c :: h ++ 58 :: dec p) with ((c :: h) ++ 58 :: dec p).
    rewrite rfind_char by done. rewrite take_app_length, int_dec_drop by done. reflexivity.
  - intros H93. unfold parse_endpoint, strip.
    rewrite strip_by_fix by (rewrite !Forall_app; split; [by repeat constructor|]; split; [done|];
      split; [by repeat constructor|done]). cbv zeta.
    cbn [app nonempty negb]. rewrite E91. cbn [startswith]. rewrite Z.eqb_refl. cbn [andb].
    assert (Edrop : drop 1 (91 :: h ++ 93 :: 58 :: dec p) = h ++ 93 :: 58 :: dec p) by reflexivity. rewrite Edrop.
    assert (E93 : u "]:" = [93; 58]) by (vm_compute; reflexivity).
    unfold partition. rewrite E93, find_pair by done. rewrite take_app_length.
    assert (Ed : drop (length h + length [93; 58]) (h ++ 93 :: 58 :: dec p) = dec p).
    { rewrite drop_app_ge by (cbn [length]; lia). cbn [length].
      replace (length h + 2 - length h)%nat with 2%nat by lia. reflexivity. }
    rewrite Ed, dec_nonempty, int_dec by done. reflexivity.
Qed.
