(* ===== verification/OpenBsd.v ===== *)
(** * tools/openbsd_session_smoke.py: the session fixture

    The probe of a client's lines, the oracle that an event reached every
    physical attachment exactly once under one identity, the secured-line and
    dial checks, and the loopback aliases and packet-filter rules the fixture
    installs on the guest and restores.  What the guest answers to a command is
    a function of the commands run so far and of their answers; the parts of a
    run that touch neither the aliases nor the packet filter are one step each.
    A command or a step may raise, and an exception is either of a class the
    clean-up handles or of one it lets through. *)

From S2P Require Import Prelude PyStr PyBytes Regex.

(** ** Lines *)

(** The results of a WHOIS: whether a line is the numeric for the nick. *)
Definition whois_matches (nick numeric line : pybytes) : bool :=
  let words := List.filter nonempty (split_by bisspace line) in
  let words := match words with
               | w :: rest => if startswith w (bs "@") then rest else words
               | [] => words
               end in
  match words with
  | w0 :: w1 :: _ :: w3 :: _ =>
    let low := fmap (λ c, if is_upper_az c then c + 32 else c) in
    startswith w0 (bs ":") && str_eqb w1 numeric && str_eqb (low w3) (low nick)
  | _ => false
  end.

(** The first position of a line the predicate accepts. *)
Fixpoint index_of (f : pybytes → bool) (lines : list pybytes) : option nat :=
  match lines with
  | [] => None
  | l :: lines => if f l then Some O else S <$> index_of f lines
  end.

(** One query of [wait_nick] on the lines seen since: [None] while its end is
    missing, otherwise whether a result preceded the end. *)
Definition nick_present (nick : pybytes) (replies : list pybytes) : option bool :=
  match index_of (whois_matches nick (bs "318")) replies with
  | None => None
  | Some _ =>
    terminal ← List.find (whois_matches nick (bs "318")) replies;
    i ← index_of (str_eqb terminal) replies;
    Some (existsb (whois_matches nick (bs "311")) (take i replies))
  end.

(** The tags of a line: the last value of each key. *)
Definition tags_of (line : pybytes) : gmap pybytes pybytes :=
  let block := from_opt [] (hd_error (split_max 1 (bs " ") (drop 1 line))) in
  foldl (λ m tag, match split_max 1 (bs "=") tag with [k; v] => <[k := v]> m | _ => m end) ∅
    (split (bs ";") block).

Abbreviation identity := (pybytes * pybytes)%type.

(** ** The delivery oracle *)

(** What each client has seen, by its number. *)
Abbreviation transcript := (gmap nat (list pybytes)) (only parsing).

Definition seen (t : transcript) (client : nat) : list pybytes := from_opt [] (t !! client).

Definition occurrences (needle : pybytes) (lines : list pybytes) : list pybytes :=
  List.filter (λ line, contains line needle) lines.

(** The identity of the only event among the lines. *)
Definition event_identity (needle : pybytes) (lines : list pybytes) : option identity :=
  match occurrences needle lines with
  | [line] =>
    if negb (startswith line (bs "@")) then None
    else
      msgid ← tags_of line !! bs "msgid"; time ← tags_of line !! bs "time";
      if nonempty msgid && nonempty time then Some (msgid, time) else None
  | _ => None
  end.

(** The identities of the required clients, each from its own start. *)
Fixpoint identities (needle : pybytes) (starts : nat → nat) (t : transcript) (required : list nat)
    : option (list identity) :=
  match required with
  | [] => Some []
  | client :: required =>
    i ← event_identity needle (drop (starts client) (seen t client));
    ids ← identities needle starts t required; Some (i :: ids)
  end.

Record Expected := mkExpected { ev_needle : pybytes; ev_clients : list nat; ev_identity : identity }.

Definition needle_of (target marker : pybytes) : pybytes := bs "PRIVMSG " ++ target ++ bs " :" ++ marker.

(** [event] on the transcript when it was sent and after its last drain: the
    accepted event, [None] for a failure. *)
Definition event (source : nat) (clients : list nat) (target marker : pybytes) (immediate : option (list nat))
    (sent settled : transcript) : option Expected :=
  let required := from_opt clients immediate in
  if negb (0 <? Z.of_nat (length required)) || negb (existsb (Nat.eqb source) required)
     || existsb (λ c, negb (existsb (Nat.eqb c) clients)) required then None
  else
    let needle := needle_of target marker in
    ids ← identities needle (λ c, length (seen sent c)) settled required;
    match ids with
    | [] => None
    | i :: rest => if forallb (λ j, bool_decide (j = i)) rest then Some (mkExpected needle clients i) else None
    end.

(** The identity of a line in the final check. *)
Definition recorded_identity (line : pybytes) : option pybytes * option pybytes :=
  (tags_of line !! bs "msgid", tags_of line !! bs "time").

Definition cumulative_one (t : transcript) (e : Expected) (client : nat) : bool :=
  match occurrences (ev_needle e) (seen t client) with
  | [line] => bool_decide (recorded_identity line = (Some (ev_identity e).1, Some (ev_identity e).2))
  | _ => false
  end.

(** [cumulative_events] after its barriers and drain. *)
Definition cumulative_events (t : transcript) (expected : list Expected) : bool :=
  forallb (λ e, forallb (cumulative_one t e) (ev_clients e)) expected.

(** ** Topology and dials *)

(** [health] on the numbers of processes and the metrics of one poll: [None]
    is the exception that is not retried. *)
Fixpoint degrees_ok (degrees : list Z) (nodes : list (nat * option Z)) : option bool :=
  match degrees, nodes with
  | [], [] => Some true
  | d :: degrees, (pids, links) :: nodes =>
    if negb (pids =? 1)%nat then None
    else rest ← degrees_ok degrees nodes; Some ((from_opt (-1) links =? d) && rest)
  | _, _ => Some false
  end.

(** [stable_dials] on the counts before, the expected ones and those after. *)
Definition stable_dials (before : list Z) (expected : option (list Z)) (after : list Z) : option (list Z) :=
  if foldr Z.add 0 before <? 4 then None
  else if match expected with Some e => negb (bool_decide (before = e)) | None => false end then None
  else if negb (bool_decide (after = before)) then None
  else Some before.

(** ** Commands on the guest *)

(** The parts of a run that are one step: the nodes booted by [setup], the proof
    with ordinary guests, the sessions before the cut, the events during it, the
    rejoin, the upgrades and the cold restart, and the release of the clients,
    the processes and the tunnel. *)
Inductive stage := Nodes | Ordinary | Sessions | Cut | Rejoin | Upgrades | Release.

Inductive command :=
| Uname | MakeDirectory | CopyBinary | BinaryHash | Stage (s : stage) | IfConfig | AddAlias (host : pystr) | DelAlias (host : pystr)
| CatConf | PfInfo | ConfHash | PfRules | SaveBaseline (text : pystr) | SavePartition (rules : pystr)
| PfCheck | LoadPartition | LoadBaseline | PfInterfaces.

(** How a command ends when it does not return.  [Handled] is what the handlers of
    [restore_aliases] and [cleanup] name: RuntimeError and TimeoutExpired, and for
    the parts of the release also OSError and SubprocessError.  [Escapes] is any
    other exception: an OSError of the ssh process, output that does not decode,
    an interrupt. *)
Inductive exc := Handled | Escapes.

(** The answer of a command: what it printed, or the exception. *)
Abbreviation answer := (exc + pystr)%type.

Record World := mkWorld {
  owned_aliases : list pystr;
  alias_baseline : option (list pystr);
  pf_active : bool;
  pf_hash : pystr;
  pf_rules : pystr;
  log : list (command * answer) }.

Definition act (A : Type) : Type := World → (exc + A) * World.

Definition ret {A} (x : A) : act A := λ w, (inr x, w).
(** [raise RuntimeError]. *)
Definition raise {A} : act A := λ w, (inl Handled, w).
Definition bind_ {A B} (m : act A) (k : A → act B) : act B :=
  λ w, match m w with (inl e, w) => (inl e, w) | (inr x, w) => k x w end.

Declare Scope obsd_scope.
Delimit Scope obsd_scope with obsd.
Notation "x <-^ m ;; k" := (bind_ m (λ x, k%obsd))
  (at level 100, m at next level, right associativity) : obsd_scope.
Notation "m ;;^ k" := (bind_ m (λ _, k%obsd)) (at level 100, right associativity) : obsd_scope.
Open Scope obsd_scope.

Definition check (b : bool) : act unit := if b then ret () else raise.
Definition get {A} (f : World → A) : act A := λ w, (inr (f w), w).
Definition own (host : pystr) : act unit := λ w,
  (inr (), mkWorld (owned_aliases w ++ [host]) (alias_baseline w) (pf_active w) (pf_hash w) (pf_rules w) (log w)).
Definition disown : act unit := λ w,
  (inr (), mkWorld [] (alias_baseline w) (pf_active w) (pf_hash w) (pf_rules w) (log w)).
Definition set_baseline (b : list pystr) : act unit := λ w,
  (inr (), mkWorld (owned_aliases w) (Some b) (pf_active w) (pf_hash w) (pf_rules w) (log w)).
Definition set_active (b : bool) : act unit := λ w,
  (inr (), mkWorld (owned_aliases w) (alias_baseline w) b (pf_hash w) (pf_rules w) (log w)).
Definition set_original (h r : pystr) : act unit := λ w,
  (inr (), mkWorld (owned_aliases w) (alias_baseline w) (pf_active w) h r (log w)).

(** [try: m finally: f]. *)
Definition finally {A} (m : act A) (f : act unit) : act A :=
  λ w, let '(r, w) := m w in match f w with (inl e, w) => (inl e, w) | (inr _, w) => (r, w) end.

(** [try: m] with a handler that notes the failure: whether it failed. *)
Definition noting {A} (m : act A) : act bool :=
  λ w, match m w with
       | (inr _, w) => (inr false, w)
       | (inl Handled, w) => (inr true, w)
       | (inl Escapes, w) => (inl Escapes, w)
       end.

Section Guest.
Context (guest : list (command * answer) → command → answer).

Definition remote (c : command) : act pystr := λ w,
  let r := guest (log w) c in
  (r, mkWorld (owned_aliases w) (alias_baseline w) (pf_active w) (pf_hash w) (pf_rules w) (log w ++ [(c, r)])).

(** *** Loopback aliases *)

(** The address lines of ifconfig, sorted, and the address of one. *)
Definition address_lines (text : pystr) : list pystr :=
  sorted_strs (List.filter (λ l, startswith l (u "inet ") || startswith l (u "inet6 "))
                 (strip <$> splitlines text)).
Definition address_of (line : pystr) : pystr := from_opt [] (split_ws line !! 1%nat).

Definition loopback_addresses : act (list pystr) :=
  text <-^ remote IfConfig ;; ret (address_lines text).

Fixpoint add_aliases (hosts : list pystr) : act unit :=
  match hosts with
  | [] => ret ()
  | host :: hosts => own host ;;^ remote (AddAlias host) ;;^ add_aliases hosts
  end.

Definition setup_aliases (same_ip : bool) (hosts : list pystr) : act unit :=
  baseline <-^ loopback_addresses ;;
  set_baseline baseline ;;^
  let present := address_of <$> baseline in
  if same_ip then check (mem (u "127.0.0.1") present)
  else
    check (negb (existsb (λ h, mem h present) hosts)) ;;^
    add_aliases hosts ;;^
    now <-^ loopback_addresses ;;
    check (forallb (λ h, mem h (address_of <$> now)) hosts).

(** Every owned alias is tried, until an exception escapes; whether one
    failed. *)
Fixpoint remove_aliases (hosts : list pystr) : act bool :=
  match hosts with
  | [] => ret false
  | host :: hosts =>
    failed <-^ noting (now <-^ loopback_addresses ;;
                       if mem host (address_of <$> now) then remote (DelAlias host) ;;^ ret () else ret ()) ;;
    rest <-^ remove_aliases hosts ;;
    ret (failed || rest)
  end.

Definition restore_aliases : act unit :=
  hosts <-^ get owned_aliases ;;
  failed <-^ remove_aliases hosts ;;
  check (negb failed) ;;^
  disown ;;^
  baseline <-^ get alias_baseline ;;
  match baseline with
  | None => ret ()
  | Some b => now <-^ loopback_addresses ;; check (bool_decide (now = b))
  end.

(** *** The packet filter *)

(** A line [set skip on lo], with the space after it. *)
Definition re_skip : re :=
  RSeq (RAssert at_bol_m) (RSeq (lit (u "set skip on lo")) (RSeq (star (RChr isspace)) (RAssert at_dollar_m))).

Definition partition_rules (baseline : pystr) : pystr :=
  u "block return-rst quick on lo0 proto tcp from any port 33523 to any" ++ [10]
  ++ u "block return-rst quick on lo0 proto tcp from any to any port 33523" ++ [10]
  ++ u "pass quick on lo0 all flags any no state" ++ [10] ++ baseline ++ [10].

Definition block_far_link : act unit :=
  baseline <-^ remote CatConf ;;
  check (is_someb (rsearch re_skip baseline)) ;;^
  info <-^ remote PfInfo ;;
  check (startswith info (u "Status: Enabled")) ;;^
  hash <-^ remote ConfHash ;;
  rules <-^ remote PfRules ;;
  set_original hash rules ;;^
  remote (SaveBaseline (baseline ++ [10])) ;;^
  remote (SavePartition (partition_rules (rsub re_skip [] baseline))) ;;^
  remote PfCheck ;;^
  set_active true ;;^
  remote LoadPartition ;;^
  interfaces <-^ remote PfInterfaces ;;
  check (negb (contains interfaces (u "skip"))).

Definition restore_pf : act unit :=
  active <-^ get pf_active ;;
  if negb active then ret ()
  else
    remote LoadBaseline ;;^
    set_active false ;;^
    hash <-^ remote ConfHash ;; original <-^ get pf_hash ;;
    check (str_eqb hash original) ;;^
    rules <-^ remote PfRules ;; original <-^ get pf_rules ;;
    check (str_eqb rules original) ;;^
    interfaces <-^ remote PfInterfaces ;;
    check (contains interfaces (u "skip")).

(** [partition]: the cut is lifted whatever its events do. *)
Definition partition : act unit :=
  block_far_link ;;^ finally (remote (Stage Cut) ;;^ ret ()) restore_pf ;;^
  remote (Stage Rejoin) ;;^ ret ().

(** [cleanup]: every part is tried, and a failure of any is raised at the
    end; an exception that escapes a part ends it there. *)
Definition cleanup : act unit :=
  pf <-^ noting restore_pf ;;
  release <-^ noting (remote (Stage Release)) ;;
  aliases <-^ noting restore_aliases ;;
  check (negb (pf || release || aliases)).

(** *** The run *)

Record Args := mkArgs {
  expected_sha256 : pystr;
  ssh_port : Z;
  local_base : Z;
  ordinary_presence_proof : bool;
  foreign_nick_proof : bool;
  skip_partition : bool;
  same_ip_reciprocal : bool }.

(** The arguments [main] accepts. *)
Definition args_ok (a : Args) : bool :=
  (length (expected_sha256 a) =? 64)%nat
  && forallb (λ c, is_ascii_digit c || ((97 <=? c) && (c <=? 102))) (expected_sha256 a)
  && (1024 <=? local_base a) && (local_base a <=? 65510) && (1 <=? ssh_port a) && (ssh_port a <=? 65535)
  && (negb (same_ip_reciprocal a) || skip_partition a)
  && (negb (ordinary_presence_proof a) || (skip_partition a && negb (foreign_nick_proof a))).

Definition hosts_of (a : Args) : list pystr :=
  if same_ip_reciprocal a then [u "127.0.0.1"; u "127.0.0.1"; u "127.0.0.1"]
  else [u "127.0.0.31"; u "127.0.0.32"; u "127.0.0.33"].

Definition setup (a : Args) : act unit :=
  system <-^ remote Uname ;;
  check (str_eqb system (u "OpenBSD")) ;;^
  remote MakeDirectory ;;^
  remote CopyBinary ;;^
  digest <-^ remote BinaryHash ;;
  check (str_eqb digest (expected_sha256 a)) ;;^
  setup_aliases (same_ip_reciprocal a) (hosts_of a) ;;^
  remote (Stage Nodes) ;;^ ret ().

Definition run (a : Args) : act unit :=
  setup a ;;^
  if ordinary_presence_proof a then remote (Stage Ordinary) ;;^ ret ()
  else
    remote (Stage Sessions) ;;^
    (if skip_partition a then ret () else partition) ;;^
    remote (Stage Upgrades) ;;^ ret ().

(** A fixture before anything ran on the guest. *)
Definition fixture : World := mkWorld [] None false [] [] [].

Definition main (a : Args) : (exc + unit) * World :=
  if args_ok a then finally (run a) cleanup fixture else (inl Escapes, fixture).

End Guest.
