(* ===== verification/OpenBsdSpec.v ===== *)
(** * tools/openbsd_session_smoke.py: what a passing run shows

    An event the oracle accepts, and still accepts at the end, reached each of
    its recipients exactly once and under one identity; the run touches only the
    aliases it added and the rules it saved, tries to undo all of it unless an
    exception escapes the clean-up, and succeeds only if it left the guest's
    network as it found it. *)

From S2P Require Import Prelude PyStr PyBytes Regex OpenBsd.

(** ** The delivery oracle *)

(** The needle is in one of the lines and in no other, under the identity. *)
Definition once (needle : pybytes) (i : identity) (lines : list pybytes) : Prop :=
  ∃ a line b, lines = a ++ line :: b ∧ contains line needle = true
    ∧ tags_of line !! bs "msgid" = Some i.1 ∧ tags_of line !! bs "time" = Some i.2
    ∧ (∀ l, l ∈ a ++ b → contains l needle = false).

(** That line is at or after a position. *)
Definition once_since (start : nat) (needle : pybytes) (lines : list pybytes) : Prop :=
  ∃ line, line ∈ drop start lines ∧ contains line needle = true ∧ startswith line (bs "@") = true.

Lemma occurrences_nil needle lines :
  occurrences needle lines = [] ↔ ∀ l, l ∈ lines → contains l needle = false.
Proof.
  unfold occurrences. induction lines as [|l lines IH]; simpl; [split; [by intros _ l ?%elem_of_nil|done]|].
  destruct (contains l needle) eqn:E.
  - split; [done|]. intros H. rewrite (H l) in E; [done|left].
  - rewrite IH. setoid_rewrite elem_of_cons. naive_solver.
Qed.

Lemma occurrences_one needle lines line :
  occurrences needle lines = [line] ↔
  ∃ a b, lines = a ++ line :: b ∧ contains line needle = true ∧ ∀ l, l ∈ a ++ b → contains l needle = false.
Proof.
  unfold occurrences. split.
  - induction lines as [|l lines IH]; simpl; [done|]. destruct (contains l needle) eqn:E.
    + intros [= -> H]. exists [], lines. split; [done|]. split; [done|]. by apply occurrences_nil.
    + intros (a & b & -> & Hc & H)%IH. exists (l :: a), b. split; [done|]. split; [done|].
      intros x [->|Hx]%elem_of_cons; [done|by apply H].
  - intros (a & b & -> & Hc & H). rewrite List.filter_app. cbn [List.filter]. rewrite Hc.
    setoid_rewrite elem_of_app in H. fold (occurrences needle a) (occurrences needle b).
    rewrite (proj2 (occurrences_nil needle a)), (proj2 (occurrences_nil needle b)); naive_solver.
Qed.

(** The final check is that property of every recipient of every event. *)
Lemma cumulative_one_once t e c :
  cumulative_one t e c = true ↔ once (ev_needle e) (ev_identity e) (seen t c).
Proof.
  unfold cumulative_one, once, recorded_identity. split.
  - destruct (occurrences _ _) as [|line [|]] eqn:E; [done| |done].
    intros H%bool_decide_eq_true. injection H as Hm Ht. apply occurrences_one in E as (a & b & ? & ? & ?).
    by exists a, line, b.
  - intros (a & line & b & E & Hc & Hm & Ht & Hu).
    rewrite (proj2 (occurrences_one _ _ line)) by (by exists a, b). rewrite Hm, Ht. by apply bool_decide_eq_true.
Qed.

Lemma cumulative_spec t expected :
  cumulative_events t expected = true ↔
  ∀ e, e ∈ expected → ∀ c, c ∈ ev_clients e → once (ev_needle e) (ev_identity e) (seen t c).
Proof.
  unfold cumulative_events. rewrite forallb_forall. setoid_rewrite forallb_forall.
  setoid_rewrite <-list_elem_of_In. by setoid_rewrite cumulative_one_once.
Qed.

Lemma event_identity_sound needle lines i :
  event_identity needle lines = Some i →
  nonempty i.1 = true ∧ nonempty i.2 = true
  ∧ ∃ line, line ∈ lines ∧ contains line needle = true ∧ startswith line (bs "@") = true.
Proof.
  unfold event_identity. destruct (occurrences needle lines) as [|line [|]] eqn:E; [done| |done].
  apply occurrences_one in E as (a & b & -> & Hc & _).
  destruct (startswith line (bs "@")) eqn:Es; simpl; [|done].
  destruct (tags_of line !! bs "msgid") as [m|]; simpl; [|done].
  destruct (tags_of line !! bs "time") as [x|]; simpl; [|done].
  destruct (nonempty m) eqn:Em, (nonempty x) eqn:Ex; simpl; try done. intros [= <-].
  split; [done|]. split; [done|]. exists line. split; [|done]. apply elem_of_app. right. left.
Qed.

Lemma identities_sound needle starts t required ids :
  identities needle starts t required = Some ids →
  Forall2 (λ c i, event_identity needle (drop (starts c) (seen t c)) = Some i) required ids.
Proof.
  revert ids. induction required as [|c required IH]; simpl; intros ids H; [by simplify_eq; constructor|].
  destruct (event_identity _ _) as [i|] eqn:E; simpl in H; [|done].
  destruct (identities _ _ _ _) as [ids'|]; simpl in H; [|done]. simplify_eq. constructor; [done|]. by apply IH.
Qed.

(** What an accepted event records. *)
Lemma event_sound source clients target marker immediate sent settled e :
  event source clients target marker immediate sent settled = Some e →
  let required := from_opt clients immediate in
  ev_needle e = needle_of target marker ∧ ev_clients e = clients
  ∧ source ∈ required ∧ required ⊆ clients
  ∧ nonempty (ev_identity e).1 = true ∧ nonempty (ev_identity e).2 = true
  ∧ ∀ c, c ∈ required → event_identity (ev_needle e) (drop (length (seen sent c)) (seen settled c)) = Some (ev_identity e).
Proof.
  unfold event. cbv zeta. set (required := from_opt clients immediate).
  destruct (existsb (Nat.eqb source) required) eqn:Es; [|by rewrite orb_true_r].
  destruct (existsb (λ c, _) required) eqn:Ec; [by rewrite orb_true_r|].
  destruct (negb _); simpl; [done|].
  destruct (identities _ _ _ _) as [[|i rest]|] eqn:Ei; simpl; [done| |done].
  destruct (forallb _ rest) eqn:Ef; [|done]. intros [= <-]. simpl.
  apply identities_sound in Ei.
  assert (Hall : ∀ c, c ∈ required →
            event_identity (needle_of target marker) (drop (length (seen sent c)) (seen settled c)) = Some i).
  { intros c Hc. apply list_elem_of_lookup in Hc as [k Hk].
    destruct (Forall2_lookup_l _ _ _ _ _ Ei Hk) as (j & Hj & E). rewrite E. f_equal.
    destruct k; simpl in Hj; [by simplify_eq|]. apply list_elem_of_lookup_2, list_elem_of_In in Hj.
    rewrite forallb_forall in Ef. by apply Ef, bool_decide_eq_true in Hj. }
  apply existsb_elem in Es as (x & Hx & E%Nat.eqb_eq). subst x.
  destruct (event_identity_sound _ _ _ (Hall _ Hx)) as (H1 & H2 & _).
  repeat (split; [done|]). split; [|done]. intros c Hc. destruct (existsb (Nat.eqb c) clients) eqn:E.
  - apply existsb_elem in E as (y & Hy & E%Nat.eqb_eq). by subst y.
  - exfalso. apply not_true_iff_false in Ec. apply Ec, existsb_elem. exists c. by rewrite E.
Qed.

(** C10: an event that [event] accepted and [cumulative_events] still finds at
    the end of the run, on transcripts that only grew, reached every one of its
    recipients, the author included, exactly once over the whole run and with
    one non-empty message identifier and server time, and reached the clients
    it was required at after it was sent. *)
Theorem events_exactly_once source clients target marker immediate (sent settled final : gmap nat (list pybytes))
    e expected :
  event source clients target marker immediate sent settled = Some e →
  (∀ c, seen settled c `prefix_of` seen final c) →
  e ∈ expected →
  cumulative_events final expected = true →
  source ∈ clients
  ∧ nonempty (ev_identity e).1 = true ∧ nonempty (ev_identity e).2 = true
  ∧ (∀ c, c ∈ clients → once (needle_of target marker) (ev_identity e) (seen final c))
  ∧ (∀ c, c ∈ from_opt clients immediate →
       once_since (length (seen sent c)) (needle_of target marker) (seen final c)).
Proof.
  intros (Hn & Hcl & Hs & Hsub & H1 & H2 & Hall)%event_sound Hgrow He Hc.
  rewrite cumulative_spec in Hc. specialize (Hc e He). rewrite Hn, Hcl in *.
  split; [by apply Hsub|]. repeat (split; [done|]). intros c Hr.
  destruct (event_identity_sound _ _ _ (Hall c Hr)) as (_ & _ & line & Hl & Hcont & Hat).
  exists line. split; [|done]. destruct (Hgrow c) as [k ->].
  apply list_elem_of_lookup in Hl as [n Hn']. rewrite lookup_drop in Hn'.
  apply list_elem_of_lookup. exists n. rewrite lookup_drop. by apply lookup_app_l_Some.
Qed.

(** A room of two clients, of which the second hears of the event only after
    the cut. *)
Definition a_line : pybytes := bs "@msgid=m1;time=t1 :Origin!f@h PRIVMSG #room :near".
Definition an_event : Expected := mkExpected (needle_of (bs "#room") (bs "near")) [0%nat; 1%nat] (bs "m1", bs "t1").

Lemma events_exactly_once_witness :
  event 0 [0%nat; 1%nat] (bs "#room") (bs "near") (Some [0%nat]) ∅ {[0%nat := [a_line]]} = Some an_event
  ∧ once (needle_of (bs "#room") (bs "near")) (bs "m1", bs "t1") [bs "PING :x"; a_line].
Proof.
  assert (He : event 0 [0%nat; 1%nat] (bs "#room") (bs "near") (Some [0%nat]) ∅ {[0%nat := [a_line]]}
               = Some an_event) by (vm_compute; reflexivity).
  split; [exact He|].
  assert (H := events_exactly_once 0 [0%nat; 1%nat] (bs "#room") (bs "near") (Some [0%nat]) ∅
                 {[0%nat := [a_line]]} {[0%nat := [a_line]; 1%nat := [bs "PING :x"; a_line]]} an_event [an_event] He).
  destruct H as (_ & _ & _ & H & _).
  - intros c. unfold seen. destruct (decide (c = 0%nat)) as [->|Hc].
    + rewrite lookup_singleton_eq, lookup_insert_eq. done.
    + rewrite lookup_singleton_ne by done. simpl. apply prefix_nil.
  - left.
  - vm_compute; reflexivity.
  - apply (H 1%nat). right. left.
Defined.

(** ** Custody of the guest's network *)

Abbreviation history := (list (command * answer)) (only parsing).

Definition answered (r : answer) : bool := match r with inr _ => true | inl _ => false end.
Definition attempted (h : history) (c : command) : Prop := ∃ r, (c, r) ∈ h.
Definition succeeded (h : history) (c : command) : Prop := ∃ r, (c, inr r) ∈ h.

Definition addresses (text : pystr) : list pystr := address_of <$> address_lines text.

Definition no_alias (h : history) : Prop := ∀ host, ¬ attempted h (AddAlias host).

(** The host was not among the addresses before the run added any. *)
Definition fresh (h : history) (host : pystr) : Prop :=
  ∃ a text b, h = a ++ (IfConfig, inr text) :: b ∧ no_alias a ∧ mem host (addresses text) = false.

(** It was just seen. *)
Definition listed (h : history) (host : pystr) : Prop :=
  ∃ a text, h = a ++ [(IfConfig, inr text)] ∧ mem host (addresses text) = true.

(** When a command may be run: an alias is added only if its address was free,
    and removed only if the run added it and it is there; the partition is
    loaded once, after the configuration was saved and the new rules written and
    checked; the baseline is loaded only to lift it; nothing but the release is
    run before the digest of the daemon was verified. *)
Definition allowed (expected : pystr) (h : history) (c : command) : Prop :=
  match c with
  | AddAlias host => fresh h host
  | DelAlias host => fresh h host ∧ attempted h (AddAlias host) ∧ listed h host
  | LoadPartition =>
    ¬ attempted h LoadPartition
    ∧ ∃ conf, (CatConf, inr conf) ∈ h ∧ succeeded h (SaveBaseline (conf ++ [10]))
              ∧ succeeded h (SavePartition (partition_rules (rsub re_skip [] conf))) ∧ succeeded h PfCheck
  | LoadBaseline => attempted h LoadPartition
  | Stage Release => True
  | Stage _ => (BinaryHash, inr expected) ∈ h
  | _ => True
  end.

Definition safe (expected : pystr) (h : history) : Prop :=
  ∀ a c r b, h = a ++ (c, r) :: b → allowed expected a c.

(** The partition was loaded, and the baseline not since; or not even tried. *)
Definition in_force (h : history) : bool :=
  foldl (λ cut '(c, r), match c with
                        | LoadPartition => true
                        | LoadBaseline => cut && negb (answered r)
                        | _ => cut
                        end) false h.
Definition unattended (h : history) : bool :=
  foldl (λ cut '(c, r), match c with LoadPartition => true | LoadBaseline => false | _ => cut end) false h.

(** After everything else was released the addresses were read, and the alias,
    if it was there, was removed at once. *)
Definition handled (h : history) (host : pystr) : Prop :=
  ∃ a r b, h = a ++ (IfConfig, r) :: b ∧ attempted a (AddAlias host) ∧ attempted a (Stage Release)
    ∧ ∀ text, r = inr text → mem host (addresses text) = true → ∃ r' b', b = (DelAlias host, r') :: b'.

Lemma attempted_snoc h c c' r : attempted (h ++ [(c', r)]) c ↔ attempted h c ∨ c = c'.
Proof.
  unfold attempted. setoid_rewrite elem_of_app. setoid_rewrite list_elem_of_singleton. split.
  - intros [x [H|[= ->]]]; eauto.
  - intros [[x H]| ->]; eauto.
Qed.

Lemma attempted_app h t c : attempted h c → attempted (h ++ t) c.
Proof. intros [r H]. exists r. apply elem_of_app. by left. Qed.

Lemma succeeded_app h t c : succeeded h c → succeeded (h ++ t) c.
Proof. intros [r H]. exists r. apply elem_of_app. by left. Qed.

Lemma fresh_app h t host : fresh h host → fresh (h ++ t) host.
Proof. intros (a & text & b & -> & H). exists a, text, (b ++ t). by rewrite <-app_assoc. Qed.

Lemma handled_app h t host : handled h host → handled (h ++ t) host.
Proof.
  intros (a & r & b & -> & H1 & H2 & H). exists a, r, (b ++ t). rewrite <-app_assoc. split; [done|].
  split; [done|]. split; [done|]. intros text E Hm. destruct (H text E Hm) as (r' & b' & ->). by eexists _, _.
Qed.

Lemma safe_snoc_cmd expected h c r : safe expected h → allowed expected h c → safe expected (h ++ [(c, r)]).
Proof.
  intros Hs Ha a x r' b E. destruct (decide (b = [])) as [->|Hb].
  - apply app_inj_tail in E as [<- [= <- <-]]. done.
  - destruct (exists_last Hb) as (b' & y & ->). rewrite app_comm_cons, app_assoc in E.
    apply app_inj_tail in E as [-> _]. by eapply Hs.
Qed.

Lemma in_force_snoc h c r :
  in_force (h ++ [(c, r)]) = match c with
                             | LoadPartition => true
                             | LoadBaseline => in_force h && negb (answered r)
                             | _ => in_force h
                             end.
Proof. unfold in_force. by rewrite foldl_app. Qed.

Lemma unattended_snoc h c r :
  unattended (h ++ [(c, r)]) = match c with LoadPartition => true | LoadBaseline => false | _ => unattended h end.
Proof. unfold unattended. by rewrite foldl_app. Qed.

(** *** The invariant of a run *)

Record inv (expected : pystr) (w : World) : Prop := mkInv {
  inv_safe : safe expected (log w);
  inv_fresh : ∀ host, host ∈ owned_aliases w → fresh (log w) host;
  inv_owned : ∀ host, attempted (log w) (AddAlias host) ↔ host ∈ owned_aliases w;
  inv_active : pf_active w = true → attempted (log w) LoadPartition;
  inv_force : in_force (log w) = true → pf_active w = true;
  inv_left : unattended (log w) = true → pf_active w = true;
  inv_baseline : ∀ l, alias_baseline w = Some l →
    ∃ a text b, log w = a ++ (IfConfig, inr text) :: b ∧ no_alias a ∧ l = address_lines text
                ∧ ∀ host, host ∈ owned_aliases w → mem host (addresses text) = false }.

(** A command that changes none of what the invariant tracks. *)
Definition neutral (c : command) : bool :=
  match c with AddAlias _ | LoadPartition | LoadBaseline => false | _ => true end.

Definition snoc (w : World) (c : command) (r : answer) : World :=
  mkWorld (owned_aliases w) (alias_baseline w) (pf_active w) (pf_hash w) (pf_rules w) (log w ++ [(c, r)]).

Lemma inv_neutral expected w c r :
  inv expected w → neutral c = true → allowed expected (log w) c → inv expected (snoc w c r).
Proof.
  intros [H1 H2 H3 H4 H5 H6 H7] Hn Ha. constructor; simpl in *.
  - by apply safe_snoc_cmd.
  - intros host Hh. by apply fresh_app, H2.
  - intros host. rewrite attempted_snoc, H3. destruct c; naive_solver.
  - intros H. by apply attempted_app, H4.
  - rewrite in_force_snoc. destruct c; try done; by apply H5.
  - rewrite unattended_snoc. destruct c; try done; by apply H6.
  - intros b Hb. destruct (H7 b Hb) as (a & text & m & -> & H). exists a, text, (m ++ [(c, r)]).
    by rewrite <-app_assoc.
Qed.

(** *** Triples *)

Section Triples.
Context (guest : list (command * answer) → command → answer) (expected : pystr).

Definition triple {A} (P : World → Prop) (m : act A) (Q : A → World → Prop) (E : World → Prop) : Prop :=
  ∀ w, P w → match m w with (inr x, w') => Q x w' | (inl _, w') => E w' end.

(** The invariant, and a fact that neutral commands keep. *)
Definition hold (F : World → Prop) (w : World) : Prop := inv expected w ∧ F w.
Definition stable (F : World → Prop) : Prop := ∀ w c r, neutral c = true → F w → F (snoc w c r).

Lemma t_bind {A B} P (m : act A) R (k : A → act B) Q E :
  triple P m R E → (∀ x, triple (R x) (k x) Q E) → triple P (bind_ m k) Q E.
Proof.
  intros Hm Hk w Hw. specialize (Hm w Hw). unfold bind_. destruct (m w) as [[e|x] w']; [done|by apply Hk].
Qed.

Lemma t_weaken {A} (P P' : World → Prop) (m : act A) (Q Q' : A → World → Prop) (E E' : World → Prop) :
  triple P' m Q' E' → (∀ w, P w → P' w) → (∀ x w, Q' x w → Q x w) → (∀ w, E' w → E w) → triple P m Q E.
Proof. intros H HP HQ HE w Hw. specialize (H w (HP w Hw)). destruct (m w) as [[e|x] w']; auto. Qed.

Lemma t_ret {A} (x : A) P (E : World → Prop) : triple P (ret x) (λ _, P) E.
Proof. by intros w Hw. Qed.

(** A check at the end, and one in the middle. *)
Lemma t_check b P (Q E : World → Prop) :
  (∀ w, P w → E w) → (∀ w, P w → Q w) → triple P (check b) (λ _, Q) E.
Proof. intros H HQ w Hw. destruct b; simpl; [by apply HQ|by apply H]. Qed.

Lemma t_guard {A} b P (k : unit → act A) Q (E : World → Prop) :
  (∀ w, P w → E w) → (b = true → triple P (k tt) Q E) → triple P (bind_ (check b) k) Q E.
Proof. intros H Hk w Hw. destruct b; [by apply Hk|by apply H]. Qed.

(** A command before the rest, whose answer the facts do not record. *)
Lemma t_pre {A B} P P' (m : act A) (k : A → act B) R Q E :
  triple P' m (λ _, R) E → (∀ w, P w → P' w) → (∀ x, triple R (k x) Q E) → triple P (bind_ m k) Q E.
Proof.
  intros Hm HP Hk. apply t_bind with (R := λ _, R); [|done]. intros w Hw. apply Hm, HP, Hw.
Qed.

Lemma t_remote F c :
  neutral c = true → stable F → (∀ w, F w → allowed expected (log w) c) →
  triple (hold F) (remote guest c) (λ r, hold (λ w, F w ∧ (c, inr r) ∈ log w)) (hold F).
Proof.
  intros Hn Hs Ha w [Hi HF]. unfold remote. destruct (guest (log w) c) as [e|r].
  - split; [apply (inv_neutral _ _ _ _ Hi Hn), Ha, HF|]. by apply (Hs w).
  - split; [apply (inv_neutral _ _ _ _ Hi Hn), Ha, HF|]. split; [by apply (Hs w)|].
    apply elem_of_app. right. left.
Qed.

Lemma stable_log (G : history → Prop) :
  (∀ h t, G h → G (h ++ t)) → stable (λ w, G (log w)).
Proof. intros H w c r _. apply H. Qed.

Lemma stable_and F G : stable F → stable G → stable (λ w, F w ∧ G w).
Proof. intros HF HG w c r Hn [? ?]. split; [by apply HF|by apply HG]. Qed.

Lemma stable_in x : stable (λ w, x ∈ log w).
Proof. apply (stable_log (λ h, x ∈ h)). intros h t H. apply elem_of_app. by left. Qed.

Lemma stable_true : stable (λ _, True).
Proof. done. Qed.

Lemma stable_const (P : Prop) : stable (λ _, P).
Proof. by intros w c r _ H. Qed.

Lemma stable_no_partition : stable (λ w, ¬ attempted (log w) LoadPartition).
Proof. intros w c r Hn H. simpl. rewrite attempted_snoc. intros [?| <-]; [done|done]. Qed.

(** A fact of the aliases and the history that any further command keeps. *)
Definition lasting (F : World → Prop) : Prop := ∀ w w',
  owned_aliases w' = owned_aliases w → alias_baseline w' = alias_baseline w →
  (∃ t, log w' = log w ++ t) → F w → F w'.

Lemma lasting_stable F : lasting F → stable F.
Proof. intros H w c r _. by apply H; [..|exists [(c, r)]]. Qed.

(** *** The aliases *)

(** The addresses before the run added any. *)
Definition base (l : list pystr) (w : World) : Prop :=
  ∃ a text b, log w = a ++ (IfConfig, inr text) :: b ∧ no_alias a ∧ l = address_lines text.

(** What holds from the check of the digest to the cut. *)
Definition verified (w : World) : Prop :=
  ¬ attempted (log w) LoadPartition ∧ (BinaryHash, inr expected) ∈ log w.

Lemma stable_verified : stable verified.
Proof. apply stable_and; [apply stable_no_partition|apply stable_in]. Qed.

Lemma t_first :
  triple (λ w, inv expected w ∧ verified w ∧ no_alias (log w)) (loopback_addresses guest)
    (λ l w, inv expected w ∧ verified w ∧ no_alias (log w) ∧ base l w) (inv expected).
Proof.
  intros w (Hi & Hv & Hn). unfold loopback_addresses, bind_, remote.
  assert (Hi' := λ r, inv_neutral _ _ IfConfig r Hi eq_refl I).
  destruct (guest (log w) IfConfig) as [e|text]; [apply Hi'|]. simpl.
  split; [apply (Hi' (inr text))|]. split; [by apply (stable_verified w)|]. split.
  - intros host. simpl. rewrite attempted_snoc. intros [H|?]; [by eapply Hn|done].
  - by exists (log w), text, [].
Qed.

Lemma t_set_baseline l E :
  triple (λ w, inv expected w ∧ verified w ∧ no_alias (log w) ∧ base l w) (set_baseline l)
    (λ _ w, inv expected w ∧ verified w ∧ alias_baseline w = Some l) E.
Proof.
  intros w (Hi & Hv & Hn & (a & text & b & Hl & Ha & ->)). simpl. split; [|done].
  destruct Hi as [H1 H2 H3 H4 H5 H6 H7]. constructor; simpl; try done.
  intros ? [= <-]. exists a, text, b. repeat (split; [done|]).
  intros host Hh%H3. by apply Hn in Hh.
Qed.

(** An addition, whatever it answers. *)
Lemma inv_alias w host l r :
  inv expected w → alias_baseline w = Some l → mem host (address_of <$> l) = false →
  inv expected (mkWorld (owned_aliases w ++ [host]) (alias_baseline w) (pf_active w) (pf_hash w) (pf_rules w)
                  (log w ++ [(AddAlias host, r)])).
Proof.
  intros [H1 H2 H3 H4 H5 H6 H7] Hb Hm.
  destruct (H7 l Hb) as (a & text & b & Hl & Ha & -> & Ho).
  assert (Hf : fresh (log w) host) by (by exists a, text, b).
  constructor; simpl.
  - by apply safe_snoc_cmd.
  - intros x [Hx|Hx%list_elem_of_singleton]%elem_of_app; [by apply fresh_app, H2|].
    subst. by apply fresh_app.
  - intros x. rewrite attempted_snoc, H3, elem_of_app, list_elem_of_singleton. split; intros [?|?]; simplify_eq; eauto.
  - intros H. by apply attempted_app, H4.
  - by rewrite in_force_snoc.
  - by rewrite unattended_snoc.
  - intros l' Hl'. rewrite Hb in Hl'. simplify_eq. exists a, text, (b ++ [(AddAlias host, r)]).
    rewrite Hl, <-app_assoc. repeat (split; [done|]).
    intros x [Hx|Hx%list_elem_of_singleton]%elem_of_app; [by apply Ho|by subst].
Qed.

Lemma t_add l hosts :
  (∀ h, h ∈ hosts → mem h (address_of <$> l) = false) →
  triple (λ w, inv expected w ∧ verified w ∧ alias_baseline w = Some l) (add_aliases guest hosts)
    (λ _ w, inv expected w ∧ verified w ∧ alias_baseline w = Some l) (inv expected).
Proof.
  intros Hh. induction hosts as [|host hosts IH]; cbn [add_aliases]; [apply t_ret|].
  eapply t_bind with (R := λ _ w, ∃ w0, (inv expected w0 ∧ verified w0 ∧ alias_baseline w0 = Some l)
                                        ∧ (own host w0).2 = w); [intros w Hw; by exists w|intros _].
  eapply t_bind with (R := λ _ w, inv expected w ∧ verified w ∧ alias_baseline w = Some l).
  - intros w (w0 & (Hi & Hv & Hb) & <-). unfold remote. simpl.
    assert (H := λ r, inv_alias w0 host l r Hi Hb (Hh host (list_elem_of_here _ _))).
    destruct (guest (log w0) (AddAlias host)) as [e|r]; [apply H|]. split; [apply H|]. split; [|done].
    destruct Hv as [Hp Hd]. split; simpl; [rewrite attempted_snoc; naive_solver|].
    apply elem_of_app. by left.
  - intros _. apply IH. intros h ?. apply Hh. by right.
Qed.

(** The fact of the run from then on. *)
Definition owned (w : World) : Prop := is_Some (alias_baseline w) ∧ (BinaryHash, inr expected) ∈ log w.

Lemma lasting_owned : lasting owned.
Proof.
  intros w w' _ Hb [t Ht] [H1 H2]. split; [by rewrite Hb|]. rewrite Ht. apply elem_of_app. by left.
Qed.

Lemma t_setup_aliases same_ip hosts :
  triple (λ w, inv expected w ∧ verified w ∧ no_alias (log w)) (setup_aliases guest same_ip hosts)
    (λ _ w, inv expected w ∧ ¬ attempted (log w) LoadPartition ∧ owned w) (inv expected).
Proof.
  unfold setup_aliases. eapply t_bind; [apply t_first|intros l].
  apply t_bind with (R := λ _ w, inv expected w ∧ verified w ∧ alias_baseline w = Some l);
    [apply t_set_baseline|intros _].
  assert (Hend : ∀ w, inv expected w ∧ verified w ∧ alias_baseline w = Some l →
            inv expected w ∧ ¬ attempted (log w) LoadPartition ∧ owned w).
  { intros w (Hi & [? ?] & Hb). split; [done|]. split; [done|]. split; [by rewrite Hb|done]. }
  destruct same_ip; [by apply t_check; [intros w [? _]|]|]. apply t_guard; [by intros w [? _]|]. intros Ee.
  assert (Hh : ∀ h, h ∈ hosts → mem h (address_of <$> l) = false).
  { intros h Hh. apply not_true_iff_false. intros Hm. apply negb_true_iff, not_true_iff_false in Ee.
    apply Ee, existsb_elem. by exists h. }
  eapply t_pre; [by apply (t_add l hosts)|done|intros _].
  apply t_bind with (R := λ _, hold (λ w, verified w ∧ alias_baseline w = Some l));
    [|intros now; apply t_check; [by intros w [? _]|exact Hend]].
  unfold loopback_addresses. eapply t_bind; [|intros x; apply t_ret].
  eapply t_weaken; [apply (t_remote (λ w, verified w ∧ alias_baseline w = Some l) IfConfig)| | |]; try done.
  - apply stable_and; [apply stable_verified|by intros w c r _ H].
  - by intros x w [? [? _]].
  - by intros w [? _].
Qed.

(** A neutral command whose answer is not used. *)
Lemma t_step F c :
  neutral c = true → stable F → (∀ w, F w → allowed expected (log w) c) →
  triple (hold F) (remote guest c) (λ _, hold F) (inv expected).
Proof.
  intros Hn Hs Ha. eapply t_weaken; [by apply (t_remote F c)|done|by intros x w [? [? _]]|by intros w [? _]].
Qed.

Lemma t_stage F s :
  lasting F → (s = Release ∨ ∀ w, F w → (BinaryHash, inr expected) ∈ log w) →
  triple (hold F) (bind_ (remote guest (Stage s)) (λ _, ret ())) (λ _, hold F) (inv expected).
Proof.
  intros HF Hs. eapply t_bind; [|intros x; apply t_ret]. apply t_step; [done|by apply lasting_stable|].
  intros w Hw. destruct s, Hs as [?|Hs]; try done; by apply Hs.
Qed.

Lemma t_setup a :
  expected_sha256 a = expected →
  triple (λ w, inv expected w ∧ ¬ attempted (log w) LoadPartition ∧ no_alias (log w)) (setup guest a)
    (λ _ w, inv expected w ∧ ¬ attempted (log w) LoadPartition ∧ owned w) (inv expected).
Proof.
  intros Ex. unfold setup. rewrite Ex. set (F w := ¬ attempted (log w) LoadPartition ∧ no_alias (log w)).
  assert (HF : stable F) by (apply stable_and; [apply stable_no_partition|];
    intros w c r Hn H host; simpl; rewrite attempted_snoc; intros [?| <-]; [by eapply H|done]).
  assert (HE : ∀ w, hold F w → inv expected w) by (by intros w [? _]).
  eapply t_pre; [by apply (t_step F Uname)|done|intros system]. apply t_guard; [done|intros _].
  eapply t_pre; [by apply (t_step F MakeDirectory)|done|intros _].
  eapply t_pre; [by apply (t_step F CopyBinary)|done|intros _].
  eapply t_bind; [eapply t_weaken; [by apply (t_remote F BinaryHash)|done|by intros x w Hw; exact Hw|exact HE]|].
  intros digest. apply t_guard; [by intros w [? _]|intros Ed]. apply str_eqb_eq in Ed. subst digest.
  eapply t_pre; [by apply t_setup_aliases|by intros w [Hi [[H1 H2] H3]]|intros _].
  eapply t_bind; [|intros x; apply t_ret].
  apply (t_step (λ w, ¬ attempted (log w) LoadPartition ∧ owned w)); [done| |by intros w (_ & _ & ?)].
  apply stable_and; [apply stable_no_partition|apply lasting_stable, lasting_owned].
Qed.

(** *** The packet filter *)

(** What block_far_link has done before it loads the partition. *)
Definition prepared (conf : pystr) (w : World) : Prop :=
  (CatConf, inr conf) ∈ log w ∧ succeeded (log w) (SaveBaseline (conf ++ [10]))
  ∧ succeeded (log w) (SavePartition (partition_rules (rsub re_skip [] conf))) ∧ succeeded (log w) PfCheck.

(** The partition may be loaded; whatever it answers, the fixture knows. *)
Lemma t_load conf :
  triple (λ w, inv expected w ∧ (¬ attempted (log w) LoadPartition ∧ owned w) ∧ prepared conf w)
    (bind_ (set_active true) (λ _, remote guest LoadPartition)) (λ _, hold owned) (inv expected).
Proof.
  intros w ([H1 H2 H3 H4 H5 H6 H7] & [Hn Ho] & Hp). unfold bind_, remote. simpl.
  assert (Hi : ∀ r, inv expected (mkWorld (owned_aliases w) (alias_baseline w) true (pf_hash w) (pf_rules w)
                                    (log w ++ [(LoadPartition, r)]))).
  { intros r. constructor; simpl; try done.
    - apply safe_snoc_cmd; [done|]. split; [done|]. by exists conf.
    - intros host Hh. by apply fresh_app, H2.
    - intros host. rewrite attempted_snoc, H3. naive_solver.
    - intros _. rewrite attempted_snoc. by right.
    - intros l Hl. destruct (H7 l Hl) as (a & text & b & -> & H). exists a, text, (b ++ [(LoadPartition, r)]).
      by rewrite <-app_assoc. }
  destruct (guest (log w) LoadPartition) as [e|r]; [apply Hi|]. split; [apply Hi|].
  eapply lasting_owned; [..|exact Ho]; [done|done|by eexists].
Qed.

Lemma stable_succeeded c : stable (λ w, succeeded (log w) c).
Proof. apply (stable_log (λ h, succeeded h c)). intros h t. apply succeeded_app. Qed.

(** Keep the answer of a command among the facts. *)
Lemma t_record {B} F c (k : pystr → act B) Q :
  neutral c = true → stable F → (∀ w, F w → allowed expected (log w) c) →
  (∀ r, triple (hold (λ w, F w ∧ (c, inr r) ∈ log w)) (k r) Q (inv expected)) →
  triple (hold F) (bind_ (remote guest c) k) Q (inv expected).
Proof.
  intros Hn Hs Ha Hk. eapply t_bind; [|exact Hk].
  eapply t_weaken; [by apply (t_remote F c)|done|done|by intros w [? _]].
Qed.

(** A command whose success is all that matters. *)
Lemma t_success {B} F c (k : pystr → act B) Q :
  neutral c = true → stable F → (∀ w, F w → allowed expected (log w) c) →
  (∀ r, triple (hold (λ w, F w ∧ succeeded (log w) c)) (k r) Q (inv expected)) →
  triple (hold F) (bind_ (remote guest c) k) Q (inv expected).
Proof.
  intros Hn Hs Ha Hk. apply t_record; [done..|]. intros r.
  eapply t_weaken; [apply (Hk r)| |done|done]. intros w (? & ? & ?). split; [done|]. split; [done|]. by exists r.
Qed.

Lemma t_forget {B} F c (k : pystr → act B) Q :
  neutral c = true → stable F → (∀ w, F w → allowed expected (log w) c) →
  (∀ r, triple (hold F) (k r) Q (inv expected)) →
  triple (hold F) (bind_ (remote guest c) k) Q (inv expected).
Proof. intros Hn Hs Ha Hk. eapply t_bind; [by apply (t_step F c)|done]. Qed.

Lemma t_block :
  triple (hold (λ w, ¬ attempted (log w) LoadPartition ∧ owned w)) (block_far_link guest)
    (λ _, hold owned) (inv expected).
Proof.
  unfold block_far_link. set (F w := ¬ attempted (log w) LoadPartition ∧ owned w).
  assert (HF : stable F) by (apply stable_and; [apply stable_no_partition|apply lasting_stable, lasting_owned]).
  assert (HE : ∀ G w, hold G w → inv expected w) by (by intros G w [? _]).
  apply t_record; [done..|intros conf]. apply t_guard; [apply HE|intros _].
  set (F1 w := F w ∧ (CatConf, inr conf) ∈ log w).
  assert (H1 : stable F1) by (apply stable_and; [done|apply stable_in]).
  apply t_forget; [done..|intros info]. apply t_guard; [apply HE|intros _].
  apply t_forget; [done..|intros hash]. apply t_forget; [done..|intros rules].
  apply t_bind with (R := λ _, hold F1).
  { intros w [[] Hw]. by split. }
  intros _. apply t_success; [done..|intros _].
  apply t_success; [done|apply stable_and; [done|apply stable_succeeded]|done|intros _].
  apply t_success; [done|apply stable_and; [apply stable_and; [done|]|]; apply stable_succeeded|done|intros _].
  intros w (Hi & (((Hw & Hc) & Hs1) & Hs2) & Hs3).
  assert (H := t_load conf w (conj Hi (conj Hw (conj Hc (conj Hs1 (conj Hs2 Hs3)))))).
  unfold bind_ in H |- *. destruct (set_active true w) as [[e|[]] w1]; [done|].
  destruct (remote guest LoadPartition w1) as [[e|r] w2]; [done|].
  refine (t_forget owned PfInterfaces (λ i, check (negb (contains i (u "skip")))) _ eq_refl
            (lasting_stable _ lasting_owned) _ _ w2 H); [done|].
  intros i. apply t_check; [apply HE|done].
Qed.

(** The baseline may be loaded; only its success ends the cut. *)
Lemma inv_lift w r : inv expected w → pf_active w = true → inv expected (snoc w LoadBaseline r).
Proof.
  intros [H1 H2 H3 H4 H5 H6 H7] Ha. constructor; simpl; try done.
  - apply safe_snoc_cmd; [done|]. by apply H4.
  - intros host Hh. by apply fresh_app, H2.
  - intros host. rewrite attempted_snoc, H3. naive_solver.
  - intros H. by apply attempted_app, H4.
  - intros l Hl. destruct (H7 l Hl) as (a & text & b & -> & H). exists a, text, (b ++ [(LoadBaseline, r)]).
    by rewrite <-app_assoc.
Qed.

(** Whatever comes of it, the baseline has been loaded or tried. *)
Lemma t_get {A B} (f : World → A) P (k : A → act B) Q E :
  (∀ x, triple P (k x) Q E) → triple P (bind_ (get f) k) Q E.
Proof. intros Hk w Hw. by apply Hk. Qed.

(** The checks of a restoration keep a fact, whatever they show. *)
Lemma t_confirm {B} F c (k : pystr → act B) :
  neutral c = true → stable F → (∀ w, F w → allowed expected (log w) c) →
  (∀ r, triple (hold F) (k r) (λ _, hold F) (hold F)) →
  triple (hold F) (bind_ (remote guest c) k) (λ _, hold F) (hold F).
Proof.
  intros Hn Hs Ha Hk. eapply t_bind; [|exact Hk].
  eapply t_weaken; [by apply (t_remote F c)|done|by intros x w [? [? _]]|done].
Qed.

Lemma stable_unattended : stable (λ w, unattended (log w) = false).
Proof. intros w c r Hn H. simpl. rewrite unattended_snoc. by destruct c. Qed.

Lemma stable_inactive : stable (λ w, pf_active w = false).
Proof. by intros w c r _ H. Qed.

(** Whatever comes of it, the baseline has been loaded or tried. *)
Lemma t_restore F :
  lasting F →
  triple (hold F) (restore_pf guest)
    (λ _, hold (λ w, F w ∧ unattended (log w) = false ∧ pf_active w = false))
    (hold (λ w, F w ∧ unattended (log w) = false)).
Proof.
  intros HF. unfold restore_pf. set (G w := F w ∧ unattended (log w) = false ∧ pf_active w = false).
  assert (HG : stable G) by (apply stable_and; [by apply lasting_stable|];
    apply stable_and; [apply stable_unattended|apply stable_inactive]).
  apply t_bind with (R := λ x w, hold F w ∧ pf_active w = x); [by intros w Hw|intros [|]; cbn [negb]].
  - apply t_bind with (R := λ _ w, hold (λ w, F w ∧ unattended (log w) = false) w ∧ in_force (log w) = false).
    { intros w [[Hi Hw] Ha]. unfold remote. assert (Hl := λ r, inv_lift w r Hi Ha).
      assert (Hk : ∀ r, F (snoc w LoadBaseline r) ∧ unattended (log (snoc w LoadBaseline r)) = false).
      { intros r. split; [|simpl; by rewrite unattended_snoc]. apply (HF w); [done|done|by eexists|done]. }
      destruct (guest (log w) LoadBaseline) as [e|r]; [split; [apply Hl|apply Hk]|].
      split; [split; [apply Hl|apply Hk]|]. simpl. rewrite in_force_snoc. by rewrite andb_false_r. }
    intros _. apply t_bind with (R := λ _, hold G).
    { intros w [[[H1 H2 H3 H4 H5 H6 H7] [Hw Hu]] Hf]. simpl. split.
      - constructor; simpl; try done; congruence.
      - split; [apply (HF w); [done|done|exists []; simpl; by rewrite app_nil_r|exact Hw]|done]. }
    intros _. eapply t_weaken with (P' := hold G) (Q' := λ _, hold G) (E' := hold G); [|done|done|].
    + repeat first [apply (t_confirm G); [done..|intros ?]|apply t_get; intros ?|apply t_guard; [done|intros _]].
      by apply t_check.
    + intros w (Hi & ? & ? & _). by split.
  - intros w [[Hi Hw] Ha]. simpl. split; [done|]. split; [done|]. split; [|done].
    apply not_true_iff_false. intros H%(inv_left _ _ Hi). congruence.
Qed.

Lemma t_finally P (m : act unit) F :
  lasting F → triple P m (λ _, hold F) (inv expected) →
  triple P (finally m (restore_pf guest)) (λ _, hold F) (inv expected).
Proof.
  intros HF Hm w Hw. specialize (Hm w Hw). unfold finally.
  destruct (m w) as [[e|[]] w1]; cycle 1.
  - assert (H := t_restore F HF w1 Hm). destruct (restore_pf guest w1) as [[e|[]] w2]; [by destruct H|].
    by destruct H as (? & ? & _).
  - assert (H := t_restore (λ _, True) (λ _ _ _ _ _ _, I) w1 (conj Hm I)).
    by destruct (restore_pf guest w1) as [[e'|[]] w2], H.
Qed.

Lemma owned_digest : ∀ w, owned w → (BinaryHash, inr expected) ∈ log w.
Proof. by intros w [_ ?]. Qed.

Lemma t_partition :
  triple (hold (λ w, ¬ attempted (log w) LoadPartition ∧ owned w)) (partition guest)
    (λ _, hold owned) (inv expected).
Proof.
  unfold partition. eapply t_pre; [apply t_block|done|intros _].
  eapply t_pre; [|by intros w Hw; exact Hw|intros _; apply t_stage; [apply lasting_owned|right; apply owned_digest]].
  apply t_finally; [apply lasting_owned|]. apply t_stage; [apply lasting_owned|right; apply owned_digest].
Qed.

Lemma t_run a :
  expected_sha256 a = expected →
  triple (λ w, inv expected w ∧ ¬ attempted (log w) LoadPartition ∧ no_alias (log w)) (run guest a)
    (λ _, hold owned) (inv expected).
Proof.
  intros Ex. unfold run. eapply t_pre; [by apply t_setup|done|intros _].
  set (F w := ¬ attempted (log w) LoadPartition ∧ owned w).
  assert (HF : stable F) by (apply stable_and; [apply stable_no_partition|apply lasting_stable, lasting_owned]).
  assert (Hd : ∀ w, F w → (BinaryHash, inr expected) ∈ log w) by (intros w [_ ?]; by apply owned_digest).
  assert (Hf : ∀ w, hold F w → hold owned w) by (by intros w (? & _ & ?)).
  destruct (ordinary_presence_proof a).
  { apply (t_forget F); [done..|intros r]. intros w Hw. by apply Hf. }
  apply (t_forget F); [done..|intros r].
  apply t_bind with (R := λ _, hold owned).
  - destruct (skip_partition a); [|apply t_partition].
    intros w Hw. by apply Hf.
  - intros _. apply t_stage; [apply lasting_owned|right; apply owned_digest].
Qed.

(** *** The clean-up *)

(** One alias is looked up, and removed if it is there. *)
Lemma remove_one host w :
  inv expected w → host ∈ owned_aliases w → attempted (log w) (Stage Release) →
  ∃ r t, bind_ (loopback_addresses guest)
           (λ now, if mem host (address_of <$> now) then bind_ (remote guest (DelAlias host)) (λ _, ret ()) else ret ()) w
         = (r, mkWorld (owned_aliases w) (alias_baseline w) (pf_active w) (pf_hash w) (pf_rules w) (log w ++ t))
    ∧ Forall (λ e, neutral e.1 = true) t
    ∧ inv expected (mkWorld (owned_aliases w) (alias_baseline w) (pf_active w) (pf_hash w) (pf_rules w) (log w ++ t))
    ∧ handled (log w ++ t) host.
Proof.
  intros Hi Ho Hr. unfold loopback_addresses, remote, bind_.
  assert (H1 := λ r, inv_neutral _ w IfConfig r Hi eq_refl I). unfold snoc in H1.
  assert (Ha := proj2 (inv_owned _ _ Hi host) Ho).
  destruct (guest (log w) IfConfig) as [e|text]; simpl.
  { exists (inl e), [(IfConfig, inl e)]. split; [done|]. split; [by repeat constructor|]. split; [apply H1|].
    by exists (log w), (inl e), []. }
  fold (addresses text). destruct (mem host (addresses text)) eqn:Em; simpl.
  2:{ exists (inr ()), [(IfConfig, inr text)]. split; [done|]. split; [by repeat constructor|].
      split; [apply H1|]. exists (log w), (inr text), []. repeat (split; [done|]). intros ? [= <-]. congruence. }
  set (h := log w ++ [(IfConfig, inr text)]).
  assert (H2 := λ r, inv_neutral _ _ (DelAlias host) r (H1 (inr text)) eq_refl
                 (conj (fresh_app _ _ _ (inv_fresh _ _ Hi _ Ho))
                    (conj (attempted_app _ _ _ Ha) (ex_intro _ (log w) (ex_intro _ text (conj eq_refl Em)))))).
  unfold snoc in H2. cbn [log owned_aliases alias_baseline pf_active pf_hash pf_rules] in H2.
  assert (Hh : ∀ r, handled (log w ++ [(IfConfig, inr text); (DelAlias host, r)]) host).
  { intros r. exists (log w), (inr text), [(DelAlias host, r)]. repeat (split; [done|]). by eexists _, _. }
  setoid_rewrite <-app_assoc in H2. simpl in H2.
  destruct (guest h (DelAlias host)) as [e|r]; subst h; rewrite <-app_assoc; simpl;
    (eexists _, _; split; [done|]; split; [by repeat constructor|]; split; [apply H2|apply Hh]).
Qed.

(** The world with a longer history. *)
Definition extend (w : World) (t : list (command * answer)) : World :=
  mkWorld (owned_aliases w) (alias_baseline w) (pf_active w) (pf_hash w) (pf_rules w) (log w ++ t).

Lemma extend_app w t t' : extend (extend w t) t' = extend w (t ++ t').
Proof. unfold extend. simpl. by rewrite app_assoc. Qed.

Lemma remove_all hosts w :
  inv expected w → (∀ host, host ∈ hosts → host ∈ owned_aliases w) → attempted (log w) (Stage Release) →
  ∃ r t, remove_aliases guest hosts w = (r, extend w t)
    ∧ Forall (λ e, neutral e.1 = true) t ∧ inv expected (extend w t)
    ∧ (r = inl Escapes ∨ ∀ host, host ∈ hosts → handled (log w ++ t) host).
Proof.
  revert w. induction hosts as [|host hosts IH]; intros w Hi Ho Hr.
  { exists (inr false), []. unfold extend. rewrite app_nil_r. destruct w. split; [done|]. split; [done|].
    split; [done|]. right. by intros ? ?%elem_of_nil. }
  destruct (remove_one host w Hi (Ho host (list_elem_of_here _ _)) Hr) as (r & t & E & Ht & Hi1 & Hh).
  fold (extend w t) in E, Hi1. cbn [remove_aliases]. unfold bind_ at 1, noting. rewrite E.
  destruct (IH (extend w t)) as (r' & t' & E' & Ht' & Hi2 & Hh'); [done| |by apply attempted_app|].
  { intros x Hx. apply Ho. by right. }
  rewrite extend_app in E', Hi2.
  assert (Hall : r' = inl Escapes ∨ ∀ x, x ∈ host :: hosts → handled (log w ++ t ++ t') x).
  { destruct Hh' as [?|Hh']; [by left|right]. simpl in Hh'. rewrite <-app_assoc in Hh'.
    intros x [->|Hx]%elem_of_cons; [|by apply Hh']. rewrite app_assoc. by apply handled_app. }
  assert (Htt : Forall (λ e, neutral e.1 = true) (t ++ t')) by (by apply Forall_app).
  destruct r as [[|]|[]]; [|by eexists _, t; split; [done|]; split; [done|]; split; [done|]; left|].
  all: unfold bind_; rewrite E'.
  all: destruct r' as [e|failed]; eexists _, (t ++ t'); (split; [done|]); (split; [done|]); (split; [done|]).
  all: destruct Hall as [Hall|Hall]; [|by right]; first [done|left; congruence].
Qed.

(** The addresses are those of before, without the run's aliases. *)
Definition restored (h : history) : Prop :=
  ∃ a text m last, h = a ++ (IfConfig, inr text) :: m ++ [(IfConfig, inr last)]
    ∧ no_alias a ∧ address_lines last = address_lines text
    ∧ ∀ host, attempted h (AddAlias host) → mem host (addresses last) = false.

(** What holds of the history when the fixture is done, however it ends, and
    what a success adds. *)
Definition closed (r : exc + unit) (h : history) : Prop :=
  safe expected h ∧ unattended h = false
  ∧ (r = inl Escapes ∨ ∀ host, attempted h (AddAlias host) → handled h host).
Definition outcome (r : exc + unit) (h : history) : Prop :=
  closed r h ∧ (r = inr () → in_force h = false ∧ restored h).

Lemma closed_end w r r' :
  inv expected w → unattended (log w) = false →
  (∀ host, host ∈ owned_aliases w → handled (log w) host) →
  closed r' (log w ++ [(IfConfig, r)]).
Proof.
  intros Hi Hu Hh. split; [by apply safe_snoc_cmd; [apply Hi|]|].
  split; [by rewrite unattended_snoc|]. right. intros host. rewrite attempted_snoc.
  intros [H|?]; [|done]. by apply handled_app, Hh, (inv_owned _ _ Hi).
Qed.

Lemma restored_end w l last :
  inv expected w → alias_baseline w = Some l → address_lines last = l →
  restored (log w ++ [(IfConfig, inr last)]).
Proof.
  intros Hi Hb <-. destruct (inv_baseline _ _ Hi _ Hb) as (a & text & m & E & Ha & Hl & Ho).
  exists a, text, m, last. split; [by rewrite E, <-app_assoc|]. split; [done|]. split; [done|].
  intros host H. unfold addresses. rewrite Hl. apply Ho, (inv_owned _ _ Hi).
  rewrite attempted_snoc in H. by destruct H.
Qed.

(** The aliases restored, given the rest was. *)
Lemma restore_aliases_outcome w :
  inv expected w → unattended (log w) = false → attempted (log w) (Stage Release) →
  let '(r, w') := restore_aliases guest w in
  closed r (log w')
  ∧ (r = inr () → pf_active w = false → is_Some (alias_baseline w) → in_force (log w') = false ∧ restored (log w')).
Proof.
  intros Hi Hu Hr.
  destruct (remove_all (owned_aliases w) w Hi (λ _ H, H) Hr) as (r & t & E & Ht & Hi' & Hh).
  assert (Hu' : unattended (log w ++ t) = false).
  { clear -Hu Ht. induction t as [|[c r] t IH] using rev_ind; [by rewrite app_nil_r|].
    apply Forall_app in Ht as [Ht Hc%Forall_inv]. rewrite app_assoc, unattended_snoc, IH by done. by destruct c. }
  assert (Hplain : ∀ r', (r = inl Escapes → r' = inl Escapes) → closed r' (log w ++ t)).
  { intros r' Hr'. split; [apply Hi'|]. split; [done|]. destruct Hh as [Hh|Hh]; [by left; apply Hr'|right].
    intros host H. by apply Hh, (inv_owned _ _ Hi'). }
  unfold restore_aliases, bind_ at 1, get at 1, bind_ at 1. rewrite E.
  destruct r as [e|[|]]; simpl; [by split; [apply Hplain; intros [= ->]|]|by split; [by apply Hplain|]|].
  destruct Hh as [?|Hh]; [done|]. unfold bind_, get, disown, loopback_addresses, remote. simpl.
  destruct (alias_baseline w) as [l|] eqn:Eb; simpl; [|by split; [by apply Hplain|by intros _ _ []]].
  unfold bind_. simpl.
  assert (He := λ r r', closed_end _ r r' Hi' Hu' Hh). simpl in He.
  destruct (guest (log w ++ t) IfConfig) as [e|last]; simpl; [by split; [apply He|]|].
  destruct (bool_decide (address_lines last = l)) eqn:El; simpl; [|by split; [apply He|]].
  apply bool_decide_eq_true in El. split; [apply He|]. intros _ Ea _. split.
  - rewrite in_force_snoc. apply not_true_iff_false. intros H%(inv_force _ _ Hi'). simpl in H. congruence.
  - by eapply (restored_end (extend w t)).
Qed.

Lemma cleanup_outcome w :
  inv expected w →
  let '(r, w') := cleanup guest w in
  closed r (log w') ∧ (r = inr () → is_Some (alias_baseline w) → in_force (log w') = false ∧ restored (log w')).
Proof.
  intros Hi. unfold cleanup, bind_ at 1, noting at 1.
  assert (H := t_restore (λ w', alias_baseline w' = alias_baseline w) (λ _ _ _ Hb _ H, eq_trans Hb H) w (conj Hi eq_refl)).
  destruct (restore_pf guest w) as [pf w1].
  assert (H' : inv expected w1 ∧ unattended (log w1) = false ∧ alias_baseline w1 = alias_baseline w
               ∧ (pf = inr () → pf_active w1 = false)).
  { destruct pf as [e|[]]; [by destruct H as (? & ? & ?)|by destruct H as (? & ? & ? & ?)]. }
  clear H. destruct H' as (H1 & Hu & <- & Hp).
  assert (Hcut : ∀ w2, inv expected w2 → unattended (log w2) = false → closed (inl Escapes) (log w2)).
  { intros w2 H2 Hu2. split; [apply H2|]. split; [done|]. by left. }
  assert (H2 := inv_neutral _ w1 (Stage Release) (guest (log w1) (Stage Release)) H1 eq_refl I).
  set (w2 := snoc w1 _ _) in *.
  assert (Hu2 : unattended (log w2) = false) by (subst w2; simpl; by rewrite unattended_snoc).
  assert (H3 := restore_aliases_outcome w2 H2 Hu2). destruct (restore_aliases guest w2) as [al w3] eqn:E3.
  destruct H3 as [Hc Hd]; [subst w2; simpl; rewrite attempted_snoc; by right|].
  assert (Hrel : ∀ failed, let '(r, w') := bind_ (noting (remote guest (Stage Release))) (λ release,
                   bind_ (noting (restore_aliases guest)) (λ aliases, check (negb (failed || release || aliases)))) w1 in
            closed r (log w') ∧ (r = inr () → failed = false ∧ w' = w3 ∧ al = inr ())).
  { intros failed. unfold bind_, noting at 1, remote. fold (snoc w1 (Stage Release) (guest (log w1) (Stage Release))).
    fold w2. destruct (guest (log w1) (Stage Release)) as [[|]|x]; [|by split; [apply Hcut|]|].
    all: unfold noting; rewrite E3; destruct al as [[|]|[]]; [|by split|].
    all: destruct failed; simpl; (split; [|done]).
    all: destruct Hc as (? & ? & [?|?]); [done|]; repeat (split; [done|]); by right. }
  destruct pf as [[|]|[]]; [|by split; [apply Hcut|]|].
  - specialize (Hrel true). destruct (bind_ _ _ w1) as [r w']. destruct Hrel as [? Hr]. split; [done|].
    by intros [? _]%Hr.
  - specialize (Hrel false). destruct (bind_ _ _ w1) as [r w']. destruct Hrel as [? Hr]. split; [done|].
    intros (_ & -> & ->)%Hr Hb. apply Hd; [done|by apply Hp|done].
Qed.

(** *** An exception that escapes the clean-up *)

(** The last command ended in an exception that nothing handles. *)
Definition cut_short (h : history) : Prop := ∃ a c, h = a ++ [(c, inl Escapes)].

(** An action from which such an exception comes only by its last command. *)
Definition tells {A} (m : act A) : Prop := ∀ w w', m w = (inl Escapes, w') → cut_short (log w').

Lemma tells_bind {A B} (m : act A) (k : A → act B) : tells m → (∀ x, tells (k x)) → tells (bind_ m k).
Proof.
  intros Hm Hk w w'. unfold bind_. destruct (m w) as [[e|x] w1] eqn:E; [intros [= -> <-]; by eapply Hm|apply Hk].
Qed.

Lemma tells_noting {A} (m : act A) : tells m → tells (noting m).
Proof.
  intros Hm w w'. unfold noting. destruct (m w) as [[[|]|x] w1] eqn:E; [done| |done].
  intros [= <-]. by eapply Hm.
Qed.

Lemma tells_remote c : tells (remote guest c).
Proof. intros w w' [= E <-]. exists (log w), c. simpl. by rewrite E. Qed.

Lemma tells_check b : tells (check b).
Proof. by destruct b; intros w w'. Qed.

Lemma tells_ret {A} (x : A) : tells (ret x).
Proof. by intros w w'. Qed.

Lemma tells_get {A} (f : World → A) : tells (get f).
Proof. by intros w w'. Qed.

Create HintDb tells.
#[local] Hint Resolve tells_bind tells_noting tells_remote tells_check tells_ret tells_get : tells.

Lemma tells_remove hosts : tells (remove_aliases guest hosts).
Proof.
  induction hosts as [|host hosts IH]; cbn [remove_aliases]; unfold loopback_addresses; eauto with tells.
  apply tells_bind; [|eauto with tells]. apply tells_noting, tells_bind; [eauto with tells|]. intros now.
  destruct (mem _ _); eauto with tells.
Qed.

Lemma tells_cleanup : tells (cleanup guest).
Proof.
  unfold cleanup. apply tells_bind; [apply tells_noting|].
  - unfold restore_pf. apply tells_bind; [apply tells_get|]. intros [|]; simpl; [|apply tells_ret].
    repeat (apply tells_bind; [first [apply tells_remote|apply tells_get|apply tells_check|by intros w w']|intros ?]).
    apply tells_check.
  - intros pf. apply tells_bind; [apply tells_noting, tells_remote|]. intros release.
    apply tells_bind; [apply tells_noting|intros al; apply tells_check]. unfold restore_aliases.
    apply tells_bind; [apply tells_get|]. intros hosts. apply tells_bind; [apply tells_remove|]. intros failed.
    repeat (apply tells_bind; [first [apply tells_get|apply tells_check|by intros w w']|intros ?]).
    match goal with |- tells (match ?b with _ => _ end) => destruct b end; [|apply tells_ret].
    unfold loopback_addresses. eauto with tells.
Qed.

End Triples.

Lemma inv_fixture expected : inv expected fixture.
Proof.
  constructor; simpl; try done; try (by intros ? ?%elem_of_nil).
  - intros a c r b E. by destruct a.
  - intros host. split; [intros [r ?%elem_of_nil]; done|by intros ?%elem_of_nil].
Qed.

(** The history of a whole run, with the result it may claim. *)
Lemma main_outcome guest a :
  let '(r, w) := main guest a in
  safe (expected_sha256 a) (log w) ∧ unattended (log w) = false
  ∧ ((∀ host, attempted (log w) (AddAlias host) → handled (log w) host) ∨ (r = inl Escapes ∧ cut_short (log w)))
  ∧ (r = inr () → in_force (log w) = false ∧ restored (log w)).
Proof.
  unfold main. destruct (args_ok a).
  2:{ split; [apply inv_safe, inv_fixture|]. split; [done|]. split; [|done]. left. by intros host [r ?%elem_of_nil]. }
  assert (H0 : inv (expected_sha256 a) fixture ∧ ¬ attempted (log fixture) LoadPartition ∧ no_alias (log fixture)).
  { split; [apply inv_fixture|]. split; [by intros [r ?%elem_of_nil]|by intros host [r ?%elem_of_nil]]. }
  assert (Hr := t_run guest (expected_sha256 a) a eq_refl fixture H0). unfold finally.
  destruct (run guest a fixture) as [r w1].
  assert (Hi : inv (expected_sha256 a) w1) by (destruct r as [e|[]]; [done|apply Hr]).
  assert (H := cleanup_outcome guest _ w1 Hi). assert (Ht := tells_cleanup guest w1).
  destruct (cleanup guest w1) as [r' w2]. destruct H as [(Hs & Hu & Hh) Hd].
  assert (Hh' : (∀ host, attempted (log w2) (AddAlias host) → handled (log w2) host)
                ∨ r' = inl Escapes ∧ cut_short (log w2)).
  { destruct Hh as [->|Hh]; [right; split; [done|by apply Ht]|by left]. }
  destruct r' as [e|[]]; (split; [done|]); (split; [done|]); (split; [|try done]); [done| |].
  - left. by destruct Hh' as [|[? _]].
  - intros ->. apply Hd; [done|]. apply Hr.
Qed.

(** C16: whatever the guest answers and whatever raises, the fixture runs a
    command only when it may: it adds an alias only if its address was free
    before the run added any, removes one only if it added it and has just seen
    it, loads the partition once and only after the configuration was saved and
    the new rules written and checked, loads the saved baseline only to lift the
    partition, and runs nothing on the guest's nodes before it verified the
    digest of the daemon. *)
Theorem guest_custody guest a : safe (expected_sha256 a) (log (main guest a).2).
Proof. assert (H := main_outcome guest a). destruct (main guest a). apply H. Qed.

(** C4: whatever the guest answers and whatever raises, every load of the
    partition is followed by an attempt to load the baseline.  Every alias the
    run tried to add is looked up after the rest was released, and removed if it
    is there, also when restoring the packet filter, the release or an earlier
    removal failed with an exception [cleanup] or [restore_aliases] handles; the
    only other case is that the last command the run gave ended in an exception
    they let through (neither a RuntimeError nor a TimeoutExpired, nor for the
    release an OSError or a SubprocessError), which is then the run's.  A run
    that succeeds has loaded the baseline since the partition and has seen, last,
    the addresses of before, without the aliases. *)
Theorem guest_restored guest a :
  unattended (log (main guest a).2) = false
  ∧ ((∀ host, attempted (log (main guest a).2) (AddAlias host) → handled (log (main guest a).2) host)
     ∨ ((main guest a).1 = inl Escapes ∧ cut_short (log (main guest a).2)))
  ∧ ((main guest a).1 = inr () →
       in_force (log (main guest a).2) = false ∧ restored (log (main guest a).2)).
Proof. assert (H := main_outcome guest a). destruct (main guest a). apply H. Qed.

(** A guest that does what it is told. *)
Definition a_digest : pystr := repeat 97 64.
Definition an_args : Args := mkArgs a_digest 2225 43500 false false false false.
Definition a_listing (h : list (command * answer)) : pystr :=
  u "inet 127.0.0.1 netmask 0xff000000" ++ [10]
  ++ concat ((λ e : command * answer, match e.1 with
                     | AddAlias x => if existsb (λ e : command * answer,
                                       match e.1 with DelAlias y => str_eqb x y | _ => false end) h
                                     then [] else u "inet " ++ x ++ [10]
                     | _ => []
                     end) <$> h).
Definition a_guest (h : list (command * answer)) (c : command) : answer :=
  match c with
  | Uname => inr (u "OpenBSD")
  | BinaryHash => inr a_digest
  | IfConfig => inr (a_listing h)
  | CatConf => inr (u "set skip on lo")
  | PfInfo => inr (u "Status: Enabled")
  | PfInterfaces => inr (if in_force h then u "lo0" else u "lo0 (skip)")
  | _ => inr []
  end.
(** One that fails during the cut and at the first removal. *)
Definition bad_guest (h : list (command * answer)) (c : command) : answer :=
  match c with
  | Stage Cut => inl Handled
  | DelAlias x => if str_eqb x (u "127.0.0.31") then inl Handled else inr []
  | _ => a_guest h c
  end.

Example guest_runs :
  (main a_guest an_args).1 = inr () ∧ length (log (main a_guest an_args).2) = 35%nat
  ∧ (main bad_guest an_args).1 = inl Handled ∧ length (log (main bad_guest an_args).2) = 32%nat.
Proof. vm_compute. repeat split; reflexivity. Qed.

(** One whose first removal cannot start its ssh process: the exception escapes
    [restore_aliases] and [cleanup], and the other aliases are not removed. *)
Definition lost_guest (h : list (command * answer)) (c : command) : answer :=
  match c with
  | DelAlias x => if str_eqb x (u "127.0.0.31") then inl Escapes else inr []
  | _ => a_guest h c
  end.

Example escape_leaves_aliases :
  (main lost_guest an_args).1 = inl Escapes
  ∧ existsb (λ e : command * answer, match e.1 with AddAlias x => str_eqb x (u "127.0.0.32") | _ => false end)
      (log (main lost_guest an_args).2) = true
  ∧ existsb (λ e : command * answer, match e.1 with DelAlias x => str_eqb x (u "127.0.0.32") | _ => false end)
      (log (main lost_guest an_args).2) = false.
Proof. vm_compute. repeat split; reflexivity. Qed.

Lemma guest_restored_witness :
  (main a_guest an_args).1 = inr () ∧ in_force (log (main a_guest an_args).2) = false.
Proof.
  assert (E : (main a_guest an_args).1 = inr ()) by (vm_compute; reflexivity).
  split; [exact E|]. apply (proj2 (proj2 (guest_restored a_guest an_args)) E).
Defined.
