(* ===== verification/UpgradeRun.v ===== *)
(** * tools/upgrade_smoke.py: the private run

    The directory, the port reservations, the gated launch and the clean-up of
    one invocation, as calls on a system that answers as a function of the
    calls made so far.  Every statement may end in an exception: the call raised,
    before or after it took effect, or an interrupt struck before its result was
    stored; where an interrupt can strike and no call stands next to it, the
    model has a pause.  The IRC checks of the smoke test are one step, and so is
    the preparation of the configuration. *)

From S2P Require Import Prelude PyStr.

Inductive exc := OSErr | FileNotFound | TimeoutExpired | KeyboardInterrupt | SmokeFailure | RuntimeErr
  | OtherExc.

#[export] Instance exc_eq_dec : EqDecision exc.
Proof. solve_decision. Defined.

(** FileNotFoundError is an OSError. *)
Definition is_oserror (e : exc) : bool := match e with OSErr | FileNotFound => true | _ => false end.

Inductive gate_end := Read | Write.

(** Where an interrupt strikes between two calls and neither of them can stand
    for it: the run was made but [RUN] not yet assigned, a handler of [main] was
    entered, [cleanup] was entered and its [try] not. *)
Inductive spot := Unassigned | Handling | Entering.

Inductive call :=
| MakeParent | ChmodParent | MakeTemp | ChmodDirectory
| Socket | Bind (i : nat) | GetNames | CloseSocket (i : nat)
| Prepare | OpenLog | CloseLog
| Pipe | Spawn | CloseFd (e : gate_end) | OpenGate
| Checks | ReadLog
| Poll | Terminate | Wait (timed : bool) | Kill
| Resolve | RemoveTree
| Pause (s : spot).

(** The answer.  [inl e]: the statement of the call ended in the exception, and
    what follows it was not done; the call itself may have taken effect or not.
    An interrupt after a call returned and before its result was assigned is of
    this kind, and one after the assignment is that of the next call.
    [inr b]: it returned; [Poll] tells whether the process runs, [Resolve] whether
    the directory is the one of a run under the scratch parent. *)
Abbreviation answer := (exc + bool)%type.
Abbreviation history := (list (call * answer)).

Record World := mkWorld {
  run_set : bool;                (* RUN is not None *)
  reservations : list nat;
  process : bool;
  gate_read : bool;              (* gate_read >= 0 *)
  log : history }.

Definition act (A : Type) : Type := World → (exc + A) * World.

Definition ret {A} (x : A) : act A := λ w, (inr x, w).
Definition raise {A} (e : exc) : act A := λ w, (inl e, w).
Definition bind_ {A B} (m : act A) (k : A → act B) : act B :=
  λ w, match m w with (inl e, w) => (inl e, w) | (inr x, w) => k x w end.

Declare Scope run_scope.
Delimit Scope run_scope with run.
Notation "x <-& m ;; k" := (bind_ m (λ x, k%run))
  (at level 100, m at next level, right associativity) : run_scope.
Notation "m ;;& k" := (bind_ m (λ _, k%run)) (at level 100, right associativity) : run_scope.
Open Scope run_scope.

Definition catch {A} (m : act A) (h : exc → act A) : act A :=
  λ w, match m w with (inl e, w) => h e w | r => r end.
Definition finally {A} (m : act A) (f : act unit) : act A :=
  λ w, let '(r, w) := m w in
       match f w with (inl e, w) => (inl e, w) | (inr _, w) => (r, w) end.

Definition get {A} (f : World → A) : act A := λ w, (inr (f w), w).
Definition check (b : bool) (e : exc) : act unit := if b then ret () else raise e.
Definition set_run (b : bool) : act unit := λ w,
  (inr (), mkWorld b (reservations w) (process w) (gate_read w) (log w)).
Definition set_reservations (l : list nat) : act unit := λ w,
  (inr (), mkWorld (run_set w) l (process w) (gate_read w) (log w)).
Definition set_process : act unit := λ w,
  (inr (), mkWorld (run_set w) (reservations w) true (gate_read w) (log w)).
Definition set_gate (b : bool) : act unit := λ w,
  (inr (), mkWorld (run_set w) (reservations w) (process w) b (log w)).

Section System.
Context (sys : history → call → answer).

Definition do (c : call) : act bool := λ w,
  let a := sys (log w) c in
  (a, mkWorld (run_set w) (reservations w) (process w) (gate_read w) (log w ++ [(c, a)])).

(** ** Reservations *)

(** The loop over the sockets: a socket counts once it is bound. *)
Fixpoint reserve (todo : nat) (i : nat) : act unit :=
  match todo with
  | O => ret ()
  | S todo =>
    do Socket ;;& do (Bind i) ;;&
    held <-& get reservations ;; set_reservations (held ++ [i]) ;;& reserve todo (S i)
  end.

Fixpoint close_each (l : list nat) : act unit :=
  match l with [] => ret () | i :: l => do (CloseSocket i) ;;& close_each l end.

Definition make_private_run : act unit :=
  do MakeParent ;;& do ChmodParent ;;& do MakeTemp ;;& do ChmodDirectory ;;&
  catch (reserve 3 0 ;;& do GetNames ;;& ret ())
    (λ e, held <-& get reservations ;; close_each held ;;& do RemoveTree ;;& raise e).

(** [while self.reservations: self.reservations.pop().close()]; the argument is
    the list from its end. *)
Fixpoint release_loop (l : list nat) : act unit :=
  match l with
  | [] => ret ()
  | i :: l => set_reservations (rev l) ;;& do (CloseSocket i) ;;& release_loop l
  end.

Definition release_ports : act unit := held <-& get reservations ;; release_loop (rev held).

(** ** The gated launch *)

Definition launch_gated : act unit :=
  do Pipe ;;& set_gate true ;;&
  finally
    (do Spawn ;;& set_process ;;&
     do (CloseFd Read) ;;& set_gate false ;;&
     release_ports ;;&
     do OpenGate ;;& ret ())
    (open <-& get gate_read ;;
     (if open : bool then do (CloseFd Read) ;;& ret () else ret ()) ;;&
     do (CloseFd Write) ;;& ret ()).

(** ** Clean-up *)

Definition remove_private_run : act unit :=
  own <-& do Resolve ;; check own RuntimeErr ;;& do RemoveTree ;;& ret ().

Definition stop_process : act unit :=
  p <-& get process ;;
  if negb p then ret ()
  else
    running <-& do Poll ;;
    if negb running then ret ()
    else
      catch (do Terminate ;;& do (Wait true) ;;& ret ())
        (λ e, match e with
              | TimeoutExpired => finally (do Kill ;;& ret ()) (do (Wait false) ;;& ret ())
              | _ => raise e
              end).

(** An [OSError] is reported and passed over. *)
Definition warn (m : act unit) : act unit :=
  catch m (λ e, if is_oserror e then ret () else raise e).

Definition cleanup : act unit :=
  do (Pause Entering) ;;&
  active <-& get run_set ;;
  set_run false ;;&
  if negb active then ret ()
  else do (Pause Entering) ;;& finally (warn stop_process) (release_ports ;;& warn remove_private_run).

(** ** The main program *)

(** [_run_smoke] when the binaries are there, or not. *)
Definition run_smoke (found : bool) : act Z :=
  if negb found then ret 1
  else
    make_private_run ;;& do (Pause Unassigned) ;;& set_run true ;;&
    do Prepare ;;&
    do OpenLog ;;&
    finally launch_gated (do CloseLog ;;& ret ()) ;;&
    do Checks ;;& ret 0.

Definition main (found : bool) : act Z :=
  finally
    (catch (run_smoke found)
       (λ e, do (Pause Handling) ;;&
             match e with
             | SmokeFailure =>
               active <-& get run_set ;;
               (if active : bool then warn (do ReadLog ;;& ret ()) else ret ()) ;;& ret 1
             | KeyboardInterrupt => ret 130
             | _ => ret 1
             end))
    cleanup.

Definition start : World := mkWorld false [] false false [].

End System.
