(* ===== verification/UpgradeRunSpec.v ===== *)
(** * tools/upgrade_smoke.py: custody of the private run

    Whatever the system answers and wherever an exception or an interrupt
    strikes: no port is closed twice and no end of the gate after a close of it
    returned, no process is signalled once it was seen to be gone, the daemon
    starts only when its ports are free, only the run's own directory is removed;
    and at the end everything the run acquired was released, but for the cases
    the properties list. *)

From S2P Require Import Prelude PyStr UpgradeRun.

(** ** What a history shows *)

Definition called (h : history) (c : call) : Prop := ∃ a, (c, a) ∈ h.
Definition ok (h : history) (c : call) : Prop := ∃ b, (c, inr b) ∈ h.
Definition raised (h : history) (c : call) : Prop := ∃ e, (c, inl e) ∈ h.

(** The process was seen to be gone. *)
Definition exited (h : history) : Prop := (Poll, inr false) ∈ h ∨ ∃ t, ok h (Wait t).

Definition permitted (h : history) (c : call) : Prop :=
  match c with
  | CloseSocket i => ok h (Bind i) ∧ ¬ called h (CloseSocket i)
  | CloseFd e => ok h Pipe ∧ ¬ ok h (CloseFd e) ∧ (e = Write → ¬ called h (CloseFd Write))
  | OpenGate => ok h Spawn ∧ ok h (CloseFd Read) ∧ ∀ i, ok h (Bind i) → ok h (CloseSocket i)
  | Terminate | Kill => ok h Spawn ∧ ¬ exited h
  | RemoveTree => ok h MakeTemp ∧ (¬ called h Spawn ∨ ∃ a, h = a ++ [(Resolve, inr true)])
  | _ => True
  end.

Lemma read_not_write (P : Prop) : Read = Write → P.
Proof. done. Qed.

Definition lawful (h : history) : Prop := ∀ a c x b, h = a ++ (c, x) :: b → permitted a c.

(** The descriptors of a gate that [os.pipe] returned: the read end was closed,
    and the write end too unless a statement that closes the read end raised. *)
Definition gate_settled (h : history) : Prop :=
  ok h Pipe → called h (CloseFd Read) ∧ (called h (CloseFd Write) ∨ raised h (CloseFd Read)).

(** An interrupt struck before [RUN] was assigned, or before the [try] of
    [cleanup]. *)
Definition unowned (h : history) : Prop := raised h (Pause Unassigned).
Definition unentered (h : history) : Prop := raised h (Pause Entering).

(** Every port whose bind returned was closed, or closing one raised, or an
    interrupt kept the clean-up from it. *)
Definition ports_settled (h : history) : Prop :=
  ∀ i, ok h (Bind i) →
    called h (CloseSocket i) ∨ (∃ j, raised h (CloseSocket j)) ∨ unowned h ∨ unentered h.

(** Stopping the process raised, a wait that expired apart. *)
Definition stop_raised (h : history) : Prop :=
  raised h Poll ∨ raised h Terminate ∨ raised h Kill ∨ raised h (Wait false)
  ∨ ∃ e, e ≠ TimeoutExpired ∧ (Wait true, inl e) ∈ h.

Definition process_settled (h : history) : Prop := ok h Spawn → exited h ∨ stop_raised h ∨ unentered h.

Lemma called_snoc h c x d : called (h ++ [(c, x)]) d ↔ called h d ∨ d = c.
Proof.
  unfold called. setoid_rewrite elem_of_app. setoid_rewrite list_elem_of_singleton. split.
  - intros [a [H|[= -> ->]]]; eauto.
  - intros [[a H]| ->]; eauto.
Qed.

Lemma ok_snoc h c x d : ok (h ++ [(c, x)]) d ↔ ok h d ∨ d = c ∧ ∃ b, x = inr b.
Proof.
  unfold ok. setoid_rewrite elem_of_app. setoid_rewrite list_elem_of_singleton. split.
  - intros [b [H|[= -> <-]]]; eauto.
  - intros [[b H]|[-> [b ->]]]; eauto.
Qed.

Lemma raised_snoc h c x d : raised (h ++ [(c, x)]) d ↔ raised h d ∨ d = c ∧ ∃ e, x = inl e.
Proof.
  unfold raised. setoid_rewrite elem_of_app. setoid_rewrite list_elem_of_singleton. split.
  - intros [b [H|[= -> <-]]]; eauto.
  - intros [[b H]|[-> [b ->]]]; eauto.
Qed.

Lemma ok_called h c : ok h c → called h c.
Proof. intros [b H]. by exists (inr b). Qed.

Lemma exited_snoc h c x :
  exited (h ++ [(c, x)]) ↔ exited h ∨ (c = Poll ∧ x = inr false) ∨ ∃ t b, c = Wait t ∧ x = inr b.
Proof.
  unfold exited. setoid_rewrite ok_snoc. rewrite elem_of_app, list_elem_of_singleton. split.
  - intros [[H|[= <- <-]]|[t [H|[<- [b ->]]]]]; eauto 10.
  - intros [[H|[t H]]|[[-> ->]|(t & b & -> & ->)]]; eauto 10.
Qed.

Lemma lawful_snoc h c x : lawful h → permitted h c → lawful (h ++ [(c, x)]).
Proof.
  intros Hs Ha a d y b E. destruct (decide (b = [])) as [->|Hb].
  - apply app_inj_tail in E as [<- [= <- <-]]. done.
  - destruct (exists_last Hb) as (b' & z & ->). rewrite app_comm_cons, app_assoc in E.
    apply app_inj_tail in E as [-> _]. by eapply Hs.
Qed.

Lemma gate_settled_snoc h c x : c ≠ Pipe → gate_settled h → gate_settled (h ++ [(c, x)]).
Proof.
  unfold gate_settled. rewrite ok_snoc, !called_snoc, raised_snoc. intros Hc H [Hp|[<- _]]; [|done].
  destruct (H Hp) as [H1 [H2|H2]]; eauto.
Qed.

Lemma ports_settled_snoc h c x : (∀ i, c ≠ Bind i) → ports_settled h → ports_settled (h ++ [(c, x)]).
Proof.
  intros Hc H i. rewrite ok_snoc, called_snoc. intros [Hb|[<- _]]; [|by destruct (Hc i)].
  unfold unowned, unentered. setoid_rewrite raised_snoc.
  destruct (H i Hb) as [H1|[[j Hj]|[H1|H1]]]; [by left; left|right; left; exists j; by left|right; right..];
    [left|right]; by left.
Qed.

Lemma stop_raised_mono h t : stop_raised h → stop_raised (h ++ t).
Proof. unfold stop_raised, raised. setoid_rewrite elem_of_app. naive_solver. Qed.

Lemma process_settled_snoc h c x : c ≠ Spawn → process_settled h → process_settled (h ++ [(c, x)]).
Proof.
  intros Hc H. unfold process_settled. rewrite ok_snoc, exited_snoc. intros [Hs|[<- _]]; [|done].
  unfold unentered. rewrite raised_snoc.
  destruct (H Hs) as [He|[Hr|Hr]]; [by left; left|right; left; by apply stop_raised_mono|by right; right; left].
Qed.

(** ** The invariant *)

(** What holds from the moment the run exists; the process was not looked at
    yet. *)
Record held (w : World) : Prop := mkHeld {
  h_lawful : lawful (log w);
  h_temp : ok (log w) MakeTemp;
  h_nodup : NoDup (reservations w);
  h_open : ∀ i, i ∈ reservations w → ok (log w) (Bind i) ∧ ¬ called (log w) (CloseSocket i);
  h_bound : ∀ i, ok (log w) (Bind i) → i ∈ reservations w ∨ called (log w) (CloseSocket i);
  h_process : process w = true ↔ ok (log w) Spawn }.

(** A call that changes none of this. *)
Definition plain (c : call) : bool :=
  match c with Bind _ | CloseSocket _ | Spawn => false | _ => true end.

Definition snoc (w : World) (c : call) (x : answer) : World :=
  mkWorld (run_set w) (reservations w) (process w) (gate_read w) (log w ++ [(c, x)]).

Lemma held_plain w c x : held w → plain c = true → permitted (log w) c → held (snoc w c x).
Proof.
  intros [H1 H2 H3 H4 H5 H6] Hc Hp. constructor; simpl.
  - by apply lawful_snoc.
  - rewrite ok_snoc. by left.
  - done.
  - intros i Hi. destruct (H4 i Hi) as [Hb Hn]. rewrite ok_snoc, called_snoc. split; [by left|].
    intros [?| <-]; done.
  - intros i. rewrite ok_snoc, called_snoc. intros [Hb|[<- _]]; [|done]. destruct (H5 i Hb); eauto.
  - rewrite H6, ok_snoc. split; [by left|]. by intros [?|[<- _]].
Qed.


(** ** Releasing the ports *)

Definition closing (e : call * answer) : Prop := ∃ i, e.1 = CloseSocket i.

(** The last reservation is closed, whatever the answer. *)
Lemma held_close w l i x :
  held w → reservations w = rev l ++ [i] →
  held (mkWorld (run_set w) (rev l) (process w) (gate_read w) (log w ++ [(CloseSocket i, x)])).
Proof.
  intros [H1 H2 H3 H4 H5 H6] Hr. rewrite Hr in *. apply NoDup_app in H3 as (Hn & Hd & _).
  assert (Hi := H4 i ltac:(apply elem_of_app; right; left)).
  constructor; simpl; try done.
  - by apply lawful_snoc.
  - rewrite ok_snoc. by left.
  - intros j Hj. destruct (H4 j) as [Hb Hc]; [apply elem_of_app; by left|].
    rewrite ok_snoc, called_snoc. split; [by left|]. intros [?|[= ->]]; [done|].
    apply (Hd i Hj). left.
  - intros j. rewrite ok_snoc, called_snoc. intros [Hb|[? _]]; [|done].
    destruct (H5 j Hb) as [[Hj|Hj%list_elem_of_singleton]%elem_of_app|Hj]; [by left| |by right; left].
    subst j. right. by right.
  - rewrite H6, ok_snoc. split; [by left|]. by intros [?|[? _]].
Qed.

Section Spec.
Context (sys : history → call → answer).

Lemma release_spec l w :
  held w → reservations w = rev l →
  ∃ t r res, release_loop sys l w = (r, mkWorld (run_set w) res (process w) (gate_read w) (log w ++ t))
    ∧ held (mkWorld (run_set w) res (process w) (gate_read w) (log w ++ t))
    ∧ Forall closing t
    ∧ match r with
      | inr _ => res = [] ∧ ∀ i, i ∈ l → ok t (CloseSocket i)
      | inl _ => ∃ j, raised t (CloseSocket j)
      end.
Proof.
  revert w. induction l as [|i l IH]; intros w Hw Hr; simpl in Hr.
  { exists [], (inr ()), (reservations w). rewrite app_nil_r. destruct w; simpl in *.
    split; [done|]. split; [done|]. split; [constructor|]. split; [done|]. by intros i ?%elem_of_nil. }
  cbn [release_loop]. unfold bind_ at 1, set_reservations at 1, bind_ at 1, do at 1. cbn [log reservations run_set process gate_read].
  assert (Hc := λ x, held_close w l i x Hw Hr).
  destruct (sys (log w) (CloseSocket i)) as [e|b].
  { exists [(CloseSocket i, inl e)], (inl e), (rev l). split; [done|]. split; [apply Hc|].
    split; [constructor; [by exists i|constructor]|]. exists i, e. left. }
  destruct (IH _ (Hc (inr b)) eq_refl) as (t & r & res & E & Hh & Ht & Hp). simpl in *. rewrite E.
  exists ((CloseSocket i, inr b) :: t), r, res. rewrite <-app_assoc in *. simpl in *.
  split; [done|]. split; [done|]. split; [constructor; [by exists i|done]|]. destruct r as [e|[]].
  - destruct Hp as (j & e' & Hj). exists j, e'. by right.
  - destruct Hp as [-> Hp]. split; [done|]. intros j [->|Hj]%elem_of_cons; [exists b; left|].
    destruct (Hp j Hj) as [b' ?]. exists b'. by right.
Qed.

(** Closing a socket shows nothing of anything else. *)
Lemma closing_called h t c : Forall closing t → (∀ i, c ≠ CloseSocket i) → called (h ++ t) c ↔ called h c.
Proof.
  intros Ht Hc. unfold called. setoid_rewrite elem_of_app. split; [|naive_solver].
  intros [a [H|H]]; [by exists a|]. rewrite Forall_forall in Ht. destruct (Ht _ H) as [i E]. by destruct (Hc i).
Qed.

Lemma closing_ok h t c : Forall closing t → (∀ i, c ≠ CloseSocket i) → ok (h ++ t) c ↔ ok h c.
Proof.
  intros Ht Hc. unfold ok. setoid_rewrite elem_of_app. split; [|naive_solver].
  intros [a [H|H]]; [by exists a|]. rewrite Forall_forall in Ht. destruct (Ht _ H) as [i E]. by destruct (Hc i).
Qed.

Lemma ok_app_l h t c : ok h c → ok (h ++ t) c.
Proof. intros [b H]. exists b. apply elem_of_app. by left. Qed.
Lemma ok_app_r h t c : ok t c → ok (h ++ t) c.
Proof. intros [b H]. exists b. apply elem_of_app. by right. Qed.
Lemma called_app_l h t c : called h c → called (h ++ t) c.
Proof. intros [b H]. exists b. apply elem_of_app. by left. Qed.

(** [release_ports] leaves every reservation closed, or raised. *)
Lemma release_ports_spec w :
  held w →
  ∃ t r res, release_ports sys w = (r, mkWorld (run_set w) res (process w) (gate_read w) (log w ++ t))
    ∧ held (mkWorld (run_set w) res (process w) (gate_read w) (log w ++ t))
    ∧ Forall closing t ∧ ports_settled (log w ++ t)
    ∧ (is_someb (match r with inr _ => Some () | inl _ => None end) = true →
         ∀ i, ok (log w) (Bind i) → called (log w) (CloseSocket i) ∨ ok t (CloseSocket i)).
Proof.
  intros Hw. destruct (release_spec (rev (reservations w)) w Hw) as (t & r & res & E & Hh & Ht & Hp);
    [by rewrite rev_involutive|].
  exists t, r, res. split; [done|]. split; [done|]. split; [done|].
  assert (Hall : ∀ i, ok (log w) (Bind i) → r = inr () → called (log w) (CloseSocket i) ∨ ok t (CloseSocket i)).
  { intros i Hb ->. destruct Hp as [_ Hp]. destruct (h_bound _ Hw i Hb) as [Hi|Hi]; [|by left].
    right. apply Hp. rewrite list_elem_of_In, <-in_rev, <-list_elem_of_In. done. }
  split.
  - intros i. rewrite closing_ok by done. intros Hb. destruct r as [e|[]].
    + right. left. destruct Hp as (j & e' & Hj). exists j, e'. apply elem_of_app. by right.
    + left. destruct (Hall i Hb eq_refl) as [?|?]; [by apply called_app_l|by apply ok_called, ok_app_r].
  - destruct r as [e|[]]; [done|]. intros _ i Hb. by apply Hall.
Qed.

(** ** The gated launch *)

Definition unwatched (h : history) : Prop := ¬ called h Poll ∧ ∀ t, ¬ called h (Wait t).

Lemma unwatched_snoc h c x : unwatched h → c ≠ Poll → (∀ t, c ≠ Wait t) → unwatched (h ++ [(c, x)]).
Proof.
  intros [H1 H2] Hp Hw. split; [|intros t]; rewrite called_snoc; intros [?|E]; [done| |by eapply H2|].
  - by apply Hp.
  - by apply (Hw t).
Qed.

(** What the launch has done when its last block runs. *)
Record launched (run : bool) (w : World) : Prop := mkLaunched {
  l_held : held w;
  l_pipe : ok (log w) Pipe;
  l_write : ¬ called (log w) (CloseFd Write);
  l_read : if gate_read w then ¬ ok (log w) (CloseFd Read) else called (log w) (CloseFd Read);
  l_unwatched : unwatched (log w);
  l_run : run_set w = run }.

(** A plain call other than those on the gate. *)
Lemma launched_plain run w c x :
  launched run w → plain c = true → permitted (log w) c → (∀ e, c ≠ CloseFd e) → c ≠ Poll → (∀ t, c ≠ Wait t) →
  launched run (snoc w c x).
Proof.
  intros [H1 H2 H3 H4 H5 H6] Hc Hp Hf Hq Hw. constructor; simpl; try done.
  - by apply held_plain.
  - rewrite ok_snoc. by left.
  - rewrite called_snoc. intros [?|E]; [done|]. by apply (Hf Write).
  - destruct (gate_read w); [rewrite ok_snoc; intros [?|[E _]]; [done|by apply (Hf Read)]|].
    rewrite called_snoc. by left.
  - by apply unwatched_snoc.
Qed.

Definition gate_block : act unit :=
  open <-& get gate_read ;;
  (if open : bool then do sys (CloseFd Read) ;;& ret () else ret ()) ;;& do sys (CloseFd Write) ;;& ret ().

Lemma gate_write w :
  held w → ok (log w) Pipe → ¬ called (log w) (CloseFd Write) → unwatched (log w) → called (log w) (CloseFd Read) →
  let '(r, w') := (do sys (CloseFd Write) ;;& ret ()) w in
  held w' ∧ gate_settled (log w') ∧ unwatched (log w') ∧ run_set w' = run_set w.
Proof.
  intros H1 H2 H3 H5 Hr. unfold bind_, do. set (x := sys (log w) (CloseFd Write)).
  assert (Hw := held_plain w (CloseFd Write) x H1 eq_refl (conj H2 (conj (λ H, H3 (ok_called _ _ H)) (λ _, H3)))).
  assert (Hg : gate_settled (log w ++ [(CloseFd Write, x)])).
  { intros _. rewrite !called_snoc. split; [by left|]. left. by right. }
  assert (Hu := unwatched_snoc _ (CloseFd Write) x H5 ltac:(done) ltac:(done)).
  destruct x; simpl; done.
Qed.

Lemma gate_block_spec run w :
  launched run w →
  let '(r, w') := gate_block w in
  held w' ∧ gate_settled (log w') ∧ unwatched (log w') ∧ run_set w' = run.
Proof.
  intros [H1 H2 H3 Hr H5 <-]. unfold gate_block, bind_ at 1, get at 1.
  destruct (gate_read w) eqn:Eg; [|unfold bind_ at 1, ret at 1; by apply gate_write].
  unfold bind_ at 1, bind_ at 1, do at 1.
  set (x := sys (log w) (CloseFd Read)).
  assert (Hw := held_plain w (CloseFd Read) x H1 eq_refl (conj H2 (conj Hr (read_not_write _)))). unfold snoc in Hw. rewrite Eg in *.
  assert (Hu := unwatched_snoc _ (CloseFd Read) x H5 ltac:(done) ltac:(done)).
  destruct x as [e|b] eqn:Ex; simpl.
  - split; [done|]. split; [|done]. intros _. rewrite called_snoc, raised_snoc. split; [by right|].
    right. right. split; [done|]. by exists e.
  - apply (gate_write (mkWorld (run_set w) (reservations w) (process w) true (log w ++ [(CloseFd Read, inr b)])));
      simpl; [done| | |done|].
    + rewrite ok_snoc. by left.
    + rewrite called_snoc. by intros [?|?].
    + rewrite called_snoc. by right.
Qed.

(** The block before it: any exception leaves the gate as it says. *)
Definition launch_body : act unit :=
  do sys Spawn ;;& set_process ;;& do sys (CloseFd Read) ;;& set_gate false ;;&
  release_ports sys ;;& do sys OpenGate ;;& ret ().

Lemma held_spawn w x :
  held w → process w = false →
  held (mkWorld (run_set w) (reservations w) (match x with inr _ => true | inl _ => false end) (gate_read w)
          (log w ++ [(Spawn, x)])).
Proof.
  intros [H1 H2 H3 H4 H5 H6] Hp. constructor; simpl; try done.
  - by apply lawful_snoc.
  - rewrite ok_snoc. by left.
  - intros i Hi. destruct (H4 i Hi). rewrite ok_snoc, called_snoc. split; [by left|]. by intros [?|?].
  - intros i. rewrite ok_snoc, called_snoc. intros [Hb|[? _]]; [|done]. destruct (H5 i Hb); eauto.
  - rewrite ok_snoc, <-H6, Hp. destruct x as [e|b]; [|split; [|done]; intros _; right; eauto].
    split; [done|]. by intros [?|[_ [b ?]]].
Qed.

(** After the spawn. *)
Lemma launch_rest w run :
  launched run w → gate_read w = false → ok (log w) Spawn → ok (log w) (CloseFd Read) →
  (∀ i, ¬ called (log w) (CloseSocket i)) →
  let '(r, w') := (release_ports sys ;;& do sys OpenGate ;;& ret ()) w in launched run w'.
Proof.
  intros [H1 H2 H3 H4 H5 H6] Hg Hs Hr Hn. unfold bind_ at 1.
  destruct (release_ports_spec w H1) as (t & r & res & E & Hh & Ht & _ & Hall). rewrite E.
  assert (Hl : launched run (mkWorld (run_set w) res (process w) (gate_read w) (log w ++ t))).
  { constructor; simpl; try done.
    - by apply ok_app_l.
    - by rewrite closing_called.
    - rewrite Hg in *. by apply called_app_l.
    - destruct H5 as [Hp Hw]. split; [by rewrite closing_called|]. intros x. by rewrite closing_called. }
  destruct r as [e|[]]; [done|]. unfold bind_, do. simpl.
  assert (Hp := λ x, launched_plain run _ OpenGate x Hl eq_refl).
  assert (permitted (log w ++ t) OpenGate).
  { split; [by apply ok_app_l|]. split; [by apply ok_app_l|]. intros i Hb. rewrite closing_ok in Hb by done.
    destruct (Hall eq_refl i Hb) as [?|?]; [by destruct (Hn i)|by apply ok_app_r]. }
  destruct (sys (log w ++ t) OpenGate); by apply Hp.
Qed.

Lemma launch_body_spec run w :
  launched run w → gate_read w = true → process w = false → (∀ e, ¬ called (log w) (CloseFd e)) →
  (∀ i, ¬ called (log w) (CloseSocket i)) →
  let '(r, w') := launch_body w in launched run w'.
Proof.
  intros [H1 H2 H3 H4 H5 H6] Hg Hp Hf Hn. unfold launch_body, bind_ at 1, do at 1.
  set (x := sys (log w) Spawn). assert (Hs := held_spawn w x H1 Hp).
  assert (Hl : launched run (mkWorld (run_set w) (reservations w) (match x with inr _ => true | inl _ => false end)
                             (gate_read w) (log w ++ [(Spawn, x)]))).
  { constructor; simpl; try done.
    - rewrite ok_snoc. by left.
    - rewrite called_snoc. by intros [?|?].
    - rewrite Hg, ok_snoc in *. by intros [?|[? _]].
    - by apply unwatched_snoc. }
  destruct x as [e|b] eqn:Ex; [by rewrite Hp|]. unfold bind_ at 1, set_process at 1. simpl in Hl |- *.
  unfold bind_ at 1, do at 1. simpl. set (h := log w ++ [(Spawn, inr b)]) in *.
  set (y := sys h (CloseFd Read)).
  destruct Hl as [L1 L2 L3 L4 L5 L6]. simpl in *. rewrite Hg in L4.
  assert (Hc := held_plain _ (CloseFd Read) y L1 eq_refl (conj L2 (conj L4 (read_not_write _)))). unfold snoc in Hc. simpl in Hc.
  assert (Hu := unwatched_snoc _ (CloseFd Read) y L5 ltac:(done) ltac:(done)).
  assert (Hnw : ¬ called (h ++ [(CloseFd Read, y)]) (CloseFd Write)) by (rewrite called_snoc; by intros [?|?]).
  destruct y as [e|b'] eqn:Ey; simpl.
  - constructor; simpl; try done.
    + rewrite ok_snoc. by left.
    + rewrite Hg, ok_snoc. by intros [?|[_ [z ?]]].
  - unfold bind_ at 1, set_gate at 1. simpl. apply launch_rest; simpl; try done.
    + constructor; simpl; try done.
      * by destruct Hc.
      * rewrite ok_snoc. by left.
      * rewrite called_snoc. by right.
    + subst h. rewrite !ok_snoc. left. right. split; [done|]. by exists b.
    + rewrite ok_snoc. right. split; [done|]. by exists b'.
    + intros i. subst h. rewrite !called_snoc. intros [[?|?]|?]; [by eapply Hn|done..].
Qed.

(** Before the launch. *)
Definition late (c : call) : bool :=
  match c with
  | Pipe | Spawn | CloseFd _ | CloseSocket _ | Poll | Wait _ => true
  | _ => false
  end.

Definition early (h : history) : Prop := ∀ c, late c = true → ¬ called h c.

Lemma early_snoc h c x : early h → late c = false → early (h ++ [(c, x)]).
Proof. intros H Hc d Hd. rewrite called_snoc. intros [?| <-]; [by eapply H|congruence]. Qed.

Lemma early_unwatched h : early h → unwatched h.
Proof. intros H. split; [by apply H|]. intros t. by apply H. Qed.

Lemma early_settled h : early h → gate_settled h.
Proof. intros H Hp. apply ok_called in Hp. by apply H in Hp. Qed.

(** What is kept while the run exists and the process was not looked at. *)
Definition kept (run : bool) (w : World) : Prop :=
  held w ∧ gate_settled (log w) ∧ unwatched (log w) ∧ run_set w = run.

Lemma launch_spec run w :
  held w → early (log w) → run_set w = run → process w = false →
  let '(r, w') := launch_gated sys w in kept run w'.
Proof.
  intros Hw He Hr Hp. unfold launch_gated, bind_ at 1, do at 1. set (x := sys (log w) Pipe).
  assert (H1 := held_plain w Pipe x Hw eq_refl I).
  assert (Hu := unwatched_snoc _ Pipe x (early_unwatched _ He) ltac:(done) ltac:(done)).
  assert (Hn : ∀ c, late c = true → c ≠ Pipe → ¬ called (log w ++ [(Pipe, x)]) c).
  { intros c Hc Hne. rewrite called_snoc. intros [?|?]; [by eapply He|done]. }
  destruct x as [e|b] eqn:Ex.
  { split; [done|]. split; [|done]. intros Ho. simpl in Ho. rewrite ok_snoc in Ho. destruct Ho as [Ho|[_ [y ?]]]; [|done].
    apply ok_called in Ho. by apply He in Ho. }
  unfold bind_ at 1, set_gate at 1. simpl. unfold finally. fold launch_body gate_block.
  set (w1 := mkWorld _ _ _ _ _).
  assert (Hl : launched run w1).
  { subst w1. constructor; simpl; try done.
    - by destruct H1.
    - rewrite ok_snoc. right. split; [done|]. by exists b.
    - by apply Hn.
    - intros Ho%ok_called. by apply (Hn (CloseFd Read)) in Ho. }
  assert (Hb := launch_body_spec run w1 Hl eq_refl Hp (λ e, Hn (CloseFd e) eq_refl ltac:(done))
                  (λ i, Hn (CloseSocket i) eq_refl ltac:(done))).
  destruct (launch_body w1) as [r w2]. assert (Hg := gate_block_spec run w2 Hb).
  destruct (gate_block w2) as [[e|[]] w3]; exact Hg.
Qed.

(** ** The reservations *)

Record reserving (i : nat) (w : World) : Prop := mkReserving {
  r_lawful : lawful (log w);
  r_temp : ok (log w) MakeTemp;
  r_list : reservations w = seq 0 i;
  r_bound : ∀ j, ok (log w) (Bind j) ↔ (j < i)%nat;
  r_early : early (log w);
  r_state : run_set w = false ∧ process w = false }.

Lemma reserving_held i w : reserving i w → held w.
Proof.
  intros [H1 H2 H3 H4 H5 [H6 H7]]. constructor; try done.
  - rewrite H3. apply NoDup_seq.
  - intros j. rewrite H3, elem_of_seq. intros Hj. rewrite H4. split; [lia|]. by apply H5.
  - intros j. rewrite H4, H3, elem_of_seq. left. lia.
  - rewrite H7. split; [done|]. intros Ho%ok_called. by apply H5 in Ho.
Qed.

Lemma reserving_snoc i w c x :
  reserving i w → permitted (log w) c → late c = false → (∀ j, c ≠ Bind j) →
  reserving i (snoc w c x).
Proof.
  intros [H1 H2 H3 H4 H5 H6] Hp Hl Hb. constructor; simpl; try done.
  - by apply lawful_snoc.
  - rewrite ok_snoc. by left.
  - intros j. rewrite ok_snoc, H4. split; [|by left]. intros [?|[<- _]]; [done|]. by destruct (Hb j).
  - by apply early_snoc.
Qed.

Lemma reserve_spec todo i w :
  reserving i w →
  match reserve sys todo i w with
  | (inr _, w') => reserving (i + todo) w'
  | (inl _, w') => ∃ j, reserving j w'
  end.
Proof.
  revert i w. induction todo as [|todo IH]; intros i w Hw; [simpl; by rewrite Nat.add_0_r|].
  cbn [reserve]. unfold bind_ at 1, do at 1. set (x := sys (log w) Socket).
  assert (H1 := reserving_snoc i w Socket x Hw I eq_refl ltac:(done)). unfold snoc in H1.
  destruct x as [e|b]; [by exists i|]. unfold bind_ at 1, do at 1. simpl.
  set (y := sys _ (Bind i)). destruct H1 as [R1 R2 R3 R4 R5 R6]. simpl in *.
  destruct y as [e|b'] eqn:Ey.
  - exists i. constructor; simpl; try done.
    + by apply lawful_snoc.
    + rewrite ok_snoc. by left.
    + intros j. rewrite ok_snoc, R4. split; [|by left]. by intros [?|[_ [z ?]]].
    + by apply early_snoc.
  - unfold bind_ at 1, get at 1. simpl. unfold bind_ at 1, set_reservations at 1. simpl.
    rewrite Nat.add_succ_r, <-Nat.add_succ_l. apply IH. constructor; simpl; try done.
    + by apply lawful_snoc.
    + rewrite ok_snoc. by left.
    + rewrite R3. symmetry. apply (seq_S i 0).
    + intros j. rewrite ok_snoc, R4. split.
      * intros [?|[[= ->] _]]; lia.
      * intros Hj. destruct (decide (j = i)) as [->|]; [right; split; [done|]; by exists b'|left; lia].
    + by apply early_snoc.
Qed.

(** Closing them all without taking them from the list. *)
Lemma close_each_spec l w :
  lawful (log w) → NoDup l → (∀ i, i ∈ l → ok (log w) (Bind i) ∧ ¬ called (log w) (CloseSocket i)) →
  ∃ t r, close_each sys l w = (r, mkWorld (run_set w) (reservations w) (process w) (gate_read w) (log w ++ t))
    ∧ lawful (log w ++ t) ∧ Forall closing t
    ∧ match r with
      | inr _ => ∀ i, i ∈ l → called t (CloseSocket i)
      | inl _ => ∃ j, raised t (CloseSocket j)
      end.
Proof.
  revert w. induction l as [|i l IH]; intros w Hs Hn Hl.
  { exists [], (inr ()). rewrite app_nil_r. destruct w. split; [done|]. split; [done|]. split; [constructor|].
    by intros i ?%elem_of_nil. }
  apply NoDup_cons in Hn as [Hi Hn]. cbn [close_each]. unfold bind_ at 1, do at 1.
  set (x := sys (log w) (CloseSocket i)).
  assert (Hs' := lawful_snoc _ (CloseSocket i) x Hs (Hl i (list_elem_of_here _ _))).
  destruct x as [e|b].
  { exists [(CloseSocket i, inl e)], (inl e). split; [done|]. split; [done|].
    split; [constructor; [by exists i|constructor]|]. exists i, e. left. }
  destruct (IH (snoc w (CloseSocket i) (inr b)) Hs' Hn) as (t & r & E & Ht & Hc & Hr).
  { intros j Hj. destruct (Hl j) as [H1 H2]; [by right|]. simpl. rewrite ok_snoc, called_snoc.
    split; [by left|]. intros [?|[= ->]]; done. }
  unfold snoc in E. simpl in *. rewrite E. exists ((CloseSocket i, inr b) :: t), r. rewrite <-app_assoc in *. simpl in *.
  split; [done|]. split; [done|]. split; [constructor; [by exists i|done]|]. destruct r as [e|[]].
  - destruct Hr as (j & e' & Hj). exists j, e'. by right.
  - intros j [->|Hj]%elem_of_cons; [eexists; left|]. destruct (Hr j Hj) as [a ?]. exists a. by right.
Qed.

(** Nothing was launched, and the reservations were given back. *)
Definition given_up (w : World) : Prop :=
  lawful (log w) ∧ ports_settled (log w) ∧ ¬ called (log w) Spawn ∧ ¬ called (log w) Pipe ∧ run_set w = false.

Lemma reserving_given_up w : reserving 0 w → given_up w.
Proof.
  intros [H1 _ _ H4 H5 [H6 _]]. split; [done|]. split; [intros i Hi%H4; lia|]. split; [by apply H5|].
  split; [by apply H5|done].
Qed.

(** Interrupted before the run has an owner. *)
Lemma interrupted i w e : reserving i w → given_up (snoc w (Pause Unassigned) (inl e)).
Proof.
  intros Hw. apply (reserving_snoc i w (Pause Unassigned) (inl e)) in Hw; [|done..].
  destruct Hw as [H1 _ _ _ H5 [H6 _]]. split; [done|]. split; [|by split; [apply H5|split; [apply H5|]]].
  intros j _. right. right. left. exists e. simpl. apply elem_of_app. right. left.
Qed.

(** The handler of a reservation that failed. *)
Lemma give_up_spec i e w :
  reserving i w →
  ∃ e' w', (held <-& get reservations ;; close_each sys held ;;& do sys RemoveTree ;;& raise (A:=unit) e) w = (inl e', w')
    ∧ given_up w'.
Proof.
  intros Hw. assert (Hh := reserving_held _ _ Hw). unfold bind_ at 1, get at 1, bind_ at 1.
  destruct (close_each_spec (reservations w) w) as (t & r & E & Hl & Ht & Hr); [apply Hh..|].
  rewrite E. destruct Hw as [H1 H2 H3 H4 H5 [H6 H7]].
  assert (Hset : ports_settled (log w ++ t)).
  { intros j. rewrite closing_ok, H4 by done. intros Hj. destruct r as [x|[]].
    - right. left. destruct Hr as (k & e' & Hk). exists k, e'. apply elem_of_app. by right.
    - left. destruct (Hr j) as [a Ha]; [rewrite H3, elem_of_seq; lia|]. exists a. apply elem_of_app. by right. }
  assert (Hno : ∀ c, late c = true → (∀ k, c ≠ CloseSocket k) → ¬ called (log w ++ t) c)
    by (intros c Hc Hne; rewrite closing_called by done; by apply H5).
  assert (Hsp : ¬ called (log w ++ t) Spawn) by (by apply Hno).
  assert (Hpi : ¬ called (log w ++ t) Pipe) by (by apply Hno).
  destruct r as [x|[]]; [by eexists _, _|]. unfold bind_, do. simpl. set (y := sys _ RemoveTree).
  assert (Hg : given_up (mkWorld (run_set w) (reservations w) (process w) (gate_read w) ((log w ++ t) ++ [(RemoveTree, y)]))).
  { split; [simpl; apply lawful_snoc; [done|]; split; [by apply ok_app_l|by left]|]. simpl.
    split; [by apply ports_settled_snoc|]. rewrite !called_snoc. split; [by intros [?|?]|]. by split; [intros [?|?]|]. }
  destruct y; by eexists _, _.
Qed.

(** The first calls, before anything is held. *)
Lemma early_calls w c x :
  lawful (log w) → early (log w) → (∀ j, ¬ ok (log w) (Bind j)) → permitted (log w) c → late c = false →
  (∀ j, c ≠ Bind j) →
  lawful (log w ++ [(c, x)]) ∧ early (log w ++ [(c, x)]) ∧ ∀ j, ¬ ok (log w ++ [(c, x)]) (Bind j).
Proof.
  intros H1 H2 H3 Hp Hl Hb. split; [by apply lawful_snoc|]. split; [by apply early_snoc|].
  intros j. rewrite ok_snoc. intros [?|[<- _]]; [by eapply H3|by eapply Hb].
Qed.

Definition blank (w : World) : Prop :=
  lawful (log w) ∧ early (log w) ∧ (∀ j, ¬ ok (log w) (Bind j)) ∧ reservations w = [] ∧ run_set w = false
  ∧ process w = false.

Lemma blank_given_up w : blank w → given_up w.
Proof.
  intros (H1 & H2 & H3 & _ & H5 & _). split; [done|]. split; [intros i Hi; by apply H3 in Hi|].
  split; [by apply H2|]. by split; [apply H2|].
Qed.

(** One of them, followed by the rest. *)
Lemma blank_do {A} c (k : bool → act A) w (Q : exc + A → World → Prop) :
  blank w → permitted (log w) c → late c = false → (∀ j, c ≠ Bind j) →
  (∀ e w', given_up w' → Q (inl e) w') →
  (∀ b, blank (snoc w c (inr b)) → Q (k b (snoc w c (inr b))).1 (k b (snoc w c (inr b))).2) →
  Q (bind_ (do sys c) k w).1 (bind_ (do sys c) k w).2.
Proof.
  intros (H1 & H2 & H3 & H4) Hp Hl Hb HE HQ. unfold bind_, do. fold (snoc w c (sys (log w) c)).
  assert (Hn : ∀ x, blank (snoc w c x)).
  { intros x. destruct (early_calls w c x H1 H2 H3 Hp Hl Hb) as (? & ? & ?). done. }
  destruct (sys (log w) c) as [e|b]; [apply HE, blank_given_up, Hn|by apply HQ].
Qed.

Lemma make_spec w :
  blank w →
  match make_private_run sys w with
  | (inr _, w') => reserving 3 w'
  | (inl _, w') => given_up w'
  end.
Proof.
  intros Hw. enough (H : (λ r w', match r with inr _ => reserving 3 w' | inl _ => given_up w' end)
      (make_private_run sys w).1 (make_private_run sys w).2) by (by destruct (make_private_run sys w)).
  unfold make_private_run. apply blank_do; [done..|]. intros b1 H1. apply blank_do; [done..|]. intros b2 H2.
  apply blank_do; [done..|]. intros b H3. apply blank_do; [done..|]. intros b' H4.
  set (w4 := snoc _ ChmodDirectory _) in *.
  assert (Hr : reserving 0 w4).
  { destruct H4 as (L1 & L2 & L3 & L4 & L5). constructor; try done.
    - subst w4. simpl. rewrite ok_snoc. left. rewrite ok_snoc. right. split; [done|]. by exists b.
    - intros j. split; [intros Hj; by apply L3 in Hj|lia]. }
  clearbody w4. destruct (catch _ _ w4) as [r w'] eqn:Ec. cbn [fst snd]. unfold catch, bind_ at 1 in Ec.
  assert (Hs := reserve_spec 3 0 w4 Hr). destruct (reserve sys 3 0 w4) as [[e|[]] w5].
  { destruct Hs as [j Hj]. destruct (give_up_spec j e w5 Hj) as (e' & w6 & E & Hg). rewrite E in Ec. by simplify_eq. }
  unfold bind_ at 1, do at 1 in Ec. fold (snoc w5 GetNames (sys (log w5) GetNames)) in Ec.
  assert (Hn := λ x, reserving_snoc 3 w5 GetNames x Hs I eq_refl ltac:(done)).
  destruct (sys (log w5) GetNames) as [e|b''].
  - destruct (give_up_spec 3 e _ (Hn (inl e))) as (e' & w6 & E & Hg). rewrite E in Ec. by simplify_eq.
  - cbn in Ec. simplify_eq. apply Hn.
Qed.

(** ** The run *)

Lemma kept_snoc run w c x :
  kept run w → plain c = true → permitted (log w) c → late c = false → kept run (snoc w c x).
Proof.
  intros (H1 & H2 & H3 & H4) Hc Hp Hl. split; [by apply held_plain|].
  split; [apply gate_settled_snoc; [intros ->; discriminate|done]|]. split; [|done].
  apply unwatched_snoc; [done|intros ->; discriminate|intros t ->; discriminate].
Qed.

(** Such a call, then the rest. *)
Lemma kept_do {A} run c (k : bool → act A) w (Q : exc + A → World → Prop) :
  kept run w → plain c = true → permitted (log w) c → late c = false →
  (∀ e w', kept run w' → Q (inl e) w') →
  (∀ b, kept run (snoc w c (inr b)) → Q (k b (snoc w c (inr b))).1 (k b (snoc w c (inr b))).2) →
  Q (bind_ (do sys c) k w).1 (bind_ (do sys c) k w).2.
Proof.
  intros Hw Hc Hp Hl HE HQ. unfold bind_, do. fold (snoc w c (sys (log w) c)).
  assert (Hn := λ x, kept_snoc run w c x Hw Hc Hp Hl).
  destruct (sys (log w) c) as [e|b]; [apply HE, Hn|apply HQ, Hn].
Qed.

Lemma early_kept run w : held w → early (log w) → run_set w = run → kept run w.
Proof. intros H1 H2 H3. split; [done|]. split; [by apply early_settled|]. by split; [apply early_unwatched|]. Qed.

(** How [_run_smoke] ends: before the run exists, or with it; with success
    only when the checks passed. *)
Definition ended (r : exc + Z) (w : World) : Prop :=
  (given_up w ∨ kept true w) ∧ (r = inr 0 → kept true w ∧ ok (log w) Checks).

Lemma checks_spec w :
  kept true w → ended ((do sys Checks ;;& ret 0) w).1 ((do sys Checks ;;& ret 0) w).2.
Proof.
  intros Hw. apply (kept_do true Checks (λ _, ret 0) w ended); [done..| |].
  - intros e w' Hw'. split; [by right|done].
  - intros b Hb. split; [by right|]. intros _. split; [done|]. simpl. rewrite ok_snoc. right.
    split; [done|]. by exists b.
Qed.

Lemma q_bind {A B} (m : act A) (k : A → act B) w (Q : exc + B → World → Prop) :
  match m w with
  | (inl e, w') => Q (inl e) w'
  | (inr x, w') => Q (k x w').1 (k x w').2
  end → Q (bind_ m k w).1 (bind_ m k w).2.
Proof. unfold bind_. by destruct (m w) as [[e|x] w']. Qed.

Lemma launch_stage w :
  held w → early (log w) → run_set w = true → process w = false →
  let '(r, w') := finally (launch_gated sys) (do sys CloseLog ;;& ret ()) w in kept true w'.
Proof.
  intros Hw He Hr Hp. assert (Hl := launch_spec true w Hw He Hr Hp). unfold finally.
  destruct (launch_gated sys w) as [r w1]. unfold bind_, do. fold (snoc w1 CloseLog (sys (log w1) CloseLog)).
  assert (Hk := λ x, kept_snoc true w1 CloseLog x Hl eq_refl I eq_refl).
  destruct (sys (log w1) CloseLog) as [e|b]; [apply (Hk (inl e))|apply (Hk (inr b))].
Qed.

(** A call before the launch. *)
Definition about_to_launch (w : World) : Prop :=
  held w ∧ early (log w) ∧ run_set w = true ∧ process w = false.

Lemma about_do {A} c (k : bool → act A) w (Q : exc + A → World → Prop) :
  about_to_launch w → plain c = true → permitted (log w) c → late c = false →
  (∀ e w', kept true w' → Q (inl e) w') →
  (∀ b, about_to_launch (snoc w c (inr b)) → Q (k b (snoc w c (inr b))).1 (k b (snoc w c (inr b))).2) →
  Q (bind_ (do sys c) k w).1 (bind_ (do sys c) k w).2.
Proof.
  intros (H1 & H2 & H3 & H4) Hc Hp Hl HE HQ. unfold bind_, do. fold (snoc w c (sys (log w) c)).
  assert (Hn : ∀ x, about_to_launch (snoc w c x)) by (intros x; split; [by apply held_plain|];
    split; [by apply early_snoc|done]).
  destruct (sys (log w) c) as [e|b]; [|apply HQ, Hn].
  destruct (Hn (inl e)) as (? & ? & ? & _). by apply HE, early_kept.
Qed.

Lemma smoke_spec found w : blank w → ended (run_smoke sys found w).1 (run_smoke sys found w).2.
Proof.
  intros Hw. unfold run_smoke. destruct found; simpl; [|split; [left; by apply blank_given_up|done]].
  apply (q_bind _ _ w ended). assert (Hm := make_spec w Hw).
  destruct (make_private_run sys w) as [[e|[]] w1]; [split; [by left|done]|].
  apply (q_bind _ _ w1 ended). unfold do at 1. fold (snoc w1 (Pause Unassigned) (sys (log w1) (Pause Unassigned))).
  assert (Hn := λ x, reserving_snoc 3 w1 (Pause Unassigned) x Hm I eq_refl ltac:(done)).
  destruct (sys (log w1) (Pause Unassigned)) as [e|b0]; [by split; [left; apply (interrupted 3 w1 e)|]|].
  clear Hm. assert (Hm := Hn (inr b0)). clear Hn. set (w2 := snoc w1 _ _) in *. clearbody w2. apply (q_bind _ _ w2 ended). simpl.
  assert (Hh := reserving_held _ _ Hm). destruct Hm as [_ _ _ _ He [_ Hp]].
  assert (HE : ∀ e w', kept true w' → ended (inl e) w') by (intros e w' ?; split; [by right|done]).
  apply (about_do Prepare _ _ ended); [by destruct Hh|done..|]. intros b H3.
  apply (about_do OpenLog _ _ ended); [done..|]. intros b' (L1 & L2 & L3 & L4).
  apply (q_bind _ _ _ ended). assert (Hl := launch_stage _ L1 L2 L3 L4).
  destruct (finally _ _ _) as [[e|[]] w4]; [by apply HE|by apply checks_spec].
Qed.

(** ** The clean-up *)

Definition stopped (w : World) : Prop := held w ∧ gate_settled (log w) ∧ process_settled (log w).

Lemma stopped_snoc w c x :
  stopped w → plain c = true → permitted (log w) c → c ≠ Pipe → stopped (snoc w c x).
Proof.
  intros (H1 & H2 & H3) Hc Hp Hn. split; [by apply held_plain|]. split; [by apply gate_settled_snoc|].
  apply process_settled_snoc; [by intros ->|done].
Qed.

(** While the process is being stopped: it is there and was not seen gone. *)
Definition stopping (w : World) : Prop :=
  held w ∧ gate_settled (log w) ∧ ok (log w) Spawn ∧ ¬ exited (log w).

Lemma stopping_raised w c e :
  stopping w → plain c = true → permitted (log w) c → c ≠ Pipe → stop_raised (log w ++ [(c, inl e)]) →
  stopped (snoc w c (inl e)).
Proof.
  intros (H1 & H2 & H3 & H4) Hc Hp Hn Hr. split; [by apply held_plain|]. split; [by apply gate_settled_snoc|].
  intros _. right. by left.
Qed.

Lemma stopping_gone w c b :
  stopping w → plain c = true → permitted (log w) c → c ≠ Pipe → exited (log w ++ [(c, inr b)]) →
  stopped (snoc w c (inr b)).
Proof.
  intros (H1 & H2 & H3 & H4) Hc Hp Hn Hr. split; [by apply held_plain|]. split; [by apply gate_settled_snoc|].
  intros _. by left.
Qed.

Lemma stopping_snoc w c x :
  stopping w → plain c = true → permitted (log w) c → c ≠ Pipe → ¬ exited (log w ++ [(c, x)]) →
  stopping (snoc w c x).
Proof.
  intros (H1 & H2 & H3 & H4) Hc Hp Hn Hr. split; [by apply held_plain|]. split; [by apply gate_settled_snoc|].
  split; [|done]. simpl. rewrite ok_snoc. by left.
Qed.

(** The forced end: whatever the signal does, the process is waited for. *)
Lemma kill_spec w :
  stopping w → stopped (finally (do sys Kill ;;& ret ()) (do sys (Wait false) ;;& ret ()) w).2.
Proof.
  intros Hw. assert (Hk : permitted (log w) Kill) by (destruct Hw as (_ & _ & ? & ?); done).
  unfold finally, bind_ at 1, do at 1. fold (snoc w Kill (sys (log w) Kill)).
  assert (Hs : ∀ x, stopping (snoc w Kill x)).
  { intros x. apply stopping_snoc; try done. rewrite exited_snoc. destruct Hw as (_ & _ & _ & Hx).
    intros [?|[[? _]|(t & b & ? & _)]]; done. }
  assert (Hend : ∀ w1, stopping w1 → stopped ((do sys (Wait false) ;;& ret ()) w1).2).
  { intros w1 H1. unfold bind_, do. fold (snoc w1 (Wait false) (sys (log w1) (Wait false))).
    destruct (sys (log w1) (Wait false)) as [e|b]; simpl.
    - apply stopping_raised; try done. unfold stop_raised. rewrite !raised_snoc. right. right. right. left. right.
      split; [done|]. by exists e.
    - apply stopping_gone; try done. rewrite exited_snoc. right. right. by exists false, b. }
  destruct (sys (log w) Kill) as [e|b]; simpl.
  - specialize (Hend _ (Hs (inl e))). by destruct ((do sys (Wait false) ;;& ret ()) _) as [[?|[]] w2].
  - specialize (Hend _ (Hs (inr b))). by destruct ((do sys (Wait false) ;;& ret ()) _) as [[?|[]] w2].
Qed.

(** The signal and the wait, with a deadline. *)
Lemma terminate_spec w :
  stopping w →
  match (do sys Terminate ;;& do sys (Wait true) ;;& ret ()) w with
  | (inr _, w') => stopped w'
  | (inl TimeoutExpired, w') => stopping w'
  | (inl _, w') => stopped w'
  end.
Proof.
  intros Hw. assert (Hk : permitted (log w) Terminate) by (destruct Hw as (_ & _ & ? & ?); done).
  unfold bind_ at 1, do at 1. fold (snoc w Terminate (sys (log w) Terminate)).
  assert (H0 : ∀ x, stopping (snoc w Terminate x)).
  { intros x. apply stopping_snoc; try done. rewrite exited_snoc. destruct Hw as (_ & _ & _ & Hx).
    intros [?|[[? _]|(t & b' & ? & _)]]; done. }
  destruct (sys (log w) Terminate) as [e|b].
  { assert (H : stopped (snoc w Terminate (inl e))).
    { apply stopping_raised; try done. unfold stop_raised. rewrite !raised_snoc. right. left. right.
      split; [done|]. by exists e. }
    destruct e; try exact H. apply H0. }
  assert (H1 := H0 (inr b)). clear H0.
  set (w1 := snoc w Terminate (inr b)) in *. clearbody w1. unfold bind_, do.
  fold (snoc w1 (Wait true) (sys (log w1) (Wait true))). destruct (sys (log w1) (Wait true)) as [e|b'].
  - destruct (decide (e = TimeoutExpired)) as [->|Hne].
    + apply stopping_snoc; try done. rewrite exited_snoc. destruct H1 as (_ & _ & _ & Hx).
      intros [?|[[? _]|(t & b' & _ & ?)]]; done.
    + assert (H : stopped (snoc w1 (Wait true) (inl e))).
      { apply stopping_raised; try done. unfold stop_raised. do 4 right. exists e. split; [done|].
        apply elem_of_app. right. left. }
      destruct e; try exact H. done.
  - apply stopping_gone; try done. rewrite exited_snoc. right. right. by exists true, b'.
Qed.

Lemma stop_spec w :
  held w → gate_settled (log w) → unwatched (log w) → stopped (stop_process sys w).2.
Proof.
  intros H1 H2 [H3 H4]. unfold stop_process, bind_ at 1, get at 1. destruct (process w) eqn:Ep; simpl.
  2:{ split; [done|]. split; [done|]. intros Ho%(h_process _ H1). congruence. }
  assert (Hx : ¬ exited (log w)).
  { intros [H|[t H]]; [apply H3; by eexists|by apply (H4 t), ok_called]. }
  assert (Hs : stopping w) by (split; [done|]; split; [done|]; split; [by apply (h_process _ H1)|done]).
  unfold bind_ at 1, do at 1. fold (snoc w Poll (sys (log w) Poll)). destruct (sys (log w) Poll) as [e|[|]]; simpl.
  - apply stopping_raised; try done. left. rewrite raised_snoc. right. split; [done|]. by exists e.
  - assert (H5 : stopping (snoc w Poll (inr true))).
    { apply stopping_snoc; try done. rewrite exited_snoc. intros [?|[[_ ?]|(t & b & ? & _)]]; done. }
    assert (Ht := terminate_spec _ H5). unfold catch. set (m := do sys Terminate ;;& do sys (Wait true) ;;& ret ()) in *.
    destruct (m (snoc w Poll (inr true))) as [[e|[]] w1]; [|done]. destruct e; try exact Ht. by apply kill_spec.
  - apply stopping_gone; try done. rewrite exited_snoc. right. by left.
Qed.

Definition settled (w : World) : Prop :=
  lawful (log w) ∧ gate_settled (log w) ∧ ports_settled (log w) ∧ process_settled (log w).

Lemma warn_snd m w : (warn m w).2 = (m w).2.
Proof. unfold warn, catch. destruct (m w) as [[e|[]] w']; [|done]. by destruct (is_oserror e). Qed.

Lemma remove_spec w : stopped w → ports_settled (log w) → settled (remove_private_run sys w).2.
Proof.
  intros Hw Hp. unfold remove_private_run, bind_ at 1, do at 1. fold (snoc w Resolve (sys (log w) Resolve)).
  assert (H1 := λ x, stopped_snoc w Resolve x Hw eq_refl I ltac:(done)).
  assert (H2 := λ x, ports_settled_snoc (log w) Resolve x ltac:(done) Hp).
  assert (Hend : ∀ w', stopped w' → ports_settled (log w') → settled w').
  { intros w' (Hh & Hg & Hq) Hp'. split; [apply Hh|done]. }
  destruct (sys (log w) Resolve) as [e|[|]]; [by apply Hend; [apply H1|apply H2]| |by apply Hend; [apply H1|apply H2]].
  set (w1 := snoc w Resolve (inr true)). unfold bind_ at 1, check, ret at 1, bind_ at 1, do at 1.
  fold (snoc w1 RemoveTree (sys (log w1) RemoveTree)).
  assert (Hm : permitted (log w1) RemoveTree).
  { split; [apply (H1 (inr true))|]. right. by exists (log w). }
  assert (H3 := λ x, stopped_snoc w1 RemoveTree x (H1 _) eq_refl Hm ltac:(done)).
  assert (H4 := λ x, ports_settled_snoc (log w1) RemoveTree x ltac:(done) (H2 _)).
  destruct (sys (log w1) RemoveTree); (apply Hend; [apply H3|apply H4]).
Qed.

(** An interrupt before the [try] of [cleanup] leaves everything but the gate. *)
Lemma cleanup_enter run (k : bool → act unit) w :
  kept run w → (∀ w', kept run w' → ∀ b, settled (k b w').2) → settled (bind_ (do sys (Pause Entering)) k w).2.
Proof.
  intros Hk Hn. unfold bind_, do. fold (snoc w (Pause Entering) (sys (log w) (Pause Entering))).
  assert (Hs := λ x, kept_snoc run w (Pause Entering) x Hk eq_refl I eq_refl).
  destruct (sys (log w) (Pause Entering)) as [e|b]; [|by apply Hn].
  destruct (Hs (inl e)) as (H1 & H2 & _). split; [apply H1|]. split; [done|].
  assert (Hu : unentered (log (snoc w (Pause Entering) (inl e)))).
  { exists e. simpl. apply elem_of_app. right. left. }
  split; [intros i _; by right; right; right|intros _; by right; right].
Qed.

Lemma cleanup_kept w : kept true w → settled (cleanup sys w).2.
Proof.
  intros Hk. unfold cleanup. apply (cleanup_enter true); [done|]. clear w Hk. intros w Hk _.
  destruct (Hk) as (_ & _ & _ & H4). unfold bind_ at 1, get at 1. rewrite H4.
  unfold bind_ at 1, set_run at 1. simpl. apply (cleanup_enter false); [by destruct Hk as ([] & ? & ? & ?)|].
  clear w Hk H4. intros w1 (Hh & H2 & H3 & _) _. unfold finally.
  assert (Hs := stop_spec w1 Hh H2 H3). rewrite <-warn_snd in Hs.
  destruct (warn (stop_process sys) w1) as [r w2]. simpl in Hs. destruct Hs as (L1 & L2 & L3).
  unfold bind_ at 1. destruct (release_ports_spec w2 L1) as (t & r' & res & E & Hh' & Ht & Hp & _). rewrite E.
  set (w3 := mkWorld (run_set w2) res (process w2) (gate_read w2) (log w2 ++ t)) in *.
  assert (Hst : stopped w3).
  { split; [done|]. change (log w3) with (log w2 ++ t). split.
    - intros Ho. rewrite closing_ok in Ho by done. destruct (L2 Ho) as [A1 [A2|[e A2]]]; (split; [by apply called_app_l|]).
      + left. by apply called_app_l.
      + right. exists e. apply elem_of_app. by left.
    - intros Ho. rewrite closing_ok in Ho by done. destruct (L3 Ho) as [[A|[x A]]|[A|[e A]]].
      + left. left. apply elem_of_app. by left.
      + left. right. exists x. by apply ok_app_l.
      + right. left. by apply stop_raised_mono.
      + right. right. exists e. apply elem_of_app. by left. }
  destruct r' as [e|[]]; [split; [apply Hh'|by destruct Hst as (_ & ? & ?)]|].
  assert (Hr := remove_spec w3 Hst Hp). rewrite <-warn_snd in Hr.
  by destruct (warn (remove_private_run sys) w3) as [[?|[]] w4].
Qed.

Lemma given_up_pause w s x : given_up w → given_up (snoc w (Pause s) x).
Proof.
  intros (H1 & H2 & H3 & H4 & H5). split; [by apply lawful_snoc|]. split; [by apply ports_settled_snoc|].
  simpl. rewrite !called_snoc. split; [by intros [?|?]|]. by split; [intros [?|?]|].
Qed.

Lemma given_up_settled w : given_up w → settled w.
Proof.
  intros (H1 & H2 & H3 & H4 & _). split; [done|]. split; [intros Ho; by apply ok_called in Ho|].
  split; [done|]. intros Ho. by apply ok_called in Ho.
Qed.

(** The clean-up of whatever the run left. *)
Lemma cleanup_ends w : given_up w ∨ kept true w → settled (cleanup sys w).2.
Proof.
  intros [Hw|Hw]; [|by apply cleanup_kept]. unfold cleanup, bind_ at 1, do at 1.
  fold (snoc w (Pause Entering) (sys (log w) (Pause Entering))).
  assert (Hn := λ x, given_up_pause w Entering x Hw).
  destruct (sys (log w) (Pause Entering)) as [e|b]; [apply given_up_settled, Hn|].
  specialize (Hn (inr b)). unfold bind_ at 1, get at 1. destruct (Hn) as (_ & _ & _ & _ & ->). simpl.
  by apply given_up_settled in Hn.
Qed.

End Spec.

Lemma start_blank : blank start.
Proof.
  split; [intros a c x b E; by destruct a|]. split; [by intros c _ [a ?%elem_of_nil]|].
  split; [by intros j [a ?%elem_of_nil]|done].
Qed.

(** What the handlers of [main] leave for the clean-up. *)
Lemma main_before sys found w :
  blank w →
  ∃ r w', (r, w') = catch (run_smoke sys found)
      (λ e, do sys (Pause Handling) ;;&
            match e with
            | SmokeFailure =>
              active <-& get run_set ;; (if active : bool then warn (do sys ReadLog ;;& ret ()) else ret ()) ;;& ret 1
            | KeyboardInterrupt => ret 130
            | _ => ret 1
            end) w ∧ ended r w'.
Proof.
  intros Hw. assert (Hs := smoke_spec sys found w Hw). unfold catch.
  destruct (run_smoke sys found w) as [[e|z] w1]; simpl in Hs; [|by eexists _, _].
  destruct Hs as [Hs _]. unfold bind_ at 1, do at 1.
  fold (snoc w1 (Pause Handling) (sys (log w1) (Pause Handling))).
  assert (Hn : ∀ x, given_up (snoc w1 (Pause Handling) x) ∨ kept true (snoc w1 (Pause Handling) x)).
  { intros x. destruct Hs as [Hs|Hs]; [left; by apply given_up_pause|right; by apply kept_snoc]. }
  destruct (sys (log w1) (Pause Handling)) as [e'|b0]; [by eexists _, _; split; [done|]; split; [apply Hn|]|].
  specialize (Hn (inr b0)). clear Hs. rename Hn into Hs. set (w2 := snoc w1 _ _) in *. clearbody w2. clear w1. rename w2 into w1.
  assert (Hret : ∀ z, z ≠ 0 → ∃ r w', (r, w') = ret z w1 ∧ ended r w').
  { intros z Hz. eexists _, _. split; [done|]. split; [done|]. by intros [= ->]. }
  destruct e; try (by apply Hret). clear Hret. unfold bind_ at 1, get at 1. destruct (run_set w1) eqn:Er.
  - assert (Hk : kept true w1) by (destruct Hs as [(_ & _ & _ & _ & ?)|?]; [congruence|done]).
    unfold bind_ at 1. unfold warn, catch, bind_, do. fold (snoc w1 ReadLog (sys (log w1) ReadLog)).
    assert (Hn := λ x, kept_snoc true w1 ReadLog x Hk eq_refl I eq_refl).
    destruct (sys (log w1) ReadLog) as [e|b]; [destruct (is_oserror e)|];
      (eexists _, _; split; [done|]; split; [right; apply Hn|done]).
  - eexists _, _. split; [done|]. by split.
Qed.

(** An action only adds to the history. *)
Definition extends {A} (m : act A) : Prop := ∀ w, ∃ t, log (m w).2 = log w ++ t.

Lemma extends_still {A} (m : act A) : (∀ w, log (m w).2 = log w) → extends m.
Proof. intros H w. exists []. by rewrite app_nil_r. Qed.
Lemma extends_do sys c : extends (do sys c).
Proof. intros w. by eexists. Qed.
Lemma extends_bind {A B} (m : act A) (k : A → act B) : extends m → (∀ x, extends (k x)) → extends (bind_ m k).
Proof.
  intros Hm Hk w. destruct (Hm w) as [t Ht]. unfold bind_. destruct (m w) as [[e|x] w1]; simpl in *; [by exists t|].
  destruct (Hk x w1) as [t' Ht']. exists (t ++ t'). by rewrite Ht', Ht, app_assoc.
Qed.
Lemma extends_catch {A} (m : act A) h : extends m → (∀ e, extends (h e)) → extends (catch m h).
Proof.
  intros Hm Hk w. destruct (Hm w) as [t Ht]. unfold catch. destruct (m w) as [[e|x] w1]; simpl in *; [|by exists t].
  destruct (Hk e w1) as [t' Ht']. exists (t ++ t'). by rewrite Ht', Ht, app_assoc.
Qed.
Lemma extends_finally {A} (m : act A) f : extends m → extends f → extends (finally m f).
Proof.
  intros Hm Hf w. destruct (Hm w) as [t Ht]. unfold finally. destruct (m w) as [r w1]; simpl in *.
  destruct (Hf w1) as [t' Ht']. exists (t ++ t'). rewrite app_assoc, <-Ht.
  by destruct (f w1) as [[e|[]] w2].
Qed.

Create HintDb extends.
#[export] Hint Resolve extends_do extends_bind extends_catch extends_finally : extends.
#[export] Hint Extern 1 (extends (get _)) => by apply extends_still : extends.
#[export] Hint Extern 1 (extends (ret _)) => by apply extends_still : extends.
#[export] Hint Extern 1 (extends (raise _)) => by apply extends_still : extends.
#[export] Hint Extern 1 (extends (set_run _)) => by apply extends_still : extends.
#[export] Hint Extern 1 (extends (set_reservations _)) => by apply extends_still : extends.
#[export] Hint Extern 1 (extends (check ?b _)) => by apply extends_still; destruct b : extends.
#[export] Hint Extern 2 (extends (if ?b then _ else _)) => destruct b : extends.
#[export] Hint Extern 2 (extends (match ?e with _ => _ end)) => destruct e : extends.

Lemma extends_cleanup sys : extends (cleanup sys).
Proof.
  assert (Hr : extends (release_ports sys)).
  { apply extends_bind; [auto with extends|]. intros l. induction (rev l) as [|i m IH]; simpl; auto 6 with extends. }
  assert (Hs : extends (stop_process sys)) by (unfold stop_process; auto 20 with extends).
  assert (Hm : extends (remove_private_run sys)) by (unfold remove_private_run; auto 20 with extends).
  unfold cleanup, warn. auto 20 with extends.
Qed.

Lemma main_settled sys found :
  settled (main sys found start).2
  ∧ ((main sys found start).1 = inr 0 → ok (log (main sys found start).2) Checks).
Proof.
  unfold main, finally. destruct (main_before sys found start start_blank) as (r & w & <- & He & H0).
  assert (Hc := cleanup_ends sys w He). destruct (extends_cleanup sys w) as [t Ht].
  destruct (cleanup sys w) as [[e|[]] w']; simpl in *; (split; [done|]); [done|].
  intros ->. rewrite Ht. apply ok_app_l. by apply H0.
Qed.

(** C17: whatever the system answers, and wherever an exception or an interrupt
    strikes, the run closes a reserved port only if it was bound, and once;
    closes an end of the gate only if [os.pipe] returned, the write end at most
    once and the read end never after a close of it returned (it is closed again
    when the first statement that closes it raised or was interrupted before
    [gate_read] was reset, although that close may have taken effect); opens the
    gate to the daemon only when the close of every port it had bound returned;
    signals the process only while it was not seen to be gone; and removes a
    directory only if it created it and either launched nothing or has just
    checked that it is the run's own. *)
Theorem upgrade_custody sys found : lawful (log (main sys found start).2).
Proof. apply main_settled. Qed.

(** C6: whatever the system answers, and wherever an exception or an interrupt
    strikes, when the program ends: of a gate that [os.pipe] returned, a close of
    the read end was tried, and one of the write end too unless closing the read
    end raised; a close of every port whose bind returned was tried, unless
    closing one of the ports raised or an interrupt struck between the making of
    the run and its assignment to [RUN] or before the [try] of [cleanup]; and a
    process that [Popen] returned was seen to be gone, unless polling it, a
    signal or a wait (other than a deadline) raised or an interrupt struck before
    that [try].  Exit status 0 means that the checks passed. *)
Theorem upgrade_cleanup sys found :
  gate_settled (log (main sys found start).2) ∧ ports_settled (log (main sys found start).2)
  ∧ process_settled (log (main sys found start).2)
  ∧ ((main sys found start).1 = inr 0 → ok (log (main sys found start).2) Checks).
Proof. destruct (main_settled sys found) as [(_ & ? & ? & ?) ?]. done. Qed.

(** The read end is closed twice when an interrupt strikes between its close and
    the reset of [gate_read]; the second close fails and the write end stays
    open. *)
Definition unlucky_system (h : history) (c : call) : answer :=
  match c with
  | CloseFd Read =>
    if existsb (λ e : call * answer, match e.1 with CloseFd Read => true | _ => false end) h then inl OSErr
    else inl KeyboardInterrupt
  | _ => inr true
  end.

Example gate_closed_twice :
  length (List.filter (λ e : call * answer, match e.1 with CloseFd Read => true | _ => false end)
            (log (main unlucky_system true start).2)) = 2%nat
  ∧ existsb (λ e : call * answer, match e.1 with CloseFd Write => true | _ => false end)
      (log (main unlucky_system true start).2) = false.
Proof. vm_compute. done. Qed.

(** A system where all goes well, and one interrupted while the ports are being
    released, whose process ignores the signal. *)
Definition good_system (h : history) (c : call) : answer := inr true.
Definition bad_system (h : history) (c : call) : answer :=
  match c with
  | CloseSocket 1 => inl KeyboardInterrupt
  | Wait true => inl TimeoutExpired
  | _ => inr true
  end.

Example upgrade_runs :
  (main good_system true start).1 = inr 0 ∧ (main bad_system true start).1 = inr 130
  ∧ length (log (main good_system true start).2) = 31%nat ∧ length (log (main bad_system true start).2) = 32%nat.
Proof. vm_compute. done. Qed.

Lemma upgrade_cleanup_witness :
  (main good_system true start).1 = inr 0 ∧ ok (log (main good_system true start).2) Checks.
Proof.
  assert (E : (main good_system true start).1 = inr 0) by (vm_compute; reflexivity).
  split; [exact E|]. apply (proj2 (proj2 (proj2 (upgrade_cleanup good_system true))) E).
Defined.
